(* ===== verification/_CoqProject ===== *)
-Q . S2P
Prelude.v
BTree.v
Float.v
Model.v
Alert.v
Collector.v
Storage.v
Wire.v
Framing.v
Messages.v
Transport.v
Net.v
Text.v
Persist.v
Codecs.v
Pairing.v
Mdns.v
Identity.v
Server.v
Sampling.v
Remote.v
Fleet.v
Viewer.v
Link.v
Concurrent.v
Config.v
Json.v
LocalIpc.v
Fuzz.v
EndToEnd.v
WindowsIpc.v
Daemon.v
System.v
Cli.v
Commands.v
Preferences.v
Badges.v
Presentation.v
Shell.v
Tray.v
Ssh.v
Desktop.v
