(* ===== verification/Prelude.v ===== *)
(** * Rackio: a verification library

    Rackio is a peer-to-peer system monitor. Every machine runs a daemon that samples its own
    metrics, keeps a bounded history of them, evaluates health thresholds and serves all of
    this over QUIC to viewers that were paired with it. A viewer is the same daemon: it keeps
    the machines it was paired with, monitors each of them and shows their state, through a
    local socket, to a command line and to a desktop application with a menu-bar item per
    machine.

    This library translates that program into executable definitions, one operation of the
    source per definition, and proves the properties that make its components correct. It
    follows the Rust sources under [crates/], [apps/agent/] and [apps/desktop/src-tauri/]; names
    are those of the Rust code where two components do not share one.

    ** The parts and how they interact

    - [SystemCollector] (collector.rs) reads the host and makes a [MetricSample] (model.rs).
    - The sampling loop (runtime/sampling.rs) takes a sample every two seconds, gives it to the
      alert evaluator (alert.rs), publishes health, latest sample and trend, stores a batch
      every fifth sample and prunes the store every 300th.
    - The metric store (storage.rs) keeps raw samples and per-minute aggregates in SQLite.
    - The server (rackio-iroh/server.rs) answers requests of authorized peers from the store
      and the published values; an unknown peer becomes authorized only by a pairing request
      with the one-time secret (pairing.rs), which also ends the LAN advertisement (mdns.rs).
      The peers are in a registry that is a map in memory and a JSON file.
    - Requests and answers are protobuf messages (rackio-iroh/protocol.rs, remote/client.rs)
      in length-prefixed frames (rackio-protocol/framing.rs), over an endpoint bound with the
      machine's identity (identity.rs, transport.rs).
    - A viewer imports a pairing bundle, keeps a record of the machine (remote/registry.rs) and
      runs a monitor per machine (remote/monitor.rs) that pins the machine's identity on every
      connection (remote/client.rs) and maintains its snapshot (remote/snapshot.rs). The fleet
      (remote.rs) starts and stops monitors and answers history queries.
    - The daemon (runtime.rs) starts from a configuration file (runtime/config.rs), puts these
      parts together and serves one JSON command per connection of a local socket
      (runtime/local_ipc.rs), which also changes the configuration.
    - The command line (main.rs) and the desktop are clients of that socket. The desktop
      (lib.rs, daemon.rs) turns a fleet answer into the objects its window draws
      (presentation.rs), adds a badge per machine (tray_badges.rs), and polls the daemon every
      two seconds for its status items (tray.rs). Its settings window sends threshold edits
      (settings.rs), keeps preferences of its own (preferences.rs), shares and exports pairing
      bundles (pairing.rs), verifies updates (updater.rs) and installs agents over SSH
      (ssh_bootstrap.rs).

    ** The files

    - [Prelude]: results and the [?] operator, machine integers at their width (saturating,
      clamped and checked operations on [Z]), text ([trim], prefixes), generic list lemmas,
      the hint databases.
    - [BTree]: ordered maps, as the list of their entries in key order, because iteration
      order is observable; [bt_sorted] is the invariant and [bt_ext] makes it canonical.
    - [Float]: f32 and f64 as SpecFloat values: conversions, comparisons, [total_cmp],
      decimal text.
    - [Model]: crates/rackio-core/src/model.rs and clock.rs.
    - [Alert]: alert.rs. State [AlertEvaluator], operations [resolve_alert_rules], [evaluate].
    - [Collector]: collector.rs. State [SystemCollector]; the host is the argument [Host].
    - [Storage]: storage.rs. State [MetricStore]; statements run in the monad [M], in which any
      statement can fail and a failed transaction is rolled back; [Schema] is the migration.
    - [Wire]: rackio-iroh/src/protocol.rs ([ToWire]) and remote/client.rs ([FromWire]).
    - [Framing]: framing.rs over readers and writers that fail or end anywhere; [Messages] is a
      concrete encoding of the protobuf messages, for the witnesses.
    - [Transport]: transport.rs: what binding an endpoint asks for, trust anchors, the
      classification of paths and addresses.
    - [Net]: the text of IP and socket addresses, as the standard library prints and parses it.
      [Text]: lemmas on trimming and prefixes.
    - [Persist]: the map-and-file pattern of the registries, with file operations that fail
      anywhere and a rename that is atomic; [Codecs] makes the stored types countable, which
      gives concrete codecs for the JSON interface.
    - [Pairing]: pairing.rs: bundles, window, lockout, peer registry.
    - [Mdns]: mdns.rs. [Identity]: identity.rs.
    - [Server]: server.rs, in the monad [H] over the runtime and the responses sent so far.
      [Concurrent] is the same server as its tasks: accept loops, streams and revocations take
      steps in any order ([step]), one critical section or one response at a time.
    - [Link]: the client half of transport.rs against the server over byte channels: [exchange]
      is a request and its answer, frame by frame; a request whose sender gave up reaches the
      server as far as it was written and still arrived.
    - [Sampling]: runtime/sampling.rs: [tick], [run_ticks], [flush_pending].
    - [Remote]: remote/snapshot.rs, remote/registry.rs and the requests of remote/client.rs.
    - [Fleet]: remote/monitor.rs and remote.rs, each operation as one computation. [Viewer] has the
      same monitors, pairings and removals as tasks on the shared registry, snapshots and table of
      handles, which take steps in any order ([step]).
    - [Config]: runtime/config.rs: paths, the configuration, its validation and file, the node id.
    - [Json]: serde_json's [Value] and the class [Serialize] of the types the daemon sends.
    - [LocalIpc]: runtime/local_ipc.rs. State [LocalContext]; [handle_local] is the whole
      command handler, [serve_local_stream_prefixed] a connection: bytes that arrive at instants,
      read under a deadline, and an answer its caller takes, breaks off or does not read;
      [accept_loop] is the listener, which hands its connections to tasks.
      [Commands] is the JSON form of the commands. [WindowsIpc]: the named pipe of
      crates/rackio-windows-ipc and the listener and client over it.
    - [Fuzz]: the target of fuzz/fuzz_targets/pairing_bundle.rs; that of metric_frame.rs is
      [Framing.read_all].
    - [EndToEnd]: two machines, from the command on one to the result on the other.
    - [Daemon]: runtime.rs: [start_daemon], [supervise]. [System]: the daemon running, its
      sampler, local commands, server tasks and viewer tasks on the state they share
      ([daemon_step]). A local command that changes something is a task whose steps are the read
      of the file, its replacement and the publication of the rules ([begin_local], [local_step]).
      [Cli]: the requests main.rs builds.
    - [Preferences], [Badges]: preferences.rs and tray_badges.rs, each a state with its file.
    - [Presentation]: presentation.rs, daemon.rs and the commands of lib.rs that show the fleet
      and its history.
    - [Shell]: settings.rs, pairing.rs, updater.rs and the pairing share of lib.rs.
    - [Tray]: tray.rs. State [App], the status items with their menu objects, shared by handle
      with the registry; the calls of the platform that fail, also those whose failure the source
      ignores, are the argument [TrayOps].
    - [Ssh]: ssh_bootstrap.rs, in the monad [B] over the processes started so far.
    - [Desktop]: the desktop process of lib.rs, updater.rs and the event loop of tray.rs. State
      [Desktop] or, between two processes, [Disk]; [invoke] is every command of the window, [step]
      every event.

    ** What is outside and how it appears

    Code of other crates is a parameter of the definitions that use it, or a class that states
    what its documentation promises, with a concrete instance in the same file: the JSON text
    of a value ([SampleCodec], [JsonCodec]; only for values JSON can carry, since serde writes
    a non-finite float as null), base64 ([Base64]), the text of an endpoint id
    ([EndpointText]), protobuf encoding ([Message]), grapheme clusters ([Graphemes]), the text
    of an error ([Display]). SQLite, the file system, the network, started processes and the
    status items of the platform enter as functions that say which statement, file operation,
    write or call fails; the clock, random bytes, page counts and what a peer, a server or a
    program answers are arguments. Concurrency enters where the source has it: other tasks may
    change the store between history pages ([others] in [Server]), the server's tasks and the
    daemon's interleave ([step] in [Concurrent], [daemon_step] in [System]), and so do the viewer's
    ([step] in [Viewer]) and the desktop's polls, commands and drawings ([step] in [Desktop]); another process may create
    the key file ([rival] in [Identity]), a removal may interleave with a pairing
    ([interleavings] in [Fleet]), a migration with a change of the preferences, two commands
    that change the configuration with each other.

    ** What the theorems show

    - The daemon as a whole: in every run, data reaches only peers its operator let in, one per
      pairing window; configuration, registry, fleet, health and bounds stay sound; the rules
      evaluated are those of a value the file held, and those of the file itself as long as no
      two commands change it at once ([System]).
    - Two machines: pairing works from the command to the monitored machine; a history query
      returns exactly what the other machine logged ([EndToEnd]); whatever is lost of a stream,
      a client reads a first part of the server's answer and nothing else ([Link]).
    - The server's tasks: once a revocation has returned the peer is written no more data, also
      by streams that are still running; data follows a permission that held; serving a request
      as one computation, as [Server] does, is one of the interleavings ([Concurrent]).
    - Storage: a batch insert refines an append-only log with one sample per millisecond and
      minute rows that aggregate exactly that log; pages are exact; minute means are exact;
      pruning and the size cap terminate and take only the oldest rows; any earlier schema is
      migrated, also after an interrupted attempt.
    - Alerts: a rule is active exactly after the configured run of matching samples; signals
      are exactly the transitions; resolved rules can fire and have unique ids.
    - Pairing: a window accepts one request, which its history of requests determines; among 64
      peers nobody has a sixth guess; bystanders cannot close it;
      registries show only what is on disk; re-pairing never widens permissions.
    - Server: data goes only to peers with the permission; only the holder of the secret
      becomes authorized, as itself; a revoked peer is cut off and a departed one forgotten;
      history answers terminate and are complete.
    - Sampling: published health always follows from the flags and alerts; queues are bounded;
      when a shutdown has flushed, every sample was stored (and perhaps pruned since), waits
      because the flush failed, or was in a batch whose loss was published.
    - Wire and framing: round trips, bounds, safe decoding of unknown values.
    - Viewer: sessions are pinned; importing pairs exactly the machine of the bundle, which
      accepted its secret, and touches no other; no peer
      can corrupt the registry or make the viewer write faster than every ten seconds; history
      queries are bounded; removals forget a machine. Whatever the tasks of the viewer do, a
      machine is at the stage its own pairings and removals brought it to, if they do not overlap:
      with exactly one monitor, which a removal finds, or with nothing left; the operations of
      [Fleet] are interleavings of the tasks ([Viewer]).
    - Configuration and daemon: validation accepts exactly the usable configurations, which
      bind; a daemon starts only on one and then evaluates the rules of its file; addresses and
      ports survive their text.
    - Local socket: a connection gets one answer, for at most 64 KiB read in at most five
      seconds; the commands
      refine an abstract edit of the configuration, keep file and running rules in step, and
      keep the file when they refuse; a created bundle opens a window that accepts it; a
      listener that fails for 30 seconds is reported and a glitch is not. The named pipe serves
      exactly the callers whose own token is a member, as the socket would.
    - Clients: the command a client sends is the command the daemon runs; a settings edit
      carries the user's change and nothing else; the window and the tray show exactly what the
      daemon holds; the card, its chart and the tray agree with the daemon on fill ratios.
    - Tray: an item is never orphaned and never shares a menu; a poll shows exactly the fleet
      and keeps menus that are open; an answering daemon is always drawn.
    - Desktop: over every sequence of events, preferences and badges are those a restart loads, a
      damaged file opts nobody in, every title and badge is one glyph wide, and updates need the
      embedded key; an icon the operator chose reaches the menu bar with the next poll; an
      exported secret is private.
    - SSH: a server is touched only after its own scanned keys were confirmed, with commands no
      answer of the server can extend; known_hosts trusts only the scanned host, and a changed
      key is refused under the same spelling of its name.

    Each property is followed, where it has hypotheses, by a witness that applies it to a
    concrete state. These lemmas record behaviour that differs from the intent of the source:
    [Server.history_repeats_last_millisecond], [Fleet.removal_race_leaves_ghost],
    [Viewer.removal_takes_new_pairing], [Viewer.stopped_monitor_leaves_ghost],
    [Fleet.full_retention_is_refused], [Config.cut_node_id_is_refused],
    [LocalIpc.refused_rule_is_stored], [LocalIpc.short_line_reported_as_too_long],
    [LocalIpc.interleaved_updates_lose_one], [System.racing_commands_leave_other_rules],
    [LocalIpc.unread_answer_parks_the_task], [LocalIpc.crowded_bundle_drops_advertised],
    [Preferences.racing_migration_undoes_change], [Presentation.equally_full_disks_differ],
    [Presentation.desktop_and_cli_sockets_differ], [Tray.outage_replaces_menus],
    [Tray.huge_device_reads_low], [Tray.byte_label_truncates], [Tray.uptime_label_has_seconds],
    [WindowsIpc.pipe_listener_ends_on_first_failure], [WindowsIpc.client_connects_within_a_second],
    [Desktop.closed_dashboard_stays_closed] and [Ssh.respelled_host_evades_changed_key_check].

    ** Fuel

    Loops that are not structural take fuel and return [None] when it runs out; that this
    never happens is part of the theorems. [Storage.reclaim_loop] has a round per stored row
    and one more, since every round but the last deletes a row. [Server.history_fuel] is the
    number of milliseconds in the range and two more, since the cursor advances by at least
    one per page. [Fleet.history_loop_fuel] is the row limit and two more. [trim] strips at
    most one character per byte. [Framing.read_all] has a round per byte and one more, since a
    frame takes at least four. [WindowsIpc.connect_from] has the twenty attempts of the source.
    [LocalIpc.valid_utf8], [WindowsIpc.Wide.chars_of] and [Ssh.split_white] take at least one
    byte per step and have one step per byte; [Tray.byte_units] has four, one per unit above
    the byte. The loops that the process runs for ever ([run_tray_monitor], [accept_loop],
    [monitor_machine], [run_ticks]) are functions of the finite list of events they have seen.

    ** Not modelled

    Logging; directory modes of the identity file; the QUIC endpoint itself, which is a pair of
    byte channels per stream that deliver in order or end; waiting for a signal. The Win32 calls
    of the named pipe are arguments; that their buffers are freed is not represented. In
    [LocalIpc] a command is handled in no time: only reading the request is timed. A flush that
    the shutdown gives up on after its deadline is not a step of [Sampling]. In [Desktop] a command is one step, a snapshot reads all badges
    at once, and the file a bundle is exported to is none of the application's own; the GUI toolkit,
    the QR encoder and the updater plugin are arguments, and what the toolkit does when the last
    window is closed is left open. The user interface is TypeScript. Tests only call what is
    modelled. Argument parsing is clap's: [Cli] starts from
    the parsed command. *)

From Stdlib Require Export ZArith Lia Sorted.
From Stdlib Require Import Ascii.
From stdpp Require Export base list strings numbers tactics option.

Declare Scope rackio_scope.
Delimit Scope rackio_scope with rackio.
Open Scope rackio_scope.

(** ** Results: Rust's [Result<T, E>] and the [?] operator *)

Inductive result (A E : Type) : Type :=
  | Ok (a : A)
  | Err (e : E).
Arguments Ok {A E} a.
Arguments Err {A E} e.

Definition result_bind {A B E} (r : result A E) (k : A -> result B E) : result B E :=
  match r with Ok a => k a | Err e => Err e end.

Definition map_err {A E F} (f : E -> F) (r : result A E) : result A F :=
  match r with Ok a => Ok a | Err e => Err (f e) end.

Definition ok_or {A E} (o : option A) (e : E) : result A E :=
  match o with Some a => Ok a | None => Err e end.

Definition is_ok {A E} (r : result A E) : bool :=
  match r with Ok _ => true | Err _ => false end.

Definition result_ok {A E} (r : result A E) : option A :=
  match r with Ok a => Some a | Err _ => None end.

Notation "'let?' x := r 'in' k" := (result_bind r (fun x => k))
  (at level 10, x pattern, r at level 100, k at level 200) : rackio_scope.

(** [iter.map(f).collect::<Result<Vec<_>, _>>()]: stops at the first error. *)
Fixpoint collect_results {A B E} (f : A -> result B E) (l : list A) : result (list B) E :=
  match l with
  | [] => Ok []
  | x :: xs => let? y := f x in let? ys := collect_results f xs in Ok (y :: ys)
  end.

(** ** Machine integers: values in [Z], each operation with its width *)

Section Widths.
Local Open Scope Z_scope.

Definition u8_max : Z := 2 ^ 8 - 1.
Definition u16_max : Z := 2 ^ 16 - 1.
Definition u32_max : Z := 2 ^ 32 - 1.
Definition u64_max : Z := 2 ^ 64 - 1.
Definition u128_max : Z := 2 ^ 128 - 1.
Definition i64_min : Z := - 2 ^ 63.
Definition i64_max : Z := 2 ^ 63 - 1.

Definition in_u (m z : Z) : Prop := 0 <= z <= m.
Definition in_i64 (z : Z) : Prop := i64_min <= z <= i64_max.

(** Saturating unsigned arithmetic at maximum [m]. *)
Definition sat_add (m a b : Z) : Z := Z.min (a + b) m.
Definition sat_mul (m a b : Z) : Z := Z.min (a * b) m.
Definition sat_sub (a b : Z) : Z := Z.max (a - b) 0.

(** Saturating signed 64-bit arithmetic. *)
Definition i64_clamp (z : Z) : Z := Z.max i64_min (Z.min z i64_max).
(** Two's complement: what a release build keeps of an i64 result. *)
Definition i64_wrap (z : Z) : Z := (z + 2 ^ 63) mod 2 ^ 64 - 2 ^ 63.
Definition i64_sat_add (a b : Z) : Z := i64_clamp (a + b).
Definition i64_sat_sub (a b : Z) : Z := i64_clamp (a - b).

(** [uN::try_from(z)] and [i64::try_from(z)]. *)
Definition try_from_u (m z : Z) : option Z :=
  if (0 <=? z) && (z <=? m) then Some z else None.
Definition try_from_i64 (z : Z) : option Z :=
  if (i64_min <=? z) && (z <=? i64_max) then Some z else None.

(** [checked_div] on unsigned operands. *)
Definition checked_div (a b : Z) : option Z :=
  if b =? 0 then None else Some (a / b).

End Widths.

(** Unfold the width constants so that [lia] sees numerals. *)
Ltac width_lia :=
  unfold in_u, in_i64, sat_add, sat_mul, sat_sub, i64_sat_add, i64_sat_sub, i64_clamp in *;
  unfold u8_max, u16_max, u32_max, u64_max, u128_max, i64_min, i64_max in *;
  change (2 ^ 8)%Z with 256%Z in *; change (2 ^ 16)%Z with 65536%Z in *;
  change (2 ^ 32)%Z with 4294967296%Z in *;
  change (2 ^ 63)%Z with 9223372036854775808%Z in *;
  change (2 ^ 64)%Z with 18446744073709551616%Z in *;
  change (2 ^ 128)%Z with 340282366920938463463374607431768211456%Z in *;
  lia.

(** Split every [if]/[match] of the goal on its scrutinee. *)
Ltac split_matches :=
  repeat match goal with
  | |- context [match ?x with _ => _ end] => let E := fresh "E" in destruct x eqn:E
  end.

(** Bring boolean comparisons of the context to propositions. *)
Ltac bool_to_prop :=
  repeat match goal with
  | H : (_ && _)%bool = true |- _ => apply andb_true_iff in H; destruct H
  | H : (_ || _)%bool = false |- _ => apply orb_false_iff in H; destruct H
  | H : (_ =? _)%Z = true |- _ => apply Z.eqb_eq in H
  | H : (_ =? _)%Z = false |- _ => apply Z.eqb_neq in H
  | H : (_ <=? _)%Z = true |- _ => apply Z.leb_le in H
  | H : (_ <=? _)%Z = false |- _ => apply Z.leb_gt in H
  | H : (_ <? _)%Z = true |- _ => apply Z.ltb_lt in H
  | H : (_ <? _)%Z = false |- _ => apply Z.ltb_ge in H
  end.

Create HintDb rackio.

Lemma sat_add_bounds (m a b : Z) :
  in_u m a -> in_u m b -> in_u m (sat_add m a b).
Proof. unfold in_u, sat_add. lia. Qed.

Lemma i64_clamp_bounds (z : Z) : in_i64 (i64_clamp z).
Proof. width_lia. Qed.

Lemma i64_wrap_id (z : Z) : in_i64 z -> i64_wrap z = z.
Proof.
  unfold in_i64, i64_wrap, i64_min, i64_max. intros H. rewrite Z.mod_small; lia.
Qed.

Lemma i64_clamp_id (z : Z) : in_i64 z -> i64_clamp z = z.
Proof. width_lia. Qed.

Lemma try_from_u_Some (m z r : Z) : try_from_u m z = Some r <-> r = z /\ in_u m z.
Proof.
  unfold try_from_u, in_u. split_matches; bool_to_prop.
  - split; [intros [= <-]; lia | intros [-> _]; done].
  - split; [done | intros [-> ?]]. apply andb_false_iff in E as [?|?]; bool_to_prop; lia.
Qed.

Lemma try_from_i64_Some (z r : Z) : try_from_i64 z = Some r <-> r = z /\ in_i64 z.
Proof.
  unfold try_from_i64, in_i64. split_matches; bool_to_prop.
  - split; [intros [= <-]; lia | intros [-> _]; done].
  - split; [done | intros [-> ?]]. apply andb_false_iff in E as [?|?]; bool_to_prop; lia.
Qed.

#[export] Hint Resolve sat_add_bounds i64_clamp_bounds : rackio.

(** ** Iterator adaptors of the Rust standard library *)

Section Iterators.
Context {A : Type}.

(** [Iterator::max_by]: the last of several maximal elements. *)
Definition max_by (cmp : A -> A -> comparison) (l : list A) : option A :=
  match l with
  | [] => None
  | x :: xs =>
      Some (fold_left (fun acc y => match cmp acc y with Gt => acc | _ => y end) xs x)
  end.

(** A comparison function that is a total preorder. *)
Class TotalCmp (cmp : A -> A -> comparison) : Prop := {
  cmp_flip x y : cmp y x = CompOpp (cmp x y);
  cmp_trans x y z : cmp x y <> Gt -> cmp y z <> Gt -> cmp x z <> Gt;
}.

Context (cmp : A -> A -> comparison).

Lemma cmp_refl `{!TotalCmp cmp} x : cmp x x <> Gt.
Proof. pose proof (cmp_flip x x) as H. destruct (cmp x x); done. Qed.

Lemma max_by_None l : max_by cmp l = None <-> l = [].
Proof. destruct l; done. Qed.

Lemma max_by_fold_In xs x :
  In (fold_left (fun acc y => match cmp acc y with Gt => acc | _ => y end) xs x) (x :: xs).
Proof.
  revert x. induction xs as [|y ys IH]; intros x; simpl; [by left|].
  destruct (cmp x y); [destruct (IH y) as [H|H]..|destruct (IH x) as [H|H]]; auto.
Qed.

Lemma max_by_In l m : max_by cmp l = Some m -> In m l.
Proof. destruct l; [done|]. intros [= <-]. apply max_by_fold_In. Qed.

Lemma max_by_fold_max `{!TotalCmp cmp} xs x z :
  In z (x :: xs) ->
  cmp z (fold_left (fun acc y => match cmp acc y with Gt => acc | _ => y end) xs x) <> Gt.
Proof.
  revert x z. induction xs as [|y ys IH]; intros x z; simpl.
  - intros [<-|[]]. apply cmp_refl.
  - assert (Hxy : cmp x y = Gt -> cmp y x <> Gt).
    { intros H. rewrite cmp_flip, H. done. }
    intros [<-|[<-|Hz]]; destruct (cmp x y) eqn:E; try (apply IH; simpl; auto; done);
      (eapply cmp_trans; [|apply IH; left; reflexivity]); try rewrite E; auto.
Qed.

(** The chosen element dominates every element of the iterator. *)
Lemma max_by_max `{!TotalCmp cmp} l m z :
  max_by cmp l = Some m -> In z l -> cmp z m <> Gt.
Proof. destruct l; [done|]. intros [= <-]. apply max_by_fold_max. Qed.

(** [slice::sort_by]: the stable sort, as insertion after every smaller-or-equal
    element. *)
Fixpoint insert_by (x : A) (l : list A) : list A :=
  match l with
  | [] => [x]
  | y :: ys => match cmp x y with Gt => y :: insert_by x ys | _ => x :: y :: ys end
  end.

Definition sort_by (l : list A) : list A := fold_right insert_by [] l.

Lemma insert_by_perm x l : insert_by x l ≡ₚ x :: l.
Proof.
  induction l as [|y ys IH]; simpl; [done|].
  destruct (cmp x y); [done|done|]. rewrite IH. apply Permutation_swap.
Qed.

Lemma sort_by_perm l : sort_by l ≡ₚ l.
Proof. induction l as [|x xs IH]; simpl; [done|]. by rewrite insert_by_perm, IH. Qed.

Lemma insert_by_sorted `{!TotalCmp cmp} x l :
  StronglySorted (fun a b => cmp a b <> Gt) l ->
  StronglySorted (fun a b => cmp a b <> Gt) (insert_by x l).
Proof.
  induction 1 as [|y ys Hs IH Hall]; simpl.
  { constructor; constructor. }
  assert (Hle : cmp x y <> Gt ->
    StronglySorted (fun a b => cmp a b <> Gt) (x :: y :: ys)).
  { intros E. constructor; [by constructor|]. constructor; [done|].
    eapply Forall_impl; [|exact Hall]. intros a Ha. eapply cmp_trans; eauto. }
  destruct (cmp x y) eqn:E; [apply Hle; congruence..|].
  constructor; [done|]. apply Forall_forall. intros a Ha.
  rewrite insert_by_perm in Ha. destruct Ha as [<-|Ha].
  - rewrite cmp_flip, E. done.
  - rewrite Forall_forall in Hall. auto.
Qed.

Lemma sort_by_sorted `{!TotalCmp cmp} l :
  StronglySorted (fun a b => cmp a b <> Gt) (sort_by l).
Proof. induction l; simpl; [constructor|]. by apply insert_by_sorted. Qed.

End Iterators.

Lemma collect_results_Ok {A B E} (f : A -> result B E) l r :
  collect_results f l = Ok r <-> Forall2 (fun x y => f x = Ok y) l r.
Proof.
  revert r. induction l as [|x xs IH]; intros r; simpl.
  - split; [intros [= <-]; constructor | inversion 1; done].
  - destruct (f x) as [y|e] eqn:Ef; simpl.
    + destruct (collect_results f xs) as [ys|e] eqn:Es; simpl.
      * split.
        -- intros [= <-]. constructor; [done|]. by apply IH.
        -- inversion 1 as [|? ? ? ? H1 H2]; subst. apply IH in H2. congruence.
      * split; [done|]. inversion 1 as [|? ? ? ? H1 H2]; subst.
        apply IH in H2. congruence.
    + split; [done|]. inversion 1; congruence.
Qed.

Lemma collect_results_app {A B E} (f : A -> result B E) l k r :
  collect_results f (l ++ k) = Ok r ->
  exists a b, collect_results f l = Ok a /\ collect_results f k = Ok b /\ r = a ++ b.
Proof.
  intros (a & b & Ha & Hb & ->)%collect_results_Ok%Forall2_app_inv_l.
  exists a, b. by rewrite !collect_results_Ok.
Qed.

(** ** [str] methods, on byte strings (UTF-8) *)

Definition starts_with (pre s : string) : bool := String.prefix pre s.

Definition ends_with (suf s : string) : bool :=
  (String.length suf <=? String.length s)%nat &&
  String.eqb (String.substring (String.length s - String.length suf) (String.length suf) s) suf.

(** [s.truncate(n)] for an [n] on a character boundary. *)
Definition truncate (n : nat) (s : string) : string := String.substring 0 n s.

(** [parts.join(sep)]. *)
Definition join (sep : string) (parts : list string) : string := String.concat sep parts.

(** [str::strip_prefix]. *)
Definition strip_prefix (pre s : string) : option string :=
  if starts_with pre s
  then Some (String.substring (String.length pre) (String.length s - String.length pre) s)
  else None.

Lemma substring_all s : String.substring 0 (String.length s) s = s.
Proof. induction s as [|c s IH]; simpl; [done|]. by rewrite IH. Qed.

Lemma prefix_append pre s : String.prefix pre (String.append pre s) = true.
Proof. induction pre as [|c pre IH]; simpl; [by destruct s|]. destruct (Ascii.ascii_dec c c); done. Qed.

Lemma strip_prefix_append pre s : strip_prefix pre (String.append pre s) = Some s.
Proof.
  unfold strip_prefix, starts_with. rewrite prefix_append. f_equal.
  induction pre as [|c pre IH]; simpl; [|done]. rewrite Nat.sub_0_r. apply substring_all.
Qed.

(** The UTF-8 encodings of the characters with the Unicode property White_Space. *)
Definition white_space : list (list nat) :=
  (map (fun c => [c]) [9; 10; 11; 12; 13; 32] ++
   [[194; 133]; [194; 160]; [225; 154; 128]] ++
   map (fun c => [226; 128; c]) [128; 129; 130; 131; 132; 133; 134; 135; 136; 137; 138; 168; 169; 175] ++
   [[226; 129; 159]; [227; 128; 128]])%nat%list.

Definition char_of (codes : list nat) : string :=
  String.string_of_list_ascii (map ascii_of_nat codes).

Definition str_rev (s : string) : string :=
  String.string_of_list_ascii (rev (String.list_ascii_of_string s)).

(** Strip leading characters of [chars] while there is one; each takes at least a byte. *)
Fixpoint strip_chars (fuel : nat) (chars : list string) (s : string) : string :=
  match fuel with
  | O => s
  | S fuel =>
      match omap (fun c => strip_prefix c s) chars with
      | rest :: _ => strip_chars fuel chars rest
      | [] => s
      end
  end.

(** [str::trim]. *)
Definition trim (s : string) : string :=
  let front := strip_chars (String.length s) (map char_of white_space) s in
  str_rev (strip_chars (String.length front) (map (fun c => char_of (rev c)) white_space)
             (str_rev front)).

Definition str_contains (l : list string) (s : string) : bool := existsb (String.eqb s) l.

Lemma str_contains_In l s : str_contains l s = true <-> In s l.
Proof.
  unfold str_contains. rewrite existsb_exists. split.
  - intros (x & Hx & E). apply String.eqb_eq in E as ->. done.
  - intros H. exists s. split; [done|apply String.eqb_refl].
Qed.

(** Close a decidable side condition of a witness by evaluation. *)
Ltac by_computation := apply (bool_decide_unpack _); vm_compute; exact I.

(** ** Concrete codecs, to instantiate external ones in witnesses *)

Section Unary.
Local Open Scope Z_scope.

(** A text form for witnesses: a sign and as many digits as the value. *)
Definition unary_text (u : Z) : string :=
  let ones := String.string_of_list_ascii (replicate (Z.to_nat (Z.abs u)) "1"%char) in
  if u <? 0 then String "-"%char ones else ones.

Definition parse_unary (s : string) : option Z :=
  match s with
  | String "-"%char r => Some (- Z.of_nat (String.length r))
  | _ => Some (Z.of_nat (String.length s))
  end.

Lemma parse_unary_text u : parse_unary (unary_text u) = Some u.
Proof.
  unfold unary_text. assert (Hl : forall n c, String.length (String.string_of_list_ascii (replicate n c)) = n)
    by (induction n; simpl; auto).
  destruct (Z.ltb_spec u 0); simpl; [rewrite Hl; f_equal; lia|].
  unfold parse_unary. destruct (Z.to_nat (Z.abs u)) eqn:E; simpl; [f_equal; lia|].
  rewrite Hl. f_equal. lia.
Qed.

End Unary.

(** Bytes as a string of one character each. *)
Definition byte_text (b : list Z) : string :=
  String.string_of_list_ascii (map (fun z => ascii_of_nat (Z.to_nat z)) b).

Definition text_bytes (s : string) : list Z :=
  map (fun c => Z.of_nat (nat_of_ascii c)) (String.list_ascii_of_string s).

Lemma text_bytes_roundtrip b : Forall (in_u u8_max) b -> text_bytes (byte_text b) = b.
Proof.
  intros H. unfold text_bytes, byte_text. rewrite String.list_ascii_of_string_of_list_ascii, map_map.
  induction H as [|z b [H1 H2] _ IH]; simpl; [done|]. f_equal; [|done].
  rewrite nat_ascii_embedding by (unfold u8_max in H2; lia). lia.
Qed.

(** The digits of a positive number as bytes. *)
Fixpoint pos_bits (p : positive) : list Z :=
  match p with
  | xH => []
  | xO p => 0%Z :: pos_bits p
  | xI p => 1%Z :: pos_bits p
  end.

Definition bits_pos (l : list Z) : positive :=
  fold_right (fun z p => if (z =? 0)%Z then xO p else xI p) xH l.

Lemma pos_bits_roundtrip p : bits_pos (pos_bits p) = p.
Proof. induction p as [p IH|p IH|]; simpl; [by rewrite IH..|done]. Qed.

Lemma pos_bits_bytes p : Forall (in_u u8_max) (pos_bits p).
Proof. induction p; simpl; constructor; try done; split; by vm_compute. Qed.
