(* ===== verification/BTree.v ===== *)
(** Ordered maps: [std::collections::BTreeMap] and SQLite tables with an integer
    primary key.

    Iteration order is observable in the source (alert detail lines, history
    rows, fleet listings), so a map is the list of its entries in key order, and
    [bt_sorted] is the representation invariant every operation preserves.
    [bt_ext] shows the representation is canonical. *)

From S2P Require Import Prelude.
From Stdlib Require Import Ascii String.

(** A key type with Rust's total [Ord]. *)
Class OrdKey (K : Type) := {
  kcmp : K -> K -> comparison;
  kcmp_eq x y : kcmp x y = Eq <-> x = y;
  kcmp_flip x y : kcmp y x = CompOpp (kcmp x y);
  kcmp_lt_trans x y z : kcmp x y = Lt -> kcmp y z = Lt -> kcmp x z = Lt;
}.

(** [i64] keys. *)
#[export, refine] Instance OrdKey_Z : OrdKey Z := {| kcmp := Z.compare |}.
Proof.
  - apply Z.compare_eq_iff.
  - intros x y. by rewrite Z.compare_antisym.
  - intros x y z. rewrite !Z.compare_lt_iff. lia.
Defined.

(** [String] keys: byte-wise lexicographic order. *)
Lemma ascii_compare_lt_trans a b c :
  Ascii.compare a b = Lt -> Ascii.compare b c = Lt -> Ascii.compare a c = Lt.
Proof. unfold Ascii.compare. rewrite !N.compare_lt_iff. lia. Qed.

Lemma string_compare_refl s : String.compare s s = Eq.
Proof.
  induction s as [|c s IH]; simpl; [done|].
  unfold Ascii.compare. by rewrite N.compare_refl.
Qed.

Lemma string_compare_lt_trans x y z :
  String.compare x y = Lt -> String.compare y z = Lt -> String.compare x z = Lt.
Proof.
  revert y z. induction x as [|a x IH]; intros [|b y] [|c z]; simpl; try done.
  destruct (Ascii.compare a b) eqn:E1; destruct (Ascii.compare b c) eqn:E2; try done.
  - apply Ascii.compare_eq_iff in E1 as ->. rewrite E2. apply IH.
  - apply Ascii.compare_eq_iff in E1 as ->. by rewrite E2.
  - apply Ascii.compare_eq_iff in E2 as <-. by rewrite E1.
  - by rewrite (ascii_compare_lt_trans _ _ _ E1 E2).
Qed.

#[export, refine] Instance OrdKey_string : OrdKey string := {| kcmp := String.compare |}.
Proof.
  - intros x y. split; [apply String.compare_eq_iff | intros ->; apply string_compare_refl].
  - intros x y. apply String.compare_antisym.
  - apply string_compare_lt_trans.
Defined.

Section BTree.
Context {K V : Type} `{!OrdKey K}.
Implicit Types (k : K) (v : V) (m : list (K * V)).

Lemma kcmp_refl k : kcmp k k = Eq.
Proof. by apply kcmp_eq. Qed.

Definition bt_entry_lt (a b : K * V) : Prop := kcmp (fst a) (fst b) = Lt.
Definition bt_sorted m : Prop := StronglySorted bt_entry_lt m.

(** [BTreeMap::get]. *)
Fixpoint bt_get k m : option V :=
  match m with
  | [] => None
  | (k', v) :: rest => match kcmp k k' with Eq => Some v | _ => bt_get k rest end
  end.

(** [BTreeMap::insert]: replaces an existing value in place. *)
Fixpoint bt_insert k v m : list (K * V) :=
  match m with
  | [] => [(k, v)]
  | (k', v') :: rest =>
      match kcmp k k' with
      | Lt => (k, v) :: (k', v') :: rest
      | Eq => (k, v) :: rest
      | Gt => (k', v') :: bt_insert k v rest
      end
  end.

(** [BTreeMap::remove]. *)
Fixpoint bt_remove k m : list (K * V) :=
  match m with
  | [] => []
  | (k', v') :: rest =>
      match kcmp k k' with Eq => rest | _ => (k', v') :: bt_remove k rest end
  end.

(** [BTreeMap::contains_key], [retain], [values], [keys]. *)
Definition bt_mem k m : bool := match bt_get k m with Some _ => true | None => false end.
Definition bt_retain (f : K -> V -> bool) m := List.filter (fun e => f (fst e) (snd e)) m.
Definition bt_values m : list V := map snd m.
Definition bt_keys m : list K := map fst m.

Lemma bt_sorted_nil : bt_sorted [].
Proof. constructor. Qed.

Lemma bt_sorted_cons_inv e m :
  bt_sorted (e :: m) -> bt_sorted m /\ Forall (bt_entry_lt e) m.
Proof. inversion 1; auto. Qed.

Lemma bt_insert_Forall (P : K * V -> Prop) k v m :
  P (k, v) -> Forall P m -> Forall P (bt_insert k v m).
Proof.
  intros Hk. induction 1 as [|[k' v'] rest H1 H2 IH]; simpl; [by constructor|].
  destruct (kcmp k k'); repeat constructor; auto.
Qed.

Lemma bt_insert_sorted k v m : bt_sorted m -> bt_sorted (bt_insert k v m).
Proof.
  induction m as [|[k' v'] rest IH]; intros Hs; simpl; [repeat constructor|].
  apply bt_sorted_cons_inv in Hs as [Hs Hall].
  destruct (kcmp k k') eqn:E.
  - apply kcmp_eq in E as ->. constructor; done.
  - constructor; [constructor; done|]. constructor; [done|].
    eapply Forall_impl; [|exact Hall]. intros e. unfold bt_entry_lt. simpl.
    by apply kcmp_lt_trans.
  - constructor; [by apply IH|]. apply bt_insert_Forall; [|done].
    unfold bt_entry_lt. simpl. by rewrite kcmp_flip, E.
Qed.

Lemma bt_remove_In e k m : In e (bt_remove k m) -> In e m.
Proof.
  induction m as [|[k' v'] rest IH]; simpl; [done|].
  destruct (kcmp k k'); simpl; intuition auto.
Qed.

Lemma bt_remove_sorted k m : bt_sorted m -> bt_sorted (bt_remove k m).
Proof.
  induction m as [|[k' v'] rest IH]; intros Hs; simpl; [done|].
  apply bt_sorted_cons_inv in Hs as [Hs Hall].
  assert (Hr : bt_sorted ((k', v') :: bt_remove k rest)).
  { constructor; [by apply IH|]. rewrite Forall_forall in *.
    intros e He. apply Hall. by eapply bt_remove_In. }
  by destruct (kcmp k k').
Qed.

Lemma bt_filter_sorted (f : K * V -> bool) m : bt_sorted m -> bt_sorted (List.filter f m).
Proof.
  induction 1 as [|e rest Hs IH Hall]; simpl; [constructor|].
  destruct (f e); [|done]. constructor; [done|].
  rewrite Forall_forall in *. intros x Hx. apply filter_In in Hx as [? _]. auto.
Qed.

Lemma bt_retain_sorted f m : bt_sorted m -> bt_sorted (bt_retain f m).
Proof. apply bt_filter_sorted. Qed.

Lemma bt_get_lt_head k m :
  Forall (fun e => kcmp k (fst e) = Lt) m -> bt_get k m = None.
Proof. induction 1 as [|[k' v'] rest H _ IH]; simpl in *; [done|]. by rewrite H. Qed.

Lemma bt_get_insert_eq k v m : bt_get k (bt_insert k v m) = Some v.
Proof.
  induction m as [|[k' v'] rest IH]; simpl; [by rewrite kcmp_refl|].
  destruct (kcmp k k') eqn:E; simpl; rewrite ?kcmp_refl, ?E; done.
Qed.

Lemma bt_get_insert_ne k k2 v m : k <> k2 -> bt_get k2 (bt_insert k v m) = bt_get k2 m.
Proof.
  intros Hne.
  assert (Hk : kcmp k2 k <> Eq) by (rewrite kcmp_eq; congruence).
  induction m as [|[k' v'] rest IH]; simpl; [destruct (kcmp k2 k); done|].
  destruct (kcmp k k') eqn:E; simpl.
  - apply kcmp_eq in E as ->. destruct (kcmp k2 k'); done.
  - destruct (kcmp k2 k); done.
  - by rewrite IH.
Qed.

Lemma bt_get_remove_ne k k2 m : k <> k2 -> bt_get k2 (bt_remove k m) = bt_get k2 m.
Proof.
  intros Hne. induction m as [|[k' v'] rest IH]; simpl; [done|].
  destruct (kcmp k k') eqn:E; simpl; rewrite ?IH; try done.
  apply kcmp_eq in E as ->. destruct (kcmp k2 k') eqn:E2; try done.
  apply kcmp_eq in E2. congruence.
Qed.

Lemma bt_get_remove_eq k m : bt_sorted m -> bt_get k (bt_remove k m) = None.
Proof.
  induction m as [|[k' v'] rest IH]; intros Hs; simpl; [done|].
  apply bt_sorted_cons_inv in Hs as [Hs Hall].
  destruct (kcmp k k') eqn:E; simpl; rewrite ?E; auto.
  apply kcmp_eq in E as ->. apply bt_get_lt_head. exact Hall.
Qed.

Lemma bt_get_In k v m : bt_get k m = Some v -> In (k, v) m.
Proof.
  induction m as [|[k' v'] rest IH]; simpl; [done|].
  destruct (kcmp k k') eqn:E; auto. intros [= <-]. apply kcmp_eq in E as ->. by left.
Qed.

Lemma bt_In_get k v m : bt_sorted m -> In (k, v) m -> bt_get k m = Some v.
Proof.
  induction m as [|[k' v'] rest IH]; intros Hs; simpl; [done|].
  apply bt_sorted_cons_inv in Hs as [Hs Hall].
  intros [[= <- <-]|Hin]; [by rewrite kcmp_refl|].
  rewrite Forall_forall in Hall. specialize (Hall _ Hin). unfold bt_entry_lt in Hall.
  simpl in Hall. rewrite (kcmp_flip k' k), Hall. by apply IH.
Qed.

Lemma bt_get_filter (f : K * V -> bool) k m :
  bt_sorted m ->
  bt_get k (List.filter f m) =
    match bt_get k m with Some v => if f (k, v) then Some v else None | None => None end.
Proof.
  induction m as [|[k' v'] rest IH]; intros Hs; simpl; [done|].
  apply bt_sorted_cons_inv in Hs as [Hs Hall].
  destruct (kcmp k k') eqn:E.
  - apply kcmp_eq in E as ->. destruct (f (k', v')); simpl; [by rewrite kcmp_refl|].
    rewrite IH by done. by rewrite (bt_get_lt_head k' rest) by exact Hall.
  - destruct (f (k', v')); simpl; rewrite ?E; auto.
  - destruct (f (k', v')); simpl; rewrite ?E; auto.
Qed.

(** Two sorted maps with the same bindings are the same list. *)
Lemma bt_ext m1 m2 :
  bt_sorted m1 -> bt_sorted m2 -> (forall k, bt_get k m1 = bt_get k m2) -> m1 = m2.
Proof.
  revert m2. induction m1 as [|[k1 v1] r1 IH]; intros [|[k2 v2] r2] Hs1 Hs2 Hg.
  - done.
  - specialize (Hg k2). simpl in Hg. by rewrite kcmp_refl in Hg.
  - specialize (Hg k1). simpl in Hg. by rewrite kcmp_refl in Hg.
  - apply bt_sorted_cons_inv in Hs1 as [Hs1 Ha1].
    apply bt_sorted_cons_inv in Hs2 as [Hs2 Ha2].
    assert (Hk : k1 = k2).
    { destruct (kcmp k1 k2) eqn:E; [by apply kcmp_eq|exfalso..].
      - specialize (Hg k1). simpl in Hg. rewrite kcmp_refl, E in Hg.
        rewrite bt_get_lt_head in Hg; [done|]. eapply Forall_impl; [|exact Ha2].
        intros e. unfold bt_entry_lt. simpl. by apply kcmp_lt_trans.
      - assert (E2 : kcmp k2 k1 = Lt) by (by rewrite kcmp_flip, E).
        specialize (Hg k2). simpl in Hg. rewrite kcmp_refl, E2 in Hg.
        rewrite bt_get_lt_head in Hg; [done|]. eapply Forall_impl; [|exact Ha1].
        intros e. unfold bt_entry_lt. simpl. by apply kcmp_lt_trans. }
    subst k2. assert (v1 = v2) as ->.
    { specialize (Hg k1). simpl in Hg. rewrite kcmp_refl in Hg. congruence. }
    f_equal. apply IH; [done..|]. intros k. specialize (Hg k). simpl in Hg.
    destruct (kcmp k k1) eqn:E; [|done..]. apply kcmp_eq in E as ->.
    rewrite !bt_get_lt_head; auto.
Qed.

Lemma bt_mem_insert k k2 v m :
  bt_mem k2 (bt_insert k v m) = true <-> k2 = k \/ bt_mem k2 m = true.
Proof.
  unfold bt_mem. destruct (kcmp k k2) eqn:E.
  - apply kcmp_eq in E as ->. rewrite bt_get_insert_eq. intuition.
  - rewrite bt_get_insert_ne; [|intros ->; rewrite kcmp_refl in E; done].
    intuition. subst. by rewrite kcmp_refl in E.
  - rewrite bt_get_insert_ne; [|intros ->; rewrite kcmp_refl in E; done].
    intuition. subst. by rewrite kcmp_refl in E.
Qed.

End BTree.

Create HintDb btree.
#[export] Hint Resolve bt_sorted_nil bt_insert_sorted bt_remove_sorted bt_retain_sorted
  bt_filter_sorted : btree.
