(* ===== verification/Float.v ===== *)
(** IEEE-754 numbers of the source: [f32] and [f64] values, their comparisons,
    conversions and decimal rendering, executable over [SpecFloat].

    A value is a [spec_float]; [S754_nan] stands for Rust's default positive
    quiet NaN (SpecFloat carries no payload). *)

From S2P Require Import Prelude.
From Stdlib Require Import SpecFloat DecimalString Ascii String.
Local Open Scope Z_scope.

Definition f32 := spec_float.
Definition f64 := spec_float.

#[export] Instance spec_float_eq_dec : EqDecision spec_float.
Proof. solve_decision. Defined.

(** [f64::is_finite] / [f32::is_finite]. *)
Definition is_finite (x : spec_float) : bool :=
  match x with S754_zero _ | S754_finite _ _ _ => true | _ => false end.

(** Rounding an exact [m * 2^e] into a format, to nearest even. *)
Definition f_round (prec emax : Z) (x : spec_float) : spec_float :=
  match x with
  | S754_finite s m e => binary_normalize prec emax (cond_Zopp s (Zpos m)) e s
  | _ => x
  end.

(** [f64::from(f32)] (exact), [value as f32] (nearest even). *)
Definition f64_of_f32 (x : f32) : f64 := f_round 53 1024 x.
Definition f32_of_f64 (x : f64) : f32 := f_round 24 128 x.

(** [f64::from(u32)] and small integer literals. *)
Definition f64_of_Z (z : Z) : f64 := binary_normalize 53 1024 z 0 false.
Definition f32_of_Z (z : Z) : f32 := binary_normalize 24 128 z 0 false.

Definition f64_add (x y : f64) : f64 := SFadd 53 1024 x y.
Definition f64_div (x y : f64) : f64 := SFdiv 53 1024 x y.
Definition f64_mul (x y : f64) : f64 := SFmul 53 1024 x y.
Definition f32_sub (x y : f32) : f32 := SFsub 24 128 x y.

(** [x >= y] and [x <= y]: false as soon as one side is NaN. *)
Definition f64_ge (x y : f64) : bool := SFleb y x.
Definition f64_le (x y : f64) : bool := SFleb x y.

(** ** [total_cmp] *)

Definition total_key (x : spec_float) : Z * Z * Z :=
  match x with
  | S754_infinity true => (-3, 0, 0)
  | S754_finite true m e => (-2, - e, Zneg m)
  | S754_zero true => (-1, 0, 0)
  | S754_zero false => (0, 0, 0)
  | S754_finite false m e => (1, e, Zpos m)
  | S754_infinity false => (2, 0, 0)
  | S754_nan => (3, 0, 0)
  end.

Definition lex3 (a b : Z * Z * Z) : comparison :=
  let '(a1, a2, a3) := a in
  let '(b1, b2, b3) := b in
  match a1 ?= b1 with
  | Eq => match a2 ?= b2 with Eq => a3 ?= b3 | c => c end
  | c => c
  end.

Definition total_cmp (x y : spec_float) : comparison := lex3 (total_key x) (total_key y).

#[export] Instance total_cmp_total : TotalCmp total_cmp.
Proof.
  unfold total_cmp, lex3. split.
  - intros x y. destruct (total_key x) as [[a1 a2] a3], (total_key y) as [[b1 b2] b3].
    rewrite (Z.compare_antisym a1 b1), (Z.compare_antisym a2 b2), (Z.compare_antisym a3 b3).
    by destruct (a1 ?= b1), (a2 ?= b2), (a3 ?= b3).
  - intros x y z.
    destruct (total_key x) as [[a1 a2] a3], (total_key y) as [[b1 b2] b3],
      (total_key z) as [[c1 c2] c3].
    destruct (Z.compare_spec a1 b1), (Z.compare_spec b1 c1), (Z.compare_spec a1 c1);
      try done; try lia; subst;
    destruct (Z.compare_spec a2 b2), (Z.compare_spec b2 c2), (Z.compare_spec a2 c2);
      try done; try lia; subst.
    destruct (Z.compare_spec a3 b3), (Z.compare_spec b3 c3), (Z.compare_spec a3 c3);
      try done; lia.
Qed.

(** ** Decimal rendering: [format!("{value:.d$}")] *)

(** [to_string] of an integer. *)
Definition dec (z : Z) : string := NilZero.string_of_int (Z.to_int z).

(** [num / den] rounded to the nearest integer, ties to even. *)
Definition round_half_even (num den : Z) : Z :=
  let q := num / den in
  let r := num mod den in
  match 2 * r ?= den with
  | Lt => q
  | Gt => q + 1
  | Eq => if Z.even q then q else q + 1
  end.

(** The magnitude [m * 2^e], times [10^digits], rounded to an integer. *)
Definition scaled (digits m e : Z) : Z :=
  if 0 <=? e then m * 2 ^ e * 10 ^ digits
  else round_half_even (m * 10 ^ digits) (2 ^ (- e)).

Fixpoint pad_zeros (n : nat) (s : string) : string :=
  match n with
  | O => s
  | S n' => if (String.length s <=? n')%nat then String "0"%char (pad_zeros n' s) else s
  end.

Definition fixed_digits (digits n : Z) : string :=
  if digits =? 0 then dec n
  else (dec (n / 10 ^ digits) ++ "." ++
        pad_zeros (Z.to_nat digits) (dec (n mod 10 ^ digits)))%string.

Definition format_fixed (digits : Z) (x : f64) : string :=
  let signed (s : bool) (t : string) := if s then String "-"%char t else t in
  match x with
  | S754_nan => "NaN"%string
  | S754_infinity s => signed s "inf"%string
  | S754_zero s => signed s (fixed_digits digits 0)
  | S754_finite s m e => signed s (fixed_digits digits (scaled digits (Zpos m) e))
  end.

Example format_946 :
  format_fixed 1 (f64_div (f64_of_Z 9460) (f64_of_Z 100)) = "94.6"%string.
Proof. vm_compute. reflexivity. Qed.

Example format_tie : format_fixed 0 (f64_div (f64_of_Z 5) (f64_of_Z 2)) = "2"%string.
Proof. vm_compute. reflexivity. Qed.

(** ** Facts the components use *)

Lemma f64_ge_refl x : is_finite x = true -> f64_ge x x = true.
Proof.
  unfold f64_ge, SFleb. destruct x as [[]|[]| |[] m e]; simpl; try done; intros _;
    rewrite Z.compare_refl; change (Pos.compare_cont Eq m m) with (Pos.compare m m);
    by rewrite Pos.compare_refl.
Qed.

Lemma f64_ge_nan_l y : f64_ge S754_nan y = false.
Proof. by destruct y. Qed.
