(* ===== verification/Model.v ===== *)
(** The domain model of [crates/rackio-core]: [model.rs] (metric samples, trend
    windows, protocol versions, health) and [clock.rs] (the anchored clock). *)

From S2P Require Import Prelude Float.
Local Open Scope Z_scope.

(** ** Enumerations and records of [model.rs] *)

Inductive NodeState :=
  | Healthy | Warning | Critical | Stale | Offline | AuthError | Incompatible | Degraded.

Inductive ConnectionPath := LanDirect | WanDirect | Relayed | UnknownPath.

Inductive CapabilityState := Supported | Unsupported | PermissionDenied.

#[export] Instance NodeState_eq_dec : EqDecision NodeState.
Proof. solve_decision. Defined.
#[export] Instance ConnectionPath_eq_dec : EqDecision ConnectionPath.
Proof. solve_decision. Defined.
#[export] Instance CapabilityState_eq_dec : EqDecision CapabilityState.
Proof. solve_decision. Defined.

Record MetricCapability := {
  cap_name : string;
  cap_state : CapabilityState;
  cap_detail : option string;
}.

Record ProtocolVersion := { major : Z; minor : Z }.

Definition V1 : ProtocolVersion := {| major := 1; minor := 1 |}.

Definition is_compatible_with (self other : ProtocolVersion) : bool :=
  major self =? major other.

(** UUIDs are opaque identifiers here; their text form is a codec parameter where
    it matters. *)
Definition Uuid := Z.

Record NodeInfo := {
  node_id : Uuid;
  display_name : string;
  os : string;
  architecture : string;
  agent_version : string;
  protocol : ProtocolVersion;
  capabilities : list MetricCapability;
}.

Record DiskMetric := { mount : string; total_bytes : Z; used_bytes : Z }.

Record TemperatureMetric := {
  label : string;
  celsius : f32;
  critical_celsius : option f32;
  sensor_count : Z;
}.

Record NetworkMetric := {
  received_bytes_per_second : Z;
  sent_bytes_per_second : Z;
}.

Record CollectorError := {
  err_source : string;
  err_kind : CapabilityState;
  err_message : string;
}.

Record MetricSample := {
  timestamp_ms : Z;
  sequence : Z;
  cpu_percent : option f32;
  memory_used_bytes : option Z;
  memory_total_bytes : option Z;
  swap_used_bytes : option Z;
  swap_total_bytes : option Z;
  disks : list DiskMetric;
  network : option NetworkMetric;
  temperature : option TemperatureMetric;
  uptime_seconds : Z;
  errors : list CollectorError;
}.

Record TrendSample := {
  t_timestamp_ms : Z;
  t_cpu_percent : option f32;
  t_memory_used_bytes : option Z;
  t_memory_total_bytes : option Z;
  t_swap_used_bytes : option Z;
  t_swap_total_bytes : option Z;
  t_disk_used_bytes : option Z;
  t_disk_total_bytes : option Z;
  t_temperature_celsius : option f32;
  t_network_received_bytes_per_second : option Z;
  t_network_sent_bytes_per_second : option Z;
  t_rtt_ms : option Z;
}.

Record HealthSnapshot := {
  state : NodeState;
  collector_degraded : bool;
  storage_degraded : bool;
  remote_listener_degraded : bool;
  details : list string;
}.

(** ** [MetricSample::worst_disk] *)

(** The cross-multiplied comparison of two fill ratios, in saturating [u128]. *)
Definition fill_cmp (left right : DiskMetric) : comparison :=
  sat_mul u128_max (used_bytes left) (total_bytes right)
  ?= sat_mul u128_max (used_bytes right) (total_bytes left).

Definition worst_disk (sample : MetricSample) : option DiskMetric :=
  max_by fill_cmp (List.filter (fun disk => 0 <? total_bytes disk) (disks sample)).

(** ** [impl From<&MetricSample> for TrendSample] *)

Definition trend_of_sample (sample : MetricSample) : TrendSample :=
  let worst := worst_disk sample in
  {| t_timestamp_ms := timestamp_ms sample;
     t_cpu_percent := cpu_percent sample;
     t_memory_used_bytes := memory_used_bytes sample;
     t_memory_total_bytes := memory_total_bytes sample;
     t_swap_used_bytes := swap_used_bytes sample;
     t_swap_total_bytes := swap_total_bytes sample;
     t_disk_used_bytes := used_bytes <$> worst;
     t_disk_total_bytes := total_bytes <$> worst;
     t_temperature_celsius := celsius <$> temperature sample;
     t_network_received_bytes_per_second := received_bytes_per_second <$> network sample;
     t_network_sent_bytes_per_second := sent_bytes_per_second <$> network sample;
     t_rtt_ms := None |}.

(** ** [TrendWindow] *)

Definition CAPACITY : nat := 120.

(** The window is its samples, oldest first. *)
Definition TrendWindow := list TrendSample.

(** [push]: append, then drain the overshoot from the front. *)
Definition trend_push (window : TrendWindow) (sample : TrendSample) : TrendWindow :=
  let samples := window ++ [sample] in
  let excess := (length samples - CAPACITY)%nat in
  skipn excess samples.

Definition from_samples (samples : list MetricSample) : TrendWindow :=
  fold_left (fun window sample => trend_push window (trend_of_sample sample))
    (skipn (length samples - CAPACITY) samples) [].

(** ** [Clock] *)

Record Clock := { wall_anchor_ms : Z; instant_anchor_ns : Z }.

(** [Clock::new] at wall time [wall] and monotonic instant [instant]. *)
Definition clock_new (wall instant : Z) : Clock :=
  {| wall_anchor_ms := wall; instant_anchor_ns := instant |}.

(** [now_ms] read at monotonic instant [instant] (nanoseconds); [elapsed]
    saturates at zero. *)
Definition now_ms (clock : Clock) (instant : Z) : Z :=
  let elapsed_ms := sat_sub instant (instant_anchor_ns clock) / 1000000 in
  let elapsed := default i64_max (try_from_i64 elapsed_ms) in
  i64_sat_add (wall_anchor_ms clock) elapsed.

(** ** Well-formed values: every field within its Rust type *)

Definition disk_wf (d : DiskMetric) : Prop :=
  in_u u64_max (total_bytes d) /\ in_u u64_max (used_bytes d).

Definition opt_wf (m : Z) (o : option Z) : Prop := forall z, o = Some z -> in_u m z.

Definition sample_wf (s : MetricSample) : Prop :=
  in_i64 (timestamp_ms s) /\ in_u u64_max (sequence s) /\
  opt_wf u64_max (memory_used_bytes s) /\ opt_wf u64_max (memory_total_bytes s) /\
  opt_wf u64_max (swap_used_bytes s) /\ opt_wf u64_max (swap_total_bytes s) /\
  Forall disk_wf (disks s) /\ in_u u64_max (uptime_seconds s).

(** ** Properties *)

(** On [u64] operands the [u128] products never saturate. *)
Lemma fill_cmp_exact l r :
  disk_wf l -> disk_wf r ->
  fill_cmp l r = (used_bytes l * total_bytes r ?= used_bytes r * total_bytes l).
Proof.
  intros [Hl1 Hl2] [Hr1 Hr2]. unfold fill_cmp, sat_mul.
  assert (Hb : forall a b, in_u u64_max a -> in_u u64_max b -> a * b <= u128_max).
  { unfold in_u. intros a b Ha Hb.
    transitivity (u64_max * u64_max); [apply Z.mul_le_mono_nonneg; lia|].
    unfold u64_max, u128_max. lia. }
  rewrite !Z.min_l by (apply Hb; done). done.
Qed.

(** Among disks of positive size the ratio comparison is a total preorder, so
    folding with it finds a true maximum. *)
Lemma fill_fold_max xs x z :
  Forall disk_wf (x :: xs) -> Forall (fun d => 0 < total_bytes d) (x :: xs) ->
  In z (x :: xs) ->
  let m := fold_left (fun acc y => match fill_cmp acc y with Gt => acc | _ => y end) xs x in
  used_bytes z * total_bytes m <= used_bytes m * total_bytes z.
Proof.
  revert x z. induction xs as [|y ys IH]; intros x z Hwf Hpos Hin; simpl.
  { destruct Hin as [<-|[]]. lia. }
  inversion Hwf as [|? ? Hx Hwf']; subst. inversion Hwf' as [|? ? Hy Hwf'']; subst.
  inversion Hpos as [|? ? Px Hpos']; subst. inversion Hpos' as [|? ? Py Hpos'']; subst.
  set (nxt := match fill_cmp x y with Gt => x | _ => y end).
  replace (match fill_cmp x y with Gt => x | _ => y end) with nxt by done.
  assert (Hn : (nxt = x \/ nxt = y) /\
    used_bytes x * total_bytes nxt <= used_bytes nxt * total_bytes x /\
    used_bytes y * total_bytes nxt <= used_bytes nxt * total_bytes y).
  { subst nxt. rewrite fill_cmp_exact by done.
    destruct (Z.compare_spec (used_bytes x * total_bytes y) (used_bytes y * total_bytes x));
      simpl; split; auto; lia. }
  destruct Hn as (Hn & Hnx & Hny).
  assert (Hwfn : Forall disk_wf (nxt :: ys)) by (constructor; [destruct Hn as [->| ->]|]; done).
  assert (Hposn : Forall (fun d => 0 < total_bytes d) (nxt :: ys))
    by (constructor; [destruct Hn as [->| ->]|]; done).
  assert (Hstep : In z (nxt :: ys) \/ z = x \/ z = y) by (destruct Hin as [<-|[<-|]]; simpl; auto).
  destruct Hstep as [Hz|Hz]; [by apply IH|].
  pose proof (IH nxt nxt Hwfn Hposn (or_introl eq_refl)) as Hm. simpl in Hm.
  set (m := fold_left _ ys nxt) in *.
  assert (Hnp : 0 < total_bytes nxt) by (inversion Hposn; done).
  assert (Hmp : 0 < total_bytes m).
  { pose proof (max_by_fold_In fill_cmp ys nxt) as Hi. fold m in Hi.
    rewrite Forall_forall in Hposn. by apply Hposn. }
  assert (Hzn : used_bytes z * total_bytes nxt <= used_bytes nxt * total_bytes z)
    by (destruct Hz as [->| ->]; done).
  assert (Hzp : 0 < total_bytes z) by (destruct Hz as [->| ->]; done).
  clear - Hm Hmp Hnp Hzn Hzp. nia.
Qed.

Lemma Forall_filter_pos l :
  Forall disk_wf l ->
  Forall disk_wf (List.filter (fun d => 0 <? total_bytes d) l) /\
  Forall (fun d => 0 < total_bytes d) (List.filter (fun d => 0 <? total_bytes d) l).
Proof.
  rewrite !Forall_forall. intros H. split; intros d Hd; apply filter_In in Hd as [? Hd].
  - auto.
  - by apply Z.ltb_lt.
Qed.

Lemma trend_push_length w s :
  (length (trend_push w s) = Nat.min (S (length w)) CAPACITY)%nat.
Proof. unfold trend_push. rewrite length_drop, length_app. cbn [length]. lia. Qed.

(** [push] keeps the newest [CAPACITY] samples of the extended window. *)
Lemma trend_push_lastn w s :
  trend_push w s = skipn (length w + 1 - CAPACITY) (w ++ [s]).
Proof. unfold trend_push. by rewrite length_app. Qed.

Lemma trend_fold_small (l : list MetricSample) w :
  (length w + length l <= CAPACITY)%nat ->
  fold_left (fun window sample => trend_push window (trend_of_sample sample)) l w
    = w ++ map trend_of_sample l.
Proof.
  revert w. induction l as [|x xs IH]; intros w H; simpl in *; [by rewrite app_nil_r|].
  rewrite trend_push_lastn. replace (length w + 1 - CAPACITY)%nat with 0%nat by lia.
  rewrite drop_0. rewrite IH; [by rewrite <- app_assoc|]. rewrite length_app. cbn [length]. lia.
Qed.

Lemma from_samples_spec samples :
  from_samples samples = map trend_of_sample (skipn (length samples - CAPACITY) samples).
Proof.
  unfold from_samples. rewrite trend_fold_small; [done|].
  cbn [length]. rewrite length_drop. lia.
Qed.

(** ** Theorems *)

(** [worst_disk] returns a disk of the sample with positive capacity whose fill
    ratio is at least that of every other disk with positive capacity (compared as
    exact fractions), and nothing only when no disk has capacity. *)
Theorem worst_disk_is_fullest (s : MetricSample) :
  Forall disk_wf (disks s) ->
  match worst_disk s with
  | Some m =>
      In m (disks s) /\ 0 < total_bytes m /\
      forall d, In d (disks s) -> 0 < total_bytes d ->
        used_bytes d * total_bytes m <= used_bytes m * total_bytes d
  | None => forall d, In d (disks s) -> total_bytes d <= 0
  end.
Proof.
  intros Hwf. apply Forall_filter_pos in Hwf as [Hw Hp]. unfold worst_disk.
  set (l := List.filter _ (disks s)) in *.
  assert (Hl : forall d, In d l <-> In d (disks s) /\ 0 < total_bytes d)
    by (intros d; unfold l; by rewrite filter_In, Z.ltb_lt).
  destruct (max_by fill_cmp l) as [m|] eqn:E.
  - pose proof (max_by_In _ _ _ E) as Hm. apply Hl in Hm as [H1 H2].
    repeat split; [done..|]. intros d Hd Hpos.
    assert (Hin : In d l) by (by apply Hl).
    destruct l as [|x xs]; [done|]. injection E as <-. by apply fill_fold_max.
  - apply max_by_None in E. intros d Hd.
    destruct (Z.leb_spec (total_bytes d) 0) as [|Hgt]; [done|].
    assert (In d l) as Hin by (by apply Hl). rewrite E in Hin. done.
Qed.

Definition witness_disks : MetricSample :=
  {| timestamp_ms := 1; sequence := 0; cpu_percent := None;
     memory_used_bytes := None; memory_total_bytes := None;
     swap_used_bytes := None; swap_total_bytes := None;
     disks := [{| mount := "/"; total_bytes := 100; used_bytes := 10 |};
               {| mount := "/data"; total_bytes := 100; used_bytes := 90 |};
               {| mount := "/proc"; total_bytes := 0; used_bytes := 0 |}];
     network := None; temperature := None; uptime_seconds := 0; errors := [] |}.

Lemma worst_disk_is_fullest_witness :
  worst_disk witness_disks = Some {| mount := "/data"; total_bytes := 100; used_bytes := 90 |} /\
  10 * 100 <= 90 * 100.
Proof.
  split; [reflexivity|].
  assert (Hwf : Forall disk_wf (disks witness_disks))
    by (repeat constructor; vm_compute; done).
  apply (proj2 (proj2 (worst_disk_is_fullest witness_disks Hwf))
    {| mount := "/"; total_bytes := 100; used_bytes := 10 |}); [by left|reflexivity].
Defined.

(** A trend window holds at most [CAPACITY] points after any push, however large
    it was before; the newest sample survives and only the oldest leave. *)
Theorem trend_push_keeps_newest (w : TrendWindow) (s : TrendSample) :
  (length (trend_push w s) <= CAPACITY)%nat /\
  (exists kept, trend_push w s = kept ++ [s]) /\
  exists dropped, dropped ++ trend_push w s = w ++ [s] /\
    length dropped = (S (length w) - CAPACITY)%nat.
Proof.
  split; [rewrite trend_push_length; lia|].
  rewrite trend_push_lastn. split.
  - rewrite drop_app_le by (change CAPACITY with 120%nat; lia). eauto.
  - exists (take (length w + 1 - CAPACITY) (w ++ [s])). rewrite take_drop. split; [done|].
    rewrite length_take, length_app. cbn [length]. lia.
Qed.

(** Rebuilding a window from stored history yields the projections of the newest
    [CAPACITY] stored samples in their stored order: the same window as pushing the
    whole history one sample at a time. *)
Theorem from_samples_is_replay (samples : list MetricSample) :
  from_samples samples = map trend_of_sample (skipn (length samples - CAPACITY) samples) /\
  from_samples samples = fold_left (fun w s => trend_push w (trend_of_sample s)) samples [].
Proof.
  split; [apply from_samples_spec|]. rewrite from_samples_spec.
  induction samples as [|s l IH] using rev_ind; [done|].
  rewrite fold_left_app. cbn [fold_left]. rewrite <- IH, trend_push_lastn, length_map, length_drop.
  rewrite length_app. cbn [length].
  change [trend_of_sample s] with (map trend_of_sample [s]).
  rewrite <- map_app, <- drop_app_le, skipn_map, drop_drop
    by (change CAPACITY with 120%nat; lia).
  do 2 f_equal. lia.
Qed.

(** The anchored clock never runs backwards: as the monotonic instant advances,
    the reported time does not decrease, never precedes the anchor, and always fits
    [i64]. *)
Theorem clock_monotone (clock : Clock) (t1 t2 : Z) :
  in_i64 (wall_anchor_ms clock) -> t1 <= t2 ->
  now_ms clock t1 <= now_ms clock t2 /\ wall_anchor_ms clock <= now_ms clock t1 /\
  in_i64 (now_ms clock t2).
Proof.
  intros Ha Ht.
  assert (Hd : forall t, exists d, 0 <= d <= i64_max /\ now_ms clock t = i64_sat_add (wall_anchor_ms clock) d /\
    d = Z.min (sat_sub t (instant_anchor_ns clock) / 1000000) i64_max).
  { intros t. unfold now_ms. eexists. split; [|split; [reflexivity|]];
    unfold try_from_i64;
    assert (0 <= sat_sub t (instant_anchor_ns clock) / 1000000)
      by (apply Z.div_pos; unfold sat_sub; lia);
    destruct (_ && _)%bool eqn:E; simpl; bool_to_prop; try (width_lia);
    apply andb_false_iff in E as [?|?]; bool_to_prop; width_lia. }
  destruct (Hd t1) as (d1 & B1 & -> & E1), (Hd t2) as (d2 & B2 & -> & E2).
  assert (d1 <= d2).
  { rewrite E1, E2.
    assert (sat_sub t1 (instant_anchor_ns clock) / 1000000
            <= sat_sub t2 (instant_anchor_ns clock) / 1000000)
      by (apply Z.div_le_mono; unfold sat_sub; lia). lia. }
  clear E1 E2. width_lia.
Qed.

Lemma clock_monotone_witness :
  now_ms (clock_new 1000 0) 1000000 <= now_ms (clock_new 1000 0) 5000000.
Proof. apply (clock_monotone (clock_new 1000 0) 1000000 5000000); [vm_compute|]; done. Defined.
