(* ===== verification/Alert.v ===== *)
(** Local health thresholds: [crates/rackio-core/src/alert.rs].

    Rule resolution (shipped rules merged with operator overrides, validated) and
    the evaluator, a state machine over two ordered maps that turns a stream of
    samples into raise/clear transitions. *)

From S2P Require Import Prelude BTree Float Model.
From Stdlib Require Import SpecFloat.
Local Open Scope string_scope.
Local Open Scope Z_scope.

Definition SAMPLES_PER_MINUTE : Z := 30.

Inductive Comparison := GreaterThanOrEqual | LessThanOrEqual.

Record AlertRule := {
  id : string;
  metric : string;
  comparison_ : Comparison;
  threshold : f64;
  consecutive_samples : Z;
  severity : NodeState;
}.

Definition rule (id metric : string) (c : Comparison) (t : f64) (samples : Z) (sev : NodeState)
  : AlertRule :=
  {| id := id; metric := metric; comparison_ := c; threshold := t;
     consecutive_samples := samples; severity := sev |}.

Definition default_alert_rules : list AlertRule := [
  rule "disk-capacity-warning" "disk_percent" GreaterThanOrEqual (f64_of_Z 90) 3 Warning;
  rule "disk-capacity-critical" "disk_percent" GreaterThanOrEqual (f64_of_Z 95) 3 Critical;
  rule "memory-pressure-warning" "memory_percent" GreaterThanOrEqual (f64_of_Z 90)
    SAMPLES_PER_MINUTE Warning;
  rule "memory-pressure-critical" "memory_percent" GreaterThanOrEqual (f64_of_Z 97)
    SAMPLES_PER_MINUTE Critical;
  rule "cpu-saturation-warning" "cpu_percent" GreaterThanOrEqual (f64_of_Z 90)
    (SAMPLES_PER_MINUTE * 5) Warning;
  rule "temperature-headroom-warning" "temperature_headroom_celsius" LessThanOrEqual
    (f64_of_Z 5) 15 Warning;
  rule "temperature-critical" "temperature_headroom_celsius" LessThanOrEqual
    (f64_of_Z 0) 15 Critical].

Inductive AlertRuleSource := BuiltIn | Configured.

Record AlertRuleConfig := {
  c_id : string;
  c_metric : option string;
  c_comparison : option Comparison;
  c_threshold : option f64;
  c_consecutive_samples : option Z;
  c_severity : option NodeState;
  c_enabled : option bool;
}.

(** [AlertRuleConfig::new]. *)
Definition config_new (id : string) : AlertRuleConfig :=
  {| c_id := id; c_metric := None; c_comparison := None; c_threshold := None;
     c_consecutive_samples := None; c_severity := None; c_enabled := None |}.

Record ResolvedAlertRule := {
  r_rule : AlertRule;
  r_enabled : bool;
  r_source : AlertRuleSource;
}.

Definition ALERT_METRICS : list string := [
  "cpu_percent"; "memory_percent"; "swap_percent"; "disk_percent";
  "temperature_celsius"; "temperature_headroom_celsius"].

(** ** Rule resolution *)

Definition missing (change : AlertRuleConfig) (field : string) : string :=
  "alert rule `" ++ c_id change ++ "` is not one Rackio ships, so it must define `" ++ field ++ "`".

Definition new_rule (change : AlertRuleConfig) : result AlertRule string :=
  let? metric := ok_or (c_metric change) (missing change "metric") in
  let? comparison := ok_or (c_comparison change) (missing change "comparison") in
  let? threshold := ok_or (c_threshold change) (missing change "threshold") in
  let? severity := ok_or (c_severity change) (missing change "severity") in
  Ok {| id := c_id change; metric := metric; comparison_ := comparison;
        threshold := threshold;
        consecutive_samples := default 1 (c_consecutive_samples change);
        severity := severity |}.

Definition apply_override (r : AlertRule) (change : AlertRuleConfig) : AlertRule :=
  {| id := id r;
     metric := default (metric r) (c_metric change);
     comparison_ := default (comparison_ r) (c_comparison change);
     threshold := default (threshold r) (c_threshold change);
     consecutive_samples := default (consecutive_samples r) (c_consecutive_samples change);
     severity := default (severity r) (c_severity change) |}.

Definition is_some {A} (o : option A) : bool := match o with Some _ => true | None => false end.

Definition changes_a_level (change : AlertRuleConfig) : bool :=
  is_some (c_metric change) || is_some (c_comparison change) || is_some (c_threshold change)
  || is_some (c_consecutive_samples change) || is_some (c_severity change).

(** [{:?}] of a node state. *)
Definition debug_state (s : NodeState) : string :=
  match s with
  | Healthy => "Healthy" | Warning => "Warning" | Critical => "Critical" | Stale => "Stale"
  | Offline => "Offline" | AuthError => "AuthError" | Incompatible => "Incompatible"
  | Degraded => "Degraded"
  end.

Definition validate (r : AlertRule) : result unit string :=
  if negb (str_contains ALERT_METRICS (metric r)) then
    Err ("alert rule `" ++ id r ++ "` names the unknown metric `" ++ metric r
         ++ "`; known metrics are " ++ join ", " ALERT_METRICS)
  else if negb (is_finite (threshold r)) then
    Err ("alert rule `" ++ id r ++ "` has a threshold that is not a finite number")
  else match severity r with
  | Warning | Critical => Ok tt
  | other => Err ("alert rule `" ++ id r ++ "` must report `warning` or `critical`; `"
                  ++ debug_state other ++ "` is not a level a threshold can reach")
  end.

(** What an override does to the first resolved entry with its id. *)
Definition override_entry (known : ResolvedAlertRule) (change : AlertRuleConfig)
  : ResolvedAlertRule :=
  {| r_rule := apply_override (r_rule known) change;
     r_enabled := default (r_enabled known) (c_enabled change);
     r_source := if changes_a_level change then Configured else r_source known |}.

(** [resolved.iter_mut().find(...)] updated in place; [None] when no entry has
    the id. *)
Fixpoint update_known (resolved : list ResolvedAlertRule) (change : AlertRuleConfig)
  : option (list ResolvedAlertRule) :=
  match resolved with
  | [] => None
  | known :: rest =>
      if String.eqb (id (r_rule known)) (c_id change)
      then Some (override_entry known change :: rest)
      else cons known <$> update_known rest change
  end.

Definition apply_change (resolved : list ResolvedAlertRule) (change : AlertRuleConfig)
  : result (list ResolvedAlertRule) string :=
  match update_known resolved change with
  | Some next => Ok next
  | None =>
      let? r := new_rule change in
      Ok (resolved ++ [{| r_rule := r; r_enabled := default true (c_enabled change);
                          r_source := Configured |}])%list
  end.

Fixpoint apply_changes (resolved : list ResolvedAlertRule) (overrides : list AlertRuleConfig)
  : result (list ResolvedAlertRule) string :=
  match overrides with
  | [] => Ok resolved
  | change :: rest => let? next := apply_change resolved change in apply_changes next rest
  end.

Definition builtin (r : AlertRule) : ResolvedAlertRule :=
  {| r_rule := r; r_enabled := true; r_source := BuiltIn |}.

Definition resolve_alert_rules (overrides : list AlertRuleConfig)
  : result (list ResolvedAlertRule) string :=
  let? resolved := apply_changes (map builtin default_alert_rules) overrides in
  let? _ := collect_results (fun entry => validate (r_rule entry)) resolved in
  Ok resolved.

(** ** Readings *)

Record Reading := { value : f64; scope : option string }.

Definition unscoped (v : f64) : Reading := {| value := v; scope := None |}.

(** Hundredths of a percent in integer arithmetic, then one float division. *)
Definition basis_points (used total : Z) : Z :=
  let bp := default 0 (checked_div (sat_mul u128_max used 10000) total) in
  default u32_max (try_from_u u32_max bp).

Definition percentage (used total : Z) : f64 :=
  f64_div (f64_of_Z (basis_points used total)) (f64_of_Z 100).

Definition ratio_reading (used total : option Z) : option Reading :=
  u ← used; t ← total; if 0 <? t then Some (unscoped (percentage u t)) else None.

Definition metric_reading (sample : MetricSample) (m : string) : option Reading :=
  if String.eqb m "cpu_percent" then
    (fun c => unscoped (f64_of_f32 c)) <$> cpu_percent sample
  else if String.eqb m "memory_percent" then
    ratio_reading (memory_used_bytes sample) (memory_total_bytes sample)
  else if String.eqb m "swap_percent" then
    ratio_reading (swap_used_bytes sample) (swap_total_bytes sample)
  else if String.eqb m "disk_percent" then
    max_by (fun l r => total_cmp (value l) (value r))
      (map (fun d => {| value := percentage (used_bytes d) (total_bytes d);
                        scope := Some (mount d) |})
        (List.filter (fun d => 0 <? total_bytes d) (disks sample)))
  else if String.eqb m "temperature_celsius" then
    (fun t => {| value := f64_of_f32 (celsius t); scope := Some (label t) |})
      <$> temperature sample
  else if String.eqb m "temperature_headroom_celsius" then
    t ← temperature sample; critical ← critical_celsius t;
    Some {| value := f64_of_f32 (f32_sub critical (celsius t)); scope := Some (label t) |}
  else None.

(** ** Operator-facing text *)

Definition metric_subject (m : string) : string :=
  if String.eqb m "cpu_percent" then "CPU"
  else if String.eqb m "memory_percent" then "Memory"
  else if String.eqb m "swap_percent" then "Swap"
  else if String.eqb m "disk_percent" then "Disk"
  else if String.eqb m "temperature_celsius" then "Temperature"
  else if String.eqb m "temperature_headroom_celsius" then "Temperature headroom"
  else m.

Definition metric_unit (m : string) : string :=
  if ends_with "_celsius" m then " °C" else "%".

Definition comparison_phrase (c : Comparison) : string :=
  match c with GreaterThanOrEqual => "at or above" | LessThanOrEqual => "at or below" end.

Definition severity_label (s : NodeState) : string :=
  match s with Critical => "critical" | Warning => "warning" | _ => "alert" end.

Definition number (v : f64) : string :=
  let rounded := format_fixed 1 v in
  if ends_with ".0" rounded then truncate (String.length rounded - 2) rounded else rounded.

Definition breach_description (r : AlertRule) (reading : Reading) : string :=
  let unit := metric_unit (metric r) in
  let subject := match scope reading with
    | Some s => metric_subject (metric r) ++ " " ++ s
    | None => metric_subject (metric r)
    end in
  subject ++ " " ++ number (value reading) ++ unit ++ " is " ++ comparison_phrase (comparison_ r)
  ++ " the " ++ severity_label (severity r) ++ " threshold of " ++ number (threshold r) ++ unit.

Definition recovery_description (r : AlertRule) : string :=
  metric_subject (metric r) ++ " left the " ++ severity_label (severity r) ++ " threshold of "
  ++ number (threshold r) ++ metric_unit (metric r).

(** ** The evaluator *)

Record AlertSignal := {
  rule_id : string;
  active : bool;
  sig_severity : NodeState;
  sig_detail : string;
}.

Record ActiveAlert := { act_severity : NodeState; act_detail : string }.

Record AlertEvaluator := {
  counts : list (string * Z);
  actives : list (string * ActiveAlert);
}.

Definition evaluator_default : AlertEvaluator := {| counts := []; actives := [] |}.

Definition contains_rule (rules : list AlertRule) (i : string) : bool :=
  existsb (fun r => String.eqb (id r) i) rules.

Definition matches (r : AlertRule) (reading : Reading) : bool :=
  match comparison_ r with
  | GreaterThanOrEqual => f64_ge (value reading) (threshold r)
  | LessThanOrEqual => f64_le (value reading) (threshold r)
  end.

(** The count update and the breach decision of one rule on one sample. *)
Definition breach_of (counts : list (string * Z)) (r : AlertRule) (reading : option Reading)
  : list (string * Z) * option Reading :=
  match reading with
  | None => (bt_insert (id r) 0 counts, None)
  | Some rd =>
      let count0 := default 0 (bt_get (id r) counts) in
      let count := if matches r rd then sat_add u32_max count0 1 else 0 in
      (bt_insert (id r) count counts,
       if Z.max (consecutive_samples r) 1 <=? count then Some rd else None)
  end.

(** One pass of the [filter_map] closure. *)
Definition evaluate_rule (sample : MetricSample) (st : AlertEvaluator) (r : AlertRule)
  : AlertEvaluator * option AlertSignal :=
  let reading := metric_reading sample (metric r) in
  let '(counts', breach) := breach_of (counts st) r reading in
  let was_active := bt_mem (id r) (actives st) in
  let removed := bt_remove (id r) (actives st) in
  let detail := breach_description r <$> breach in
  let actives' := match detail with
    | Some d => bt_insert (id r) {| act_severity := severity r; act_detail := d |} removed
    | None => removed
    end in
  let now_active := is_some detail in
  ({| counts := counts'; actives := actives' |},
   if Bool.eqb now_active was_active then None
   else Some {| rule_id := id r; active := now_active; sig_severity := severity r;
                sig_detail := default
                  (if is_some reading then recovery_description r
                   else metric_subject (metric r)
                        ++ " is unavailable; threshold recovery is unconfirmed") detail |}).

Fixpoint evaluate_rules (sample : MetricSample) (st : AlertEvaluator) (rules : list AlertRule)
  : AlertEvaluator * list AlertSignal :=
  match rules with
  | [] => (st, [])
  | r :: rest =>
      let '(st1, sig) := evaluate_rule sample st r in
      let '(st2, sigs) := evaluate_rules sample st1 rest in
      (st2, match sig with Some s => s :: sigs | None => sigs end)
  end.

Definition evaluate (st : AlertEvaluator) (sample : MetricSample) (rules : list AlertRule)
  : AlertEvaluator * list AlertSignal :=
  evaluate_rules sample
    {| counts := bt_retain (fun i _ => contains_rule rules i) (counts st);
       actives := bt_retain (fun i _ => contains_rule rules i) (actives st) |} rules.

Definition severity_rank (s : NodeState) : Z :=
  match s with Critical => 2 | Warning => 1 | _ => 0 end.

Definition worst_active_severity (st : AlertEvaluator) : option NodeState :=
  max_by (fun a b => severity_rank a ?= severity_rank b)
    (map act_severity (bt_values (actives st))).

(** Sorted by descending rank; the sort is stable, so ties keep rule-id order. *)
Definition active_details (st : AlertEvaluator) : list string :=
  map act_detail
    (sort_by (fun a b => severity_rank (act_severity b) ?= severity_rank (act_severity a))
       (bt_values (actives st))).

(** ** Evaluator: what one pass does *)

(** The rule's condition on one sample; an unreadable metric never holds. *)
Definition holds (r : AlertRule) (sample : MetricSample) : bool :=
  match metric_reading sample (metric r) with Some rd => matches r rd | None => false end.

Definition ev_sorted (st : AlertEvaluator) : Prop :=
  bt_sorted (counts st) /\ bt_sorted (actives st).

Definition count_of (st : AlertEvaluator) (r : AlertRule) : Z :=
  default 0 (bt_get (id r) (counts st)).

Definition is_active (st : AlertEvaluator) (i : string) : bool := bt_mem i (actives st).

Definition next_count (st : AlertEvaluator) (s : MetricSample) (r : AlertRule) : Z :=
  if holds r s then sat_add u32_max (count_of st r) 1 else 0.

Definition reaches (r : AlertRule) (count : Z) : bool :=
  Z.max (consecutive_samples r) 1 <=? count.

Lemma reaches_0 r : reaches r 0 = false.
Proof. unfold reaches. apply Z.leb_gt. lia. Qed.

Lemma evaluate_rule_sorted s st r : ev_sorted st -> ev_sorted (fst (evaluate_rule s st r)).
Proof.
  intros [Hc Ha]. unfold evaluate_rule, breach_of, ev_sorted.
  destruct (metric_reading s (metric r)); simpl; [destruct (_ <=? _); simpl|];
    auto with btree.
Qed.

Lemma evaluate_rule_self s st r :
  ev_sorted st ->
  let st' := fst (evaluate_rule s st r) in
  bt_get (id r) (counts st') = Some (next_count st s r) /\
  is_active st' (id r) = reaches r (next_count st s r).
Proof.
  intros [Hc Ha]. unfold evaluate_rule, breach_of, next_count, holds, count_of, is_active, bt_mem.
  destruct (metric_reading s (metric r)) as [rd|]; simpl.
  - fold (reaches r (if matches r rd
      then sat_add u32_max (default 0 (bt_get (id r) (counts st))) 1 else 0)).
    destruct (reaches r _) eqn:E; simpl; rewrite ?bt_get_insert_eq; [done|].
    by rewrite bt_get_remove_eq.
  - rewrite bt_get_insert_eq, bt_get_remove_eq, reaches_0 by done. done.
Qed.

(** The signal of one rule is its activity transition. *)
Lemma evaluate_rule_signal s st r :
  ev_sorted st ->
  let '(st', sig) := evaluate_rule s st r in
  map (fun sg => (rule_id sg, active sg)) (match sig with Some x => [x] | None => [] end) =
  if Bool.eqb (is_active st' (id r)) (is_active st (id r)) then []
  else [(id r, is_active st' (id r))].
Proof.
  intros Hs. pose proof (evaluate_rule_self s st r Hs) as [_ Hself].
  assert (Hd : is_some (breach_description r <$>
    snd (breach_of (counts st) r (metric_reading s (metric r)))) = reaches r (next_count st s r)).
  { unfold breach_of, next_count, holds, count_of, reaches.
    destruct (metric_reading s (metric r)); simpl; [by destruct (_ <=? _)|].
    symmetry. apply reaches_0. }
  revert Hself Hd. unfold evaluate_rule.
  destruct (breach_of _ r _) as [c b]. simpl. intros -> ->. unfold is_active.
  destruct (reaches r _), (bt_mem (id r) (actives st)); done.
Qed.

Lemma evaluate_rule_other s st r i :
  i <> id r ->
  let st' := fst (evaluate_rule s st r) in
  bt_get i (counts st') = bt_get i (counts st) /\
  bt_get i (actives st') = bt_get i (actives st).
Proof.
  intros Hne. unfold evaluate_rule, breach_of.
  destruct (metric_reading s (metric r)); simpl; [destruct (_ <=? _); simpl|];
    repeat (rewrite bt_get_insert_ne by done); rewrite ?bt_get_remove_ne by done; done.
Qed.

Lemma evaluate_rules_sorted s rules st :
  ev_sorted st -> ev_sorted (fst (evaluate_rules s st rules)).
Proof.
  revert st. induction rules as [|r rest IH]; intros st Hs; simpl; [done|].
  pose proof (evaluate_rule_sorted s st r Hs) as H1.
  destruct (evaluate_rule s st r) as [st1 sig]. specialize (IH st1 H1).
  by destruct (evaluate_rules s st1 rest).
Qed.

Lemma evaluate_rules_notin s rules st i :
  ~ In i (map id rules) ->
  let st' := fst (evaluate_rules s st rules) in
  bt_get i (counts st') = bt_get i (counts st) /\
  bt_get i (actives st') = bt_get i (actives st).
Proof.
  revert st. induction rules as [|r rest IH]; intros st Hn; simpl; [done|].
  simpl in Hn. pose proof (evaluate_rule_other s st r i ltac:(intuition)) as [H1 H2].
  destruct (evaluate_rule s st r) as [st1 sig].
  destruct (IH st1 ltac:(intuition)) as [H3 H4].
  destruct (evaluate_rules s st1 rest). simpl in *. split; congruence.
Qed.

Lemma evaluate_rules_in s rules st r :
  ev_sorted st -> NoDup (map id rules) -> In r rules ->
  let st' := fst (evaluate_rules s st rules) in
  bt_get (id r) (counts st') = Some (next_count st s r) /\
  is_active st' (id r) = reaches r (next_count st s r).
Proof.
  revert st. induction rules as [|r0 rest IH]; intros st Hs Hnd Hin; simpl; [done|].
  simpl in Hnd. apply list.NoDup_cons in Hnd as [Hnotin Hnd].
  rewrite list_elem_of_In in Hnotin.
  pose proof (evaluate_rule_self s st r0 Hs) as Hself.
  pose proof (evaluate_rule_other s st r0) as Hother.
  pose proof (evaluate_rule_sorted s st r0 Hs) as Hs1.
  destruct (evaluate_rule s st r0) as [st1 sig]. simpl in *.
  destruct Hin as [->|Hin].
  - pose proof (evaluate_rules_notin s rest st1 (id r) Hnotin) as [H1 H2].
    destruct (evaluate_rules s st1 rest) as [st2 sigs]. simpl in *.
    unfold is_active, bt_mem in *. by rewrite H1, H2.
  - assert (Hne : id r <> id r0) by (intros E; apply Hnotin; rewrite <- E; by apply in_map).
    destruct (IH st1 Hs1 Hnd Hin) as [H1 H2].
    destruct (Hother (id r) Hne) as [H3 _].
    destruct (evaluate_rules s st1 rest) as [st2 sigs]. simpl in *.
    assert (Hc : next_count st1 s r = next_count st s r)
      by (unfold next_count, count_of; by rewrite H3).
    by rewrite <- Hc.
Qed.

Lemma contains_rule_In rules i : contains_rule rules i = true <-> In i (map id rules).
Proof.
  unfold contains_rule. rewrite existsb_exists, in_map_iff. split.
  - intros (r & Hr & E). apply String.eqb_eq in E. eauto.
  - intros (r & E & Hr). exists r. split; [done|]. apply String.eqb_eq. done.
Qed.

Definition retained (rules : list AlertRule) (st : AlertEvaluator) : AlertEvaluator :=
  {| counts := bt_retain (fun i _ => contains_rule rules i) (counts st);
     actives := bt_retain (fun i _ => contains_rule rules i) (actives st) |}.

Lemma retained_sorted rules st : ev_sorted st -> ev_sorted (retained rules st).
Proof. intros [? ?]. split; simpl; auto with btree. Qed.

Lemma retained_get {V} rules (m : list (string * V)) i :
  bt_sorted m ->
  bt_get i (bt_retain (fun j _ => contains_rule rules j) m) =
    if contains_rule rules i then bt_get i m else None.
Proof.
  intros Hs. unfold bt_retain. rewrite (bt_get_filter _ i m Hs). simpl.
  destruct (bt_get i m); by destruct (contains_rule rules i).
Qed.

Lemma evaluate_sorted st s rules : ev_sorted st -> ev_sorted (fst (evaluate st s rules)).
Proof. intros. by apply evaluate_rules_sorted, retained_sorted. Qed.

Lemma evaluate_in st s rules r :
  ev_sorted st -> NoDup (map id rules) -> In r rules ->
  let st' := fst (evaluate st s rules) in
  count_of st' r = next_count st s r /\
  is_active st' (id r) = reaches r (next_count st s r).
Proof.
  intros Hs Hnd Hin.
  destruct (evaluate_rules_in s rules (retained rules st) r (retained_sorted rules st Hs) Hnd Hin)
    as [H1 H2].
  assert (Hc : next_count (retained rules st) s r = next_count st s r).
  { unfold next_count, count_of, retained. simpl. rewrite retained_get by apply Hs.
    assert (contains_rule rules (id r) = true) as -> by (apply contains_rule_In; by apply in_map).
    done. }
  unfold evaluate. fold (retained rules st). unfold count_of. rewrite H1, H2, Hc. done.
Qed.

(** ** Evaluator: whole traces *)

(** How many samples in a row, ending with the last one, satisfy the rule. *)
Definition streak (r : AlertRule) (trace : list MetricSample) : Z :=
  fold_left (fun n s => if holds r s then n + 1 else 0) trace 0.

Definition run (rules : list AlertRule) (trace : list MetricSample) : AlertEvaluator :=
  fold_left (fun st s => fst (evaluate st s rules)) trace evaluator_default.

Lemma evaluator_default_sorted : ev_sorted evaluator_default.
Proof. split; constructor. Qed.

Lemma run_snoc rules trace s :
  run rules (trace ++ [s])%list = fst (evaluate (run rules trace) s rules).
Proof. unfold run. by rewrite fold_left_app. Qed.

Lemma streak_snoc r trace s :
  streak r (trace ++ [s])%list = if holds r s then streak r trace + 1 else 0.
Proof. unfold streak. by rewrite fold_left_app. Qed.

Lemma streak_nonneg r trace : 0 <= streak r trace.
Proof.
  induction trace as [|s t IH] using rev_ind; [done|]. rewrite streak_snoc.
  destruct (holds r s); lia.
Qed.

Lemma run_sorted rules trace : ev_sorted (run rules trace).
Proof.
  induction trace as [|s t IH] using rev_ind; [apply evaluator_default_sorted|].
  rewrite run_snoc. by apply evaluate_sorted.
Qed.

(** The stored count is the streak, saturated at [u32::MAX]. *)
Lemma run_count rules trace r :
  NoDup (map id rules) -> In r rules ->
  count_of (run rules trace) r = Z.min (streak r trace) u32_max.
Proof.
  intros Hnd Hin. induction trace as [|s t IH] using rev_ind; [done|].
  rewrite run_snoc, streak_snoc.
  rewrite (proj1 (evaluate_in _ s rules r (run_sorted rules t) Hnd Hin)).
  unfold next_count. rewrite IH. pose proof (streak_nonneg r t).
  destruct (holds r s); width_lia.
Qed.

(** ** Rule resolution *)

Definition resolved_ids (l : list ResolvedAlertRule) : list string :=
  map (fun e => id (r_rule e)) l.

Lemma update_known_ids l c l' :
  update_known l c = Some l' -> resolved_ids l' = resolved_ids l.
Proof.
  revert l'. induction l as [|e rest IH]; intros l'; simpl; [done|].
  destruct (String.eqb _ _); [by intros [= <-]|].
  destruct (update_known rest c) as [n|]; [|done]. intros [= <-]. simpl. f_equal. by apply IH.
Qed.

Lemma update_known_None l c :
  update_known l c = None <-> ~ In (c_id c) (resolved_ids l).
Proof.
  induction l as [|e rest IH]; simpl; [intuition|].
  destruct (String.eqb_spec (id (r_rule e)) (c_id c)) as [E|E].
  - split; [done|]. intuition.
  - destruct (update_known rest c); simpl; split; intuition; try done.
Qed.

Lemma update_known_lookup l c l' e :
  update_known l c = Some l' -> In e l' ->
  In e l \/ exists known, In known l /\ id (r_rule known) = c_id c /\ e = override_entry known c.
Proof.
  revert l'. induction l as [|x rest IH]; intros l'; simpl; [done|].
  destruct (String.eqb_spec (id (r_rule x)) (c_id c)) as [E|E].
  - intros [= <-] [<-|H]; [right; exists x; auto|by left; right].
  - destruct (update_known rest c) as [n|]; [|done]. intros [= <-] [<-|H]; [by left; left|].
    destruct (IH n eq_refl H) as [?|(k & ? & ? & ?)]; [by left; right|right; exists k; auto].
Qed.

Lemma apply_change_ids l c l' :
  apply_change l c = Ok l' ->
  resolved_ids l' = resolved_ids l \/
  (~ In (c_id c) (resolved_ids l) /\ resolved_ids l' = (resolved_ids l ++ [c_id c])%list).
Proof.
  unfold apply_change. destruct (update_known l c) as [n|] eqn:E.
  - intros [= <-]. left. by apply update_known_ids in E.
  - apply update_known_None in E. unfold new_rule.
    destruct (c_metric c), (c_comparison c), (c_threshold c), (c_severity c); simpl; try done.
    intros [= <-]. right. split; [done|]. unfold resolved_ids. by rewrite map_app.
Qed.

Lemma apply_changes_ids l cs l' :
  NoDup (resolved_ids l) -> apply_changes l cs = Ok l' ->
  NoDup (resolved_ids l') /\ exists extra, resolved_ids l' = (resolved_ids l ++ extra)%list.
Proof.
  revert l. induction cs as [|c rest IH]; intros l Hnd; simpl.
  { intros [= <-]. split; [done|]. exists []. by rewrite app_nil_r. }
  destruct (apply_change l c) as [n|e] eqn:E; simpl; [|done]. intros H.
  apply apply_change_ids in E as [E|[Hn E]].
  - rewrite <- E in Hnd. destruct (IH n Hnd H) as [H1 [x H2]].
    split; [done|]. exists x. by rewrite <- E.
  - assert (Hnd' : NoDup (resolved_ids n)).
    { rewrite E. apply list.NoDup_app. split; [done|]. split.
      - intros x Hx Hx2. apply list_elem_of_singleton in Hx2 as ->. by apply Hn, list_elem_of_In.
      - apply NoDup_singleton. }
    destruct (IH n Hnd' H) as [H1 [x H2]]. split; [done|].
    exists (c_id c :: x). rewrite H2, E. by rewrite <- app_assoc.
Qed.

(** A rule the evaluator can actually fire. *)
Definition rule_valid (r : AlertRule) : Prop :=
  In (metric r) ALERT_METRICS /\ is_finite (threshold r) = true /\
  (severity r = Warning \/ severity r = Critical).

Lemma validate_Ok r : validate r = Ok tt <-> rule_valid r.
Proof.
  unfold validate, rule_valid. rewrite <- str_contains_In.
  destruct (str_contains ALERT_METRICS (metric r)); simpl; [|intuition done].
  destruct (is_finite (threshold r)); simpl; [|intuition done].
  destruct (severity r); simpl; intuition done.
Qed.

Lemma collect_validate_Ok l us :
  collect_results (fun e => validate (r_rule e)) l = Ok us ->
  Forall (fun e => rule_valid (r_rule e)) l.
Proof.
  intros H%collect_results_Ok. induction H as [|e u l us H _ IH]; constructor; [|done].
  destruct u. by apply validate_Ok.
Qed.

(** ** Theorems *)

(** C15: After any sequence of samples a rule is active exactly when its
    condition held on the last [max(1, consecutive_samples)] samples in a row; an
    unreadable metric breaks the run, and the saturating [u32] counter never
    changes the verdict. *)
Theorem alert_active_iff_streak (rules : list AlertRule) (trace : list MetricSample) (r : AlertRule) :
  NoDup (map id rules) -> In r rules -> consecutive_samples r <= u32_max ->
  is_active (run rules trace) (id r) =
    (Z.max (consecutive_samples r) 1 <=? streak r trace).
Proof.
  intros Hnd Hin Hk. destruct trace as [|s t _] using rev_ind.
  { symmetry. apply Z.leb_gt. unfold streak. simpl. lia. }
  rewrite run_snoc, (proj2 (evaluate_in _ s rules r (run_sorted rules t) Hnd Hin)).
  unfold next_count, reaches. rewrite run_count, streak_snoc by done.
  pose proof (streak_nonneg r t). destruct (holds r s); [|done].
  apply eq_bool_prop_intro. rewrite !Is_true_true, !Z.leb_le. width_lia.
Qed.

Definition witness_sample (cpu : option f32) : MetricSample :=
  {| timestamp_ms := 1; sequence := 1; cpu_percent := cpu;
     memory_used_bytes := Some 95; memory_total_bytes := Some 100;
     swap_used_bytes := None; swap_total_bytes := None;
     disks := [{| mount := "/"; total_bytes := 1000; used_bytes := 946 |}];
     network := None; temperature := None; uptime_seconds := 1; errors := [] |}.

Definition witness_disk_rule : AlertRule :=
  rule "disk-capacity-warning" "disk_percent" GreaterThanOrEqual (f64_of_Z 90) 3 Warning.

Lemma alert_active_iff_streak_witness :
  is_active (run default_alert_rules (replicate 3 (witness_sample None))) "disk-capacity-warning"
    = true.
Proof.
  etransitivity; [apply (alert_active_iff_streak default_alert_rules
    (replicate 3 (witness_sample None)) witness_disk_rule); [by_computation|by left|vm_compute; done]|].
  vm_compute. reflexivity.
Defined.

(** The signals of one evaluation are exactly the activity transitions, one per
    rule whose verdict changed, in rule order: nothing is emitted for a rule that
    stays raised or stays clear. *)
Theorem evaluate_signals_are_transitions (st : AlertEvaluator) (s : MetricSample) (rules : list AlertRule) :
  ev_sorted st -> NoDup (map id rules) ->
  let '(st', sigs) := evaluate st s rules in
  map (fun sig => (rule_id sig, active sig)) sigs =
  flat_map (fun r => if Bool.eqb (is_active st' (id r)) (is_active st (id r)) then []
                     else [(id r, is_active st' (id r))]) rules.
Proof.
  intros Hs Hnd.
  assert (Hret : forall r, In r rules -> is_active (retained rules st) (id r) = is_active st (id r)).
  { intros r Hin. unfold is_active, bt_mem, retained. simpl. rewrite retained_get by apply Hs.
    assert (contains_rule rules (id r) = true) as -> by (apply contains_rule_In; by apply in_map).
    done. }
  unfold evaluate. fold (retained rules st). pose proof (retained_sorted rules st Hs) as Hs0.
  revert Hret Hs0. generalize (retained rules st). clear Hs.
  induction rules as [|r rest IH]; intros st0 Hret Hs0; simpl; [done|].
  pose proof Hnd as Hnd0.
  simpl in Hnd. apply list.NoDup_cons in Hnd as [Hn Hnd]. rewrite list_elem_of_In in Hn.
  pose proof (evaluate_rule_other s st0 r) as Hother.
  pose proof (evaluate_rule_sorted s st0 r Hs0) as Hs1.
  pose proof (evaluate_rules_in s (r :: rest) st0 r Hs0 Hnd0 (or_introl eq_refl)) as [_ Hself].
  pose proof (evaluate_rule_self s st0 r Hs0) as [_ Hself1].
  pose proof (evaluate_rule_signal s st0 r Hs0) as Hsig.
  simpl in Hself. destruct (evaluate_rule s st0 r) as [st1 sig]. simpl in *.
  specialize (IH Hnd st1).
  destruct (evaluate_rules s st1 rest) as [st2 sigs]. simpl in *.
  rewrite Hself, <- Hself1, <- (Hret r) by auto.
  rewrite <- IH; [|intros x Hx; rewrite <- (Hret x) by auto; unfold is_active, bt_mem;
    rewrite (proj2 (Hother (id x) ltac:(intros E; apply Hn; rewrite <- E; by apply in_map))); done
    |done].
  rewrite <- Hsig. by destruct sig.
Qed.

Lemma evaluate_signals_are_transitions_witness :
  let '(st', sigs) := evaluate evaluator_default (witness_sample None)
                        [rule "cpu" "cpu_percent" GreaterThanOrEqual (f64_of_Z 90) 1 Warning] in
  map (fun sig => (rule_id sig, active sig)) sigs = [].
Proof.
  pose proof (evaluate_signals_are_transitions evaluator_default (witness_sample None)
    [rule "cpu" "cpu_percent" GreaterThanOrEqual (f64_of_Z 90) 1 Warning]
    evaluator_default_sorted ltac:(by_computation)) as H.
  vm_compute in H |- *. exact H.
Defined.

(** Evaluating against a rule set leaves no count and no active alert of any
    other rule: a rule the caller no longer supplies cannot keep a severity or a
    detail line alive. *)
Theorem evaluate_forgets_dropped_rules (st : AlertEvaluator) (s : MetricSample)
    (rules : list AlertRule) (i : string) :
  ev_sorted st -> ~ In i (map id rules) ->
  bt_get i (counts (fst (evaluate st s rules))) = None /\
  bt_get i (actives (fst (evaluate st s rules))) = None.
Proof.
  intros Hs Hn. unfold evaluate. fold (retained rules st).
  destruct (evaluate_rules_notin s rules (retained rules st) i Hn) as [H1 H2].
  assert (Hc : contains_rule rules i = false)
    by (apply not_true_is_false; by rewrite contains_rule_In).
  rewrite H1, H2. unfold retained. simpl.
  rewrite !retained_get, Hc by apply Hs. done.
Qed.

Lemma evaluate_forgets_dropped_rules_witness :
  bt_get "disk-capacity-warning"
    (actives (fst (evaluate (run default_alert_rules (replicate 3 (witness_sample None)))
                     (witness_sample None) []))) = None.
Proof.
  apply (evaluate_forgets_dropped_rules (run default_alert_rules (replicate 3 (witness_sample None)))
    (witness_sample None) [] "disk-capacity-warning"); [apply run_sorted | simpl; tauto].
Defined.

(** When resolution accepts the operator's overrides, every effective rule can
    fire (known metric, finite threshold, warning or critical), no two rules share
    an id, and the shipped rules keep their positions in front. *)
Theorem resolve_alert_rules_sound (overrides : list AlertRuleConfig) (l : list ResolvedAlertRule) :
  resolve_alert_rules overrides = Ok l ->
  Forall (fun e => rule_valid (r_rule e)) l /\ NoDup (resolved_ids l) /\
  exists extra, resolved_ids l = (map id default_alert_rules ++ extra)%list.
Proof.
  unfold resolve_alert_rules.
  destruct (apply_changes _ overrides) as [l'|e] eqn:E; simpl; [|done].
  destruct (collect_results _ l') as [us|e] eqn:Ev; simpl; [|done]. intros [= <-].
  apply apply_changes_ids in E as [H1 H2]; [|by_computation].
  split; [by eapply collect_validate_Ok|]. split; [done|].
  destruct H2 as [x ->]. exists x. unfold resolved_ids. by rewrite map_map.
Qed.

Lemma resolve_alert_rules_sound_witness :
  Forall (fun e => rule_valid (r_rule e)) (map builtin default_alert_rules).
Proof.
  apply (resolve_alert_rules_sound [] (map builtin default_alert_rules)).
  vm_compute. reflexivity.
Defined.

(** The reported severity is the severity of some active alert and no active
    alert outranks it; it is absent exactly when nothing is active. *)
Theorem worst_active_severity_max (st : AlertEvaluator) :
  match worst_active_severity st with
  | Some worst =>
      In worst (map act_severity (bt_values (actives st))) /\
      forall a, In a (bt_values (actives st)) ->
        severity_rank (act_severity a) <= severity_rank worst
  | None => actives st = []
  end.
Proof.
  unfold worst_active_severity.
  set (cmp := fun a b : NodeState => severity_rank a ?= severity_rank b).
  assert (Hc : TotalCmp cmp).
  { split; unfold cmp; intros.
    - by rewrite Z.compare_antisym.
    - rewrite Z.compare_gt_iff in *. lia. }
  destruct (max_by cmp _) as [w|] eqn:E.
  - split; [by eapply max_by_In|]. intros a Ha.
    pose proof (max_by_max cmp _ _ (act_severity a) E ltac:(by apply in_map)) as H.
    unfold cmp in H. rewrite Z.compare_gt_iff in H. lia.
  - apply max_by_None in E. unfold bt_values in E. rewrite map_map in E.
    by destruct (actives st).
Qed.
