(* ===== verification/Collector.v ===== *)
(** The metric collector: [crates/rackio-core/src/collector.rs].

    What the operating system reports is an input ([Host]); the collector's state is
    the sequence number, the refresh instants and the disk and sensor lists it
    caches between refreshes. Instants and durations are nanoseconds. *)

From S2P Require Import Prelude Float Model.
From Stdlib Require Import SpecFloat.
Local Open Scope string_scope.
Local Open Scope Z_scope.

Definition DISK_REFRESH_INTERVAL : Z := 30 * 1000000000.
Definition TEMPERATURE_REFRESH_INTERVAL : Z := 10 * 1000000000.

(** One disk as listed: mount point, total and available space. *)
Definition DiskReading := (string * Z * Z)%type.
(** One sensor as listed: label, temperature, critical threshold. *)
Definition SensorReading := (string * option f32 * option f32)%type.

(** What [sysinfo] and the clocks return during one [sample] call. *)
Record Host := {
  h_cpu_count : Z;
  h_cpu_usage : f32;
  h_total_memory : Z;
  h_used_memory : Z;
  h_used_swap : Z;
  h_total_swap : Z;
  h_disks : list DiskReading;
  h_interfaces : list (Z * Z);
  h_sensors : list SensorReading;
  h_uptime : Z;
  h_wall_ms : Z;
  h_now : Z;
  h_elapsed_now : Z;
  h_refreshed_now : Z;
}.

Record SystemCollector := {
  col_disks : list DiskReading;
  col_components : list SensorReading;
  col_sequence : Z;
  last_network_refresh : Z;
  last_disk_refresh : Z;
  last_temperature_refresh : Z;
}.

(** [SystemCollector::new]: every list is refreshed once. *)
Definition collector_new (h : Host) : SystemCollector :=
  {| col_disks := h_disks h; col_components := h_sensors h; col_sequence := 0;
     last_network_refresh := h_now h; last_disk_refresh := h_now h;
     last_temperature_refresh := h_now h |}.

(** [duration_since] saturates to zero. *)
Definition refresh_due (last_refresh interval now : Z) : bool :=
  interval <=? sat_sub now last_refresh.

Definition readable_cpu_percent (cpu_count : Z) (usage : f32) : option f32 :=
  if cpu_count =? 0 then None else if is_finite usage then Some usage else None.

Definition readable_totals (interfaces received sent : Z) : option (Z * Z) :=
  if 0 <? interfaces then Some (received, sent) else None.

Definition readable_memory_total (total : Z) : option Z :=
  if 0 <? total then Some total else None.

Definition disk_metric (mnt : string) (total available : Z) : option DiskMetric :=
  if 0 <? total then
    Some {| mount := mnt; total_bytes := total; used_bytes := sat_sub total available |}
  else None.

Definition rate_per_second (bytes elapsed : Z) : Z :=
  let rate := default 0 (checked_div (sat_mul u128_max bytes 1000000000) elapsed) in
  default u64_max (try_from_u u64_max rate).

Definition network_metric (totals : option (Z * Z)) (elapsed : Z) : option NetworkMetric :=
  '(received, sent) ← totals;
  if elapsed =? 0 then None
  else Some {| received_bytes_per_second := rate_per_second received elapsed;
               sent_bytes_per_second := rate_per_second sent elapsed |}.

Definition filter_finite (o : option f32) : option f32 :=
  x ← o; if is_finite x then Some x else None.

Definition readable_sensors (sensors : list SensorReading) : list (string * f32 * option f32) :=
  omap (fun '(lbl, c, crit) => v ← filter_finite c; Some (lbl, v, filter_finite crit)) sensors.

Definition sensor_cmp (l r : string * f32 * option f32) : comparison :=
  total_cmp (snd (fst l)) (snd (fst r)).

Definition hottest_temperature (sensors : list SensorReading) : option TemperatureMetric :=
  let readable := readable_sensors sensors in
  let count := default u32_max (try_from_u u32_max (Z.of_nat (length readable))) in
  '(lbl, c, crit) ← max_by sensor_cmp readable;
  Some {| label := lbl; celsius := c; critical_celsius := crit; sensor_count := count |}.

Definition capability (name : string) (supported : bool) (detail : string) : MetricCapability :=
  {| cap_name := name;
     cap_state := if supported then Supported else Unsupported;
     cap_detail := if negb supported && negb (String.eqb detail "") then Some detail else None |}.

Definition capabilities_from (cpu memory : bool) (ndisks interfaces : Z) (temp : bool)
  : list MetricCapability := [
  capability "cpu" cpu "no CPU is readable";
  capability "memory" memory "total memory is not readable";
  capability "swap" true "";
  capability "disk" (0 <? ndisks) "no filesystem is enumerable";
  capability "network" (0 <? interfaces) "no network interface is enumerable";
  capability "temperature" temp "no temperature sensor is readable on this host"].

Definition opt_bool {A} (o : option A) : bool := match o with Some _ => true | None => false end.

(** [SystemCollector::capabilities], on the lists the collector holds. *)
Definition collector_capabilities (c : SystemCollector) (h : Host) : list MetricCapability :=
  capabilities_from
    (opt_bool (readable_cpu_percent (h_cpu_count h) (h_cpu_usage h)))
    (opt_bool (readable_memory_total (h_total_memory h)))
    (Z.of_nat (length (col_disks c))) (Z.of_nat (length (h_interfaces h)))
    (opt_bool (hottest_temperature (col_components c))).

Definition unavailable (source message : string) : CollectorError :=
  {| err_source := source; err_kind := Unsupported; err_message := message |}.

(** The fold over the interfaces: count, received and sent totals. *)
Definition interface_totals (interfaces : list (Z * Z)) : Z * Z * Z :=
  fold_left (fun '(count, received, sent) '(r, t) =>
    (sat_add u64_max count 1, sat_add u64_max received r, sat_add u64_max sent t))
    interfaces (0, 0, 0).

(** The [filter_map] over the listed disks. *)
Definition disk_metrics (listed : list DiskReading) : list DiskMetric :=
  omap (fun '(mnt, total, available) => disk_metric mnt total available) listed.

(** The errors pushed, in order, for the sources that were not readable. *)
Definition source_errors (cpu memory disk network_ : bool) : list CollectorError :=
  ((if cpu then [] else [unavailable "cpu" "no CPU usage is readable on this host"]) ++
   (if memory then [] else [unavailable "memory" "total memory is not readable"]) ++
   (if disk then [] else [unavailable "disk" "no filesystem could be enumerated"]) ++
   (if network_ then [] else
      [unavailable "network" "no network interface could be enumerated"]))%list.

Definition is_empty {A} (l : list A) : bool := match l with [] => true | _ => false end.

(** The two throttled refreshes at the start of [sample]. *)
Definition refresh_throttled (c : SystemCollector) (h : Host) : SystemCollector :=
  let disk_due := refresh_due (last_disk_refresh c) DISK_REFRESH_INTERVAL (h_now h) in
  let temp_due := refresh_due (last_temperature_refresh c) TEMPERATURE_REFRESH_INTERVAL (h_now h) in
  {| col_disks := if disk_due then h_disks h else col_disks c;
     col_components := if temp_due then h_sensors h else col_components c;
     col_sequence := col_sequence c;
     last_network_refresh := last_network_refresh c;
     last_disk_refresh := if disk_due then h_now h else last_disk_refresh c;
     last_temperature_refresh := if temp_due then h_now h else last_temperature_refresh c |}.

Definition sample (c : SystemCollector) (h : Host) : SystemCollector * MetricSample :=
  let c1 := refresh_throttled c h in
  let elapsed := sat_sub (h_elapsed_now h) (last_network_refresh c1) in
  let c2 := {| col_disks := col_disks c1; col_components := col_components c1;
               col_sequence := sat_add u64_max (col_sequence c1) 1;
               last_network_refresh := h_refreshed_now h;
               last_disk_refresh := last_disk_refresh c1;
               last_temperature_refresh := last_temperature_refresh c1 |} in
  let cpu := readable_cpu_percent (h_cpu_count h) (h_cpu_usage h) in
  let memory_total := readable_memory_total (h_total_memory h) in
  let memory_used := (fun _ => h_used_memory h) <$> memory_total in
  let ds := disk_metrics (col_disks c2) in
  let '(interface_count, received, sent) := interface_totals (h_interfaces h) in
  let net := network_metric (readable_totals interface_count received sent) elapsed in
  (c2,
   {| timestamp_ms := h_wall_ms h;
      sequence := col_sequence c2;
      cpu_percent := cpu;
      memory_used_bytes := memory_used;
      memory_total_bytes := memory_total;
      swap_used_bytes := Some (h_used_swap h);
      swap_total_bytes := Some (h_total_swap h);
      disks := ds;
      network := net;
      temperature := hottest_temperature (col_components c2);
      uptime_seconds := h_uptime h;
      errors := source_errors (opt_bool cpu) (opt_bool memory_total)
                  (negb (is_empty ds)) (negb (interface_count =? 0)) |}).

(** ** Lemmas *)

Lemma rate_per_second_exact bytes elapsed :
  in_u u64_max bytes -> 0 < elapsed ->
  rate_per_second bytes elapsed = Z.min (bytes * 1000000000 / elapsed) u64_max.
Proof.
  intros Hb He. unfold rate_per_second, checked_div, sat_mul.
  destruct (Z.eqb_spec elapsed 0); [lia|]. simpl.
  rewrite Z.min_l by width_lia.
  assert (Hq : 0 <= bytes * 1000000000 / elapsed) by (apply Z.div_pos; unfold in_u in *; lia).
  destruct (try_from_u u64_max (bytes * 1000000000 / elapsed)) as [q|] eqn:E; simpl.
  - apply try_from_u_Some in E as [-> ?]. unfold in_u in *. lia.
  - unfold try_from_u in E. destruct (_ && _)%bool eqn:Eb; [done|].
    apply andb_false_iff in Eb as [?|?]; bool_to_prop; lia.
Qed.

Lemma readable_sensors_In sensors lbl c crit :
  In (lbl, c, crit) (readable_sensors sensors) <->
  is_finite c = true /\
  exists crit0, In (lbl, Some c, crit0) sensors /\ crit = filter_finite crit0.
Proof.
  unfold readable_sensors. rewrite <- list_elem_of_In, list_elem_of_omap.
  setoid_rewrite list_elem_of_In. split.
  - intros ([[l0 c0] k0] & Hin & H). unfold filter_finite in H at 1.
    destruct c0 as [v|]; simpl in H; [|done].
    destruct (is_finite v) eqn:Ef; simpl in H; [|done]. injection H as -> -> <-. eauto.
  - intros (Hf & k0 & Hin & ->). exists (lbl, Some c, k0). split; [done|].
    simpl. by rewrite Hf.
Qed.

Lemma interface_count_pos l a b c :
  0 < a ->
  0 < fst (fst (fold_left (fun '(count, received, sent) '(r, t) =>
    (sat_add u64_max count 1, sat_add u64_max received r, sat_add u64_max sent t)) l (a, b, c))).
Proof.
  revert a b c. induction l as [|[x y] l IH]; intros a b c Ha; cbn [fold_left]; [done|].
  apply IH. width_lia.
Qed.

Lemma interface_count_0 interfaces :
  fst (fst (interface_totals interfaces)) = 0 <-> interfaces = [].
Proof.
  unfold interface_totals. split; [|by intros ->].
  destruct interfaces as [|[r t] rest]; [done|]. cbn [fold_left]. intros H0.
  pose proof (interface_count_pos rest (sat_add u64_max 0 1) (sat_add u64_max 0 r)
    (sat_add u64_max 0 t)) as H.
  rewrite H0 in H. assert (0 < sat_add u64_max 0 1) by width_lia. exfalso. lia.
Qed.

Lemma source_errors_In cpu memory disk net :
  let l := map err_source (source_errors cpu memory disk net) in
  (In "cpu" l <-> cpu = false) /\ (In "memory" l <-> memory = false) /\
  (In "disk" l <-> disk = false) /\ (In "network" l <-> net = false).
Proof. destruct cpu, memory, disk, net; simpl; intuition discriminate. Qed.

Lemma disk_metrics_wf l :
  Forall (fun '(_, _, available) => 0 <= available) l ->
  Forall (fun d => 0 < total_bytes d /\ 0 <= used_bytes d <= total_bytes d) (disk_metrics l).
Proof.
  intros Hav. apply Forall_forall. intros d. unfold disk_metrics.
  rewrite <- list_elem_of_In, list_elem_of_omap.
  intros ([[mnt t] a] & Hin & H). rewrite list_elem_of_In in Hin.
  rewrite Forall_forall in Hav. specialize (Hav _ Hin). simpl in Hav.
  unfold disk_metric in H. destruct (Z.ltb_spec 0 t); [|done]. injection H as <-. simpl.
  unfold sat_sub. lia.
Qed.

(** Which readings of a sample are absent. *)
Definition error_sources (s : MetricSample) : list string := map err_source (errors s).

(** ** Theorems *)

(** A sample never turns an unreadable source into a number: CPU and memory are
    absent exactly when the collector reports the matching error, an empty disk list
    and a host without interfaces are each reported, an interface-less host carries
    no network rate, and every published disk has positive capacity with no more
    bytes used than its total. *)
Theorem sample_absence_is_reported (c : SystemCollector) (h : Host) :
  Forall (fun '(_, _, available) => 0 <= available) (col_disks (refresh_throttled c h)) ->
  let s := snd (sample c h) in
  (cpu_percent s = None <-> In "cpu" (error_sources s)) /\
  (memory_total_bytes s = None <-> In "memory" (error_sources s)) /\
  (memory_used_bytes s = None <-> memory_total_bytes s = None) /\
  (disks s = [] <-> In "disk" (error_sources s)) /\
  (h_interfaces h = [] <-> In "network" (error_sources s)) /\
  (h_interfaces h = [] -> network s = None) /\
  Forall (fun d => 0 < total_bytes d /\ 0 <= used_bytes d <= total_bytes d) (disks s).
Proof.
  intros Hav. unfold sample, error_sources.
  pose proof (interface_count_0 (h_interfaces h)) as Hi.
  destruct (interface_totals (h_interfaces h)) as [[n rx] tx]. cbn [fst snd] in *.
  cbn [cpu_percent memory_total_bytes memory_used_bytes disks network errors col_disks].
  set (cpu := readable_cpu_percent _ _). set (mem := readable_memory_total _).
  pose proof (disk_metrics_wf _ Hav) as Hd.
  set (ds := disk_metrics (col_disks (refresh_throttled c h))) in *.
  destruct (source_errors_In (opt_bool cpu) (opt_bool mem) (negb (is_empty ds)) (negb (n =? 0)))
    as (H1 & H2 & H3 & H4).
  rewrite H1, H2, H3, H4, <- Hi, <- Z.eqb_eq.
  split; [by destruct cpu|]. split; [by destruct mem|]. split; [by destruct mem|].
  split; [by destruct ds|]. split; [by destruct (n =? 0)|]. split; [|done].
  intros E%Z.eqb_eq. by rewrite E.
Qed.

Definition witness_host (ifs : list (Z * Z)) : Host :=
  {| h_cpu_count := 0; h_cpu_usage := f32_of_Z 3; h_total_memory := 64; h_used_memory := 32;
     h_used_swap := 0; h_total_swap := 0;
     h_disks := [("/", 100, 40); ("/proc", 0, 0)]; h_interfaces := ifs;
     h_sensors := [("a", Some (f32_of_Z 40), None); ("b", Some S754_nan, None);
                   ("c", Some (f32_of_Z 61), Some (f32_of_Z 100))];
     h_uptime := 5; h_wall_ms := 1000; h_now := 0; h_elapsed_now := 2000000000;
     h_refreshed_now := 2000000001 |}.

Lemma sample_absence_is_reported_witness :
  network (snd (sample (collector_new (witness_host [])) (witness_host []))) = None.
Proof.
  apply (sample_absence_is_reported (collector_new (witness_host [])) (witness_host []));
    [repeat constructor; vm_compute; done | reflexivity].
Defined.

(** The published temperature is a finite reading of a listed sensor, labelled with
    that sensor, at least as hot as every other finite reading, and its count is the
    number of finite readings; no metric is published only when none is finite. *)
Theorem hottest_temperature_is_max (sensors : list SensorReading) :
  match hottest_temperature sensors with
  | Some t =>
      is_finite (celsius t) = true /\
      (exists crit, In (label t, Some (celsius t), crit) sensors /\
                    critical_celsius t = filter_finite crit) /\
      (forall lbl c crit, In (lbl, Some c, crit) sensors -> is_finite c = true ->
         total_cmp c (celsius t) <> Gt) /\
      sensor_count t = Z.min (Z.of_nat (length (readable_sensors sensors))) u32_max
  | None => forall lbl c crit, In (lbl, Some c, crit) sensors -> is_finite c = false
  end.
Proof.
  unfold hottest_temperature.
  assert (Hc : TotalCmp sensor_cmp).
  { split; unfold sensor_cmp; intros; [apply total_cmp_total|].
    by eapply (@cmp_trans _ _ total_cmp_total). }
  destruct (max_by sensor_cmp (readable_sensors sensors)) as [[[lbl c] crit]|] eqn:E; simpl.
  - pose proof (max_by_In _ _ _ E) as Hin. apply readable_sensors_In in Hin as (Hf & k & Hin & ->).
    repeat split; [done|by exists k| |].
    + intros l2 c2 k2 H2 Hf2.
      pose proof (max_by_max sensor_cmp _ _ (l2, c2, filter_finite k2) E) as H. apply H.
      apply readable_sensors_In. eauto.
    + unfold try_from_u. destruct (_ && _)%bool eqn:Eb; simpl; bool_to_prop; [lia|].
      apply andb_false_iff in Eb as [?|?]; bool_to_prop; lia.
  - apply max_by_None in E. intros lbl c k Hin.
    destruct (is_finite c) eqn:Ef; [|done].
    assert (H : In (lbl, c, filter_finite k) (readable_sensors sensors))
      by (apply readable_sensors_In; eauto).
    rewrite E in H. done.
Qed.

(** With at least one interface and a positive elapsed time, the published rates are
    the exact byte totals per second, rounded down and saturated at [u64::MAX]; the
    128-bit intermediate product never saturates. *)
Theorem network_rate_exact (received sent elapsed : Z) :
  in_u u64_max received -> in_u u64_max sent -> 0 < elapsed ->
  network_metric (Some (received, sent)) elapsed =
    Some {| received_bytes_per_second := Z.min (received * 1000000000 / elapsed) u64_max;
            sent_bytes_per_second := Z.min (sent * 1000000000 / elapsed) u64_max |}.
Proof.
  intros Hr Hs He. unfold network_metric. simpl.
  destruct (Z.eqb_spec elapsed 0); [lia|]. by rewrite !rate_per_second_exact.
Qed.

Lemma network_rate_exact_witness :
  network_metric (Some (5000, 7)) 2000000000 =
    Some {| received_bytes_per_second := 2500; sent_bytes_per_second := 3 |}.
Proof.
  etransitivity; [apply (network_rate_exact 5000 7 2000000000); vm_compute; done|].
  vm_compute. reflexivity.
Defined.

(** Disks are re-read at most once per thirty seconds and sensors at most once per
    ten: a sample that moves a refresh instant moves it forward by at least the
    interval, and a sample that does not move it republishes the cached list. *)
Theorem refresh_is_throttled (c : SystemCollector) (h : Host) :
  let c' := fst (sample c h) in
  (last_disk_refresh c' = last_disk_refresh c /\ col_disks c' = col_disks c \/
   DISK_REFRESH_INTERVAL <= last_disk_refresh c' - last_disk_refresh c /\
   last_disk_refresh c' = h_now h /\ col_disks c' = h_disks h) /\
  (last_temperature_refresh c' = last_temperature_refresh c /\
   col_components c' = col_components c \/
   TEMPERATURE_REFRESH_INTERVAL <= last_temperature_refresh c' - last_temperature_refresh c /\
   last_temperature_refresh c' = h_now h /\ col_components c' = h_sensors h).
Proof.
  unfold sample. destruct (interface_totals (h_interfaces h)) as [[n rx] tx].
  cbn [fst last_disk_refresh last_temperature_refresh col_disks col_components].
  unfold refresh_throttled, refresh_due, sat_sub.
  cbn [last_disk_refresh last_temperature_refresh col_disks col_components].
  split.
  - destruct (Z.leb_spec DISK_REFRESH_INTERVAL (Z.max (h_now h - last_disk_refresh c) 0));
      [right|by left]. unfold DISK_REFRESH_INTERVAL in *. repeat split; lia.
  - destruct (Z.leb_spec TEMPERATURE_REFRESH_INTERVAL
      (Z.max (h_now h - last_temperature_refresh c) 0)); [right|by left].
    unfold TEMPERATURE_REFRESH_INTERVAL in *. repeat split; lia.
Qed.
