(* ===== verification/Storage.v ===== *)
(** The bounded history store: [crates/rackio-core/src/storage.rs].

    The two SQLite tables are ordered maps on their integer primary keys; each SQL
    statement of the source is an operation on them. SQLite itself is outside the
    repository: whether the [n]-th statement of a connection fails, and what the page
    counters report, are parameters ([fault], [page_count], [page_size],
    [freelist_count]) that may depend on the whole statement history. The JSON text of
    a sample (serde) is behind the [SampleCodec] interface. *)

From S2P Require Import Prelude BTree Float Model.
From Stdlib Require Import SpecFloat.
Local Open Scope string_scope.
Local Open Scope Z_scope.

Definition RAW_RETENTION_MS : Z := 24 * 60 * 60 * 1000.
Definition MINUTE_RETENTION_MS : Z := 7 * 24 * 60 * 60 * 1000.
Definition MINUTE_MS : Z := 60 * 1000.
Definition SIZE_CAP_BYTES : Z := 64 * 1024 * 1024.
Definition SAMPLE_INTERVAL_MS : Z := 2000.
Definition MAX_QUERY_ROWS : Z := 24 * 60 * 60 * 1000 / 2000.

Inductive HistoryResolution := Raw | Minute.

Inductive StoreError := Sqlite | Json.

(** Samples whose floats JSON can carry: serde writes a non-finite float as null. *)
Definition opt_finite (o : option f32) : bool :=
  match o with Some x => is_finite x | None => true end.

Definition sample_finite (s : MetricSample) : bool :=
  opt_finite (cpu_percent s) &&
  match temperature s with
  | Some t => is_finite (celsius t) && opt_finite (critical_celsius t)
  | None => true
  end.

(** What the store relies on from serde: text of a finite sample reads back as it. *)
Class SampleCodec (J : Type) := {
  to_json : MetricSample -> option J;
  from_json : J -> option MetricSample;
  json_roundtrip s : sample_finite s = true ->
    exists j, to_json s = Some j /\ from_json j = Some s;
}.

(** A codec whose text is the sample itself. *)
#[export, refine] Instance identity_codec : SampleCodec MetricSample :=
  {| to_json := Some; from_json := Some |}.
Proof. eauto. Defined.

(** ** SQL values *)

(** A value in an INTEGER column: sums that overflow 64 bits become REAL. *)
Inductive SqlNum := SqlInt (z : Z) | SqlReal (x : f64).

Definition as_real (n : SqlNum) : f64 :=
  match n with SqlInt z => f64_of_Z z | SqlReal x => x end.

Definition sql_add (a b : SqlNum) : SqlNum :=
  match a, b with
  | SqlInt x, SqlInt y =>
      if (i64_min <=? x + y) && (x + y <=? i64_max) then SqlInt (x + y)
      else SqlReal (f64_add (as_real a) (as_real b))
  | _, _ => SqlReal (f64_add (as_real a) (as_real b))
  end.

(** SQLite has no NaN: binding or computing one yields NULL. *)
Definition sql_real (x : f64) : option f64 :=
  match x with S754_nan => None | _ => Some x end.

(** [COALESCE(a, 0) + COALESCE(b, 0)] on INTEGER and on REAL columns. *)
Definition coalesce_add (a b : option SqlNum) : option SqlNum :=
  Some (sql_add (default (SqlInt 0) a) (default (SqlInt 0) b)).
Definition coalesce_add_real (a b : option f64) : option f64 :=
  sql_real (f64_add (default (S754_zero false) a) (default (S754_zero false) b)).

(** [CASE WHEN ? IS NULL THEN 0 ELSE 1 END]. *)
Definition present {A} (o : option A) : Z := match o with Some _ => 1 | None => 0 end.

Section Store.
Context {J : Type} `{!SampleCodec J}.

(** One row of [minute_metrics]. *)
Record MinuteRow := {
  sample_count : Z;
  cpu_count : Z;
  cpu_sum : option f64;
  memory_used_count : Z;
  memory_used_sum : option SqlNum;
  rx_count : Z;
  rx_sum : option SqlNum;
  tx_count : Z;
  tx_sum : option SqlNum;
  disk_count : Z;
  disk_used_sum : option SqlNum;
  disk_total_sum : option SqlNum;
  temp_count : Z;
  temp_sum : option f64;
  swap_count : Z;
  swap_used_sum : option SqlNum;
  swap_total_sum : option SqlNum;
  last_sample_json : J;
}.

Record Tables := {
  metric_samples : list (Z * J);
  minute_metrics : list (Z * MinuteRow);
}.

(** The store: its tables, its size bound, and how many statements its connection has
    executed. *)
Record MetricStore := {
  tables : Tables;
  size_cap_bytes : Z;
  executed : nat;
}.

Context (fault : nat -> bool).
Context (page_count page_size freelist_count : nat -> Tables -> Z).

(** ** The connection as a state-and-error monad *)

Definition M (A : Type) : Type := MetricStore -> MetricStore * result A StoreError.

Definition mret {A} (a : A) : M A := fun s => (s, Ok a).
Definition mfail {A} (e : StoreError) : M A := fun s => (s, Err e).
Definition mbind {A B} (m : M A) (k : A -> M B) : M B := fun s =>
  match m s with (s1, Ok a) => k a s1 | (s1, Err e) => (s1, Err e) end.
Notation "'do' x := m 'in' k" := (mbind m (fun x => k))
  (at level 10, x pattern, m at level 100, k at level 200).

Definition with_tables (t : Tables) (s : MetricStore) : MetricStore :=
  {| tables := t; size_cap_bytes := size_cap_bytes s; executed := executed s |}.

(** Run one statement: it may fail, and otherwise acts on the tables. *)
Definition statement {A} (f : Tables -> Tables * A) : M A := fun s =>
  let s1 := {| tables := tables s; size_cap_bytes := size_cap_bytes s;
               executed := S (executed s) |} in
  if fault (executed s) then (s1, Err Sqlite)
  else let '(t, a) := f (tables s) in (with_tables t s1, Ok a).

(** A transaction: BEGIN, the body, COMMIT; an error rolls every change back. *)
Definition transaction {A} (body : M A) : M A := fun s =>
  match (do _ := statement (fun t => (t, tt)) in
         do a := body in
         do _ := statement (fun t => (t, tt)) in
         mret a) s with
  | (s1, Ok a) => (s1, Ok a)
  | (s1, Err e) => (with_tables (tables s) s1, Err e)
  end.

Definition lift_json {A} (o : option A) : M A :=
  match o with Some a => mret a | None => mfail Json end.

(** ** [insert_batch] *)

(** [div_euclid] by a positive number rounds down; only the product can leave the i64, for an
    instant in the first minute of the type, and then wraps. *)
Definition minute_of (ts : Z) : Z := i64_wrap (ts / MINUTE_MS * MINUTE_MS).

Definition int_param (o : option Z) : option SqlNum := SqlInt <$> (o ≫= try_from_i64).

Definition pair_param (o : option (Z * Z)) : option SqlNum * option SqlNum :=
  match o with
  | Some (used, total) =>
      match try_from_i64 used, try_from_i64 total with
      | Some u, Some t => (Some (SqlInt u), Some (SqlInt t))
      | _, _ => (None, None)
      end
  | None => (None, None)
  end.

(** The row the INSERT proposes for one sample ([excluded] on conflict). *)
Definition row_of_sample (s : MetricSample) (json : J) : MinuteRow :=
  let cpu := cpu_percent s ≫= fun c => sql_real (f64_of_f32 c) in
  let memory := int_param (memory_used_bytes s) in
  let rx := int_param (received_bytes_per_second <$> network s) in
  let tx := int_param (sent_bytes_per_second <$> network s) in
  let disk := pair_param ((fun d => (used_bytes d, total_bytes d)) <$> worst_disk s) in
  let temp := temperature s ≫= fun t => sql_real (f64_of_f32 (celsius t)) in
  let swap := pair_param (u ← swap_used_bytes s; t ← swap_total_bytes s; Some (u, t)) in
  {| sample_count := 1;
     cpu_count := present cpu; cpu_sum := cpu;
     memory_used_count := present memory; memory_used_sum := memory;
     rx_count := present rx; rx_sum := rx;
     tx_count := present tx; tx_sum := tx;
     disk_count := present (fst disk); disk_used_sum := fst disk; disk_total_sum := snd disk;
     temp_count := present temp; temp_sum := temp;
     swap_count := present (fst swap); swap_used_sum := fst swap; swap_total_sum := snd swap;
     last_sample_json := json |}.

(** [ON CONFLICT(minute_ms) DO UPDATE SET ...]. *)
Definition merge_row (old excluded : MinuteRow) : MinuteRow :=
  {| sample_count := sample_count old + 1;
     cpu_count := cpu_count old + cpu_count excluded;
     cpu_sum := coalesce_add_real (cpu_sum old) (cpu_sum excluded);
     memory_used_count := memory_used_count old + memory_used_count excluded;
     memory_used_sum := coalesce_add (memory_used_sum old) (memory_used_sum excluded);
     rx_count := rx_count old + rx_count excluded;
     rx_sum := coalesce_add (rx_sum old) (rx_sum excluded);
     tx_count := tx_count old + tx_count excluded;
     tx_sum := coalesce_add (tx_sum old) (tx_sum excluded);
     disk_count := disk_count old + disk_count excluded;
     disk_used_sum := coalesce_add (disk_used_sum old) (disk_used_sum excluded);
     disk_total_sum := coalesce_add (disk_total_sum old) (disk_total_sum excluded);
     temp_count := temp_count old + temp_count excluded;
     temp_sum := coalesce_add_real (temp_sum old) (temp_sum excluded);
     swap_count := swap_count old + swap_count excluded;
     swap_used_sum := coalesce_add (swap_used_sum old) (swap_used_sum excluded);
     swap_total_sum := coalesce_add (swap_total_sum old) (swap_total_sum excluded);
     last_sample_json := last_sample_json excluded |}.

(** [INSERT INTO metric_samples ... ON CONFLICT DO NOTHING]: returns the row count. *)
Definition insert_raw (ts : Z) (json : J) (t : Tables) : Tables * Z :=
  if bt_mem ts (metric_samples t) then (t, 0)
  else ({| metric_samples := bt_insert ts json (metric_samples t);
           minute_metrics := minute_metrics t |}, 1).

Definition upsert_minute (minute : Z) (row : MinuteRow) (t : Tables) : Tables * unit :=
  let next := match bt_get minute (minute_metrics t) with
    | Some old => merge_row old row
    | None => row
    end in
  ({| metric_samples := metric_samples t;
      minute_metrics := bt_insert minute next (minute_metrics t) |}, tt).

Definition insert_sample (s : MetricSample) : M unit :=
  do json := lift_json (to_json s) in
  do inserted := statement (insert_raw (timestamp_ms s) json) in
  if inserted =? 0 then mret tt
  else
    do json := lift_json (to_json s) in
    statement (upsert_minute (minute_of (timestamp_ms s)) (row_of_sample s json)).

Fixpoint insert_samples (samples : list MetricSample) : M unit :=
  match samples with
  | [] => mret tt
  | s :: rest => do _ := insert_sample s in insert_samples rest
  end.

Definition insert_batch (samples : list MetricSample) : M unit :=
  transaction (insert_samples samples).

(** ** Queries *)

Definition between (from_ms to_ms k : Z) : bool := (from_ms <=? k) && (k <=? to_ms).

(** [WHERE key BETWEEN from AND to ORDER BY key LIMIT n]; a limit beyond [i64] is
    [i64::MAX]. *)
Definition select_page {V} (from_ms to_ms limit : Z) (table : list (Z * V)) : list (Z * V) :=
  let limit := default i64_max (try_from_i64 limit) in
  take (Z.to_nat limit) (List.filter (fun e => between from_ms to_ms (fst e)) table).

Definition parse_json (j : J) : result MetricSample StoreError := ok_or (from_json j) Json.

Definition query_raw (from_ms to_ms limit : Z) : M (list MetricSample) :=
  do rows := statement (fun t => (t, select_page from_ms to_ms limit (metric_samples t))) in
  fun s => (s, collect_results (fun e => parse_json (snd e)) rows).

(** [row.get::<_, Option<i64>>]: a REAL value is a type error. *)
Definition get_int (o : option SqlNum) : result (option Z) StoreError :=
  match o with
  | None => Ok None
  | Some (SqlInt z) => Ok (Some z)
  | Some (SqlReal _) => Err Sqlite
  end.

Definition average_f64 (sum : option f64) (count : Z) : option f64 :=
  c ← try_from_u u32_max count;
  if 0 <? c then (fun v => f64_div v (f64_of_Z c)) <$> sum else None.

(** Rust's [i64] division truncates towards zero. *)
Definition average_i64 (sum : option Z) (count : Z) : option Z :=
  if 0 <? count then v ← sum; try_from_u u64_max (Z.quot v count) else None.

Definition minute_label : string := "(minute average)".

Definition sample_of_row (minute : Z) (row : MinuteRow) : result MetricSample StoreError :=
  let? memory := get_int (memory_used_sum row) in
  let? rx := get_int (rx_sum row) in
  let? tx := get_int (tx_sum row) in
  let? disk_used := get_int (disk_used_sum row) in
  let? disk_total := get_int (disk_total_sum row) in
  let? swap_used := get_int (swap_used_sum row) in
  let? swap_total := get_int (swap_total_sum row) in
  let? last := parse_json (last_sample_json row) in
  Ok {| timestamp_ms := minute;
        sequence := sequence last;
        cpu_percent := f32_of_f64 <$> average_f64 (cpu_sum row) (cpu_count row);
        memory_used_bytes := average_i64 memory (memory_used_count row);
        memory_total_bytes := memory_total_bytes last;
        swap_used_bytes := average_i64 swap_used (swap_count row);
        swap_total_bytes := average_i64 swap_total (swap_count row);
        disks := if 0 <? disk_count row then
          [{| mount := minute_label;
              total_bytes := default 0 (average_i64 disk_total (disk_count row));
              used_bytes := default 0 (average_i64 disk_used (disk_count row)) |}] else [];
        network := if (0 <? rx_count row) || (0 <? tx_count row) then
          Some {| received_bytes_per_second := default 0 (average_i64 rx (rx_count row));
                  sent_bytes_per_second := default 0 (average_i64 tx (tx_count row)) |} else None;
        temperature := (fun c => {| label := minute_label; celsius := f32_of_f64 c;
                                    critical_celsius := None; sensor_count := 0 |})
          <$> average_f64 (temp_sum row) (temp_count row);
        uptime_seconds := uptime_seconds last;
        errors := errors last |}.

Definition query_minute (from_ms to_ms limit : Z) : M (list MetricSample) :=
  do rows := statement (fun t => (t, select_page from_ms to_ms limit (minute_metrics t))) in
  fun s => (s, collect_results (fun e => sample_of_row (fst e) (snd e)) rows).

Definition query_page (from_ms to_ms : Z) (resolution : HistoryResolution) (limit : Z)
  : M (list MetricSample) :=
  match resolution with
  | Raw => query_raw from_ms to_ms limit
  | Minute => query_minute from_ms to_ms limit
  end.

Definition query (from_ms to_ms : Z) (resolution : HistoryResolution) : M (list MetricSample) :=
  query_page from_ms to_ms resolution MAX_QUERY_ROWS.

(** [ORDER BY timestamp_ms DESC LIMIT 1]. *)
Definition latest : M (option MetricSample) :=
  do row := statement (fun t => (t, snd <$> head (rev (metric_samples t)))) in
  match row with
  | None => mret None
  | Some j => fun s => (s, let? v := parse_json j in Ok (Some v))
  end.

(** ** Retention and the size cap *)

Definition delete_before {V} (cutoff : Z) (table : list (Z * V)) : list (Z * V) :=
  List.filter (fun e => negb (fst e <? cutoff)) table.

Definition pragma (p : nat -> Tables -> Z) : M Z := fun s =>
  statement (fun t => (t, p (executed s) t)) s.

Definition i64_sat_mul (a b : Z) : Z := i64_clamp (a * b).

Definition database_allocated_size_bytes : M Z :=
  do pages := pragma page_count in
  do size := pragma page_size in
  mret (i64_sat_mul pages size).

Definition database_live_size_bytes : M Z :=
  do allocated := database_allocated_size_bytes in
  do free := pragma freelist_count in
  do size := pragma page_size in
  mret (i64_sat_sub allocated (i64_sat_mul free size)).

(** Delete the 1000 rows with the smallest keys; returns how many were deleted. *)
Definition delete_oldest_raw (t : Tables) : Tables * nat :=
  ({| metric_samples := skipn 1000 (metric_samples t); minute_metrics := minute_metrics t |},
   Nat.min 1000 (length (metric_samples t))).
Definition delete_oldest_minute (t : Tables) : Tables * nat :=
  ({| metric_samples := metric_samples t; minute_metrics := skipn 1000 (minute_metrics t) |},
   Nat.min 1000 (length (minute_metrics t))).

(** The [while] loop; [None] when the fuel runs out. *)
Fixpoint reclaim_loop (fuel : nat) (cap : Z) (deleted_any : bool) : M (option bool) :=
  match fuel with
  | O => mret None
  | S fuel =>
      do live := database_live_size_bytes in
      if live <=? cap then mret (Some deleted_any)
      else
        do deleted := statement delete_oldest_raw in
        do deleted := (if (deleted =? 0)%nat then statement delete_oldest_minute else mret deleted) in
        if (deleted =? 0)%nat then mret (Some deleted_any)
        else reclaim_loop fuel cap true
  end.

Definition rows (t : Tables) : nat := length (metric_samples t) + length (minute_metrics t).

(** Every round but the last deletes a row, so one round more than there are rows is
    enough. *)
Definition enforce_size_cap_bytes (cap : Z) : M (option unit) := fun s =>
  (do outcome := reclaim_loop (S (rows (tables s))) cap false in
   match outcome with
   | None => mret None
   | Some deleted_any =>
       do compact := (if deleted_any then mret true
                      else do allocated := database_allocated_size_bytes in
                           mret (cap <? allocated)) in
       if (compact : bool) then do _ := statement (fun t => (t, tt)) in mret (Some tt)
       else mret (Some tt)
   end) s.

Definition prune (now_ms : Z) : M (option unit) := fun s =>
  (do _ := transaction (
     do _ := statement (fun t =>
       ({| metric_samples := delete_before (now_ms - RAW_RETENTION_MS) (metric_samples t);
           minute_metrics := minute_metrics t |}, tt)) in
     statement (fun t =>
       ({| metric_samples := metric_samples t;
           minute_metrics := delete_before (now_ms - MINUTE_RETENTION_MS) (minute_metrics t) |},
        tt))) in
   enforce_size_cap_bytes (size_cap_bytes s)) s.

(** ** Lemmas: the effect of an insertion on the tables *)

(** One accepted insertion, as a function on the tables. *)
Definition insert_tables (t : Tables) (s : MetricSample) : Tables :=
  match to_json s with
  | None => t
  | Some j =>
      if bt_mem (timestamp_ms s) (metric_samples t) then t
      else fst (upsert_minute (minute_of (timestamp_ms s)) (row_of_sample s j)
                 (fst (insert_raw (timestamp_ms s) j t)))
  end.

Lemma statement_cases {A} (f : Tables -> Tables * A) st :
  (exists st', statement f st = (st', Err Sqlite) /\ tables st' = tables st) \/
  (exists st', statement f st = (st', Ok (snd (f (tables st)))) /\
               tables st' = fst (f (tables st)) /\ size_cap_bytes st' = size_cap_bytes st).
Proof.
  unfold statement. destruct (fault (executed st)); [left; eauto|right].
  destruct (f (tables st)) as [t a] eqn:E. eexists. simpl. eauto.
Qed.

Lemma insert_sample_Ok s st st' :
  insert_sample s st = (st', Ok tt) -> tables st' = insert_tables (tables st) s.
Proof.
  unfold insert_sample, lift_json, insert_tables, mbind.
  destruct (to_json s) as [j|]; [|done]. unfold mret at 1.
  destruct (statement_cases (insert_raw (timestamp_ms s) j) st)
    as [(s1 & -> & H)|(s1 & -> & H & _)]; [done|].
  unfold insert_raw in *. destruct (bt_mem (timestamp_ms s) (metric_samples (tables st))); simpl in *.
  - unfold mret. intros [= <-]. done.
  - unfold mret.
    destruct (statement_cases (upsert_minute (minute_of (timestamp_ms s)) (row_of_sample s j)) s1)
      as [(s2 & -> & H2)|(s2 & -> & H2 & _)]; [done|].
    intros [= <-]. by rewrite H2, H.
Qed.

Lemma insert_samples_Ok samples st st' :
  insert_samples samples st = (st', Ok tt) ->
  tables st' = fold_left insert_tables samples (tables st).
Proof.
  revert st. induction samples as [|s rest IH]; intros st; cbn [insert_samples].
  - by intros [= <-].
  - unfold mbind. destruct (insert_sample s st) as [s1 [[]|e]] eqn:E; [|done].
    intros H. cbn [fold_left]. rewrite (IH s1 H). by rewrite (insert_sample_Ok s st s1 E).
Qed.

Lemma transaction_cases {A} (body : M A) st st' r :
  transaction body st = (st', r) ->
  match r with
  | Ok a => exists s1 s2, tables s1 = tables st /\ body s1 = (s2, Ok a) /\ tables st' = tables s2
  | Err _ => tables st' = tables st
  end.
Proof.
  unfold transaction, mbind.
  destruct (statement_cases (fun t => (t, tt)) st) as [(s1 & -> & H)|(s1 & -> & H & _)].
  { by intros [= <- <-]. }
  simpl. destruct (body s1) as [s2 [a|e]] eqn:E; [|by intros [= <- <-]].
  destruct (statement_cases (fun t => (t, tt)) s2) as [(s3 & -> & H3)|(s3 & -> & H3 & _)].
  - by intros [= <- <-].
  - unfold mret. intros [= <- <-]. exists s1, s2. split; [done|]. split; [done|]. done.
Qed.

Lemma insert_samples_written samples st st' :
  insert_samples samples st = (st', Ok tt) -> Forall (fun s => is_Some (to_json s)) samples.
Proof.
  revert st. induction samples as [|s rest IH]; intros st; cbn [insert_samples]; [constructor|].
  unfold mbind. destruct (insert_sample s st) as [s1 [[]|e]] eqn:E; [|done]. intros H.
  constructor; [|by eapply IH]. unfold insert_sample, mbind, lift_json in E.
  destruct (to_json s); [by eexists|done].
Qed.

Lemma insert_tables_get_raw t s ts j :
  bt_get ts (metric_samples t) = Some j ->
  bt_get ts (metric_samples (insert_tables t s)) = Some j.
Proof.
  intros H. unfold insert_tables, insert_raw. destruct (to_json s) as [k|]; [|done].
  destruct (bt_mem (timestamp_ms s) (metric_samples t)) eqn:E; [done|]. simpl.
  rewrite bt_get_insert_ne; [done|]. intros <-. unfold bt_mem in E. by rewrite H in E.
Qed.

Lemma fold_insert_tables_get_raw samples t ts j :
  bt_get ts (metric_samples t) = Some j ->
  bt_get ts (metric_samples (fold_left insert_tables samples t)) = Some j.
Proof.
  revert t. induction samples as [|s rest IH]; intros t H; cbn [fold_left]; [done|].
  by apply IH, insert_tables_get_raw.
Qed.

(** A sample that was inserted has a row, its own or that of an earlier sample of its
    millisecond. *)
Lemma inserted_has_row samples t s :
  In s samples -> is_Some (to_json s) ->
  bt_mem (timestamp_ms s) (metric_samples (fold_left insert_tables samples t)) = true.
Proof.
  intros Hin [j Hj]. apply in_split in Hin as (l1 & l2 & ->). rewrite fold_left_app. cbn [fold_left].
  set (t1 := fold_left insert_tables l1 t).
  assert (H : exists k, bt_get (timestamp_ms s) (metric_samples (insert_tables t1 s)) = Some k).
  { unfold insert_tables, bt_mem. rewrite Hj.
    destruct (bt_get (timestamp_ms s) (metric_samples t1)) as [k|] eqn:E; [by exists k|].
    exists j. unfold insert_raw, bt_mem. rewrite E. cbn [fst upsert_minute metric_samples].
    apply bt_get_insert_eq. }
  destruct H as [k H]. unfold bt_mem. by rewrite (fold_insert_tables_get_raw l2 _ _ k H).
Qed.

(** ** Lemmas: the minute table is the aggregate of the accepted samples *)

(** Fold a minute's samples into its row. *)
Definition add_to_row (o : option MinuteRow) (s : MetricSample) : option MinuteRow :=
  match to_json s with
  | None => o
  | Some j => Some (match o with
                    | Some old => merge_row old (row_of_sample s j)
                    | None => row_of_sample s j
                    end)
  end.

Definition aggregate (l : list MetricSample) : option MinuteRow := fold_left add_to_row l None.

Definition of_minute (m : Z) (l : list MetricSample) : list MetricSample :=
  List.filter (fun s => minute_of (timestamp_ms s) =? m) l.

(** The tables hold exactly the samples of [log], each millisecond once. *)
Record consistent (log : list MetricSample) (t : Tables) : Prop := {
  con_raw_sorted : bt_sorted (metric_samples t);
  con_minute_sorted : bt_sorted (minute_metrics t);
  con_raw ts : bt_get ts (metric_samples t) =
    s ← head (List.filter (fun s => timestamp_ms s =? ts) log); to_json s;
  con_json : Forall (fun s => is_Some (to_json s)) log;
  con_once : NoDup (timestamp_ms <$> log);
  con_minute m : bt_get m (minute_metrics t) = aggregate (of_minute m log);
}.

(** A sample is accepted when its text can be written and its millisecond is new. *)
Definition accept (log : list MetricSample) (s : MetricSample) : list MetricSample :=
  if negb (bool_decide (is_Some (to_json s))) || existsb (fun x => timestamp_ms x =? timestamp_ms s) log
  then log else (log ++ [s])%list.

Definition accept_all (log samples : list MetricSample) : list MetricSample :=
  fold_left accept samples log.

Definition empty_tables : Tables := {| metric_samples := []; minute_metrics := [] |}.

Lemma consistent_empty : consistent [] empty_tables.
Proof. split; try constructor; done. Qed.

Lemma filter_existsb {A} (f : A -> bool) l : existsb f l = false <-> List.filter f l = [].
Proof.
  induction l as [|x xs IH]; simpl; [done|]. destruct (f x); simpl; [done|]. apply IH.
Qed.

Lemma consistent_mem log t ts :
  consistent log t ->
  bt_mem ts (metric_samples t) = existsb (fun x => timestamp_ms x =? ts) log.
Proof.
  intros C. unfold bt_mem. rewrite (con_raw _ _ C).
  destruct (existsb (fun x => timestamp_ms x =? ts) log) eqn:E.
  - destruct (List.filter (fun x => timestamp_ms x =? ts) log) as [|x xs] eqn:F.
    { apply filter_existsb in F. congruence. }
    assert (Hx : In x log) by (apply (filter_In (fun x => timestamp_ms x =? ts)); rewrite F; by left).
    pose proof (con_json _ _ C) as Hj. rewrite Forall_forall in Hj.
    destruct (Hj x Hx) as [j Ej]. simpl. by rewrite Ej.
  - apply filter_existsb in E. by rewrite E.
Qed.

Lemma of_minute_snoc m l s :
  of_minute m (l ++ [s])%list =
    (of_minute m l ++ if minute_of (timestamp_ms s) =? m then [s] else [])%list.
Proof. unfold of_minute. rewrite filter_app. simpl. by destruct (_ =? m). Qed.

Lemma aggregate_snoc l s : aggregate (l ++ [s])%list = add_to_row (aggregate l) s.
Proof. unfold aggregate. by rewrite fold_left_app. Qed.

Lemma consistent_insert log t s :
  consistent log t -> consistent (accept log s) (insert_tables t s).
Proof.
  intros C. unfold accept, insert_tables.
  destruct (to_json s) as [j|] eqn:Ej.
  2: { rewrite (bool_decide_eq_false_2 (is_Some None)) by (intros [? ?]; done). done. }
  rewrite (bool_decide_eq_true_2 (is_Some (Some j))) by eauto. simpl.
  rewrite (consistent_mem log t _ C).
  destruct (existsb (fun x => timestamp_ms x =? timestamp_ms s) log) eqn:E; [done|].
  unfold insert_raw. rewrite (consistent_mem log t _ C), E. simpl.
  apply filter_existsb in E. destruct C as [R1 R2 R3 R4 R6 R5].
  split; simpl.
  - by apply bt_insert_sorted.
  - by apply bt_insert_sorted.
  - intros ts. rewrite filter_app. simpl. destruct (Z.eqb_spec (timestamp_ms s) ts) as [<-|Hne].
    + rewrite bt_get_insert_eq, E. simpl. by rewrite Ej.
    + rewrite bt_get_insert_ne, app_nil_r by done. apply R3.
  - apply Forall_app. split; [done|]. repeat constructor. by rewrite Ej.
  - rewrite fmap_app. apply list.NoDup_app. repeat split; [done| |apply NoDup_singleton].
    intros ts Hts ->%list_elem_of_singleton. apply list_elem_of_fmap in Hts as (x & Ex & Hx).
    rewrite list_elem_of_In in Hx.
    assert (Hf : In x (List.filter (fun x => timestamp_ms x =? timestamp_ms s) log))
      by (apply filter_In; split; [done|by apply Z.eqb_eq]).
    by rewrite E in Hf.
  - intros m. rewrite of_minute_snoc.
    destruct (Z.eqb_spec (minute_of (timestamp_ms s)) m) as [<-|Hne].
    + rewrite bt_get_insert_eq, aggregate_snoc, <- (R5 (minute_of (timestamp_ms s))).
      unfold add_to_row. rewrite Ej. done.
    + rewrite bt_get_insert_ne, app_nil_r by done. apply R5.
Qed.

Lemma consistent_inserts samples log t :
  consistent log t ->
  consistent (accept_all log samples) (fold_left insert_tables samples t).
Proof.
  unfold accept_all. revert log t.
  induction samples as [|s rest IH]; intros log t C; cbn [fold_left]; [done|].
  by apply IH, consistent_insert.
Qed.

(** ** Lemmas: integer sums of an aggregate *)

(** The readings of one field that reach SQL as an integer. *)
Definition int_readings (f : MetricSample -> option Z) (l : list MetricSample) : list Z :=
  omap (fun s => f s ≫= try_from_i64) l.

Definition sum_Z (l : list Z) : Z := fold_right Z.add 0 l.

Lemma sum_Z_app a b : sum_Z (a ++ b)%list = sum_Z a + sum_Z b.
Proof. induction a as [|x a IH]; simpl; [done|]. rewrite IH. lia. Qed.

Definition memory_of (s : MetricSample) : option Z := memory_used_bytes s.

Lemma int_readings_nonneg f l :
  Forall (fun s => opt_wf u64_max (f s)) l -> Forall (fun z => 0 <= z) (int_readings f l).
Proof.
  intros H. apply Forall_forall. intros z. unfold int_readings.
  rewrite <- list_elem_of_In, list_elem_of_omap. intros (s & Hs & E).
  rewrite list_elem_of_In in Hs. rewrite Forall_forall in H. specialize (H s Hs).
  destruct (f s) as [v|]; simpl in E; [|done]. apply try_from_i64_Some in E as [-> _].
  destruct (H v eq_refl). done.
Qed.

Lemma sum_Z_nonneg l : Forall (fun z => 0 <= z) l -> 0 <= sum_Z l.
Proof. induction 1; simpl; lia. Qed.

(** What a row of a minute with samples [l] says about memory, as long as the sum fits. *)
Definition memory_exact (l : list MetricSample) (row : MinuteRow) : Prop :=
  memory_used_count row = Z.of_nat (length (int_readings memory_of l)) /\
  default (SqlInt 0) (memory_used_sum row) = SqlInt (sum_Z (int_readings memory_of l)) /\
  (memory_used_sum row = None -> int_readings memory_of l = []) /\
  sample_count row = Z.of_nat (length l).

Lemma int_readings_snoc f l s :
  int_readings f (l ++ [s])%list =
    (int_readings f l ++ match f s ≫= try_from_i64 with Some z => [z] | None => [] end)%list.
Proof.
  unfold int_readings. rewrite omap_app. simpl. by destruct (f s ≫= try_from_i64).
Qed.

Lemma sql_add_int x y :
  i64_min <= x + y <= i64_max -> sql_add (SqlInt x) (SqlInt y) = SqlInt (x + y).
Proof. intros [? ?]. unfold sql_add. by rewrite !(proj2 (Z.leb_le _ _)) by done. Qed.

Lemma default_int o : default (SqlInt 0) (SqlInt <$> o) = SqlInt (default 0 o).
Proof. by destruct o. Qed.

Lemma option_list_facts (o : option Z) :
  sum_Z (match o with Some z => [z] | None => [] end) = default 0 o /\
  Z.of_nat (length (match o with Some z => [z] | None => [] end)) = present (SqlInt <$> o).
Proof. destruct o; simpl; lia. Qed.

Lemma aggregate_memory l :
  Forall (fun s => is_Some (to_json s)) l ->
  Forall (fun s => opt_wf u64_max (memory_of s)) l ->
  sum_Z (int_readings memory_of l) <= i64_max ->
  match aggregate l with
  | Some row => memory_exact l row
  | None => l = []
  end.
Proof.
  induction l as [|s l IH] using rev_ind; intros Hj Hw Hs; [done|].
  apply Forall_app in Hj as [Hj [[j Ej] _]%Forall_cons_iff].
  apply Forall_app in Hw as [Hw [Hws _]%Forall_cons_iff].
  pose proof (sum_Z_nonneg _ (int_readings_nonneg memory_of l Hw)) as Hpos.
  rewrite int_readings_snoc, sum_Z_app in Hs.
  assert (Hz : 0 <= sum_Z (match memory_of s ≫= try_from_i64 with Some z => [z] | None => [] end)).
  { unfold memory_of in *. destruct (memory_used_bytes s) as [v|]; simpl; [|lia].
    destruct (try_from_i64 v) eqn:E; simpl; [|lia]. apply try_from_i64_Some in E as [-> _].
    destruct (Hws v eq_refl). lia. }
  specialize (IH Hj Hw ltac:(lia)).
  rewrite aggregate_snoc. unfold add_to_row. rewrite Ej.
  destruct (option_list_facts (memory_of s ≫= try_from_i64)) as [O1 O2].
  unfold memory_exact in *.
  rewrite int_readings_snoc, sum_Z_app, !length_app, !Nat2Z.inj_add, O1, O2.
  rewrite O1 in Hz, Hs. unfold memory_of in *.
  destruct (aggregate l) as [row|].
  - destruct IH as (H1 & H2 & H3 & H4). cbn [merge_row row_of_sample memory_used_count
      memory_used_sum sample_count]. unfold int_param, coalesce_add.
    cbn [default]. rewrite H1, H2, H4, default_int, sql_add_int by width_lia.
    repeat split; done.
  - subst l. cbn [row_of_sample memory_used_count memory_used_sum sample_count].
    unfold int_param. rewrite default_int. repeat split; try done.
    destruct (memory_used_bytes s ≫= try_from_i64); done.
Qed.

(** ** Lemmas: reclaiming space *)

Lemma pragma_tables p st st' r : pragma p st = (st', r) -> tables st' = tables st.
Proof.
  unfold pragma. destruct (statement_cases (fun t => (t, p (executed st) t)) st)
    as [(s1 & -> & H)|(s1 & -> & H & _)]; by intros [= <- _].
Qed.

Lemma allocated_tables st st' r :
  database_allocated_size_bytes st = (st', r) -> tables st' = tables st.
Proof.
  unfold database_allocated_size_bytes, mbind, mret.
  destruct (pragma page_count st) as [s1 [a|e]] eqn:E1; apply pragma_tables in E1;
    [|intros [= <- _]; done].
  destruct (pragma page_size s1) as [s2 [b|e]] eqn:E2; apply pragma_tables in E2;
    intros [= <- _]; congruence.
Qed.

Lemma live_tables st st' r : database_live_size_bytes st = (st', r) -> tables st' = tables st.
Proof.
  unfold database_live_size_bytes, mbind, mret.
  destruct (database_allocated_size_bytes st) as [s0 [x|e]] eqn:E0; apply allocated_tables in E0;
    [|intros [= <- _]; done].
  destruct (pragma freelist_count s0) as [s1 [a|e]] eqn:E1; apply pragma_tables in E1;
    [|intros [= <- _]; congruence].
  destruct (pragma page_size s1) as [s2 [b|e]] eqn:E2; apply pragma_tables in E2;
    intros [= <- _]; congruence.
Qed.

(** [after] is [before] with its oldest rows removed, raw rows first. *)
Definition reclaimed (before after : Tables) : Prop :=
  exists n m, metric_samples after = skipn n (metric_samples before) /\
              minute_metrics after = skipn m (minute_metrics before) /\
              (metric_samples after = [] \/ m = 0%nat).

Lemma reclaimed_refl t : reclaimed t t.
Proof. exists 0%nat, 0%nat. rewrite !drop_0. auto. Qed.

Lemma reclaimed_trans a b c : reclaimed a b -> reclaimed b c -> reclaimed a c.
Proof.
  intros (n & m & H1 & H2 & H3) (n' & m' & H4 & H5 & H6). exists (n + n')%nat, (m + m')%nat.
  rewrite H1 in H4. rewrite H2 in H5. rewrite drop_drop in H4. rewrite drop_drop in H5.
  repeat split; [done..|]. destruct H3 as [H3| ->], H6 as [H6| ->]; auto.
  left. rewrite H4, <- drop_drop, <- H1, H3. apply drop_nil.
Qed.

Lemma delete_raw_reclaimed t : reclaimed t (fst (delete_oldest_raw t)).
Proof. exists 1000%nat, 0%nat. rewrite drop_0. auto. Qed.

Lemma delete_minute_reclaimed t :
  metric_samples t = [] -> reclaimed t (fst (delete_oldest_minute t)).
Proof. intros H. exists 0%nat, 1000%nat. simpl. rewrite drop_0. auto. Qed.

(** One round of the loop: it stops, fails, or strictly removes rows. *)
Definition reclaim_round (st : MetricStore) : MetricStore * result nat StoreError :=
  (mbind (statement delete_oldest_raw) (fun deleted =>
     if (deleted =? 0)%nat then statement delete_oldest_minute else mret deleted)) st.

#[local] Opaque Nat.min.

Lemma reclaim_round_spec st st' r :
  reclaim_round st = (st', r) ->
  reclaimed (tables st) (tables st') /\
  match r with
  | Ok deleted => (rows (tables st') + deleted = rows (tables st))%nat /\
      (deleted = 0%nat -> rows (tables st') = 0%nat)
  | Err _ => True
  end.
Proof.
  unfold reclaim_round, mbind, mret.
  destruct (statement_cases delete_oldest_raw st) as [(s1 & -> & H)|(s1 & -> & H & _)].
  { intros [= <- <-]. rewrite H. split; [apply reclaimed_refl|done]. }
  assert (Hr : (rows (tables s1) + Nat.min 1000 (length (metric_samples (tables st))) =
                rows (tables st))%nat).
  { rewrite H. unfold rows, delete_oldest_raw. cbn [fst metric_samples minute_metrics].
    rewrite length_drop. lia. }
  cbn [snd delete_oldest_raw]. destruct (Nat.eqb_spec (Nat.min 1000 (length (metric_samples (tables st)))) 0) as [E|E].
  - assert (E0 : metric_samples (tables st) = []) by (destruct (metric_samples (tables st)); [done|simpl in E; lia]).
    assert (E1 : metric_samples (tables s1) = []) by (rewrite H; simpl; by rewrite E0, drop_nil).
    assert (R1 : reclaimed (tables st) (tables s1)) by (rewrite H; apply delete_raw_reclaimed).
    destruct (statement_cases delete_oldest_minute s1) as [(s2 & -> & H2)|(s2 & -> & H2 & _)].
    + intros [= <- <-]. rewrite H2. done.
    + intros [= <- <-]. rewrite H2. split.
      * eapply reclaimed_trans; [exact R1|]. by apply delete_minute_reclaimed.
      * unfold rows, delete_oldest_minute in *. cbn [fst snd metric_samples minute_metrics] in *.
        rewrite E0, E1 in *. rewrite length_drop. cbn [length] in *. lia.
  - intros [= <- <-]. split; [rewrite H; apply delete_raw_reclaimed|]. lia.
Qed.

Lemma reclaim_loop_spec fuel cap any st st' r :
  (rows (tables st) < fuel)%nat ->
  reclaim_loop fuel cap any st = (st', r) ->
  reclaimed (tables st) (tables st') /\
  match r with
  | Ok None => False
  | Ok (Some _) => rows (tables st') = 0%nat \/
      exists s0 live, tables s0 = tables st' /\
        snd (database_live_size_bytes s0) = Ok live /\ live <= cap
  | Err _ => True
  end.
Proof.
  revert any st. induction fuel as [|fuel IH]; intros any st Hf; [lia|].
  cbn [reclaim_loop]. unfold mbind at 1.
  destruct (database_live_size_bytes st) as [s1 [live|e]] eqn:E1;
    pose proof (live_tables _ _ _ E1) as H1.
  2: { intros [= <- <-]. rewrite H1. auto using reclaimed_refl. }
  destruct (Z.leb_spec live cap) as [Hl|Hl].
  { unfold mret. intros [= <- <-]. rewrite H1. split; [apply reclaimed_refl|].
    right. exists st, live. by rewrite E1. }
  intros H. destruct (reclaim_round s1) as [s2 d] eqn:E2.
  pose proof (reclaim_round_spec s1 s2 d E2) as [R D]. rewrite H1 in R, D.
  unfold reclaim_round, mbind, mret in E2. unfold mbind, mret in H.
  destruct (statement delete_oldest_raw s1) as [s3 [n|e]]; [|by simplify_eq].
  destruct (n =? 0)%nat; [destruct (statement delete_oldest_minute s3) as [s4 [n'|e]]|];
    simplify_eq; try done.
  - destruct (Nat.eqb_spec n' 0) as [->|Hn].
    + simplify_eq. destruct D as [_ D]. auto.
    + destruct (IH true s2 ltac:(lia) H) as [R' P]. eauto using reclaimed_trans.
  - destruct (Nat.eqb_spec n 0) as [->|Hn].
    + simplify_eq. destruct D as [_ D]. auto.
    + destruct (IH true s2 ltac:(lia) H) as [R' P]. eauto using reclaimed_trans.
Qed.

(** What the loop leaves: nothing, or a database that reported a size within the cap. *)
Definition within_cap (cap : Z) (t : Tables) : Prop :=
  rows t = 0%nat \/
  exists s0 live, tables s0 = t /\ snd (database_live_size_bytes s0) = Ok live /\ live <= cap.

Lemma enforce_size_cap_spec cap st st' r :
  enforce_size_cap_bytes cap st = (st', r) ->
  reclaimed (tables st) (tables st') /\
  match r with
  | Ok None => False
  | Ok (Some _) => within_cap cap (tables st')
  | Err _ => True
  end.
Proof.
  unfold enforce_size_cap_bytes. unfold mbind at 1.
  destruct (reclaim_loop (S (rows (tables st))) cap false st) as [s1 [[any|]|e]] eqn:E;
    apply reclaim_loop_spec in E as [R P]; try lia; try done; [|by intros [= <- <-]].
  unfold mbind at 1. destruct any.
  - unfold mret at 1. unfold mbind.
    destruct (statement_cases (fun t => (t, tt)) s1) as [(s2 & -> & H)|(s2 & -> & H & _)];
      intros [= <- <-]; rewrite H; auto.
  - unfold mbind at 1. destruct (database_allocated_size_bytes s1) as [s2 [a|e]] eqn:A;
      pose proof (allocated_tables _ _ _ A) as H2.
    2: { intros [= <- <-]. rewrite H2. auto. }
    unfold mret at 1. destruct (cap <? a); unfold mbind, mret.
    + destruct (statement_cases (fun t => (t, tt)) s2) as [(s3 & -> & H)|(s3 & -> & H & _)];
        intros [= <- <-]; rewrite H; simpl; rewrite H2; auto.
    + intros [= <- <-]. rewrite H2. auto.
Qed.

(** The tables without the rows outside retention. *)
Definition expired_dropped (now_ms : Z) (t : Tables) : Tables :=
  {| metric_samples := delete_before (now_ms - RAW_RETENTION_MS) (metric_samples t);
     minute_metrics := delete_before (now_ms - MINUTE_RETENTION_MS) (minute_metrics t) |}.

Lemma expire_Ok now st st' :
  transaction (
     do _ := statement (fun t =>
       ({| metric_samples := delete_before (now - RAW_RETENTION_MS) (metric_samples t);
           minute_metrics := minute_metrics t |}, tt)) in
     statement (fun t =>
       ({| metric_samples := metric_samples t;
           minute_metrics := delete_before (now - MINUTE_RETENTION_MS) (minute_metrics t) |},
        tt))) st = (st', Ok tt) ->
  tables st' = expired_dropped now (tables st).
Proof.
  intros (s1 & s2 & H1 & H2 & H3)%transaction_cases. rewrite H3, <- H1.
  unfold mbind in H2.
  destruct (statement_cases (fun t =>
       ({| metric_samples := delete_before (now - RAW_RETENTION_MS) (metric_samples t);
           minute_metrics := minute_metrics t |}, tt)) s1) as [(s4 & E & H)|(s4 & E & H & _)];
    rewrite E in H2; [done|].
  destruct (statement_cases (fun t =>
       ({| metric_samples := metric_samples t;
           minute_metrics := delete_before (now - MINUTE_RETENTION_MS) (minute_metrics t) |},
        tt)) s4) as [(s5 & E' & H')|(s5 & E' & H' & _)]; rewrite E' in H2; [done|].
  simplify_eq. by rewrite H', H.
Qed.

(** ** Lemmas: reading back *)

Lemma in_take {A} n (l : list A) x : In x (take n l) -> In x l.
Proof. intros H. rewrite <- (take_drop n l). apply in_or_app. by left. Qed.

Lemma parse_written s j :
  sample_finite s = true -> to_json s = Some j -> parse_json j = Ok s.
Proof.
  intros Hf Hj. destruct (json_roundtrip s Hf) as (k & Hk & Hp).
  unfold parse_json. rewrite Hj in Hk. simplify_eq. by rewrite Hp.
Qed.

(** A row of a consistent raw table is the text of the logged sample of that millisecond. *)
Lemma raw_row_logged log t ts j :
  consistent log t -> In (ts, j) (metric_samples t) ->
  exists s, In s log /\ timestamp_ms s = ts /\ to_json s = Some j.
Proof.
  intros C H. apply bt_In_get in H; [|apply (con_raw_sorted _ _ C)].
  rewrite (con_raw _ _ C) in H.
  destruct (List.filter (fun s => timestamp_ms s =? ts) log) as [|s rest] eqn:F; [done|].
  simpl in H. exists s.
  assert (Hs : In s (List.filter (fun s => timestamp_ms s =? ts) log)) by (rewrite F; by left).
  apply filter_In in Hs as [? ?%Z.eqb_eq]. done.
Qed.

Lemma logged_raw_row log t s :
  consistent log t -> In s log ->
  exists j, to_json s = Some j /\ In (timestamp_ms s, j) (metric_samples t).
Proof.
  intros C H. pose proof (con_json _ _ C) as Hj. rewrite Forall_forall in Hj.
  destruct (Hj s H) as [j Ej]. exists j. split; [done|].
  apply bt_get_In. rewrite (con_raw _ _ C).
  destruct (List.filter (fun x => timestamp_ms x =? timestamp_ms s) log) as [|x rest] eqn:F.
  - assert (Hs : In s (List.filter (fun x => timestamp_ms x =? timestamp_ms s) log))
      by (apply filter_In; by rewrite Z.eqb_refl). by rewrite F in Hs.
  - assert (Hs : In x (List.filter (fun x => timestamp_ms x =? timestamp_ms s) log))
      by (rewrite F; by left). apply filter_In in Hs as [Hx ?%Z.eqb_eq].
    assert (x = s) as ->; [|done].
    apply list_elem_of_In, list_elem_of_lookup in Hx as [i Hi].
    apply list_elem_of_In, list_elem_of_lookup in H as [k Hk].
    assert (Hik : i = k).
    { eapply (NoDup_lookup _ _ _ (timestamp_ms s) (con_once _ _ C));
        rewrite list_lookup_fmap; [rewrite Hi|rewrite Hk]; simpl; congruence. }
    congruence.
Qed.

(** Reading a slice of a table whose rows all parse. *)
Lemma collect_rows log (rows : list (Z * J)) :
  Forall (fun s => sample_finite s = true) log ->
  (forall ts j, In (ts, j) rows ->
     exists s, In s log /\ timestamp_ms s = ts /\ to_json s = Some j) ->
  exists samples, collect_results (fun e => parse_json (snd e)) rows = Ok samples /\
    timestamp_ms <$> samples = fst <$> rows /\
    Forall2 (fun e s => In s log /\ to_json s = Some (snd e)) rows samples.
Proof.
  intros Hf. induction rows as [|[ts j] rows IH]; intros H; simpl.
  { exists []. repeat constructor. }
  destruct IH as (l & E & Ht & F2). { intros; apply H; by right. }
  destruct (H ts j (or_introl eq_refl)) as (s & Hs & Es & Ej).
  rewrite Forall_forall in Hf.
  rewrite (parse_written s j (Hf s Hs) Ej). simpl. rewrite E. simpl.
  exists (s :: l). rewrite !fmap_cons, Es, Ht. repeat split. by constructor.
Qed.

Lemma Forall2_In_l {A B} (P : A -> B -> Prop) l k x :
  Forall2 P l k -> In x l -> exists y, In y k /\ P x y.
Proof. induction 1; simpl; [done|]. intros [->|?]; [eauto|]. destruct IHForall2 as (?&?&?); eauto. Qed.

Lemma sorted_app_cross {A} (R : A -> A -> Prop) l k x y :
  StronglySorted R (l ++ k)%list -> In x l -> In y k -> R x y.
Proof.
  induction l as [|a l IH]; simpl; [done|]. intros [Hs Ha]%StronglySorted_inv [->|Hx] Hy; [|eauto].
  rewrite Forall_forall in Ha. apply Ha, in_or_app. by right.
Qed.

Lemma sorted_fmap {A B} (f : A -> B) (R : B -> B -> Prop) l :
  StronglySorted R (f <$> l) <-> StronglySorted (fun a b => R (f a) (f b)) l.
Proof.
  induction l as [|a l IH]; simpl; split; intros H; constructor;
    apply StronglySorted_inv in H as [Hs Ha]; try (by apply IH); by apply Forall_map.
Qed.

Lemma select_page_sorted {V} from_ms to_ms limit (table : list (Z * V)) :
  bt_sorted table -> StronglySorted Z.lt (fst <$> select_page from_ms to_ms limit table).
Proof.
  intros H. apply sorted_fmap. unfold select_page.
  pose proof (bt_filter_sorted (fun e => between from_ms to_ms (fst e)) table H) as Hs.
  set (n := Z.to_nat _). clearbody n. set (F := List.filter _ _) in *. clearbody F.
  unfold bt_sorted in Hs. rewrite <- (take_drop n F) in Hs.
  revert Hs. generalize (take n F) as a, (drop n F) as b. clear. intros a b.
  induction a as [|x a IH]; simpl; [constructor|]. intros [Hs Hx]%StronglySorted_inv.
  constructor; [auto|]. apply Forall_app in Hx as [Hx _].
  eapply Forall_impl; [|exact Hx]. intros e. unfold bt_entry_lt. by rewrite <- Z.compare_lt_iff.
Qed.

(** A row of the range is on the page, or the page is full of earlier rows. *)
Lemma select_page_complete {V} from_ms to_ms limit (table : list (Z * V)) e :
  0 <= limit -> bt_sorted table -> In e table -> between from_ms to_ms (fst e) = true ->
  In e (select_page from_ms to_ms limit table) \/
  (Z.of_nat (length (select_page from_ms to_ms limit table)) = Z.min limit i64_max /\
   forall x, In x (select_page from_ms to_ms limit table) -> fst x < fst e).
Proof.
  intros Hl H He Hb. unfold select_page.
  pose proof (bt_filter_sorted (fun e => between from_ms to_ms (fst e)) table H) as Hs.
  assert (HF : In e (List.filter (fun e => between from_ms to_ms (fst e)) table)) by (by apply filter_In).
  assert (Hn : Z.of_nat (Z.to_nat (default i64_max (try_from_i64 limit))) = Z.min limit i64_max).
  { unfold try_from_i64. split_matches; simpl; bool_to_prop; width_lia. }
  rewrite <- Hn. set (n := Z.to_nat _) in *. set (F := List.filter _ _) in *. clearbody F n.
  rewrite <- (take_drop n F) in HF. apply in_app_or in HF as [HF|HF]; [by left|]. right.
  split.
  - rewrite length_take. destruct (decide (n <= length F)%nat); [lia|].
    rewrite drop_ge in HF by lia. done.
  - intros x Hx. unfold bt_sorted in Hs. rewrite <- (take_drop n F) in Hs.
    pose proof (sorted_app_cross _ _ _ _ _ Hs Hx HF) as R. by apply Z.compare_lt_iff.
Qed.

Lemma select_page_sound {V} from_ms to_ms limit (table : list (Z * V)) e :
  In e (select_page from_ms to_ms limit table) ->
  In e table /\ between from_ms to_ms (fst e) = true.
Proof. intros H. apply in_take in H. by apply filter_In in H. Qed.

Lemma select_page_length {V} from_ms to_ms limit (table : list (Z * V)) :
  0 <= limit -> Z.of_nat (length (select_page from_ms to_ms limit table)) <= limit.
Proof.
  intros Hl. unfold select_page. rewrite length_take. unfold try_from_i64.
  split_matches; simpl; bool_to_prop; width_lia.
Qed.

Lemma statement_no_fault {A} (f : Tables -> Tables * A) st :
  fault (executed st) = false ->
  exists st', statement f st = (st', Ok (snd (f (tables st)))).
Proof. intros H. unfold statement. rewrite H. destruct (f (tables st)); eauto. Qed.

Lemma insert_samples_succeed samples st :
  (forall n, fault n = false) -> Forall (fun s => is_Some (to_json s)) samples ->
  exists st', insert_samples samples st = (st', Ok tt).
Proof.
  intros Hf Hs. revert st. induction Hs as [|s rest [j Ej] _ IH]; intros st;
    cbn [insert_samples]; [by eexists|].
  unfold mbind, insert_sample, lift_json, mbind. rewrite Ej. unfold mret at 1.
  destruct (statement_no_fault (insert_raw (timestamp_ms s) j) st (Hf _)) as (s1 & ->).
  destruct (_ =? 0); [apply IH|]. unfold mret.
  destruct (statement_no_fault (upsert_minute (minute_of (timestamp_ms s)) (row_of_sample s j))
              s1 (Hf _)) as (s2 & ->). simpl. apply IH.
Qed.

Lemma insert_batch_cases samples st :
  match insert_batch samples st with
  | (st', Ok _) => tables st' = fold_left insert_tables samples (tables st)
  | (st', Err _) => tables st' = tables st
  end.
Proof.
  unfold insert_batch. destruct (transaction (insert_samples samples) st) as [st' [[]|e]] eqn:E;
    apply transaction_cases in E; [|done].
  destruct E as (s1 & s2 & H1 & H2 & ->). apply insert_samples_Ok in H2. by rewrite H2, H1.
Qed.

Lemma insert_batch_written samples st :
  is_ok (snd (insert_batch samples st)) = true -> Forall (fun s => is_Some (to_json s)) samples.
Proof.
  unfold insert_batch. destruct (transaction (insert_samples samples) st) as [st' [[]|e]] eqn:E; [|done].
  apply transaction_cases in E as (s1 & s2 & _ & H2 & _). by apply insert_samples_written in H2.
Qed.

Lemma insert_batch_succeeds samples st :
  (forall n, fault n = false) -> Forall (fun s => is_Some (to_json s)) samples ->
  is_ok (snd (insert_batch samples st)) = true.
Proof.
  intros Hf Hs. unfold insert_batch, transaction, mbind.
  destruct (statement_no_fault (fun t => (t, tt)) st (Hf _)) as (s1 & ->).
  destruct (insert_samples_succeed samples s1 Hf Hs) as (s2 & ->).
  by destruct (statement_no_fault (fun t => (t, tt)) s2 (Hf _)) as (s3 & ->).
Qed.

(** ** Properties *)

(** C3: A batch insert is a transaction that refines an append-only log with one sample
    per millisecond: when it reports success the raw table holds the log extended by the
    samples whose millisecond was new, and every minute row is the aggregate of exactly
    the logged samples of that minute (a duplicate is not counted twice); when it reports
    an error both tables are what they were. It succeeds whenever no statement fails and
    every sample can be written as text. *)
Theorem insert_batch_refines_log log samples st :
  consistent log (tables st) ->
  match insert_batch samples st with
  | (st', Ok _) => consistent (accept_all log samples) (tables st')
  | (st', Err _) => tables st' = tables st
  end /\
  ((forall n, fault n = false) -> Forall (fun s => is_Some (to_json s)) samples ->
   is_ok (snd (insert_batch samples st)) = true).
Proof.
  intros C. split; [|apply insert_batch_succeeds].
  pose proof (insert_batch_cases samples st) as I.
  destruct (insert_batch samples st) as [st' [[]|e]]; [|done]. rewrite I. by apply consistent_inserts.
Qed.

(** The first sample recorded for a millisecond is never overwritten: whatever batch
    is inserted afterwards, and whether or not it succeeds, the stored text stays. *)
Theorem first_write_wins samples st ts j :
  bt_get ts (metric_samples (tables st)) = Some j ->
  bt_get ts (metric_samples (tables (fst (insert_batch samples st)))) = Some j.
Proof.
  intros H. pose proof (insert_batch_cases samples st) as I.
  destruct (insert_batch samples st) as [st' [[]|e]]; simpl; rewrite I; [|done].
  by apply fold_insert_tables_get_raw.
Qed.

(** A raw history page is exact: over tables that hold a log of finite samples, the
    query returns logged samples of the inclusive range, strictly by time, at most [limit]
    of them; a logged sample of the range that is missing is later than everything on a
    full page. *)
Theorem query_raw_page_exact log st from_ms to_ms limit :
  consistent log (tables st) -> Forall (fun s => sample_finite s = true) log ->
  0 <= limit -> fault (executed st) = false ->
  exists page, snd (query_raw from_ms to_ms limit st) = Ok page /\
    StronglySorted Z.lt (timestamp_ms <$> page) /\
    Z.of_nat (length page) <= limit /\
    (forall s, In s page -> In s log /\ from_ms <= timestamp_ms s <= to_ms) /\
    (forall s, In s log -> from_ms <= timestamp_ms s <= to_ms ->
       In s page \/
       (Z.of_nat (length page) = Z.min limit i64_max /\
        forall r, In r page -> timestamp_ms r < timestamp_ms s)).
Proof.
  intros C Hf Hl Hfault. unfold query_raw, mbind, statement. rewrite Hfault. simpl.
  set (rows := select_page from_ms to_ms limit (metric_samples (tables st))).
  assert (Hlog : forall ts j, In (ts, j) rows ->
    exists s, In s log /\ timestamp_ms s = ts /\ to_json s = Some j).
  { intros ts j [H _]%select_page_sound. eauto using raw_row_logged. }
  destruct (collect_rows log rows Hf Hlog) as (page & E & Ht & F2).
  assert (Hlen : length page = length rows) by (pose proof (Forall2_length F2); congruence).
  exists page. rewrite Hlen. split; [done|]. split; [|split; [|split]].
  - rewrite Ht. apply select_page_sorted, (con_raw_sorted _ _ C).
  - by apply select_page_length.
  - intros s Hs.
    destruct (Forall2_In_l _ page rows s (Forall2_flip F2) Hs) as ([ts j] & He & Hin & Ej).
    split; [done|]. assert (Hts : In (timestamp_ms s) (fst <$> rows))
      by (rewrite <- Ht; by apply in_map).
    apply in_map_iff in Hts as ([ts' j'] & E' & [_ Hb]%select_page_sound). simpl in *.
    unfold between in Hb. bool_to_prop. lia.
  - intros s Hs Hr. destruct (logged_raw_row log _ s C Hs) as (j & Ej & Hrow).
    destruct (select_page_complete from_ms to_ms limit _ _ Hl (con_raw_sorted _ _ C) Hrow)
      as [Hp|[Hp Hx]].
    + unfold between. simpl. lia.
    + left. destruct (Forall2_In_l _ _ _ _ F2 Hp) as (s' & Hs' & Hin & Ej'). simpl in Ej'.
      rewrite Forall_forall in Hf.
      pose proof (parse_written s j (Hf s Hs) Ej) as P1.
      pose proof (parse_written s' j (Hf s' Hin) Ej') as P2. congruence.
    + right. split; [done|]. intros r Hr'.
      assert (Hts : In (timestamp_ms r) (fst <$> rows)) by (rewrite <- Ht; by apply in_map).
      apply in_map_iff in Hts as (e & <- & He). by apply Hx.
Qed.

(** The minute history reports the exact integer mean of the memory readings of that
    minute's logged samples, absent when no sample carried one, as long as their sum fits
    the column; the row counts every logged sample of the minute once. *)
Theorem minute_memory_is_mean log st m row s :
  consistent log (tables st) ->
  Forall (fun s => opt_wf u64_max (memory_used_bytes s)) log ->
  sum_Z (int_readings memory_of (of_minute m log)) <= i64_max ->
  bt_get m (minute_metrics (tables st)) = Some row ->
  sample_of_row m row = Ok s ->
  let readings := int_readings memory_of (of_minute m log) in
  timestamp_ms s = m /\
  sample_count row = Z.of_nat (length (of_minute m log)) /\
  memory_used_bytes s =
    match readings with
    | [] => None
    | _ => Some (sum_Z readings / Z.of_nat (length readings))
    end.
Proof.
  intros C Hw Hs Hrow Hsample readings.
  assert (Hin : forall x, In x (of_minute m log) -> In x log)
    by (intros x [? ?]%filter_In; done).
  assert (Hw' : Forall (fun s => opt_wf u64_max (memory_of s)) (of_minute m log))
    by (rewrite Forall_forall in *; auto).
  assert (Hj : Forall (fun s => is_Some (to_json s)) (of_minute m log)).
  { pose proof (con_json _ _ C) as Hj. rewrite Forall_forall in *; auto. }
  pose proof (aggregate_memory _ Hj Hw' Hs) as A. rewrite (con_minute _ _ C) in Hrow.
  rewrite Hrow in A. destruct A as (Hc & Hsum & Hnone & Hn).
  pose proof (sum_Z_nonneg _ (int_readings_nonneg _ _ Hw')) as Hpos.
  unfold sample_of_row in Hsample.
  destruct (get_int (memory_used_sum row)) as [memory|] eqn:Em; [simpl in Hsample|done].
  repeat (match type of Hsample with context [result_bind ?r _] =>
            destruct r; [simpl in Hsample|done] end).
  injection Hsample as <-. cbn [timestamp_ms memory_used_bytes]. split; [done|]. split; [done|].
  unfold average_i64. rewrite Hc. fold readings in Hs, Hsum, Hnone, Hpos |- *.
  destruct (memory_used_sum row) as [[z|x]|]; simpl in *; [|done|].
  - injection Em as <-. injection Hsum as ->.
    clearbody readings. destruct readings as [|r rs]; [done|].
    set (n := Z.of_nat (length (r :: rs))) in *.
    assert (Hn1 : 1 <= n) by (unfold n; cbn [length]; lia). clearbody n.
    set (total := sum_Z (r :: rs)) in *. clearbody total.
    rewrite (proj2 (Z.ltb_lt 0 n)) by lia. cbn [base.mbind option_bind].
    rewrite Z.quot_div_nonneg by lia.
    assert (0 <= total / n) by (apply Z.div_pos; lia).
    assert (total / n <= total) by (apply Z.div_le_upper_bound; nia).
    unfold try_from_u. by rewrite (proj2 (Z.leb_le 0 _)), (proj2 (Z.leb_le _ u64_max)) by width_lia.
  - by rewrite (Hnone eq_refl).
Qed.


(** Pruning keeps retention: when it gets past its transaction, the tables are those
    without raw rows older than a day and minute rows older than a week, from which only
    the size cap may have taken further oldest rows; if the transaction fails nothing is
    deleted at all. *)
Theorem prune_keeps_retention now st :
  let '(st', r) := prune now st in
  match r with
  | Ok None => False
  | Ok (Some _) => reclaimed (expired_dropped now (tables st)) (tables st') /\
                   within_cap (size_cap_bytes st) (tables st')
  | Err _ => tables st' = tables st \/
             reclaimed (expired_dropped now (tables st)) (tables st')
  end.
Proof.
  destruct (prune now st) as [st' r] eqn:E. unfold prune in E. unfold mbind at 1 in E.
  match type of E with context [transaction ?b st] => destruct (transaction b st) as [s1 [[]|e]] eqn:T end.
  - apply expire_Ok in T. apply enforce_size_cap_spec in E as [R P]. rewrite T in R.
    destruct r as [[[]|]|]; auto.
  - apply transaction_cases in T. simplify_eq. auto.
Qed.

End Store.

(** ** Witnesses *)

Definition plain_sample (ts mem : Z) : MetricSample :=
  {| timestamp_ms := ts; sequence := 1; cpu_percent := None; memory_used_bytes := Some mem;
     memory_total_bytes := Some 1000; swap_used_bytes := None; swap_total_bytes := None;
     disks := []; network := None; temperature := None; uptime_seconds := 5; errors := [] |}.

Definition two_samples : list MetricSample := [plain_sample 60000 10; plain_sample 62000 20].

Definition never : nat -> bool := fun _ => false.

Definition empty_store : MetricStore (J := MetricSample) :=
  {| tables := empty_tables; size_cap_bytes := SIZE_CAP_BYTES; executed := 0 |}.

(** The store after the two samples, written out. *)
Definition filled : MetricStore (J := MetricSample) := Eval vm_compute in fst (insert_batch never two_samples empty_store).

Lemma two_samples_consistent : consistent two_samples (tables filled).
Proof.
  exact (consistent_inserts two_samples [] empty_tables consistent_empty).
Qed.

Lemma insert_batch_refines_log_witness :
  consistent two_samples (tables (fst (insert_batch never two_samples empty_store))).
Proof.
  exact (proj1 (insert_batch_refines_log never [] two_samples empty_store consistent_empty)).
Defined.

Lemma first_write_wins_witness :
  bt_get 60000 (metric_samples (tables (fst (insert_batch never [plain_sample 60000 99] filled))))
    = Some (plain_sample 60000 10).
Proof. apply (first_write_wins never [plain_sample 60000 99] filled). reflexivity. Defined.

Lemma query_raw_page_exact_witness :
  exists page, snd (query_raw never 0 61000 10 filled) = Ok page /\ In (plain_sample 60000 10) page.
Proof.
  destruct (query_raw_page_exact never two_samples filled 0 61000 10 two_samples_consistent)
    as (page & E & _ & _ & _ & Hc).
  - repeat constructor.
  - lia.
  - reflexivity.
  - exists page. split; [exact E|].
    destruct (Hc (plain_sample 60000 10)) as [H|[H _]].
    + left. reflexivity.
    + simpl. lia.
    + exact H.
    + exfalso. vm_compute in E. injection E as <-. vm_compute in H. discriminate H.
Defined.

Lemma minute_memory_is_mean_witness :
  exists row s, sample_of_row 60000 row = Ok s /\ memory_used_bytes s = Some 15.
Proof.
  pose (row := match bt_get 60000 (minute_metrics (tables filled)) with
               | Some r => r | None => row_of_sample (plain_sample 0 0) (plain_sample 0 0) end).
  pose (s := match sample_of_row 60000 row with Ok s => s | Err _ => plain_sample 0 0 end).
  exists row, s. split; [reflexivity|].
  refine (proj2 (proj2 (minute_memory_is_mean two_samples filled 60000 row s
                          two_samples_consistent _ _ _ _))); [|by vm_compute|reflexivity|reflexivity].
  repeat constructor; injection H as <-; width_lia.
Defined.

(** ** Opening a store: the schema and its migration *)

Module Schema.

Definition Columns : Type := list (string * string).

(** The table definitions of a database file; [None] is a table that does not exist. *)
Record Database := {
  samples_columns : option Columns;
  minute_columns : option Columns;
}.

Definition SAMPLES_COLUMNS : Columns :=
  [("timestamp_ms", "INTEGER PRIMARY KEY"); ("sample_json", "TEXT NOT NULL")].

Definition MINUTE_COLUMNS : Columns :=
  [("minute_ms", "INTEGER PRIMARY KEY"); ("sample_count", "INTEGER NOT NULL");
   ("cpu_count", "INTEGER NOT NULL"); ("cpu_sum", "REAL");
   ("memory_used_count", "INTEGER NOT NULL"); ("memory_used_sum", "INTEGER");
   ("rx_count", "INTEGER NOT NULL"); ("rx_sum", "INTEGER");
   ("tx_count", "INTEGER NOT NULL"); ("tx_sum", "INTEGER");
   ("disk_count", "INTEGER NOT NULL DEFAULT 0"); ("disk_used_sum", "INTEGER");
   ("disk_total_sum", "INTEGER");
   ("temp_count", "INTEGER NOT NULL DEFAULT 0"); ("temp_sum", "REAL");
   ("swap_count", "INTEGER NOT NULL DEFAULT 0"); ("swap_used_sum", "INTEGER");
   ("swap_total_sum", "INTEGER"); ("last_sample_json", "TEXT NOT NULL")].

Definition REQUIRED_COLUMNS : Columns :=
  [("disk_count", "INTEGER NOT NULL DEFAULT 0"); ("disk_used_sum", "INTEGER");
   ("disk_total_sum", "INTEGER");
   ("temp_count", "INTEGER NOT NULL DEFAULT 0"); ("temp_sum", "REAL");
   ("swap_count", "INTEGER NOT NULL DEFAULT 0"); ("swap_used_sum", "INTEGER");
   ("swap_total_sum", "INTEGER")].

Definition has_column (name : string) (cols : Columns) : bool :=
  existsb (fun c => String.eqb (fst c) name) cols.

Section Open.
(** Whether the [n]-th statement of this connection fails. *)
Context (fault : nat -> bool).

(** [ALTER TABLE minute_metrics ADD COLUMN]: SQLite refuses a column that exists. *)
Definition add_column (n : nat) (c : string * string) (cols : Columns)
  : result Columns StoreError :=
  if fault n then Err Sqlite
  else if has_column (fst c) cols then Err Sqlite
  else Ok (cols ++ [c])%list.

(** The migration loop; the columns that were there at the start decide. *)
Fixpoint add_missing (n : nat) (existing required : Columns) (cols : Columns)
  : Columns * result unit StoreError :=
  match required with
  | [] => (cols, Ok tt)
  | c :: rest =>
      if has_column (fst c) existing then add_missing n existing rest cols
      else match add_column n c cols with
           | Ok cols' => add_missing (S n) existing rest cols'
           | Err e => (cols, Err e)
           end
  end.

Definition migrate_minute_metrics_columns (n : nat) (cols : Columns)
  : Columns * result unit StoreError :=
  if fault n then (cols, Err Sqlite) else add_missing (S n) cols REQUIRED_COLUMNS cols.

(** Two pragmas, the two [CREATE TABLE IF NOT EXISTS] statements, and the migration. *)
Definition from_connection (db : Database) : Database * result Z StoreError :=
  if fault 0 then (db, Err Sqlite)
  else if fault 1 then (db, Err Sqlite)
  else if fault 2 then (db, Err Sqlite)
  else
    let db := {| samples_columns := Some (default SAMPLES_COLUMNS (samples_columns db));
                 minute_columns := minute_columns db |} in
    if fault 3 then (db, Err Sqlite)
    else
      let '(cols, r) :=
        migrate_minute_metrics_columns 4 (default MINUTE_COLUMNS (minute_columns db)) in
      ({| samples_columns := samples_columns db; minute_columns := Some cols |},
       let? _ := r in Ok SIZE_CAP_BYTES).

End Open.

Lemma has_column_app name a b :
  has_column name (a ++ b)%list = has_column name a || has_column name b.
Proof. apply existsb_app. Qed.

(** The columns of [required] that [existing] lacks. *)
Definition lacking (existing required : Columns) : Columns :=
  List.filter (fun c => negb (has_column (fst c) existing)) required.

(** A loop over distinct columns appends a prefix of what is lacking, all of it when no
    statement fails. *)
Lemma add_missing_spec fault n existing required cols :
  NoDup (map fst required) ->
  (forall c, In c required -> has_column (fst c) cols = has_column (fst c) existing) ->
  exists k, fst (add_missing fault n existing required cols) =
              (cols ++ take k (lacking existing required))%list /\
    ((forall i, fault i = false) ->
     add_missing fault n existing required cols =
       ((cols ++ lacking existing required)%list, Ok tt)).
Proof.
  revert n cols. induction required as [|c rest IH]; intros n cols Hn Hc; simpl.
  { exists 0%nat. by rewrite !app_nil_r. }
  apply list.NoDup_cons in Hn as [Hnot Hn].
  destruct (has_column (fst c) existing) eqn:E; simpl.
  { apply IH; [done|]. intros; apply Hc; by right. }
  unfold add_column. rewrite (Hc c (or_introl eq_refl)), E.
  destruct (fault n) eqn:F.
  { exists 0%nat. simpl. rewrite app_nil_r. split; [done|]. intros Hf. by rewrite Hf in F. }
  destruct (IH (S n) (cols ++ [c])%list Hn) as (k & H1 & H2).
  { intros d Hd. rewrite has_column_app, (Hc d) by (by right). unfold has_column at 2. simpl.
    destruct (String.eqb_spec (fst c) (fst d)) as [Ed|]; [|by rewrite !orb_false_r].
    exfalso. apply Hnot. rewrite Ed. apply list_elem_of_In, in_map, Hd. }
  exists (S k). simpl. rewrite H1, <- app_assoc. split; [done|].
  intros Hf. rewrite (H2 Hf), <- app_assoc. done.
Qed.

Lemma required_distinct : NoDup (map fst REQUIRED_COLUMNS).
Proof. by_computation. Qed.

Lemma lacking_complete existing c :
  In c REQUIRED_COLUMNS -> has_column (fst c) (existing ++ lacking existing REQUIRED_COLUMNS)%list = true.
Proof.
  intros H. rewrite has_column_app. destruct (has_column (fst c) existing) eqn:E; [done|]. cbn [orb].
  apply existsb_exists. exists c. split; [|apply String.eqb_refl].
  apply filter_In. by rewrite E.
Qed.

#[local] Arguments add_missing : simpl never.
#[local] Arguments lacking : simpl never.

Definition migrated (cols : Columns) : Prop :=
  forall c, In c REQUIRED_COLUMNS -> has_column (fst c) cols = true.

Lemma lacking_migrated cols : migrated cols -> lacking cols REQUIRED_COLUMNS = [].
Proof.
  intros H. unfold lacking. apply filter_existsb, not_true_is_false.
  intros (c & Hc & Hb)%existsb_exists. by rewrite (H c Hc) in Hb.
Qed.

(** Opening a store of any earlier schema: a fault-free open leaves both tables in
    place with every aggregate column the queries read, keeps the columns the file already
    had in their order, and changes nothing on a migrated file. An open that a statement
    failure interrupts leaves the old columns followed by some of the new ones, so opening
    again completes it. *)
Theorem open_migrates_schema fault db :
  let cols := default MINUTE_COLUMNS (minute_columns db) in
  (forall c, minute_columns (fst (from_connection fault db)) = Some c -> exists k,
     c = (cols ++ take k (lacking cols REQUIRED_COLUMNS))%list) /\
  ((forall i, fault i = false) ->
   exists c, minute_columns (fst (from_connection fault db)) = Some c /\
     samples_columns (fst (from_connection fault db)) <> None /\
     snd (from_connection fault db) = Ok SIZE_CAP_BYTES /\
     migrated c /\ (exists added, c = (cols ++ added)%list) /\ (migrated cols -> c = cols)).
Proof.
  intros cols. unfold from_connection, migrate_minute_metrics_columns. fold cols.
  destruct (add_missing_spec fault 5 cols REQUIRED_COLUMNS cols required_distinct
              (fun _ _ => eq_refl)) as (k & H1 & H2).
  assert (Hid : forall c, minute_columns db = Some c ->
    exists k, c = (cols ++ take k (lacking cols REQUIRED_COLUMNS))%list).
  { intros c E. exists 0%nat. unfold cols. rewrite E. simpl. by rewrite app_nil_r. }
  split.
  - destruct (fault 0%nat); [apply Hid|]. destruct (fault 1%nat); [apply Hid|].
    destruct (fault 2%nat); [apply Hid|]. destruct (fault 3%nat); [apply Hid|].
    simpl. fold cols. destruct (fault 4%nat); simpl.
    + intros c [= <-]. exists 0%nat. by rewrite app_nil_r.
    + destruct (add_missing fault 5 cols REQUIRED_COLUMNS cols) as [c' r]. simpl in *.
      intros c [= <-]. eauto.
  - intros Hf. rewrite !Hf. simpl. fold cols. rewrite (H2 Hf). simpl.
    eexists. split; [done|]. split; [done|]. split; [done|]. repeat split.
    + intros c Hc. by apply lacking_complete.
    + eauto.
    + intros Hm. rewrite (lacking_migrated cols Hm). apply app_nil_r.
Qed.

End Schema.
