(* ===== verification/Wire.v ===== *)
(** The wire protocol: the messages of [proto/rackio.proto], the version check of
    [crates/rackio-protocol/src/lib.rs], the translation of domain values to messages
    ([crates/rackio-iroh/src/protocol.rs], module [ToWire]) and back
    ([apps/agent/src/remote/client.rs], module [FromWire]).

    The text forms of a UUID and of an endpoint id belong to external crates; they are
    parameters of the two [node_info] translations. *)

From S2P Require Import Prelude Float Model Storage.
Local Open Scope string_scope.
Local Open Scope Z_scope.

(** ** [crates/rackio-protocol/src/lib.rs] *)

Definition PROTOCOL_MAJOR : Z := 1.
Definition PROTOCOL_MINOR : Z := 1.

Definition current_version : ProtocolVersion :=
  {| major := PROTOCOL_MAJOR; minor := PROTOCOL_MINOR |}.

Definition compatible (version : ProtocolVersion) : bool := major version =? PROTOCOL_MAJOR.

(** ** Messages *)

(** An enum field travels as its [i32] number. *)
Record WireCapability := {
  w_cap_name : string; w_cap_state : Z; w_cap_detail : option string;
}.

Record WireNodeInfo := {
  w_node_id : string;
  w_endpoint_id : string;
  w_display_name : string;
  w_os : string;
  w_architecture : string;
  w_agent_version : string;
  w_protocol : option ProtocolVersion;
  w_capabilities : list WireCapability;
}.

Record WireError := { w_source : string; w_kind : Z; w_message : string }.

Record WireSample := {
  w_timestamp_ms : Z;
  w_sequence : Z;
  w_cpu_percent : option f32;
  w_memory_used_bytes : option Z;
  w_memory_total_bytes : option Z;
  w_swap_used_bytes : option Z;
  w_swap_total_bytes : option Z;
  w_disks : list DiskMetric;
  w_network : option NetworkMetric;
  w_uptime_seconds : Z;
  w_errors : list WireError;
  w_temperature : option TemperatureMetric;
}.

Record ConnectionDetails := { w_path : Z; w_rtt_ms : Z }.

Record WireHealth := {
  w_state : Z;
  w_collector_degraded : bool;
  w_storage_degraded : bool;
  w_remote_listener_degraded : bool;
  w_details : list string;
}.

Record HistoryQuery := {
  q_from_ms : Z; q_to_ms : Z; q_resolution : Z; q_protocol : option ProtocolVersion;
}.

Record PairRequest := { one_time_secret : string; viewer_endpoint_id : string }.

Record PairResponse := { accepted : bool; p_node_id : string; p_endpoint_id : string }.

Inductive RequestBody :=
  | GetNodeInfo (v : ProtocolVersion)
  | WatchMetrics (v : ProtocolVersion)
  | QueryHistory (q : HistoryQuery)
  | GetHealth (v : ProtocolVersion)
  | GetConnectionPath (v : ProtocolVersion)
  | Pair (p : PairRequest).

(** A [Request] or [Response] whose [oneof] is unset has no body. *)
Definition Request : Type := option RequestBody.

Inductive ResponseBody :=
  | RNodeInfo (i : WireNodeInfo)
  | RMetricSample (s : WireSample)
  | RHealth (h : WireHealth)
  | RConnectionPath (d : ConnectionDetails)
  | RPair (p : PairResponse)
  | RError (code message : string)
  | RHeartbeat (timestamp_ms sequence : Z)
  | RStreamComplete.

Definition Response : Type := option ResponseBody.

(** ** Domain to wire: [rackio-iroh/src/protocol.rs] *)

Module ToWire.

Definition capability_state (s : CapabilityState) : Z :=
  match s with Supported => 1 | Unsupported => 2 | PermissionDenied => 3 end.

Definition node_state (s : NodeState) : Z :=
  match s with
  | Healthy => 1 | Warning => 2 | Critical => 3 | Stale => 4
  | Offline => 5 | AuthError => 6 | Incompatible => 7 | Degraded => 8
  end.

Definition path_number (p : ConnectionPath) : Z :=
  match p with LanDirect => 1 | WanDirect => 2 | Relayed => 3 | UnknownPath => 4 end.

Definition connection_details (path : ConnectionPath) (rtt_ms : Z) : ConnectionDetails :=
  {| w_path := path_number path; w_rtt_ms := rtt_ms |}.

Definition metric_sample (sample : MetricSample) : WireSample :=
  {| w_timestamp_ms := timestamp_ms sample;
     w_sequence := sequence sample;
     w_cpu_percent := cpu_percent sample;
     w_memory_used_bytes := memory_used_bytes sample;
     w_memory_total_bytes := memory_total_bytes sample;
     w_swap_used_bytes := swap_used_bytes sample;
     w_swap_total_bytes := swap_total_bytes sample;
     w_disks := (fun d => {| mount := mount d; total_bytes := total_bytes d;
                             used_bytes := used_bytes d |}) <$> disks sample;
     w_network := (fun n => {| received_bytes_per_second := received_bytes_per_second n;
                               sent_bytes_per_second := sent_bytes_per_second n |})
                  <$> network sample;
     w_temperature := (fun t => {| label := label t; celsius := celsius t;
                                   critical_celsius := critical_celsius t;
                                   sensor_count := sensor_count t |}) <$> temperature sample;
     w_uptime_seconds := uptime_seconds sample;
     w_errors := (fun e => {| w_source := err_source e; w_kind := capability_state (err_kind e);
                              w_message := err_message e |}) <$> errors sample |}.

Definition node_info {Id : Type} (uuid_text : Uuid -> string) (endpoint_text : Id -> string)
  (info : NodeInfo) (endpoint_id : Id) : WireNodeInfo :=
  {| w_node_id := uuid_text (node_id info);
     w_endpoint_id := endpoint_text endpoint_id;
     w_display_name := display_name info;
     w_os := os info;
     w_architecture := architecture info;
     w_agent_version := agent_version info;
     w_protocol := Some {| major := major (protocol info); minor := minor (protocol info) |};
     w_capabilities := (fun c => {| w_cap_name := cap_name c;
                                    w_cap_state := capability_state (cap_state c);
                                    w_cap_detail := cap_detail c |}) <$> capabilities info |}.

Definition health (h : HealthSnapshot) : WireHealth :=
  {| w_state := node_state (state h);
     w_collector_degraded := collector_degraded h;
     w_storage_degraded := storage_degraded h;
     w_remote_listener_degraded := remote_listener_degraded h;
     w_details := details h |}.

End ToWire.

(** ** Wire to domain: [apps/agent/src/remote/client.rs] *)

Module FromWire.

Definition capability_state (z : Z) : CapabilityState :=
  if z =? 1 then Supported else if z =? 3 then PermissionDenied else Unsupported.

Definition node_state (z : Z) : NodeState :=
  if z =? 1 then Healthy else if z =? 2 then Warning else if z =? 3 then Critical
  else if z =? 4 then Stale else if z =? 5 then Offline else if z =? 6 then AuthError
  else if z =? 7 then Incompatible else Degraded.

Definition connection_path (z : Z) : ConnectionPath :=
  if z =? 1 then LanDirect else if z =? 2 then WanDirect else if z =? 3 then Relayed
  else UnknownPath.

Definition filter_finite (o : option f32) : option f32 :=
  match o with Some v => if is_finite v then Some v else None | None => None end.

Definition temperature_metric (t : TemperatureMetric) : option TemperatureMetric :=
  if is_finite (celsius t) then
    Some {| label := label t; celsius := celsius t;
            critical_celsius := filter_finite (critical_celsius t);
            sensor_count := sensor_count t |}
  else None.

Definition metric_sample (sample : WireSample) : MetricSample :=
  {| timestamp_ms := w_timestamp_ms sample;
     sequence := w_sequence sample;
     cpu_percent := filter_finite (w_cpu_percent sample);
     memory_used_bytes := w_memory_used_bytes sample;
     memory_total_bytes := w_memory_total_bytes sample;
     swap_used_bytes := w_swap_used_bytes sample;
     swap_total_bytes := w_swap_total_bytes sample;
     disks := (fun d => {| mount := mount d; total_bytes := total_bytes d;
                           used_bytes := used_bytes d |}) <$> w_disks sample;
     network := (fun n => {| received_bytes_per_second := received_bytes_per_second n;
                             sent_bytes_per_second := sent_bytes_per_second n |})
                <$> w_network sample;
     temperature := w_temperature sample ≫= temperature_metric;
     uptime_seconds := w_uptime_seconds sample;
     errors := (fun e => {| err_source := w_source e; err_kind := capability_state (w_kind e);
                            err_message := w_message e |}) <$> w_errors sample |}.

(** The errors name what the response lacked. *)
Definition node_info (parse_uuid : string -> option Uuid) (info : WireNodeInfo)
  : result NodeInfo string :=
  let? protocol := ok_or (w_protocol info) "protocol version" in
  let? node_id := ok_or (parse_uuid (w_node_id info)) "node id" in
  Ok {| node_id := node_id;
        display_name := w_display_name info;
        os := w_os info;
        architecture := w_architecture info;
        agent_version := w_agent_version info;
        protocol := {| major := major protocol; minor := minor protocol |};
        capabilities := (fun c => {| cap_name := w_cap_name c;
                                     cap_state := capability_state (w_cap_state c);
                                     cap_detail := w_cap_detail c |}) <$> w_capabilities info |}.

Definition health (h : WireHealth) : HealthSnapshot :=
  {| state := node_state (w_state h);
     collector_degraded := w_collector_degraded h;
     storage_degraded := w_storage_degraded h;
     remote_listener_degraded := w_remote_listener_degraded h;
     details := w_details h |}.

End FromWire.

(** ** Lemmas *)

Lemma capability_state_roundtrip s :
  FromWire.capability_state (ToWire.capability_state s) = s.
Proof. by destruct s. Qed.

Lemma node_state_roundtrip s : FromWire.node_state (ToWire.node_state s) = s.
Proof. by destruct s. Qed.

Lemma connection_path_roundtrip p : FromWire.connection_path (ToWire.path_number p) = p.
Proof. by destruct p. Qed.

Lemma filter_finite_finite o : opt_finite (FromWire.filter_finite o) = true.
Proof. destruct o as [v|]; [|done]. simpl. by destruct (is_finite v) eqn:E. Qed.

Lemma filter_finite_id o : opt_finite o = true -> FromWire.filter_finite o = o.
Proof. destruct o as [v|]; [|done]. simpl. by intros ->. Qed.

(** A translation that a second one undoes is undone on lists and options. *)
Lemma fmap_undo {A B} (f : A -> B) (g : B -> A) (l : list A) :
  (forall x, g (f x) = x) -> g <$> (f <$> l) = l.
Proof.
  intros H. rewrite <- list_fmap_compose. rewrite <- (list_fmap_id l) at 2.
  apply list_fmap_ext. intros. apply H.
Qed.

Lemma sample_finite_temperature s t :
  sample_finite s = true -> temperature s = Some t -> FromWire.temperature_metric t = Some t.
Proof.
  unfold sample_finite, FromWire.temperature_metric.
  intros [_ H]%andb_true_iff E. rewrite E in H. apply andb_true_iff in H as [-> H].
  rewrite filter_finite_id by done. by destruct t.
Qed.

(** Whatever the wire carries, a decoded sample can be stored. *)
Lemma decoded_sample_finite w : sample_finite (FromWire.metric_sample w) = true.
Proof.
  unfold sample_finite. apply andb_true_iff. split; [apply filter_finite_finite|].
  simpl. destruct (w_temperature w) as [t|]; [|done]. simpl.
  unfold FromWire.temperature_metric. destruct (is_finite (celsius t)) eqn:E; [|done].
  simpl. by rewrite E, filter_finite_finite.
Qed.

(** ** Properties *)

Lemma finite_sample_crosses (s : MetricSample) :
  sample_finite s = true -> FromWire.metric_sample (ToWire.metric_sample s) = s.
Proof.
  intros Hf. unfold FromWire.metric_sample, ToWire.metric_sample.
  cbn [w_timestamp_ms w_sequence w_cpu_percent w_memory_used_bytes w_memory_total_bytes
       w_swap_used_bytes w_swap_total_bytes w_disks w_network w_temperature w_uptime_seconds
       w_errors].
  rewrite (filter_finite_id (cpu_percent s)) by (by apply andb_true_iff in Hf as [? _]).
  rewrite !fmap_undo by (intros []; cbn; by rewrite ?capability_state_roundtrip).
  pose proof (sample_finite_temperature s) as Ht.
  destruct s as [? ? ? ? ? ? ? ? net temp ? ?]. f_equal; cbn in *.
  - by destruct net as [[]|].
  - destruct temp as [t|]; [|done]. destruct t. simpl. by apply Ht.
Qed.

(** A sample crosses the wire unchanged: encoding and decoding a sample whose floats
    are numbers gives it back. Whatever the wire carries, NaN and infinities included, the
    decoded sample holds only finite readings, so it can be stored and read back. *)
Theorem sample_crosses_wire (s : MetricSample) (w : WireSample) :
  (sample_finite s = true -> FromWire.metric_sample (ToWire.metric_sample s) = s) /\
  sample_finite (FromWire.metric_sample w) = true.
Proof. split; [apply finite_sample_crosses|apply decoded_sample_finite]. Qed.

Lemma sample_crosses_wire_witness :
  FromWire.metric_sample (ToWire.metric_sample (plain_sample 7 9)) = plain_sample 7 9.
Proof.
  apply (sample_crosses_wire (plain_sample 7 9) (ToWire.metric_sample (plain_sample 7 9))).
  reflexivity.
Defined.

(** Node information crosses the wire unchanged, given that the UUID library reads back
    the text it writes: the viewer decodes exactly the identity, version and capabilities
    the agent sent. *)
Theorem node_info_crosses_wire {Id} (uuid_text : Uuid -> string) (endpoint_text : Id -> string)
  (parse_uuid : string -> option Uuid) (info : NodeInfo) (endpoint_id : Id) :
  (forall u, parse_uuid (uuid_text u) = Some u) ->
  FromWire.node_info parse_uuid (ToWire.node_info uuid_text endpoint_text info endpoint_id)
    = Ok info.
Proof.
  intros Hu. unfold FromWire.node_info, ToWire.node_info. simpl. rewrite Hu. simpl.
  rewrite fmap_undo; [|by intros [? [] ?]]. destruct info as [? ? ? ? ? [] ?]. done.
Qed.

Lemma node_info_crosses_wire_witness :
  let info := {| node_id := 42; display_name := "box"; os := "linux"; architecture := "x86_64";
                 agent_version := "0.1.0"; protocol := V1; capabilities := [] |} in
  FromWire.node_info parse_unary (ToWire.node_info unary_text (fun _ : unit => "id") info tt)
    = Ok info.
Proof. apply node_info_crosses_wire. exact parse_unary_text. Defined.

(** The viewer fails safe on states it does not know: a health report, a capability and
    a connection path decode to what the agent encoded, and a number no domain value encodes
    to becomes degraded, unsupported and unknown, never healthy, supported or direct. *)
Theorem status_decoding_fails_safe (h : HealthSnapshot) (p : ConnectionPath) (rtt z : Z) :
  FromWire.health (ToWire.health h) = h /\
  FromWire.connection_path (w_path (ToWire.connection_details p rtt)) = p /\
  ((forall s, ToWire.node_state s <> z) -> FromWire.node_state z = Degraded) /\
  ((forall s, ToWire.capability_state s <> z) -> FromWire.capability_state z = Unsupported) /\
  ((forall q, ToWire.path_number q <> z) -> FromWire.connection_path z = UnknownPath).
Proof.
  split; [|split; [|split; [|split]]].
  - unfold FromWire.health, ToWire.health. simpl. rewrite node_state_roundtrip. by destruct h.
  - apply connection_path_roundtrip.
  - intros H. unfold FromWire.node_state. pose proof (H Healthy). pose proof (H Warning).
    pose proof (H Critical). pose proof (H Stale). pose proof (H Offline).
    pose proof (H AuthError). pose proof (H Incompatible). cbn in *.
    split_matches; bool_to_prop; congruence.
  - intros H. unfold FromWire.capability_state. pose proof (H Supported).
    pose proof (H PermissionDenied). cbn in *. split_matches; bool_to_prop; congruence.
  - intros H. unfold FromWire.connection_path. pose proof (H LanDirect). pose proof (H WanDirect).
    pose proof (H Relayed). cbn in *. split_matches; bool_to_prop; congruence.
Qed.
