(* ===== verification/Framing.v ===== *)
(** Length-prefixed frames: [crates/rackio-protocol/src/framing.rs].

    The protobuf library is behind the [Message] interface. A writer is the bytes it has
    taken and how each of its operations ends; a reader is the bytes it will deliver and
    how its stream ends. *)

From S2P Require Import Prelude.
Local Open Scope Z_scope.

Definition MAX_FRAME_BYTES : Z := 1048576.

Inductive IoKind := UnexpectedEof | OtherIo.

Inductive FrameError :=
  | EndOfStream
  | TooLarge (actual maximum : Z)
  | Io (kind : IoKind)
  | Decode
  | Encode.

(** What the framing relies on from [prost]: encoding into a growable buffer succeeds with
    the announced length and decodes to the message. *)
Class Message (T : Type) := {
  encoded_len : T -> Z;
  encode : T -> option (list Z);
  decode : list Z -> option T;
  encode_spec m : exists bytes, encode m = Some bytes /\
    Z.of_nat (length bytes) = encoded_len m /\ decode bytes = Some m;
}.

(** ** Big-endian [u32] *)

Definition be32 (z : Z) : list Z :=
  [z / 2 ^ 24 mod 256; z / 2 ^ 16 mod 256; z / 2 ^ 8 mod 256; z mod 256].

Definition from_be32 (b : list Z) : Z := fold_left (fun acc x => acc * 256 + x) b 0.

Lemma be32_roundtrip z : in_u u32_max z -> from_be32 (be32 z) = z.
Proof.
  unfold from_be32, be32. simpl fold_left. intros H.
  change (2 ^ 24) with 16777216. change (2 ^ 16) with 65536. change (2 ^ 8) with 256.
  unfold in_u, u32_max in H. change (2 ^ 32) with 4294967296 in H.
  Z.to_euclidean_division_equations. lia.
Qed.

(** ** Streams *)

(** Operation [n] of a writer completes ([None]), or fails after taking [k] bytes. *)
Record Writer := { written : list Z; w_ops : nat; w_fault : nat -> option nat }.

Definition put (bytes : list Z) (w : Writer) : Writer * result unit FrameError :=
  match w_fault w (w_ops w) with
  | None => ({| written := (written w ++ bytes)%list; w_ops := S (w_ops w);
                w_fault := w_fault w |}, Ok tt)
  | Some k => ({| written := (written w ++ take k bytes)%list; w_ops := S (w_ops w);
                  w_fault := w_fault w |}, Err (Io OtherIo))
  end.

Record Reader := { pending : list Z; r_end : IoKind }.

(** [read_exact]: all [n] bytes, or the stream's end after consuming what was there. *)
Definition get (n : nat) (r : Reader) : Reader * result (list Z) IoKind :=
  if (n <=? length (pending r))%nat
  then ({| pending := drop n (pending r); r_end := r_end r |}, Ok (take n (pending r)))
  else ({| pending := []; r_end := r_end r |}, Err (r_end r)).

(** ** Frames *)

Section Frames.
Context {T : Type} `{!Message T}.

Definition write_frame (message : T) (w : Writer) : Writer * result unit FrameError :=
  let len := encoded_len message in
  if MAX_FRAME_BYTES <? len then (w, Err (TooLarge len MAX_FRAME_BYTES))
  else match try_from_u u32_max len with
  | None => (w, Err (TooLarge len MAX_FRAME_BYTES))
  | Some frame_len =>
      match put (be32 frame_len) w with
      | (w, Err e) => (w, Err e)
      | (w, Ok _) =>
          match encode message with
          | None => (w, Err Encode)
          | Some buffer =>
              match put buffer w with
              | (w, Err e) => (w, Err e)
              | (w, Ok _) => put [] w
              end
          end
      end
  end.

Definition read_frame (r : Reader) : Reader * result T FrameError :=
  match get 4 r with
  | (r, Err UnexpectedEof) => (r, Err EndOfStream)
  | (r, Err k) => (r, Err (Io k))
  | (r, Ok header) =>
      let frame_len := from_be32 header in
      if MAX_FRAME_BYTES <? frame_len then (r, Err (TooLarge frame_len MAX_FRAME_BYTES))
      else match get (Z.to_nat frame_len) r with
      | (r, Err k) => (r, Err (Io k))
      | (r, Ok buffer) => (r, ok_or (decode buffer) Decode)
      end
  end.

(** ** Lemmas *)

Lemma get_app bytes rest e :
  get (length bytes) {| pending := (bytes ++ rest)%list; r_end := e |} =
    ({| pending := rest; r_end := e |}, Ok bytes).
Proof.
  unfold get. cbn [pending r_end]. rewrite length_app, (proj2 (Nat.leb_le _ _)) by lia.
  by rewrite drop_app_length, take_app_length.
Qed.

(** The bytes of a message's frame. *)
Definition frame (message : T) : list Z :=
  (be32 (encoded_len message) ++ default [] (encode message))%list.

Lemma encoded_len_nonneg m : 0 <= encoded_len m.
Proof. destruct (encode_spec m) as (b & _ & <- & _). lia. Qed.

Lemma write_frame_Ok m w w' :
  write_frame m w = (w', Ok tt) ->
  written w' = (written w ++ frame m)%list /\ encoded_len m <= MAX_FRAME_BYTES.
Proof.
  unfold write_frame, frame. destruct (Z.ltb_spec MAX_FRAME_BYTES (encoded_len m)); [done|].
  unfold try_from_u. destruct (_ && _); [|done].
  destruct (encode_spec m) as (b & -> & _ & _). unfold put.
  destruct (w_fault w (w_ops w)); [done|]. cbn [w_ops w_fault written].
  destruct (w_fault w (S (w_ops w))); [done|]. cbn [w_ops w_fault written].
  destruct (w_fault w (S (S (w_ops w)))); [done|].
  intros [= <-]. cbn [written default]. by rewrite app_nil_r, <- app_assoc.
Qed.

(** However a write ends, what it put on the stream is a first part of the frame, and nothing of a
    message over the limit. *)
Lemma write_frame_written m w :
  exists k, written (fst (write_frame m w)) = (written w ++ take k (frame m))%list /\
            (MAX_FRAME_BYTES < encoded_len m -> k = 0%nat).
Proof.
  unfold write_frame, frame, put. destruct (Z.ltb_spec MAX_FRAME_BYTES (encoded_len m)) as [Hm|Hm].
  { exists 0%nat. cbn [fst take]. by rewrite app_nil_r. }
  unfold try_from_u. destruct (_ && _); [|exists 0%nat; cbn [fst take]; by rewrite app_nil_r].
  destruct (encode_spec m) as (b & -> & _ & _). change (default [] (Some b)) with b.
  destruct (w_fault w (w_ops w)) as [k|].
  { exists (Nat.min k 4). cbn [fst written]. split; [|lia].
    rewrite take_app_le by (change (length (be32 (encoded_len m))) with 4%nat; lia).
    f_equal. rewrite <- take_take, (take_ge (be32 _) 4); [done|]. change (length (be32 (encoded_len m))) with 4%nat. lia. }
  cbn [w_ops w_fault written]. destruct (w_fault w (S (w_ops w))) as [k|].
  { exists (4 + k)%nat. cbn [fst written]. split; [|lia]. rewrite take_app_ge, <- app_assoc
      by (change (length (be32 (encoded_len m))) with 4%nat; lia). do 3 f_equal.
    change (length (be32 (encoded_len m))) with 4%nat. lia. }
  exists (4 + length b)%nat. split; [|lia].
  rewrite (take_ge (be32 (encoded_len m) ++ b)) by (rewrite length_app; simpl; lia).
  cbn [w_ops w_fault written].
  destruct (w_fault w (S (S (w_ops w)))) as [k|]; cbn [fst written]; [rewrite take_nil|];
    by rewrite app_nil_r, <- app_assoc.
Qed.

Lemma read_frame_of_frame m rest e :
  encoded_len m <= MAX_FRAME_BYTES ->
  read_frame {| pending := (frame m ++ rest)%list; r_end := e |} =
    ({| pending := rest; r_end := e |}, Ok m).
Proof.
  intros H. pose proof (encoded_len_nonneg m). unfold read_frame, frame.
  destruct (encode_spec m) as (b & Eb & Hl & Hd). rewrite Eb. change (default [] (Some b)) with b.
  rewrite <- app_assoc. change 4%nat with (length (be32 (encoded_len m))). rewrite get_app.
  rewrite be32_roundtrip by (unfold MAX_FRAME_BYTES in *; width_lia).
  rewrite (proj2 (Z.ltb_ge _ _) H), <- Hl, Nat2Z.id, get_app. cbv beta iota. by rewrite Hd.
Qed.

(** Frames until one cannot be read; [None] is running out of fuel. *)
Fixpoint read_all (fuel : nat) (r : Reader) : option (list T * FrameError) :=
  match fuel with
  | O => None
  | S fuel =>
      match read_frame r with
      | (_, Err e) => Some ([], e)
      | (r, Ok m) => '(l, e) ← read_all fuel r; Some (m :: l, e)
      end
  end.

Lemma get_length n r r' b :
  get n r = (r', Ok b) -> (length (pending r') + n = length (pending r))%nat.
Proof.
  unfold get. destruct (Nat.leb_spec n (length (pending r))); [|done]. intros [= <- <-].
  cbn [pending]. rewrite length_drop. lia.
Qed.

(** A frame takes its header at least. *)
Lemma read_frame_takes r r' m : read_frame r = (r', Ok m) -> (4 + length (pending r') <= length (pending r))%nat.
Proof.
  unfold read_frame. destruct (get 4 r) as [r1 [h|[]]] eqn:E1; [|done|done].
  destruct (MAX_FRAME_BYTES <? _); [done|]. destruct (get _ r1) as [r2 [b|]] eqn:E2; [|done].
  intros [= <- _]. apply get_length in E1, E2. lia.
Qed.

Lemma read_all_ends fuel r : (length (pending r) < fuel)%nat -> exists l e, read_all fuel r = Some (l, e).
Proof.
  revert r. induction fuel as [|fuel IH]; intros r Hl; [lia|]. cbn [read_all].
  destruct (read_frame r) as [r' [m|e]] eqn:E; [|eauto]. apply read_frame_takes in E.
  destruct (IH r') as (l & e & ->); [lia|]. simpl. eauto.
Qed.

(** A frame that is cut short is not read as a message. *)
Lemma read_frame_cut m n e :
  encoded_len m <= MAX_FRAME_BYTES -> (n < length (frame m))%nat ->
  exists r' err, read_frame {| pending := take n (frame m); r_end := e |} = (r', Err err).
Proof.
  intros Hm Hn. pose proof (encoded_len_nonneg m). unfold read_frame.
  destruct (Nat.ltb_spec n 4) as [H4|H4].
  - unfold get at 1. cbn [pending r_end]. rewrite (proj2 (Nat.leb_gt 4 _)) by (rewrite length_take; lia).
    destruct e; eauto.
  - unfold frame in *. destruct (encode_spec m) as (b & Eb & Hl & _). rewrite Eb in *.
    change (default [] (Some b)) with b in *.
    rewrite length_app in Hn. change (length (be32 (encoded_len m))) with 4%nat in Hn.
    rewrite take_app_ge by done. change (length (be32 (encoded_len m))) with 4%nat.
    change 4%nat with (length (be32 (encoded_len m))) at 1. rewrite get_app.
    rewrite be32_roundtrip by (unfold MAX_FRAME_BYTES in *; width_lia).
    rewrite (proj2 (Z.ltb_ge _ _) Hm). unfold get. cbn [pending r_end].
    rewrite (proj2 (Nat.leb_gt _ _)) by (rewrite length_take; lia). eauto.
Qed.

(** The bytes of the first [k] messages. *)
Definition frames_len (k : nat) (l : list T) : nat := length (concat (map frame (take k l))).

(** Whatever part of a stream of frames arrives, reading it gives the messages that arrived whole,
    in order and all of them, and then an error. *)
Lemma read_all_prefix l n e fuel :
  Forall (fun m => encoded_len m <= MAX_FRAME_BYTES) l -> (length (take n (concat (map frame l))) < fuel)%nat ->
  exists (k : nat) (err : FrameError),
    read_all fuel {| pending := take n (concat (map frame l)); r_end := e |} = Some (take k l, err) /\
    (frames_len k l <= n)%nat /\
    (forall j, (j <= length l)%nat -> (frames_len j l <= n)%nat -> (j <= k)%nat).
Proof.
  intros Hl. revert n fuel. induction Hl as [|m l Hm Hl IH]; intros n fuel Hf; (destruct fuel as [|fuel]; [lia|]).
  - cbn [map concat] in *. rewrite take_nil in *. exists 0%nat.
    destruct e; eexists; (split; [reflexivity|]); unfold frames_len; simpl; (split; [lia|]); intros [] ?; simpl in *; lia.
  - cbn [map concat] in *. destruct (Nat.ltb_spec n (length (frame m))) as [Hn|Hn].
    + rewrite take_app_le by lia. cbn [read_all].
      destruct (read_frame_cut m n e Hm Hn) as (r' & err & ->). exists 0%nat, err.
      split; [done|]. unfold frames_len. split; [simpl; lia|]. intros [|j] _; [lia|].
      cbn [take map concat]. rewrite length_app. lia.
    + rewrite take_app_ge by done. rewrite take_app_ge in Hf by done. cbn [read_all].
      rewrite read_frame_of_frame by done. rewrite length_app in Hf.
      assert (0 < length (frame m))%nat by (unfold frame, be32; simpl; lia).
      destruct (IH (n - length (frame m))%nat fuel) as (k & err & -> & Hlen & Hk); [lia|].
      exists (S k), err. split; [done|]. unfold frames_len in *. cbn [take map concat].
      rewrite length_app. split; [lia|]. intros [|j] Hj; [lia|]. cbn [take map concat length] in *.
      rewrite length_app. intros Hle. specialize (Hk j). lia.
Qed.

(** The writer can only have failed, or left a whole frame. *)
Definition healthy_writer : Writer := {| written := []; w_ops := 0; w_fault := fun _ => None |}.

Lemma frame_length m : Z.of_nat (length (frame m)) = 4 + encoded_len m.
Proof.
  unfold frame. destruct (encode_spec m) as (b & -> & <- & _). rewrite length_app. simpl. lia.
Qed.

Lemma put_fault bytes w : w_fault (fst (put bytes w)) = w_fault w.
Proof. unfold put. by destruct (w_fault w (w_ops w)). Qed.

Lemma write_frame_fault (m : T) w : w_fault (fst (write_frame m w)) = w_fault w.
Proof.
  unfold write_frame. destruct (_ <? _); [done|]. destruct (try_from_u _ _) as [len|]; [|done].
  pose proof (put_fault (be32 len) w) as H1. destruct (put (be32 len) w) as [w1 [[]|e]]; [|done].
  destruct (encode m) as [buffer|]; [|done].
  pose proof (put_fault buffer w1) as H2. destruct (put buffer w1) as [w2 [[]|e]]; simpl in *; [|congruence].
  rewrite put_fault. congruence.
Qed.

(** A writer that does not fail takes every message up to the limit. *)
Lemma faultless_write (m : T) (w : Writer) :
  (forall n, w_fault w n = None) -> encoded_len m <= MAX_FRAME_BYTES ->
  exists w', write_frame m w = (w', Ok tt) /\ (forall n, w_fault w' n = None).
Proof.
  intros Hf H. pose proof (encoded_len_nonneg m). unfold write_frame.
  rewrite (proj2 (Z.ltb_ge _ _) H). unfold try_from_u.
  rewrite (proj2 (Z.leb_le 0 _)), (proj2 (Z.leb_le _ u32_max))
    by (unfold MAX_FRAME_BYTES in *; width_lia).
  destruct (encode_spec m) as (b & Eb & _ & _). unfold put. rewrite !Hf. cbn [w_fault w_ops andb]. rewrite Eb, !Hf.
  cbn [w_fault w_ops]. rewrite !Hf. eexists. split; [reflexivity|]. exact Hf.
Qed.

(** ** Properties *)

(** A frame that was written without error is read back as the message it carries,
    leaving exactly the bytes that follow it, so a stream of frames is read back in order.
    Writing succeeds on a healthy writer for every message up to the frame limit. *)
Theorem frame_roundtrip (m : T) (w w' : Writer) (rest : list Z) (e : IoKind) :
  (write_frame m w = (w', Ok tt) ->
   exists bytes, written w' = (written w ++ bytes)%list /\
     read_frame {| pending := (bytes ++ rest)%list; r_end := e |} =
       ({| pending := rest; r_end := e |}, Ok m)) /\
  (encoded_len m <= MAX_FRAME_BYTES -> snd (write_frame m healthy_writer) = Ok tt).
Proof.
  split.
  - intros [Hw Hl]%write_frame_Ok. exists (frame m). split; [done|]. by apply read_frame_of_frame.
  - intros H. by destruct (faultless_write m healthy_writer (fun _ => eq_refl) H) as (w1 & -> & _).
Qed.

(** Frames are bounded on both sides: a message over the limit puts no byte on the wire,
    and whatever bytes arrive, reading a frame takes at most four plus the limit, refuses a
    larger announced length before reading its body, and yields only a message that a
    complete body of the announced length decodes to. A stream that ends inside the header
    is a clean end; one that ends inside the body is an I/O error, never a message. *)
Theorem frame_bounds (m : T) (w : Writer) (r : Reader) :
  (MAX_FRAME_BYTES < encoded_len m ->
   write_frame m w = (w, Err (TooLarge (encoded_len m) MAX_FRAME_BYTES))) /\
  let '(r', res) := read_frame r in
  (exists n, pending r' = drop n (pending r) /\ Z.of_nat n <= 4 + MAX_FRAME_BYTES \/
             pending r' = [] /\ Z.of_nat (length (pending r)) < 4 + MAX_FRAME_BYTES) /\
  match res with
  | Ok m' => exists header body, pending r = (header ++ body ++ pending r')%list /\
      length header = 4%nat /\ Z.of_nat (length body) = Z.max 0 (from_be32 header) /\
      from_be32 header <= MAX_FRAME_BYTES /\ decode body = Some m'
  | Err EndOfStream => (length (pending r) < 4)%nat /\ r_end r = UnexpectedEof
  | Err (TooLarge n _) => pending r' = drop 4 (pending r) /\ MAX_FRAME_BYTES < n
  | Err (Io _) => pending r' = []
  | Err _ => True
  end.
Proof.
  split.
  { intros H. unfold write_frame. by rewrite (proj2 (Z.ltb_lt _ _) H). }
  unfold read_frame, get. destruct (Nat.leb_spec 4 (length (pending r))) as [H4|H4].
  2: { destruct (r_end r) eqn:E; cbn [pending]; split; try done;
       exists 0%nat; right; unfold MAX_FRAME_BYTES; split; try done; lia. }
  cbn [pending r_end]. set (len := from_be32 (take 4 (pending r))).
  destruct (Z.ltb_spec MAX_FRAME_BYTES len) as [Hl|Hl].
  { split; [|done]. exists 4%nat. left. split; [done|]. unfold MAX_FRAME_BYTES. lia. }
  destruct (Nat.leb_spec (Z.to_nat len) (length (drop 4 (pending r)))) as [Hb|Hb].
  - cbn [pending]. rewrite drop_drop. split.
    { exists (4 + Z.to_nat len)%nat. left. split; [done|]. unfold MAX_FRAME_BYTES in *. lia. }
    destruct (decode (take (Z.to_nat len) (drop 4 (pending r)))) as [m'|] eqn:E; [|done].
    exists (take 4 (pending r)), (take (Z.to_nat len) (drop 4 (pending r))).
    repeat split; [|rewrite length_take; lia| |done|done].
    + by rewrite <- (drop_drop (pending r)), !take_drop.
    + rewrite length_take. fold len. lia.
  - cbn [pending]. split; [|done]. exists 0%nat. right. split; [done|].
    rewrite length_drop in Hb. unfold MAX_FRAME_BYTES in *. lia.
Qed.

End Frames.

(** ** Witnesses *)

(** Messages that are their own bytes. *)
#[export, refine] Instance bytes_message : Message (list Z) :=
  {| encoded_len m := Z.of_nat (length m); encode := Some; decode := Some |}.
Proof. intros m. by exists m. Defined.

Lemma frame_roundtrip_witness :
  exists bytes, written (fst (write_frame [7; 8] healthy_writer)) = bytes /\
    read_frame {| pending := (bytes ++ [1; 2; 3])%list; r_end := UnexpectedEof |} =
      ({| pending := [1; 2; 3]; r_end := UnexpectedEof |}, Ok [7; 8]).
Proof.
  destruct (proj1 (frame_roundtrip [7; 8] healthy_writer
    (fst (write_frame [7; 8] healthy_writer)) [1; 2; 3] UnexpectedEof))
    as (bytes & E & R).
  { vm_compute. reflexivity. }
  exists bytes. split; [exact E|exact R].
Defined.
