(* ===== verification/Messages.v ===== *)
(** A concrete encoding of the messages, one that the framing's [Message] interface accepts.

    The repository leaves the bytes of a message to a protobuf library, and the theorems hold for
    whatever encoding that library has ([Framing.Message]). Here is one such encoding, for the
    concrete runs: fields one after the other, a number bit by bit behind its sign, a tag before
    each alternative and each list item. *)

From Stdlib Require Import Ascii String SpecFloat.
From S2P Require Import Prelude Float Model Wire Framing.
Local Open Scope Z_scope.

(** A field is written and read back from the front of a byte string. *)
Class Field (T : Type) := {
  put_field : T -> list Z;
  get_field : list Z -> option (T * list Z);
  field_back x r : get_field (put_field x ++ r)%list = Some (x, r);
}.

(** A type with the fields of another. *)
Definition field_as {A B} `{Field B} (to : A -> B) (from : B -> A) (undo : forall x, from (to x) = x) : Field A.
Proof.
  refine {| put_field := fun x => put_field (to x);
            get_field := fun l => '(y, r) ← get_field l; Some (from y, r) |}.
  intros x r. rewrite field_back. simpl. by rewrite undo.
Defined.

Arguments field_as {A B _} & to from undo.

Fixpoint put_positive (p : positive) : list Z :=
  match p with xH => [2] | xO p => 0 :: put_positive p | xI p => 1 :: put_positive p end.

Fixpoint get_positive (l : list Z) : option (positive * list Z) :=
  match l with
  | [] => None
  | b :: l =>
      if b =? 2 then Some (1%positive, l)
      else '(p, r) ← get_positive l; Some (if b =? 0 then xO p else xI p, r)
  end.

#[export, refine] Instance positive_field : Field positive :=
  {| put_field := put_positive; get_field := get_positive |}.
Proof. intros p r. induction p as [p IH|p IH|]; simpl; by rewrite ?IH. Defined.

#[export, refine] Instance unit_field : Field unit := {| put_field := fun _ => []; get_field := fun l => Some (tt, l) |}.
Proof. by intros [] r. Defined.

#[export, refine] Instance pair_field {A B} `{Field A} `{Field B} : Field (A * B) :=
  {| put_field := fun p => (put_field (fst p) ++ put_field (snd p))%list;
     get_field := fun l => '(a, r) ← get_field l; '(b, r) ← get_field r; Some ((a, b), r) |}.
Proof. intros [a b] r. rewrite <- app_assoc, field_back. simpl. by rewrite field_back. Defined.

#[export, refine] Instance sum_field {A B} `{Field A} `{Field B} : Field (A + B) :=
  {| put_field := fun s => match s with inl a => 0 :: put_field a | inr b => 1 :: put_field b end;
     get_field := fun l => match l with
                     | [] => None
                     | t :: l => if t =? 0 then '(a, r) ← get_field l; Some (inl a, r) else '(b, r) ← get_field l; Some (inr b, r)
                     end |}.
Proof. intros [x|x] r; simpl; by rewrite field_back. Defined.

Fixpoint get_items {A} `{Field A} (fuel : nat) (l : list Z) : option (list A * list Z) :=
  match fuel, l with
  | S fuel, t :: l =>
      if t =? 0 then Some ([], l)
      else '(x, r) ← get_field l; '(xs, r) ← get_items fuel r; Some (x :: xs, r)
  | _, _ => None
  end.

Definition put_items {A} `{Field A} (xs : list A) : list Z :=
  (concat (map (fun x => 1 :: put_field x) xs) ++ [0])%list.

Lemma get_put_items {A} `{Field A} (xs : list A) r fuel :
  (length xs < fuel)%nat -> get_items fuel (put_items xs ++ r) = Some (xs, r).
Proof.
  revert fuel. induction xs as [|x xs IH]; intros [|fuel] Hf; simpl in Hf; try lia; [done|].
  unfold put_items. simpl. rewrite <- !app_assoc, field_back. simpl.
  change (concat _ ++ 0 :: r)%list with (concat (map (fun x => 1 :: put_field x) xs) ++ [0] ++ r)%list.
  rewrite app_assoc. fold (put_items xs). by rewrite IH by lia.
Qed.

Lemma items_long {A} `{Field A} (xs : list A) : (length xs < length (put_items xs))%nat.
Proof.
  unfold put_items. rewrite length_app. induction xs as [|x xs IH]; simpl; [lia|]. rewrite !length_app. simpl in *. lia.
Qed.

#[export, refine] Instance list_field {A} `{Field A} : Field (list A) :=
  {| put_field := put_items; get_field := fun l => get_items (length l) l |}.
Proof. intros xs r. apply get_put_items. rewrite length_app. pose proof (items_long xs). lia. Defined.

(** ** The types of the messages *)

#[export, refine] Instance integer_field : Field Z :=
  field_as (B := unit + (positive + positive))
    (fun z => match z with Z0 => inl tt | Zpos p => inr (inl p) | Zneg p => inr (inr p) end)
    (fun s => match s with inl _ => Z0 | inr (inl p) => Zpos p | inr (inr p) => Zneg p end) _.
Proof. by intros []. Defined.

#[export, refine] Instance boolean_field : Field bool :=
  field_as (B := unit + unit) (fun b => if b then inr tt else inl tt) (fun s => match s with inl _ => false | inr _ => true end) _.
Proof. by intros []. Defined.

#[export, refine] Instance option_field {A} `{Field A} : Field (option A) :=
  field_as (B := unit + A) (fun o => match o with None => inl tt | Some x => inr x end)
    (fun s => match s with inl _ => None | inr x => Some x end) _.
Proof. by intros []. Defined.

#[export, refine] Instance string_field : Field string :=
  field_as (fun s => map (fun c => Z.of_N (N_of_ascii c)) (list_ascii_of_string s))
    (fun l => string_of_list_ascii (map (fun z => ascii_of_N (Z.to_N z)) l)) _.
Proof.
  intros s. rewrite map_map. erewrite map_ext; [rewrite map_id|]; [by apply string_of_list_ascii_of_string|].
  intros c. by rewrite N2Z.id, ascii_N_embedding.
Defined.

#[export, refine] Instance float_field : Field f32 :=
  field_as (B := bool + (bool + (unit + bool * positive * Z)))
    (fun f => match f with
              | S754_zero s => inl s
              | S754_infinity s => inr (inl s)
              | S754_nan => inr (inr (inl tt))
              | S754_finite s m e => inr (inr (inr (s, m, e)))
              end)
    (fun x => match x with
              | inl s => S754_zero s
              | inr (inl s) => S754_infinity s
              | inr (inr (inl _)) => S754_nan
              | inr (inr (inr (s, m, e))) => S754_finite s m e
              end) _.
Proof. by intros []. Defined.

#[export, refine] Instance version_field : Field ProtocolVersion :=
  field_as (fun v => (major v, minor v)) (fun '(a, b) => {| major := a; minor := b |}) _.
Proof. by intros []. Defined.

#[export, refine] Instance disk_field : Field DiskMetric :=
  field_as (fun d => (mount d, total_bytes d, used_bytes d))
    (fun '(a, b, c) => {| mount := a; total_bytes := b; used_bytes := c |}) _.
Proof. by intros []. Defined.

#[export, refine] Instance network_field : Field NetworkMetric :=
  field_as (fun n => (received_bytes_per_second n, sent_bytes_per_second n))
    (fun '(a, b) => {| received_bytes_per_second := a; sent_bytes_per_second := b |}) _.
Proof. by intros []. Defined.

#[export, refine] Instance temperature_field : Field TemperatureMetric :=
  field_as (fun t => (label t, celsius t, critical_celsius t, sensor_count t))
    (fun '(a, b, c, d) => {| label := a; celsius := b; critical_celsius := c; sensor_count := d |}) _.
Proof. by intros []. Defined.

#[export, refine] Instance capability_field : Field WireCapability :=
  field_as (fun c => (w_cap_name c, w_cap_state c, w_cap_detail c))
    (fun '(a, b, c) => {| w_cap_name := a; w_cap_state := b; w_cap_detail := c |}) _.
Proof. by intros []. Defined.

#[export, refine] Instance error_field : Field WireError :=
  field_as (fun e => (w_source e, w_kind e, w_message e))
    (fun '(a, b, c) => {| w_source := a; w_kind := b; w_message := c |}) _.
Proof. by intros []. Defined.

#[export, refine] Instance node_field : Field WireNodeInfo :=
  field_as (fun n => (w_node_id n, w_endpoint_id n, w_display_name n, w_os n, w_architecture n, w_agent_version n,
                      w_protocol n, w_capabilities n))
    (fun '(a, b, c, d, e, f, g, h) =>
       {| w_node_id := a; w_endpoint_id := b; w_display_name := c; w_os := d; w_architecture := e;
          w_agent_version := f; w_protocol := g; w_capabilities := h |}) _.
Proof. by intros []. Defined.

#[export, refine] Instance sample_field : Field WireSample :=
  field_as (fun s => ((w_timestamp_ms s, w_sequence s, w_cpu_percent s, w_memory_used_bytes s, w_memory_total_bytes s,
                       w_swap_used_bytes s), (w_swap_total_bytes s, w_disks s, w_network s, w_uptime_seconds s,
                       w_errors s, w_temperature s)))
    (fun '((a, b, c, d, e, f), (g, h, i, j, k, l)) =>
       {| w_timestamp_ms := a; w_sequence := b; w_cpu_percent := c; w_memory_used_bytes := d;
          w_memory_total_bytes := e; w_swap_used_bytes := f; w_swap_total_bytes := g; w_disks := h; w_network := i;
          w_uptime_seconds := j; w_errors := k; w_temperature := l |}) _.
Proof. by intros []. Defined.

#[export, refine] Instance details_field : Field ConnectionDetails :=
  field_as (fun d => (w_path d, w_rtt_ms d)) (fun '(a, b) => {| w_path := a; w_rtt_ms := b |}) _.
Proof. by intros []. Defined.

#[export, refine] Instance health_field : Field WireHealth :=
  field_as (fun h => (w_state h, w_collector_degraded h, w_storage_degraded h, w_remote_listener_degraded h, w_details h))
    (fun '(a, b, c, d, e) =>
       {| w_state := a; w_collector_degraded := b; w_storage_degraded := c; w_remote_listener_degraded := d;
          w_details := e |}) _.
Proof. by intros []. Defined.

#[export, refine] Instance query_field : Field HistoryQuery :=
  field_as (fun q => (q_from_ms q, q_to_ms q, q_resolution q, q_protocol q))
    (fun '(a, b, c, d) => {| q_from_ms := a; q_to_ms := b; q_resolution := c; q_protocol := d |}) _.
Proof. by intros []. Defined.

#[export, refine] Instance pair_request_field : Field PairRequest :=
  field_as (fun p => (one_time_secret p, viewer_endpoint_id p))
    (fun '(a, b) => {| one_time_secret := a; viewer_endpoint_id := b |}) _.
Proof. by intros []. Defined.

#[export, refine] Instance pair_response_field : Field PairResponse :=
  field_as (fun p => (accepted p, p_node_id p, p_endpoint_id p))
    (fun '(a, b, c) => {| accepted := a; p_node_id := b; p_endpoint_id := c |}) _.
Proof. by intros []. Defined.

#[export, refine] Instance request_field : Field RequestBody :=
  field_as (B := (ProtocolVersion + (ProtocolVersion + HistoryQuery)) + (ProtocolVersion + (ProtocolVersion + PairRequest)))
    (fun b => match b with
              | GetNodeInfo v => inl (inl v)
              | WatchMetrics v => inl (inr (inl v))
              | QueryHistory q => inl (inr (inr q))
              | GetHealth v => inr (inl v)
              | GetConnectionPath v => inr (inr (inl v))
              | Pair p => inr (inr (inr p))
              end)
    (fun s => match s with
              | inl (inl v) => GetNodeInfo v
              | inl (inr (inl v)) => WatchMetrics v
              | inl (inr (inr q)) => QueryHistory q
              | inr (inl v) => GetHealth v
              | inr (inr (inl v)) => GetConnectionPath v
              | inr (inr (inr p)) => Pair p
              end) _.
Proof. by intros []. Defined.

#[export, refine] Instance response_field : Field ResponseBody :=
  field_as (B := ((WireNodeInfo + WireSample) + (WireHealth + ConnectionDetails)) +
                 ((PairResponse + string * string) + (Z * Z + unit)))
    (fun b => match b with
              | RNodeInfo i => inl (inl (inl i))
              | RMetricSample s => inl (inl (inr s))
              | RHealth h => inl (inr (inl h))
              | RConnectionPath d => inl (inr (inr d))
              | RPair p => inr (inl (inl p))
              | RError c m => inr (inl (inr (c, m)))
              | RHeartbeat t s => inr (inr (inl (t, s)))
              | RStreamComplete => inr (inr (inr tt))
              end)
    (fun s => match s with
              | inl (inl (inl i)) => RNodeInfo i
              | inl (inl (inr s)) => RMetricSample s
              | inl (inr (inl h)) => RHealth h
              | inl (inr (inr d)) => RConnectionPath d
              | inr (inl (inl p)) => RPair p
              | inr (inl (inr (c, m))) => RError c m
              | inr (inr (inl (t, s))) => RHeartbeat t s
              | inr (inr (inr _)) => RStreamComplete
              end) _.
Proof. by intros []. Defined.

(** A message whose fields are written like this. *)
#[refine] Instance field_message {T} `{Field T} : Message T :=
  {| encoded_len := fun m => Z.of_nat (length (put_field m));
     encode := fun m => Some (put_field m);
     decode := fun bytes => fst <$> get_field bytes |}.
Proof.
  intros m. exists (put_field m). split; [done|]. split; [done|].
  pose proof (field_back m []) as E. rewrite app_nil_r in E. by rewrite E.
Defined.

#[export] Instance request_message : Message Request := field_message.
#[export] Instance response_message : Message Response := field_message.
