(* ===== verification/Transport.v ===== *)
(** Addresses and the transport: [crates/rackio-iroh/src/transport.rs].

    A socket address is its [std::net] data; a QUIC connection is the list of its paths.
    The iroh builder calls of [bind_endpoint] are collected in a [Plan], whose execution by
    the operating system is a parameter, as are PEM parsing and the certificate verifier. *)

From S2P Require Import Prelude BTree Model Framing.
From stdpp Require sorting.
Local Open Scope string_scope.
Local Open Scope Z_scope.

(** ** [std::net] addresses *)

Inductive IpAddr := V4 (bits : Z) | V6 (bits : Z).

Inductive SocketAddr :=
  | SockV4 (addr port : Z)
  | SockV6 (addr port flowinfo scope_id : Z).

#[export] Instance IpAddr_eq_dec : EqDecision IpAddr.
Proof. solve_decision. Defined.
#[export] Instance SocketAddr_eq_dec : EqDecision SocketAddr.
Proof. solve_decision. Defined.

Definition ip (a : SocketAddr) : IpAddr :=
  match a with SockV4 x _ => V4 x | SockV6 x _ _ _ => V6 x end.

Definition sock_port (a : SocketAddr) : Z :=
  match a with SockV4 _ p => p | SockV6 _ p _ _ => p end.

(** The derived order: IPv4 before IPv6, then field by field. *)
Definition sock_key (a : SocketAddr) : list Z :=
  match a with SockV4 x p => [0; x; p] | SockV6 x p f s => [1; x; p; f; s] end.

Fixpoint lex_cmp (a b : list Z) : comparison :=
  match a, b with
  | [], [] => Eq
  | [], _ => Lt
  | _, [] => Gt
  | x :: a, y :: b => match x ?= y with Eq => lex_cmp a b | c => c end
  end.

Lemma lex_cmp_eq a b : lex_cmp a b = Eq <-> a = b.
Proof.
  revert b. induction a as [|x a IH]; intros [|y b]; simpl; try done.
  destruct (Z.compare_spec x y) as [->| |].
  - rewrite IH. split; congruence.
  - split; [done|]. intros [= -> ->]. lia.
  - split; [done|]. intros [= -> ->]. lia.
Qed.

Lemma lex_cmp_flip a b : lex_cmp b a = CompOpp (lex_cmp a b).
Proof.
  revert b. induction a as [|x a IH]; intros [|y b]; simpl; try done.
  rewrite (Z.compare_antisym y x). destruct (y ?= x) eqn:E; simpl; try done.
Qed.

Lemma lex_cmp_trans a b c : lex_cmp a b = Lt -> lex_cmp b c = Lt -> lex_cmp a c = Lt.
Proof.
  revert b c. induction a as [|x a IH]; intros [|y b] [|z c]; simpl; try done.
  destruct (Z.compare_spec x y) as [->|Hxy|]; try done;
    destruct (Z.compare_spec y z) as [->|Hyz|]; try done; intros H1 H2.
  - eauto.
  - by rewrite (proj2 (Z.compare_lt_iff _ _) Hxy).
  - by rewrite (proj2 (Z.compare_lt_iff x z)) by lia.
Qed.

#[export, refine] Instance OrdKey_SocketAddr : OrdKey SocketAddr :=
  {| kcmp a b := lex_cmp (sock_key a) (sock_key b) |}.
Proof.
  - intros x y. rewrite lex_cmp_eq. split; [|by intros ->].
    destruct x, y; simpl; intros [=]; congruence.
  - intros; apply lex_cmp_flip.
  - intros; eapply lex_cmp_trans; eauto.
Defined.

(** ** Address classification *)

Definition octet (i : Z) (a : Z) : Z := Z.land (Z.shiftr a (8 * (3 - i))) 255.

Definition is_private (a : Z) : bool :=
  (octet 0 a =? 10) ||
  ((octet 0 a =? 172) && (16 <=? octet 1 a) && (octet 1 a <=? 31)) ||
  ((octet 0 a =? 192) && (octet 1 a =? 168)).

Definition is_loopback_v4 (a : Z) : bool := octet 0 a =? 127.

Definition is_link_local_v4 (a : Z) : bool := (octet 0 a =? 169) && (octet 1 a =? 254).

Definition is_private_or_local_v4 (a : Z) : bool :=
  is_private a || is_loopback_v4 a || is_link_local_v4 a.

(** [Ipv6Addr::to_ipv4_mapped]: [::ffff:0:0/96]. *)
Definition to_ipv4_mapped (a : Z) : option Z :=
  if Z.shiftr a 32 =? 65535 then Some (Z.land a (2 ^ 32 - 1)) else None.

Definition segment0 (a : Z) : Z := Z.shiftr a 112.

Definition is_private_or_local (address : IpAddr) : bool :=
  match address with
  | V4 a => is_private_or_local_v4 a
  | V6 a =>
      match to_ipv4_mapped a with
      | Some v4 => is_private_or_local_v4 v4
      | None => (a =? 1) || (Z.land (segment0 a) 65024 =? 64512)
                || (Z.land (segment0 a) 65472 =? 65152)
      end
  end.

(** ** Connection paths *)

Inductive TransportAddr :=
  | Ip (a : SocketAddr)
  | Relay (url : string)
  | OtherTransport.

Record Path := {
  is_selected : bool;
  is_relay : bool;
  remote_addr : TransportAddr;
  rtt_ns : Z;
}.

Record ConnectionDetails := { path : ConnectionPath; rtt_ms : Z }.

Definition direct_path (address : TransportAddr) : ConnectionPath :=
  match address with
  | Ip a => if is_private_or_local (ip a) then LanDirect else WanDirect
  | _ => UnknownPath
  end.

Definition duration_millis (ns : Z) : Z := default u64_max (try_from_u u64_max (ns / 1000000)).

Definition classify_connection (paths : list Path) : ConnectionDetails :=
  match List.find is_selected paths with
  | None => {| path := UnknownPath; rtt_ms := 0 |}
  | Some selected =>
      {| path := if is_relay selected then Relayed else direct_path (remote_addr selected);
         rtt_ms := duration_millis (rtt_ns selected) |}
  end.

(** [Vec::dedup]: drop an element equal to the one before it. *)
Fixpoint dedup {A} `{EqDecision A} (l : list A) : list A :=
  match l with
  | x :: (y :: _) as rest => if decide (x = y) then dedup rest else x :: dedup rest
  | _ => l
  end.

Definition ip_addresses (paths : list Path) : list SocketAddr :=
  omap (fun p => match remote_addr p with Ip a => Some a | _ => None end) paths.

Definition observed_direct_addresses (paths : list Path) : list SocketAddr :=
  dedup (sort_by kcmp (ip_addresses paths)).

(** ** Binding the endpoint *)

Record EndpointConfig := {
  relay_urls : list string;
  bind_port : option Z;
  advertise_addresses : list SocketAddr;
  relay_ca_certificate : option string;
}.

Inductive RelayCaError :=
  | Unreadable (path : string)
  | Malformed (path : string)
  | NoCertificate (path : string)
  | Unusable (path : string).

Inductive TransportError :=
  | InvalidRelayUrl (url : string)
  | InvalidBindPort (port : Z)
  | BindPortUnavailable (port : Z)
  | Endpoint
  | Connect
  | ConnectionLost
  | StreamClosed
  | Frame (e : FrameError)
  | Remote (code message : string)
  | RelayCa (e : RelayCaError).

(** Whose certificates a relay connection accepts. *)
Inductive Trust {Cert : Type} := PublicRoots | CustomRoots (roots : list Cert).
Arguments Trust : clear implicits.

Section Bind.
Context {Url Cert : Type}.
Context (parse_relay_url : string -> option Url).
Context (read_file : string -> option (list Z)).
Context (pem_sections : list Z -> option (list Cert)).
Context (verifier : list Cert -> bool).

(** What the builder has been told. *)
Record Plan := {
  relays : option (list Url * Trust Cert);
  external_addrs : list SocketAddr;
  binds : list (SocketAddr * bool);
}.

(** Whether the builder takes an address to listen on, and whether binding succeeds. *)
Context (accepts : SocketAddr -> bool) (bind : Plan -> bool).

Definition relay_ca_tls_config (path : string) : result (list Cert) RelayCaError :=
  let? pem := ok_or (read_file path) (Unreadable path) in
  let? roots := ok_or (pem_sections pem) (Malformed path) in
  match roots with
  | [] => Err (NoCertificate path)
  | _ => if verifier roots then Ok roots else Err (Unusable path)
  end.

Definition validate_relay_ca_certificate (path : string) : result unit RelayCaError :=
  let? _ := relay_ca_tls_config path in Ok tt.

Definition relay_plan (config : EndpointConfig)
  : result (option (list Url * Trust Cert)) TransportError :=
  match relay_urls config with
  | [] => Ok None
  | _ =>
      let? urls := collect_results (fun v => ok_or (parse_relay_url v) (InvalidRelayUrl v))
                     (relay_urls config) in
      match relay_ca_certificate config with
      | Some path =>
          let? roots := map_err RelayCa (relay_ca_tls_config path) in
          Ok (Some (urls, CustomRoots roots))
      | None => Ok (Some (urls, PublicRoots))
      end
  end.

Definition bind_endpoint (config : EndpointConfig) : result Plan TransportError :=
  let? relays := relay_plan config in
  match bind_port config with
  | None =>
      let plan := {| relays := relays; external_addrs := advertise_addresses config;
                     binds := [] |} in
      if bind plan then Ok plan else Err Endpoint
  | Some port =>
      if port =? 0 then Err (InvalidBindPort port)
      else if negb (accepts (SockV4 0 port)) then Err (InvalidBindPort port)
      else if negb (accepts (SockV6 0 port 0 0)) then Err (InvalidBindPort port)
      else
        let plan := {| relays := relays; external_addrs := advertise_addresses config;
                       binds := [(SockV4 0 port, true); (SockV6 0 port 0 0, false)] |} in
        if bind plan then Ok plan else Err (BindPortUnavailable port)
  end.

(** ** Lemmas *)

Lemma relay_ca_tls_config_Ok path roots :
  relay_ca_tls_config path = Ok roots ->
  exists pem, read_file path = Some pem /\ pem_sections pem = Some roots /\
              roots <> [] /\ verifier roots = true.
Proof.
  unfold relay_ca_tls_config. destruct (read_file path) as [pem|]; [|done]. simpl.
  destruct (pem_sections pem) as [r|] eqn:E; [|done]. simpl. destruct r as [|c r]; [done|].
  destruct (verifier (c :: r)) eqn:V; [|done]. intros [= <-]. eauto 7.
Qed.

(** The relay part of a plan that respects the configuration. *)
Definition relays_respect (config : EndpointConfig) (r : option (list Url * Trust Cert)) : Prop :=
  (relay_urls config = [] <-> r = None) /\
  (forall urls trust, r = Some (urls, trust) ->
     Forall2 (fun text url => parse_relay_url text = Some url) (relay_urls config) urls /\
     match relay_ca_certificate config with
     | None => trust = PublicRoots
     | Some file => exists roots pem, trust = CustomRoots roots /\ roots <> [] /\
         read_file file = Some pem /\ pem_sections pem = Some roots /\ verifier roots = true /\
         validate_relay_ca_certificate file = Ok tt
     end).

Lemma relay_plan_Ok config r : relay_plan config = Ok r -> relays_respect config r.
Proof.
  unfold relay_plan, relays_respect. destruct (relay_urls config) as [|u us] eqn:U.
  { intros [= <-]. split; [done|]. by intros. }
  destruct (collect_results _ _) as [urls|] eqn:C; [simpl|done].
  apply collect_results_Ok in C.
  assert (C' : Forall2 (fun text url => parse_relay_url text = Some url) (u :: us) urls).
  { eapply Forall2_impl; [|exact C]. intros x y. simpl.
    by destruct (parse_relay_url x); simpl; intros [= ->]. }
  destruct (relay_ca_certificate config) as [file|].
  - destruct (relay_ca_tls_config file) as [roots|] eqn:T; [simpl|done]. intros [= <-].
    split; [done|]. intros ? ? [= <- <-]. split; [done|].
    pose proof (relay_ca_tls_config_Ok _ _ T) as (pem & ? & ? & ? & ?).
    exists roots, pem. unfold validate_relay_ca_certificate. rewrite T. auto 7.
  - intros [= <-]. split; [done|]. intros ? ? [= <- <-]. done.
Qed.

(** ** Properties *)

(** Binding fails closed. Without relay URLs the endpoint has no relay transport at all;
    with a pinned certificate file every relay connection trusts exactly the certificates of
    that file, which were readable and accepted by the verifier, and never the public roots;
    a configured listen port is the only port requested and is not zero; the operator's
    addresses are all announced. A file that validation accepts is one binding can use. *)
Theorem bind_endpoint_fails_closed config plan :
  bind_endpoint config = Ok plan ->
  (relay_urls config = [] <-> relays plan = None) /\
  (forall urls trust, relays plan = Some (urls, trust) ->
     Forall2 (fun text url => parse_relay_url text = Some url) (relay_urls config) urls /\
     match relay_ca_certificate config with
     | None => trust = PublicRoots
     | Some file => exists roots pem, trust = CustomRoots roots /\ roots <> [] /\
         read_file file = Some pem /\ pem_sections pem = Some roots /\ verifier roots = true /\
         validate_relay_ca_certificate file = Ok tt
     end) /\
  external_addrs plan = advertise_addresses config /\
  match bind_port config with
  | None => binds plan = []
  | Some port => port <> 0 /\ binds plan <> [] /\
                 Forall (fun b => sock_port (fst b) = port) (binds plan)
  end.
Proof.
  unfold bind_endpoint. destruct (relay_plan config) as [r|] eqn:R; [simpl|done].
  apply relay_plan_Ok in R as [R1 R2].
  destruct (bind_port config) as [port|].
  - destruct (Z.eqb_spec port 0); [done|]. destruct (accepts _); [|done].
    destruct (accepts _); [|done]. simpl. destruct (bind _); [|done]. intros [= <-].
    split; [done|]. split; [done|]. split; [done|]. repeat constructor; done.
  - destruct (bind _); [|done]. intros [= <-]. auto.
Qed.

End Bind.

(** ** Lemmas: sorted, deduplicated address lists *)

#[export] Instance TotalCmp_kcmp {K} `{!OrdKey K} : TotalCmp (kcmp (K := K)).
Proof.
  split; [apply kcmp_flip|]. intros x y z H1 H2 H3.
  destruct (kcmp x y) eqn:E1; [apply kcmp_eq in E1 as ->; congruence| |done].
  destruct (kcmp y z) eqn:E2; [apply kcmp_eq in E2 as ->; congruence| |done].
  rewrite (kcmp_lt_trans _ _ _ E1 E2) in H3. done.
Qed.

Section Dedup.
Context {K : Type} `{!OrdKey K} `{!EqDecision K}.

Lemma dedup_In (l : list K) x : In x (dedup l) <-> In x l.
Proof.
  induction l as [|a [|b l] IH]; [done|done|]. cbn [dedup].
  destruct (decide (a = b)) as [->|]; [rewrite IH; simpl; tauto|].
  change (In x (a :: dedup (b :: l)) <-> In x (a :: b :: l)). simpl In at 1. rewrite IH.
  simpl. tauto.
Qed.

Lemma dedup_strict (l : list K) :
  StronglySorted (fun a b => kcmp a b <> Gt) l ->
  StronglySorted (fun a b => kcmp a b = Lt) (dedup l).
Proof.
  induction l as [|a [|b l] IH]; intros Hs; [constructor|repeat constructor|].
  apply StronglySorted_inv in Hs as [Hs Ha]. specialize (IH Hs). cbn [dedup].
  destruct (decide (a = b)) as [->|Hab]; [done|]. constructor; [done|].
  apply Forall_forall. intros x Hx. apply (proj1 (dedup_In (b :: l) x)) in Hx.
  assert (Lab : kcmp a b = Lt).
  { apply Forall_cons_iff in Ha as [Hb _]. destruct (kcmp a b) eqn:E; [|done|done].
    by apply kcmp_eq in E. }
  destruct Hx as [<-|Hx]; [done|]. apply StronglySorted_inv in Hs as [_ Hb].
  rewrite Forall_forall in Hb. specialize (Hb x Hx).
  destruct (kcmp b x) eqn:E; [apply kcmp_eq in E as <-; done| |done].
  by eapply kcmp_lt_trans.
Qed.

#[export] Instance kcmp_lt_antisymm : AntiSymm (=) (fun a b : K => kcmp a b = Lt).
Proof. intros x y H1 H2. rewrite kcmp_flip, H1 in H2. done. Qed.

Lemma strict_NoDup (l : list K) : StronglySorted (fun a b => kcmp a b = Lt) l -> NoDup l.
Proof.
  induction 1 as [|a l Hs IH Ha]; constructor; [|done]. rewrite list_elem_of_In. intros Hin.
  rewrite Forall_forall in Ha. specialize (Ha a Hin).
  assert (kcmp a a = Eq) by (by apply kcmp_eq). congruence.
Qed.

(** A strictly sorted list is determined by its elements. *)
Lemma strict_unique (l k : list K) :
  StronglySorted (fun a b => kcmp a b = Lt) l -> StronglySorted (fun a b => kcmp a b = Lt) k ->
  (forall x, In x l <-> In x k) -> l = k.
Proof.
  intros Hl Hk H. apply (sorting.StronglySorted_unique (fun a b : K => kcmp a b = Lt)); [done..|].
  apply NoDup_Permutation; [by apply strict_NoDup..|]. intros x. by rewrite !list_elem_of_In.
Qed.

End Dedup.

(** ** Lemmas: classification *)

Lemma octet_div i a : 0 <= i <= 3 -> octet i a = a / 2 ^ (8 * (3 - i)) mod 256.
Proof.
  intros H. unfold octet. rewrite Z.shiftr_div_pow2 by lia.
  by rewrite (Z.land_ones _ 8) by lia.
Qed.

Lemma mapped_v4 a : in_u u32_max a -> to_ipv4_mapped (65535 * 2 ^ 32 + a) = Some a.
Proof.
  intros H. unfold to_ipv4_mapped. rewrite Z.shiftr_div_pow2 by lia.
  change (2 ^ 32 - 1) with (Z.ones 32). rewrite Z.land_ones by lia.
  assert (Hd : (65535 * 2 ^ 32 + a) / 2 ^ 32 = 65535).
  { rewrite Z.div_add_l by lia. rewrite Z.div_small by width_lia. lia. }
  rewrite Hd, Z.eqb_refl. rewrite Z.add_comm, Z_mod_plus_full.
  by rewrite Z.mod_small by width_lia.
Qed.

(** ** Properties *)

(** A connection is reported as direct only when the selected path is not a relay and
    reaches an IP address, and as a LAN connection only when that address is private,
    loopback or link-local: for IPv4 exactly the blocks 10/8, 172.16/12, 192.168/16, 127/8 and
    169.254/16, and an IPv4-mapped IPv6 address is classified as the IPv4 host it denotes. *)
Theorem direct_path_is_honest (paths : list Path) (a : Z) :
  in_u u32_max a ->
  (path (classify_connection paths) = LanDirect \/ path (classify_connection paths) = WanDirect ->
   exists p addr, In p paths /\ is_selected p = true /\ is_relay p = false /\
     remote_addr p = Ip addr /\
     (path (classify_connection paths) = LanDirect <-> is_private_or_local (ip addr) = true)) /\
  (is_private_or_local (V4 a) = true <->
     167772160 <= a <= 184549375 \/ 2886729728 <= a <= 2887778303 \/
     3232235520 <= a <= 3232301055 \/ 2130706432 <= a <= 2147483647 \/
     2851995648 <= a <= 2852061183) /\
  is_private_or_local (V6 (65535 * 2 ^ 32 + a)) = is_private_or_local (V4 a).
Proof.
  intros Ha. split; [|split].
  - unfold classify_connection. destruct (List.find is_selected paths) as [p|] eqn:F;
      [|simpl; intros [?|?]; done].
    apply find_some in F as [Hin Hsel]. cbn [path].
    destruct (is_relay p) eqn:R; [intros [?|?]; done|]. unfold direct_path.
    destruct (remote_addr p) as [addr|url|] eqn:A; [|intros [?|?]; done..]. intros _.
    exists p, addr. repeat split; auto.
    + by destruct (is_private_or_local (ip addr)).
    + by intros ->.
  - cbn [is_private_or_local]. unfold is_private_or_local_v4, is_private, is_loopback_v4,
      is_link_local_v4. rewrite !octet_div by lia.
    change (2 ^ (8 * (3 - 0))) with 16777216. change (2 ^ (8 * (3 - 1))) with 65536.
    rewrite !orb_true_iff, !andb_true_iff, !Z.eqb_eq, !Z.leb_le.
    unfold in_u, u32_max in Ha. change (2 ^ 32) with 4294967296 in Ha.
    Z.to_euclidean_division_equations. lia.
  - cbn [is_private_or_local]. by rewrite mapped_v4.
Qed.

Lemma direct_path_is_honest_witness :
  is_private_or_local (V6 (65535 * 2 ^ 32 + 3232235781)) = true.
Proof.
  destruct (direct_path_is_honest [] 3232235781) as (_ & H & ->).
  - split; [lia|by vm_compute].
  - apply H. lia.
Defined.

(** The direct addresses observed on a connection are canonical: exactly the IP
    addresses of its paths, relays excluded, in strictly increasing order, so two
    connections with the same set of addresses report the same list. *)
Theorem observed_addresses_canonical (paths paths' : list Path) :
  (forall a, In a (observed_direct_addresses paths) <->
     exists p, In p paths /\ remote_addr p = Ip a) /\
  StronglySorted (fun a b => kcmp a b = Lt) (observed_direct_addresses paths) /\
  ((forall a, (exists p, In p paths /\ remote_addr p = Ip a) <->
              (exists p, In p paths' /\ remote_addr p = Ip a)) ->
   observed_direct_addresses paths = observed_direct_addresses paths').
Proof.
  assert (Hin : forall ps a, In a (observed_direct_addresses ps) <->
     exists p, In p ps /\ remote_addr p = Ip a).
  { intros ps a. unfold observed_direct_addresses. rewrite dedup_In.
    rewrite sort_by_perm. unfold ip_addresses. rewrite <- list_elem_of_In, list_elem_of_omap.
    split; intros (p & H1 & H2); exists p; rewrite list_elem_of_In in *; split; auto.
    - destruct (remote_addr p); [by simplify_eq|done..].
    - by rewrite H2. }
  assert (Hs : forall ps, StronglySorted (fun a b => kcmp a b = Lt) (observed_direct_addresses ps)).
  { intros ps. apply dedup_strict, sort_by_sorted, _. }
  split; [apply Hin|]. split; [apply Hs|]. intros H.
  apply strict_unique; [apply Hs..|]. intros a. rewrite !Hin. apply H.
Qed.

(** ** Witness of the binding theorem *)

Definition pinned_config : EndpointConfig :=
  {| relay_urls := ["https://relay.example"]; bind_port := Some 41641;
     advertise_addresses := []; relay_ca_certificate := Some "ca.pem" |}.

Lemma bind_endpoint_fails_closed_witness :
  exists plan, bind_endpoint (fun t => Some t) (fun _ => Some [45]) (fun pem => Some pem)
                 (fun _ => true) (fun _ => true) (fun _ => true) pinned_config = Ok plan /\
    relays plan = Some (["https://relay.example"], CustomRoots [45]) /\
    Forall (fun b => sock_port (fst b) = 41641) (binds plan).
Proof.
  eexists. split; [reflexivity|].
  destruct (bind_endpoint_fails_closed (Url := string) (Cert := Z) (fun t => Some t)
    (fun _ => Some [45]) (fun pem => Some pem) (fun _ => true) (fun _ => true) (fun _ => true)
    pinned_config _ eq_refl)
    as (_ & _ & _ & H).
  split; [reflexivity|]. exact (proj2 (proj2 H)).
Defined.
