(* ===== verification/Net.v ===== *)
(** The text of socket addresses: [Display] and [FromStr] of [std::net::SocketAddr].

    The configuration, the command line and the local socket carry addresses as text. This
    file has the standard library's printer and its recursive descent parser, with which the
    operator's address is read ([parse_advertise_address] in [apps/agent/src/runtime/config.rs])
    and shown, and proves that whatever is shown reads back. *)

From Stdlib Require Import Ascii String.
From S2P Require Import Prelude BTree Model Framing Transport.
Local Open Scope string_scope.
Local Open Scope Z_scope.

(** ** Digits *)

Definition digit_char (d : Z) : ascii :=
  ascii_of_nat (Z.to_nat (if d <? 10 then 48 + d else 87 + d)).

(** [char::to_digit]. *)
Definition to_digit (radix : Z) (c : ascii) : option Z :=
  let n := Z.of_nat (nat_of_ascii c) in
  let d := if (48 <=? n) && (n <=? 57) then n - 48
           else if (97 <=? n) && (n <=? 102) then n - 87
           else if (65 <=? n) && (n <=? 70) then n - 55
           else radix in
  if d <? radix then Some d else None.

(** [{}] and [{:x}] of an unsigned integer; [fuel] bounds the digits. *)
Fixpoint radix_digits (fuel : nat) (radix n : Z) (acc : string) : string :=
  match fuel with
  | O => acc
  | S fuel =>
      let acc := String (digit_char (n mod radix)) acc in
      if n / radix =? 0 then acc else radix_digits fuel radix (n / radix) acc
  end.

Definition decimal (n : Z) : string := radix_digits 20 10 n "".
Definition hex (n : Z) : string := radix_digits 16 16 n "".

(** ** The parser of [core::net]: functions from text to a value and the unread rest *)

Definition Parser (A : Type) : Type := string -> option (A * string).

Definition read_given_char (c : ascii) : Parser unit := fun s =>
  match s with
  | String d rest => if Ascii.eqb c d then Some (tt, rest) else None
  | EmptyString => None
  end.

(** The digit loop: bounded by a number of digits, or by the width with checked arithmetic. *)
Fixpoint digit_loop (radix : Z) (max_digits : option nat) (width : Z) (s : string) (acc : Z)
    (count : nat) : option (Z * nat * string) :=
  match s with
  | EmptyString => Some (acc, count, s)
  | String c rest =>
      match to_digit radix c with
      | None => Some (acc, count, s)
      | Some d =>
          let acc := acc * radix + d in
          match max_digits with
          | Some m =>
              if (m <? S count)%nat then None
              else digit_loop radix max_digits width rest acc (S count)
          | None =>
              if width <? acc then None
              else digit_loop radix max_digits width rest acc (S count)
          end
      end
  end.

Definition leading_zero (s : string) : bool :=
  match s with String c _ => Ascii.eqb c "0"%char | EmptyString => false end.

Definition read_number (radix : Z) (max_digits : option nat) (allow_zero_prefix : bool)
    (width : Z) : Parser Z := fun s =>
  match digit_loop radix max_digits width s 0 0 with
  | None => None
  | Some (v, count, rest) =>
      if (count =? 0)%nat then None
      else if negb allow_zero_prefix && leading_zero s && (1 <? count)%nat then None
      else match try_from_u width v with Some v => Some (v, rest) | None => None end
  end.

Definition read_separator {A} (sep : ascii) (index : nat) (inner : Parser A) : Parser A := fun s =>
  if (0 <? index)%nat then '(_, s) ← read_given_char sep s; inner s else inner s.

Definition octets_bits (a b c d : Z) : Z := a * 2 ^ 24 + b * 2 ^ 16 + c * 2 ^ 8 + d.

Definition read_octet (index : nat) : Parser Z :=
  read_separator "."%char index (read_number 10 (Some 3%nat) false u8_max).

Definition read_ipv4_addr : Parser Z := fun s =>
  '(a, s) ← read_octet 0 s;
  '(b, s) ← read_octet 1 s;
  '(c, s) ← read_octet 2 s;
  '(d, s) ← read_octet 3 s;
  Some (octets_bits a b c d, s).

Definition read_group (index : nat) : Parser Z :=
  read_separator ":"%char index (read_number 16 (Some 4%nat) true u16_max).

(** Up to [slots] groups; a trailing IPv4 address takes two of them. *)
Fixpoint read_groups (slots index : nat) (s : string) : list Z * bool * string :=
  match slots with
  | O => ([], false, s)
  | S slots =>
      match (if (0 <? slots)%nat then read_separator ":"%char index read_ipv4_addr s else None) with
      | Some (a, s) => ([a / 2 ^ 16; a mod 2 ^ 16], true, s)
      | None =>
          match read_group index s with
          | None => ([], false, s)
          | Some (g, s) =>
              let '(gs, v4, s) := read_groups slots (S index) s in (g :: gs, v4, s)
          end
      end
  end.

(** The address of eight segments, and the segments of an address. *)
Definition segments_bits (l : list Z) : Z := fold_left (fun acc g => acc * 2 ^ 16 + g) l 0.

Fixpoint low_segments (n : nat) (a : Z) : list Z :=
  match n with
  | O => []
  | S n => (low_segments n (a / 2 ^ 16) ++ [a mod 2 ^ 16])%list
  end.

Definition segments (a : Z) : list Z := low_segments 8 a.

Definition read_ipv6_addr : Parser Z := fun s =>
  let '(head, head_ipv4, s) := read_groups 8 0 s in
  if (length head =? 8)%nat then Some (segments_bits head, s)
  else if head_ipv4 then None
  else
    '(_, s) ← read_given_char ":"%char s;
    '(_, s) ← read_given_char ":"%char s;
    let '(tail, _, s) := read_groups (8 - (length head + 1)) 0 s in
    Some (segments_bits (head ++ replicate (8 - length head - length tail) 0 ++ tail)%list, s).

Definition read_port : Parser Z := fun s =>
  '(_, s) ← read_given_char ":"%char s; read_number 10 None true u16_max s.

Definition read_scope_id : Parser Z := fun s =>
  '(_, s) ← read_given_char "%"%char s; read_number 10 None true u32_max s.

Definition read_socket_addr_v4 : Parser SocketAddr := fun s =>
  '(a, s) ← read_ipv4_addr s;
  '(port, s) ← read_port s;
  Some (SockV4 a port, s).

Definition read_socket_addr_v6 : Parser SocketAddr := fun s =>
  '(_, s) ← read_given_char "["%char s;
  '(a, s) ← read_ipv6_addr s;
  let '(scope, s) := default (0, s) (read_scope_id s) in
  '(_, s) ← read_given_char "]"%char s;
  '(port, s) ← read_port s;
  Some (SockV6 a port 0 scope, s).

(** [str::parse::<SocketAddr>]. *)
Definition parse_socket_addr (s : string) : option SocketAddr :=
  match (match read_socket_addr_v4 s with Some r => Some r | None => read_socket_addr_v6 s end) with
  | Some (a, EmptyString) => Some a
  | _ => None
  end.

(** ** The printer *)

Definition ipv4_text (a : Z) : string :=
  decimal (octet 0 a) +:+ "." +:+ decimal (octet 1 a) +:+ "." +:+
  decimal (octet 2 a) +:+ "." +:+ decimal (octet 3 a).

(** The longest run of zero segments, as its start and length; the first of equal ones. *)
Fixpoint zero_span (l : list Z) (i : nat) (longest current : nat * nat) : nat * nat :=
  match l with
  | [] => longest
  | g :: l =>
      if g =? 0 then
        let current := ((if (snd current =? 0)%nat then i else fst current), S (snd current)) in
        zero_span l (S i) (if (snd longest <? snd current)%nat then current else longest) current
      else zero_span l (S i) longest (0, 0)%nat
  end.

Fixpoint fmt_tail (l : list Z) : string :=
  match l with [] => "" | g :: l => ":" +:+ hex g +:+ fmt_tail l end.

Definition fmt_subslice (l : list Z) : string :=
  match l with [] => "" | g :: l => hex g +:+ fmt_tail l end.

Definition ipv6_text (a : Z) : string :=
  match to_ipv4_mapped a with
  | Some v4 => "::ffff:" +:+ ipv4_text v4
  | None =>
      let l := segments a in
      let '(start, len) := zero_span l 0 (0, 0)%nat (0, 0)%nat in
      if (1 <? len)%nat
      then fmt_subslice (take start l) +:+ "::" +:+ fmt_subslice (drop (start + len) l)
      else fmt_subslice l
  end.

Definition socket_text (a : SocketAddr) : string :=
  match a with
  | SockV4 x port => ipv4_text x +:+ ":" +:+ decimal port
  | SockV6 x port _ scope =>
      if scope =? 0 then "[" +:+ ipv6_text x +:+ "]:" +:+ decimal port
      else "[" +:+ ipv6_text x +:+ "%" +:+ decimal scope +:+ "]:" +:+ decimal port
  end.

Example text_v4 : socket_text (SockV4 3325256711 41641) = "198.51.100.7:41641".
Proof. vm_compute. reflexivity. Qed.

Example text_v6 : socket_text (SockV6 (2 ^ 96 * 536939960 + 1) 41641 0 0) = "[2001:db8::1]:41641".
Proof. vm_compute. reflexivity. Qed.

Example parse_v6 : parse_socket_addr "[fe80::1:0:2%7]:80" =
  Some (SockV6 (65152 * 2 ^ 112 + 2 ^ 32 + 2) 80 0 7).
Proof. vm_compute. reflexivity. Qed.

Example parse_mapped : parse_socket_addr "[::ffff:1.2.3.4]:1" = Some (SockV6 281470698652420 1 0 0).
Proof. vm_compute. reflexivity. Qed.

Example parse_host : parse_socket_addr "relay.example:41641" = None.
Proof. vm_compute. reflexivity. Qed.

Example parse_zero_prefix : parse_socket_addr "192.168.01.1:80" = None.
Proof. vm_compute. reflexivity. Qed.

(** ** Reading what was printed *)

Section Digits.
Context (radix : Z) (Hradix : 2 <= radix <= 16).

Lemma to_digit_char d : 0 <= d < radix -> to_digit radix (digit_char d) = Some d.
Proof.
  intros Hd. unfold to_digit, digit_char. rewrite nat_ascii_embedding by (case_match; lia).
  rewrite Z2Nat.id by (case_match; lia).
  destruct (Z.ltb_spec d 10).
  - rewrite (proj2 (Z.leb_le 48 (48 + d))), (proj2 (Z.leb_le (48 + d) 57)) by lia. simpl.
    replace (48 + d - 48) with d by lia. by rewrite (proj2 (Z.ltb_lt d radix)) by lia.
  - rewrite (proj2 (Z.leb_gt (87 + d) 57)), andb_false_r by lia.
    rewrite (proj2 (Z.leb_le 97 (87 + d))), (proj2 (Z.leb_le (87 + d) 102)) by lia. simpl.
    replace (87 + d - 87) with d by lia. by rewrite (proj2 (Z.ltb_lt d radix)) by lia.
Qed.

(** The number of digits printed. *)
Fixpoint digit_count (fuel : nat) (n : Z) : nat :=
  match fuel with
  | O => O
  | S fuel => if n / radix =? 0 then 1%nat else S (digit_count fuel (n / radix))
  end.

Lemma digit_count_le fuel n m :
  0 <= n < radix ^ Z.of_nat m -> (0 < m)%nat -> (digit_count fuel n <= m)%nat.
Proof.
  revert n m. induction fuel as [|fuel IH]; intros n m Hn Hm; simpl; [lia|].
  destruct (Z.eqb_spec (n / radix) 0) as [|Hq]; [lia|].
  destruct m as [|[|m]]; [lia| |].
  - exfalso. apply Hq. apply Z.div_small. change (Z.of_nat 1) with 1 in Hn. lia.
  - apply le_n_S, (IH _ (S m)); [|lia]. split; [apply Z.div_pos; lia|].
    apply Z.div_lt_upper_bound; [lia|].
    rewrite <- Z.pow_succ_r by lia. rewrite <- Nat2Z.inj_succ. apply Hn.
Qed.

(** What the loop still accepts. *)
Definition within (max_digits : option nat) (width acc : Z) (count : nat) : Prop :=
  match max_digits with Some m => (count <= m)%nat | None => acc <= width end.

Lemma digit_loop_text max_digits width fuel n tail acc count :
  0 <= n < radix ^ Z.of_nat fuel -> 0 <= acc -> (0 < fuel)%nat ->
  let k := digit_count fuel n in
  let v := acc * radix ^ Z.of_nat k + n in
  within max_digits width v (count + k) ->
  digit_loop radix max_digits width (radix_digits fuel radix n tail) acc count =
  digit_loop radix max_digits width tail v (count + k).
Proof.
  revert n tail acc count. induction fuel as [|fuel IH]; intros n tail acc count Hn Hacc Hf; [lia|].
  simpl digit_count. simpl radix_digits.
  pose proof (Z.mod_pos_bound n radix ltac:(lia)) as Hm.
  pose proof (Z.div_mod n radix ltac:(lia)) as Hdm.
  assert (Hq : 0 <= n / radix) by (apply Z.div_pos; lia).
  assert (Hstep : forall a c, within max_digits width (a * radix + n mod radix) (S c) ->
    digit_loop radix max_digits width (String (digit_char (n mod radix)) tail) a c =
    digit_loop radix max_digits width tail (a * radix + n mod radix) (S c)).
  { intros a c Hw. simpl. rewrite to_digit_char by done. destruct max_digits as [m|]; simpl in Hw.
    - by rewrite (proj2 (Nat.ltb_ge m (S c))).
    - by rewrite (proj2 (Z.ltb_ge _ _)). }
  destruct (Z.eqb_spec (n / radix) 0) as [E|E]; cbv zeta; intros Hw.
  - change (Z.of_nat 1) with 1 in *. rewrite Z.pow_1_r in *.
    replace (acc * radix + n) with (acc * radix + n mod radix) in * by lia.
    replace (count + 1)%nat with (S count) in * by lia. by apply Hstep.
  - assert (Hfuel : (0 < fuel)%nat).
    { destruct fuel; [|lia]. exfalso. apply E, Z.div_small. change (Z.of_nat 1) with 1 in Hn. lia. }
    assert (Hlt : n / radix < radix ^ Z.of_nat fuel).
    { apply Z.div_lt_upper_bound; [lia|]. rewrite <- Z.pow_succ_r by lia.
      rewrite <- Nat2Z.inj_succ. apply Hn. }
    set (k := digit_count fuel (n / radix)) in *.
    assert (Hv : acc * radix ^ Z.of_nat (S k) + n =
                 (acc * radix ^ Z.of_nat k + n / radix) * radix + n mod radix).
    { rewrite Nat2Z.inj_succ, Z.pow_succ_r by lia. lia. }
    rewrite Hv in *. replace (count + S k)%nat with (S (count + k)) in * by lia.
    rewrite IH; [|lia..|].
    + by apply Hstep.
    + fold k. destruct max_digits; simpl in *; [lia|].
      assert (0 <= acc * radix ^ Z.of_nat k) by (apply Z.mul_nonneg_nonneg; [lia|apply Z.pow_nonneg; lia]).
      nia.
Qed.

Lemma digit_char_zero d : 0 <= d < 16 -> Ascii.eqb (digit_char d) "0" = (d =? 0).
Proof.
  intros Hd. assert (H : forallb (fun d => Bool.eqb (Ascii.eqb (digit_char (Z.of_nat d)) "0") (Z.of_nat d =? 0))
    (seq 0 16) = true) by (vm_compute; done).
  rewrite forallb_forall in H. specialize (H (Z.to_nat d)). rewrite Z2Nat.id in H by lia.
  apply eqb_prop, H, in_seq. lia.
Qed.

(** No padding: a printed number starts with a zero only if it is zero. *)
Lemma leading_zero_text fuel n tail :
  0 < n < radix ^ Z.of_nat fuel -> leading_zero (radix_digits fuel radix n tail) = false.
Proof.
  revert n tail. induction fuel as [|fuel IH]; intros n tail Hn.
  { simpl in Hn. lia. }
  simpl. pose proof (Z.mod_pos_bound n radix ltac:(lia)). pose proof (Z.div_mod n radix ltac:(lia)).
  assert (Hq : 0 <= n / radix) by (apply Z.div_pos; lia).
  destruct (Z.eqb_spec (n / radix) 0) as [E|E].
  - simpl. rewrite digit_char_zero by lia. apply Z.eqb_neq. lia.
  - apply IH. split; [lia|]. apply Z.div_lt_upper_bound; [lia|]. rewrite <- Z.pow_succ_r by lia.
    rewrite <- Nat2Z.inj_succ. apply Hn.
Qed.

(** The next character ends a number. *)
Definition not_digit (s : string) : Prop :=
  match s with String c _ => to_digit radix c = None | EmptyString => True end.

Lemma digit_loop_stops max_digits width s acc count :
  not_digit s -> digit_loop radix max_digits width s acc count = Some (acc, count, s).
Proof. destruct s as [|c s]; simpl; [done|]. by intros ->. Qed.

Lemma digit_count_pos fuel n : (0 < fuel)%nat -> (0 < digit_count fuel n)%nat.
Proof. destruct fuel; simpl; [lia|]. case_match; lia. Qed.

Lemma read_number_text fuel max_digits allow width n rest :
  0 <= n <= width -> n < radix ^ Z.of_nat fuel -> (0 < fuel)%nat -> not_digit rest ->
  match max_digits with Some m => (0 < m)%nat /\ n < radix ^ Z.of_nat m | None => True end ->
  read_number radix max_digits allow width (radix_digits fuel radix n rest) = Some (n, rest).
Proof.
  intros Hn Hfuel Hf Hrest Hmax. unfold read_number.
  pose proof (digit_loop_text max_digits width fuel n rest 0 0) as L. cbv zeta in L.
  rewrite Z.mul_0_l, Z.add_0_l in L. rewrite L; [|lia..|].
  2: { destruct max_digits; simpl; [|lia]. apply digit_count_le; lia. }
  rewrite digit_loop_stops by done. simpl.
  pose proof (digit_count_pos fuel n Hf). rewrite (proj2 (Nat.eqb_neq _ 0)) by lia.
  replace (negb allow && _ && _)%bool with false.
  2: { symmetry. destruct (Z.eq_dec n 0) as [->|].
       - apply andb_false_intro2. apply Nat.ltb_ge. destruct fuel; cbn [digit_count]; [lia|]. by rewrite Zdiv_0_l.
       - rewrite leading_zero_text, andb_false_r by lia. done. }
  by rewrite (proj2 (try_from_u_Some width n n)).
Qed.

End Digits.

#[global] Arguments radix_digits : simpl never.

Lemma radix_digits_S fuel radix n acc :
  radix_digits (S fuel) radix n acc =
  if n / radix =? 0 then String (digit_char (n mod radix)) acc
  else radix_digits fuel radix (n / radix) (String (digit_char (n mod radix)) acc).
Proof. done. Qed.

Lemma append_char c s : String c "" +:+ s = String c s.
Proof. done. Qed.

Lemma append_assoc (a b c : string) : (a +:+ b) +:+ c = a +:+ (b +:+ c).
Proof.
  induction a as [|x a IH]; [done|].
  change (String x ((a +:+ b) +:+ c) = String x (a +:+ (b +:+ c))). by rewrite IH.
Qed.

Lemma append_nil s : "" +:+ s = s.
Proof. done. Qed.

Lemma read_given_same c s : read_given_char c (String c s) = Some (tt, s).
Proof. simpl. by rewrite Ascii.eqb_refl. Qed.

Lemma radix_digits_app fuel radix n acc rest :
  radix_digits fuel radix n acc +:+ rest = radix_digits fuel radix n (acc +:+ rest).
Proof.
  revert n acc. induction fuel as [|fuel IH]; intros n acc; [done|]. rewrite !radix_digits_S.
  destruct (_ =? 0); [done|]. by rewrite IH.
Qed.

Lemma decimal_app n rest : decimal n +:+ rest = radix_digits 20 10 n rest.
Proof. unfold decimal. by rewrite radix_digits_app. Qed.

Lemma hex_app n rest : hex n +:+ rest = radix_digits 16 16 n rest.
Proof. unfold hex. by rewrite radix_digits_app. Qed.

(** Text in which no dotted address can be read. *)
Fixpoint no_dot (s : string) : bool :=
  match s with EmptyString => true | String c s => negb (Ascii.eqb "." c) && no_dot s end.

Lemma no_dot_app a b : no_dot (a +:+ b) = no_dot a && no_dot b.
Proof. induction a as [|c a IH]; simpl; [done|]. by rewrite IH, andb_assoc. Qed.

Lemma digit_char_no_dot d : 0 <= d < 16 -> Ascii.eqb "." (digit_char d) = false.
Proof.
  intros Hd. assert (H : forallb (fun d => negb (Ascii.eqb "." (digit_char (Z.of_nat d)))) (seq 0 16) = true)
    by (vm_compute; done).
  rewrite forallb_forall in H. specialize (H (Z.to_nat d)). rewrite Z2Nat.id in H by lia.
  apply negb_true_iff, H, in_seq. lia.
Qed.

Lemma radix_digits_no_dot fuel radix n acc :
  2 <= radix <= 16 -> no_dot (radix_digits fuel radix n acc) = no_dot acc.
Proof.
  intros Hr. revert n acc. induction fuel as [|fuel IH]; intros n acc; [done|].
  rewrite radix_digits_S. pose proof (Z.mod_pos_bound n radix ltac:(lia)).
  destruct (_ =? 0); [|rewrite IH]; cbn [no_dot]; rewrite digit_char_no_dot by lia; reflexivity.
Qed.

Lemma digit_loop_no_dot radix md w s acc count v k rest :
  no_dot s = true -> digit_loop radix md w s acc count = Some (v, k, rest) -> no_dot rest = true.
Proof.
  revert acc count. induction s as [|c s IH]; intros acc count Hs; simpl; [by intros [= _ _ <-]|].
  destruct (to_digit radix c) as [d|]; [|by intros [= _ _ <-]].
  simpl in Hs. apply andb_true_iff in Hs as [_ Hs].
  destruct md as [m|]; case_match; try done; by apply IH.
Qed.

Lemma read_number_no_dot radix md allow w s v rest :
  no_dot s = true -> read_number radix md allow w s = Some (v, rest) -> no_dot rest = true.
Proof.
  unfold read_number. destruct (digit_loop radix md w s 0 0) as [[[u k] r]|] eqn:E; [|done].
  intros Hs. destruct (k =? 0)%nat; [done|]. destruct (_ && _)%bool; [done|].
  destruct (try_from_u w u); [|done]. intros [= _ <-]. by eapply digit_loop_no_dot.
Qed.

Lemma read_ipv4_no_dot s : no_dot s = true -> read_ipv4_addr s = None.
Proof.
  intros Hs. unfold read_ipv4_addr. change (read_octet 0 s) with (read_number 10 (Some 3%nat) false u8_max s).
  destruct (read_number 10 (Some 3%nat) false u8_max s) as [[v rest]|] eqn:E; [|done].
  apply read_number_no_dot in E; [|done]. destruct rest as [|c rest]; [done|].
  cbn [no_dot] in E. apply andb_true_iff in E as [E _]. apply negb_true_iff in E.
  assert (read_octet 1 (String c rest) = None) as H.
  { unfold read_octet, read_separator, read_given_char. by rewrite E. }
  unfold mbind, option_bind. by rewrite H.
Qed.

(** ** IPv4 *)

Lemma octet_range i a : in_u u8_max (octet i a).
Proof.
  unfold octet. change 255 with (Z.ones 8). rewrite Z.land_ones by lia.
  pose proof (Z.mod_pos_bound (Z.shiftr a (8 * (3 - i))) (2 ^ 8) ltac:(lia)). width_lia.
Qed.

Lemma octets_bits_octets a :
  in_u u32_max a -> octets_bits (octet 0 a) (octet 1 a) (octet 2 a) (octet 3 a) = a.
Proof.
  intros Ha. rewrite !octet_div by lia. unfold octets_bits.
  change (8 * (3 - 0)) with 24. change (8 * (3 - 1)) with 16. change (8 * (3 - 2)) with 8.
  change (8 * (3 - 3)) with 0. change (2 ^ 0) with 1. rewrite Z.div_1_r.
  assert (H : forall k, 0 <= k -> a / 2 ^ k = 2 ^ 8 * (a / 2 ^ (k + 8)) + a / 2 ^ k mod 256).
  { intros k Hk. rewrite Z.pow_add_r, <- Z.div_div by lia. by apply Z.div_mod. }
  pose proof (H 0 ltac:(lia)) as H0. pose proof (H 8 ltac:(lia)) as H1.
  pose proof (H 16 ltac:(lia)) as H2. pose proof (H 24 ltac:(lia)) as H3.
  assert (a / 2 ^ (24 + 8) = 0) as E by (apply Z.div_small; width_lia).
  rewrite E in H3. change (2 ^ 0) with 1 in *. rewrite Z.div_1_r in *.
  change (0 + 8) with 8 in *. change (8 + 8) with 16 in *. change (16 + 8) with 24 in *.
  generalize dependent (a / 2 ^ 24). generalize dependent (a / 2 ^ 16).
  generalize dependent (a / 2 ^ 8). intros. lia.
Qed.

Lemma read_octet_text o rest :
  in_u u8_max o -> not_digit 10 rest -> read_octet 0 (decimal o +:+ rest) = Some (o, rest).
Proof.
  intros Ho Hr. unfold read_octet, read_separator. rewrite decimal_app.
  apply read_number_text; try done; try lia; [width_lia|]. split; [lia|]. simpl. width_lia.
Qed.

Lemma read_next_octet_text i o rest :
  in_u u8_max o -> not_digit 10 rest ->
  read_octet (S i) ("." +:+ decimal o +:+ rest) = Some (o, rest).
Proof.
  intros Ho Hr. unfold read_octet, read_separator.
  rewrite append_char, read_given_same. by apply read_octet_text.
Qed.

Lemma read_ipv4_text a rest :
  in_u u32_max a -> not_digit 10 rest -> read_ipv4_addr (ipv4_text a +:+ rest) = Some (a, rest).
Proof.
  intros Ha Hr. unfold read_ipv4_addr, ipv4_text. rewrite !append_assoc.
  rewrite read_octet_text by (apply octet_range || done). cbn [mbind option_bind].
  do 3 (rewrite read_next_octet_text by (apply octet_range || done); cbn [mbind option_bind]).
  by rewrite octets_bits_octets.
Qed.

(** ** IPv6 *)

(** The text after the groups: a bracket, a scope, or the compressed zeros. *)
Definition ends_groups (s : string) : Prop :=
  match s with
  | String c r => c = "]"%char \/ c = "%"%char \/ (c = ":"%char /\ exists r', r = String ":" r')
  | EmptyString => False
  end.

Lemma ends_not_digit s : ends_groups s -> not_digit 16 s.
Proof. destruct s as [|c r]; [done|]. by intros [->|[->|[-> _]]]. Qed.

Lemma read_group_ends i s : ends_groups s -> read_group i s = None.
Proof.
  unfold read_group, read_separator. destruct s as [|c r]; [done|].
  intros [->|[->|[-> [r' ->]]]]; by destruct (0 <? i)%nat.
Qed.

Lemma read_ipv4_ends i s :
  ends_groups s -> no_dot s = true -> read_separator ":" i read_ipv4_addr s = None.
Proof.
  intros He Hd. unfold read_separator. destruct (0 <? i)%nat; [|by apply read_ipv4_no_dot].
  destruct s as [|c s]; [done|]. destruct (read_given_char ":" (String c s)) as [[u r]|] eqn:E; [|done].
  cbn [read_given_char] in E. destruct (Ascii.eqb ":" c); [|done]. injection E as _ <-.
  apply read_ipv4_no_dot. cbn [no_dot] in Hd. by apply andb_true_iff in Hd as [_ ?].
Qed.

Definition in_u16 : Z -> Prop := in_u u16_max.

Lemma read_hex_text g rest :
  in_u16 g -> not_digit 16 rest ->
  read_number 16 (Some 4%nat) true u16_max (hex g +:+ rest) = Some (g, rest).
Proof.
  intros Hg Hr. rewrite hex_app. unfold in_u16 in *.
  apply read_number_text; try done; try lia; [width_lia|]. split; [lia|]. simpl. width_lia.
Qed.

Lemma fmt_tail_not_digit l rest : ends_groups rest -> not_digit 16 (fmt_tail l +:+ rest).
Proof. destruct l; [|done]. rewrite append_nil. apply ends_not_digit. Qed.

Lemma fmt_tail_no_dot l rest : no_dot (fmt_tail l +:+ rest) = no_dot rest.
Proof.
  induction l as [|g l IH]; [done|]. cbn [fmt_tail]. rewrite !append_assoc, append_char, hex_app.
  cbn [no_dot]. rewrite radix_digits_no_dot by lia. exact IH.
Qed.

Lemma no_dot_hex g rest : no_dot (hex g +:+ rest) = no_dot rest.
Proof. rewrite hex_app. apply radix_digits_no_dot. lia. Qed.

(** Groups in the middle of an address: each with its colon. *)
Lemma read_groups_tail slots i l rest :
  (length l <= slots)%nat -> Forall in_u16 l -> ends_groups rest -> no_dot rest = true ->
  read_groups slots (S i) (fmt_tail l +:+ rest) = (l, false, rest).
Proof.
  revert i l. induction slots as [|slots IH]; intros i l Hl Hall He Hd; cbn [read_groups].
  { destruct l; [done|]. simpl in Hl. lia. }
  assert (H4 : (if (0 <? slots)%nat then read_separator ":" (S i) read_ipv4_addr (fmt_tail l +:+ rest)
                else None) = None).
  { destruct (0 <? slots)%nat; [|done]. destruct l as [|g l].
    - rewrite append_nil. by apply read_ipv4_ends.
    - cbn [fmt_tail]. rewrite !append_assoc, append_char. unfold read_separator.
      cbn [Nat.ltb Nat.leb]. rewrite read_given_same. cbn [mbind option_bind].
      apply read_ipv4_no_dot. by rewrite no_dot_hex, fmt_tail_no_dot. }
  rewrite H4. destruct l as [|g l].
  - rewrite append_nil. by rewrite read_group_ends.
  - cbn [fmt_tail]. rewrite !append_assoc, append_char. inversion Hall; subst.
    unfold read_group, read_separator. cbn [Nat.ltb Nat.leb]. rewrite read_given_same.
    cbn [mbind option_bind]. rewrite read_hex_text by (done || by apply fmt_tail_not_digit).
    simpl in Hl. by rewrite IH by (done || lia).
Qed.

Lemma read_groups_text slots l rest :
  (length l <= slots)%nat -> Forall in_u16 l -> ends_groups rest -> no_dot rest = true ->
  read_groups slots 0 (fmt_subslice l +:+ rest) = (l, false, rest).
Proof.
  intros Hl Hall He Hd. destruct slots as [|slots]; cbn [read_groups].
  { destruct l; [done|]. simpl in Hl. lia. }
  destruct l as [|g l]; cbn [fmt_subslice].
  - rewrite append_nil, read_group_ends by done. rewrite read_ipv4_ends by done.
    by destruct (0 <? slots)%nat.
  - rewrite append_assoc. inversion Hall; subst.
    unfold read_separator, read_group at 1. cbn [Nat.ltb Nat.leb].
    rewrite read_ipv4_no_dot by (by rewrite no_dot_hex, fmt_tail_no_dot).
    unfold read_separator. cbn [Nat.ltb Nat.leb].
    rewrite read_hex_text by (done || by apply fmt_tail_not_digit). simpl in Hl.
    rewrite read_groups_tail by (done || lia). by destruct slots.
Qed.

(** ** Segments *)

Lemma segments_bits_snoc l g : segments_bits (l ++ [g])%list = segments_bits l * 2 ^ 16 + g.
Proof. unfold segments_bits. by rewrite fold_left_app. Qed.

Lemma low_segments_bits n a :
  0 <= a < 2 ^ (16 * Z.of_nat n) -> segments_bits (low_segments n a) = a.
Proof.
  revert a. induction n as [|n IH]; intros a Ha; cbn [low_segments].
  { simpl in *. unfold segments_bits. simpl. lia. }
  rewrite segments_bits_snoc, IH.
  - pose proof (Z.div_mod a (2 ^ 16) ltac:(lia)). lia.
  - split; [apply Z.div_pos; lia|]. apply Z.div_lt_upper_bound; [lia|].
    rewrite <- Z.pow_add_r by lia. replace (16 + 16 * Z.of_nat n) with (16 * Z.of_nat (S n)) by lia. apply Ha.
Qed.

Lemma low_segments_range n a : Forall in_u16 (low_segments n a).
Proof.
  revert a. induction n as [|n IH]; intros a; cbn [low_segments]; [constructor|].
  apply Forall_app. split; [done|]. constructor; [|constructor].
  pose proof (Z.mod_pos_bound a (2 ^ 16) ltac:(lia)). unfold in_u16. width_lia.
Qed.

Lemma low_segments_length n a : length (low_segments n a) = n.
Proof. revert a. induction n as [|n IH]; intros a; cbn [low_segments]; [done|]. rewrite length_app, IH. simpl. lia. Qed.

(** A run of zeros of [full]. *)
Definition zeros_at (full : list Z) (span : nat * nat) : Prop :=
  forall j, (fst span <= j < fst span + snd span)%nat -> full !! j = Some 0.

Lemma zero_span_zeros full l i longest current :
  l = drop i full -> zeros_at full longest -> zeros_at full current ->
  (snd current = 0%nat \/ fst current + snd current = i)%nat ->
  zeros_at full (zero_span l i longest current).
Proof.
  revert i longest current. induction l as [|g l IH]; intros i longest current Hl Hlong Hcur Hend;
    cbn [zero_span]; [done|].
  assert (Hg : full !! i = Some g) by (rewrite <- (Nat.add_0_r i), <- lookup_drop, <- Hl; done).
  assert (Hl' : l = drop (S i) full).
  { replace (S i) with (i + 1)%nat by lia. rewrite <- drop_drop, <- Hl. done. }
  destruct (Z.eqb_spec g 0) as [->|].
  - set (next := (_, S (snd current))).
    assert (Hn : zeros_at full next /\ (fst next + snd next = S i)%nat).
    { subst next. cbn [fst snd]. destruct (Nat.eqb_spec (snd current) 0) as [E|E]; split; try lia.
      - intros j Hj. simpl in Hj. replace j with i by lia. done.
      - destruct Hend as [|Hend]; [lia|]. intros j Hj. simpl in Hj.
        destruct (Nat.eq_dec j i) as [->|]; [done|]. apply Hcur. lia. }
    destruct Hn as [Hn1 Hn2]. apply IH; auto. by case_match.
  - apply IH; auto. intros j Hj. simpl in Hj. lia.
Qed.

Lemma zeros_split (full : list Z) s k :
  zeros_at full (s, k) -> full = (take s full ++ replicate k 0 ++ drop (s + k) full)%list \/ k = 0%nat.
Proof.
  intros H. destruct k as [|k]; [by right|]. left.
  rewrite <- (take_drop s full) at 1. f_equal. rewrite <- (take_drop (S k) (drop s full)) at 1.
  rewrite drop_drop. f_equal. apply list_eq. intros j.
  destruct (decide (j < S k)%nat) as [Hj|Hj].
  - rewrite lookup_take_lt, lookup_drop, lookup_replicate_2 by lia. apply H. simpl. lia.
  - rewrite !lookup_ge_None_2; [done| |]; rewrite ?length_take, ?length_replicate; lia.
Qed.

(** ** The round trip *)

Lemma read_ipv6_compressed pre k post rest :
  (length pre + k + length post = 8)%nat -> (1 < k)%nat -> Forall in_u16 pre -> Forall in_u16 post ->
  ends_groups rest -> no_dot rest = true ->
  read_ipv6_addr (fmt_subslice pre +:+ "::" +:+ fmt_subslice post +:+ rest) =
  Some (segments_bits (pre ++ replicate k 0 ++ post)%list, rest).
Proof.
  intros Hlen Hk Hpre Hpost He Hd. unfold read_ipv6_addr.
  assert (Hmid : no_dot (fmt_subslice post +:+ rest) = true).
  { destruct post as [|g post]; [done|]. cbn [fmt_subslice].
    by rewrite append_assoc, no_dot_hex, fmt_tail_no_dot. }
  rewrite read_groups_text; [|lia|done|right; right; eauto|exact Hmid].
  rewrite (proj2 (Nat.eqb_neq (length pre) 8)) by lia.
  change ("::" +:+ ?x) with (String ":" (String ":" x)).
  rewrite !read_given_same. cbn [mbind option_bind]. rewrite read_given_same. cbn [mbind option_bind].
  rewrite read_groups_text by (done || lia).
  by replace (8 - length pre - length post)%nat with k by lia.
Qed.

Lemma read_ipv6_mapped v4 rest :
  in_u u32_max v4 -> ends_groups rest ->
  read_ipv6_addr ("::ffff:" +:+ ipv4_text v4 +:+ rest) = Some (65535 * 2 ^ 32 + v4, rest).
Proof.
  intros Hv He. set (text := ipv4_text v4 +:+ rest).
  assert (Hg : read_groups 7 0 ("ffff:" +:+ text) = ([65535; v4 / 2 ^ 16; v4 mod 2 ^ 16], true, rest)).
  { change (read_groups 7 0 ("ffff:" +:+ text)) with
      (let '(gs, v, s) := read_groups 6 1 (String ":" text) in (65535 :: gs, v, s)).
    cbn [read_groups Nat.ltb Nat.leb]. unfold read_separator at 1. cbn [Nat.ltb Nat.leb].
    rewrite read_given_same. cbn [mbind option_bind]. unfold text. rewrite read_ipv4_text; [done|done|].
    destruct rest as [|c r]; [done|]. by destruct He as [->|[->|[-> _]]]. }
  change (read_ipv6_addr ("::ffff:" +:+ text)) with
    (let '(tail, _, s) := read_groups 7 0 ("ffff:" +:+ text) in
     Some (segments_bits (replicate (8 - length tail) 0 ++ tail)%list, s)).
  rewrite Hg. pose proof (Z.div_mod v4 (2 ^ 16) ltac:(lia)). f_equal. f_equal.
  unfold segments_bits. simpl. lia.
Qed.

Lemma read_ipv6_text a rest :
  in_u u128_max a -> ends_groups rest -> no_dot rest = true ->
  read_ipv6_addr (ipv6_text a +:+ rest) = Some (a, rest).
Proof.
  intros Ha He Hd. unfold ipv6_text, to_ipv4_mapped.
  destruct (Z.eqb_spec (Z.shiftr a 32) 65535) as [E|E].
  - rewrite append_assoc. change (2 ^ 32 - 1) with (Z.ones 32). rewrite Z.land_ones by lia.
    rewrite Z.shiftr_div_pow2 in E by lia. pose proof (Z.mod_pos_bound a (2 ^ 32) ltac:(lia)).
    pose proof (Z.div_mod a (2 ^ 32) ltac:(lia)). rewrite read_ipv6_mapped; [|width_lia|done].
    f_equal. f_equal. lia.
  - pose proof (low_segments_range 8 a) as Hr. pose proof (low_segments_length 8 a) as Hl.
    assert (Hb : segments_bits (segments a) = a).
    { apply low_segments_bits. change (16 * Z.of_nat 8) with 128. width_lia. }
    fold (segments a) in Hr, Hl.
    pose proof (zero_span_zeros (segments a) (segments a) 0 (0, 0)%nat (0, 0)%nat) as Hz.
    destruct (zero_span (segments a) 0 (0, 0)%nat (0, 0)%nat) as [s k].
    destruct (Nat.ltb_spec 1 k) as [Hk|_].
    + rewrite !append_assoc.
      destruct (zeros_split (segments a) s k) as [Hsplit|]; [| |lia].
      { apply Hz; [by rewrite drop_0|..]; try (intros j; simpl; lia). by left. }
      assert (Hlen := f_equal length Hsplit). rewrite !length_app, length_replicate, Hl in Hlen.
      rewrite (read_ipv6_compressed _ k); try done; [by rewrite <- Hsplit, Hb|lia| |]; [by apply Forall_take|by apply Forall_drop].
    + unfold read_ipv6_addr. rewrite read_groups_text by (done || lia). by rewrite Hl, Hb.
Qed.

(** A well-formed address as the parser makes it: fields at their width, no flow label. *)
Definition addr_ok (a : SocketAddr) : Prop :=
  match a with
  | SockV4 x port => in_u u32_max x /\ in_u u16_max port
  | SockV6 x port flow scope => in_u u128_max x /\ in_u u16_max port /\ flow = 0 /\ in_u u32_max scope
  end.

Lemma read_port_text port :
  in_u u16_max port -> read_port (":" +:+ decimal port) = Some (port, "").
Proof.
  intros Hp. unfold read_port. rewrite append_char, read_given_same. cbn [mbind option_bind].
  unfold decimal. apply read_number_text; try done; try lia. width_lia.
Qed.

Lemma decimal_no_dot n rest : no_dot (decimal n +:+ rest) = no_dot rest.
Proof. rewrite decimal_app. apply radix_digits_no_dot. lia. Qed.

Theorem socket_text_reads_back (a : SocketAddr) :
  addr_ok a -> parse_socket_addr (socket_text a) = Some a.
Proof.
  unfold parse_socket_addr, socket_text. destruct a as [x port|x port flow scope].
  - intros [Hx Hp]. unfold read_socket_addr_v4.
    rewrite read_ipv4_text by done. cbn [mbind option_bind]. by rewrite read_port_text.
  - intros (Hx & Hp & -> & Hs).
    assert (Hv4 : forall t, read_socket_addr_v4 ("[" +:+ t) = None) by done.
    assert (Hend : no_dot ("]:" +:+ decimal port) = true).
    { change ("]:" +:+ decimal port) with (String "]" (String ":" (decimal port))).
      cbn [no_dot]. unfold decimal. by rewrite radix_digits_no_dot. }
    assert (Hport : forall y sc, ('(_, s) ← read_given_char "]" ("]:" +:+ decimal port);
                     '(p, s) ← read_port s; Some (SockV6 y p 0 sc, s)) = Some (SockV6 y port 0 sc, "")).
    { intros y sc. change ("]:" +:+ decimal port) with (String "]" (":" +:+ decimal port)).
      rewrite read_given_same. cbn [mbind option_bind]. by rewrite read_port_text. }
    destruct (Z.eqb_spec scope 0) as [->|Hne]; rewrite Hv4; unfold read_socket_addr_v6;
      rewrite append_char, read_given_same; cbn [mbind option_bind].
    + rewrite read_ipv6_text; [|done|by left|done]. cbn [mbind option_bind].
      change (read_scope_id ("]:" +:+ decimal port)) with (@None (Z * string)). cbn [default].
      by rewrite Hport.
    + rewrite read_ipv6_text; [|done|by right; left|].
      2: { change (no_dot (decimal scope +:+ "]:" +:+ decimal port) = true). by rewrite decimal_no_dot. }
      cbn [mbind option_bind]. unfold read_scope_id. rewrite append_char, read_given_same.
      cbn [mbind option_bind]. rewrite decimal_app, read_number_text; [|lia|width_lia|width_lia|lia|done..].
      cbn [default id]. by rewrite Hport.
Qed.

(** ** What the parser accepts is well formed *)

Lemma read_number_range radix md allow width s v rest :
  read_number radix md allow width s = Some (v, rest) -> in_u width v.
Proof.
  unfold read_number. destruct (digit_loop _ _ _ _ _ _) as [[[u k] r]|]; [|done].
  repeat case_match; try done. intros [= <- _].
  match goal with H : try_from_u _ _ = Some _ |- _ => apply try_from_u_Some in H as [-> ?] end. done.
Qed.

Lemma read_separator_range {A} (P : A -> Prop) sep i (inner : Parser A) s a rest :
  (forall s a rest, inner s = Some (a, rest) -> P a) ->
  read_separator sep i inner s = Some (a, rest) -> P a.
Proof.
  intros Hin. unfold read_separator. destruct (0 <? i)%nat; [|by apply Hin].
  destruct (read_given_char sep s) as [[u r]|]; [|done]. apply Hin.
Qed.

Lemma read_ipv4_range s a rest : read_ipv4_addr s = Some (a, rest) -> in_u u32_max a.
Proof.
  assert (Ho : forall i s a rest, read_octet i s = Some (a, rest) -> in_u u8_max a).
  { intros i s' b r. apply read_separator_range. apply read_number_range. }
  unfold read_ipv4_addr, mbind, option_bind.
  destruct (read_octet 0 s) as [[o0 s0]|] eqn:E0; [|done].
  destruct (read_octet 1 s0) as [[o1 s1]|] eqn:E1; [|done].
  destruct (read_octet 2 s1) as [[o2 s2]|] eqn:E2; [|done].
  destruct (read_octet 3 s2) as [[o3 s3]|] eqn:E3; [|done].
  intros [= <- _]. apply Ho in E0, E1, E2, E3. unfold octets_bits. width_lia.
Qed.

Lemma read_groups_range slots i s l v4 rest :
  read_groups slots i s = (l, v4, rest) -> Forall in_u16 l /\ (length l <= slots)%nat.
Proof.
  revert i s l v4 rest. induction slots as [|slots IH]; intros i s l v4 rest; cbn [read_groups].
  { intros [= <- _ _]. by split. }
  destruct (if (0 <? slots)%nat then _ else _) as [[a s']|] eqn:E.
  - intros [= <- _ _]. destruct (Nat.ltb_spec 0 slots); [|done].
    apply (read_separator_range (in_u u32_max)) in E; [|apply read_ipv4_range].
    pose proof (Z.mod_pos_bound a (2 ^ 16) ltac:(lia)).
    assert (0 <= a / 2 ^ 16 < 2 ^ 16).
    { split; [apply Z.div_pos; width_lia|apply Z.div_lt_upper_bound; width_lia]. }
    split; [|simpl; lia]. repeat constructor; width_lia.
  - destruct (read_group i s) as [[g s']|] eqn:G; [|intros [= <- _ _]; split; [constructor|simpl; lia]].
    apply (read_separator_range in_u16) in G; [|apply read_number_range].
    destruct (read_groups slots (S i) s') as [[gs v] r] eqn:R. intros [= <- _ _].
    apply IH in R as [R1 R2]. split; [by constructor|simpl; lia].
Qed.

Lemma segments_bits_range l :
  Forall in_u16 l -> 0 <= segments_bits l < 2 ^ (16 * Z.of_nat (length l)).
Proof.
  induction l as [|g l IH] using rev_ind; intros H; [unfold segments_bits; simpl; lia|].
  apply Forall_app in H as [H1 H2]. inversion H2; subst. specialize (IH H1).
  rewrite segments_bits_snoc, length_app. cbn [length].
  replace (16 * Z.of_nat (length l + 1)) with (16 * Z.of_nat (length l) + 16) by lia.
  rewrite Z.pow_add_r by lia. unfold in_u16 in *. width_lia.
Qed.

Lemma read_ipv6_range s a rest : read_ipv6_addr s = Some (a, rest) -> in_u u128_max a.
Proof.
  unfold read_ipv6_addr. destruct (read_groups 8 0 s) as [[head h4] s1] eqn:E1.
  apply read_groups_range in E1 as [R1 L1].
  assert (Hb : forall l, Forall in_u16 l -> length l = 8%nat -> in_u u128_max (segments_bits l)).
  { intros l Hl Hn. pose proof (segments_bits_range l Hl) as B. rewrite Hn in B.
    change (16 * Z.of_nat 8) with 128 in B. width_lia. }
  destruct (Nat.eqb_spec (length head) 8) as [E8|E8].
  { intros [= <- _]. by apply Hb. }
  destruct h4; [done|]. unfold mbind, option_bind.
  destruct (read_given_char ":" s1) as [[u s2]|]; [|done].
  destruct (read_given_char ":" s2) as [[u' s3]|]; [|done].
  destruct (read_groups (8 - (length head + 1)) 0 s3) as [[tl v] s4] eqn:E2.
  apply read_groups_range in E2 as [R2 L2]. intros [= <- _]. apply Hb.
  - apply Forall_app. split; [done|]. apply Forall_app. split; [|done].
    apply Forall_replicate. unfold in_u16. width_lia.
  - rewrite !length_app, length_replicate. lia.
Qed.

Lemma parse_addr_ok s a : parse_socket_addr s = Some a -> addr_ok a.
Proof.
  unfold parse_socket_addr, read_port. destruct (read_socket_addr_v4 s) as [[b r]|] eqn:E4.
  - destruct r; [|done]. intros [= ->]. revert E4. unfold read_socket_addr_v4, read_port, mbind, option_bind.
    repeat case_match; try done. intros [= <- _]. split; [by eapply read_ipv4_range|by eapply read_number_range].
  - destruct (read_socket_addr_v6 s) as [[b r]|] eqn:E6; [|done]. destruct r; [|done]. intros [= ->].
    revert E6. unfold read_socket_addr_v6, mbind, option_bind.
    destruct (read_given_char "[" s) as [[u s1]|]; [|done].
    destruct (read_ipv6_addr s1) as [[x s2]|] eqn:Ex; [|done].
    assert (Hsc : in_u u32_max (fst (default (0, s2) (read_scope_id s2)))).
    { unfold read_scope_id, mbind, option_bind. destruct (read_given_char "%" s2) as [[? s3]|]; [|by vm_compute].
      destruct (read_number 10 None true u32_max s3) as [[sc r]|] eqn:En; [|by vm_compute].
      by eapply read_number_range. }
    destruct (default (0, s2) (read_scope_id s2)) as [sc s3]. unfold read_port, mbind, option_bind.
    repeat case_match; try done. intros [= <- _]. split; [by eapply read_ipv6_range|].
    split; [by eapply read_number_range|]. by split.
Qed.
