(* ===== verification/Text.v ===== *)
(** Facts about text shared by the desktop's components: prefixes, reversal, [trim]. *)

From Stdlib Require Import Ascii String.
From S2P Require Import Prelude BTree Model Framing Transport Net.
Local Open Scope string_scope.

(** Whether the character with this encoding occurs; UTF-8 is self-synchronising. *)
Fixpoint has_char (c s : string) : bool :=
  starts_with c s || match s with EmptyString => false | String _ s => has_char c s end.

Lemma append_empty_r (s : string) : s +:+ "" = s.
Proof. induction s as [|c s IH]; [done|]. change (String c (s +:+ "") = String c s). by rewrite IH. Qed.

Lemma prefix_exists pre s : starts_with pre s = true -> exists t, s = pre +:+ t.
Proof.
  unfold starts_with. revert s. induction pre as [|c pre IH]; intros s; [by exists s|].
  destruct s as [|d s]; simpl; [done|]. destruct (Ascii.ascii_dec c d) as [->|]; [|done].
  intros [t ->]%IH. exists t. done.
Qed.

Lemma starts_with_append pre t : starts_with pre (pre +:+ t) = true.
Proof. apply prefix_append. Qed.

Lemma has_char_suffix c t : has_char c (t +:+ c) = true.
Proof.
  induction t as [|d t IH].
  - change ("" +:+ c) with c. assert (H : starts_with c c = true)
      by (unfold starts_with; rewrite <- (append_empty_r c) at 2; apply prefix_append).
    destruct c; simpl in *; [done|]. by rewrite H.
  - change (String d t +:+ c) with (String d (t +:+ c)). simpl. rewrite IH. apply orb_true_r.
Qed.

Lemma has_char_prefix c s : has_char c s = false -> starts_with c s = false.
Proof. destruct s; simpl; intros [? _]%orb_false_iff; done. Qed.

Lemma str_rev_append a b : str_rev (a +:+ b) = str_rev b +:+ str_rev a.
Proof.
  assert (Hl : forall x y, list_ascii_of_string (x +:+ y) = (list_ascii_of_string x ++ list_ascii_of_string y)%list).
  { induction x as [|c x IH]; intros y; [done|]. change (String c x +:+ y) with (String c (x +:+ y)). simpl. by rewrite IH. }
  assert (Hs : forall x y, string_of_list_ascii (x ++ y)%list = string_of_list_ascii x +:+ string_of_list_ascii y).
  { induction x as [|c x IH]; intros y; [done|]. simpl. by rewrite IH. }
  unfold str_rev. by rewrite Hl, rev_app_distr, Hs.
Qed.

Lemma str_rev_involutive s : str_rev (str_rev s) = s.
Proof.
  unfold str_rev. by rewrite list_ascii_of_string_of_list_ascii, rev_involutive, string_of_list_ascii_of_string.
Qed.

Lemma strip_chars_none fuel chars s :
  (forall c, In c chars -> starts_with c s = false) -> strip_chars fuel chars s = s.
Proof.
  intros H. destruct fuel; simpl; [done|].
  assert (E : omap (fun c => strip_prefix c s) chars = []).
  { induction chars as [|c chars IH]; simpl; [done|]. unfold strip_prefix at 1.
    rewrite H by (by left). apply IH. intros d Hd. apply H. by right. }
  by rewrite E.
Qed.

(** A text without white space is its own trim. *)
Lemma trim_no_space s :
  (forall c, In c white_space -> has_char (char_of c) s = false) -> trim s = s.
Proof.
  intros H. unfold trim.
  rewrite (strip_chars_none (String.length s) (map char_of white_space) s).
  2:{ intros c (d & <- & Hd)%in_map_iff. by apply has_char_prefix, H. }
  rewrite strip_chars_none; [apply str_rev_involutive|].
  intros c (d & <- & Hd)%in_map_iff. destruct (starts_with _ _) eqn:E; [|done].
  apply prefix_exists in E as [t E]. apply (f_equal str_rev) in E.
  rewrite str_rev_involutive, str_rev_append in E.
  assert (Hr : str_rev (char_of (rev d)) = char_of d).
  { unfold str_rev, char_of. by rewrite list_ascii_of_string_of_list_ascii, map_rev, rev_involutive. }
  rewrite Hr in E. specialize (H d Hd). rewrite E in H. by rewrite has_char_suffix in H.
Qed.

(** ** [trim] leaves nothing to trim *)

Lemma append_length c t : String.length (c +:+ t) = (String.length c + String.length t)%nat.
Proof. induction c as [|x c IH]; [done|]. change (S (String.length (c +:+ t)) = S (String.length c + String.length t)). by rewrite IH. Qed.

Lemma strip_prefix_shorter c s rest :
  c <> "" -> strip_prefix c s = Some rest -> s = c +:+ rest /\ (String.length rest < String.length s)%nat.
Proof.
  intros Hc E. assert (Hs : starts_with c s = true) by (unfold strip_prefix in E; by destruct (starts_with c s)).
  apply prefix_exists in Hs as [t ->]. rewrite strip_prefix_append in E. injection E as <-.
  split; [done|]. rewrite append_length. destruct c; [done|]. cbn [String.length]. lia.
Qed.

Lemma omap_first {A C} (f : A -> option C) l x rest :
  omap f l = x :: rest -> exists a, In a l /\ f a = Some x.
Proof.
  induction l as [|a l IH]; cbn [omap list_omap]; [done|]. destruct (f a) as [y|] eqn:E.
  - intros [= <- _]. exists a. split; [by left|done].
  - intros H. destruct (IH H) as (b & Hb & Eb). exists b. split; [by right|done].
Qed.

(** With a step per byte nothing is left to strip, and what is stripped was in front. *)
Lemma strip_chars_done chars fuel s :
  (forall c, In c chars -> c <> "") -> (String.length s <= fuel)%nat ->
  (forall c, In c chars -> starts_with c (strip_chars fuel chars s) = false) /\
  exists front, s = front +:+ strip_chars fuel chars s.
Proof.
  intros Hne. revert s. induction fuel as [|fuel IH]; intros s Hf.
  - destruct s; cbn [String.length] in Hf; [|lia]. split; [|by exists ""]. intros c Hc. specialize (Hne c Hc).
    by destruct c.
  - cbn [strip_chars]. destruct (omap (fun c => strip_prefix c s) chars) as [|rest l] eqn:E.
    + split; [|by exists ""]. intros c Hc. destruct (starts_with c s) eqn:Es; [|done]. exfalso.
      assert (Hin : exists x, In x (omap (fun c => strip_prefix c s) chars)).
      { clear -Hc Es. induction chars as [|d l IH]; [done|]. cbn [omap list_omap].
        destruct Hc as [->|Hc].
        - unfold strip_prefix at 1. rewrite Es. eexists. by left.
        - destruct (IH Hc) as [x Hx]. destruct (strip_prefix d s); exists x; [by right|done]. }
      rewrite E in Hin. by destruct Hin.
    + apply omap_first in E as (c & Hc & Ec). destruct (strip_prefix_shorter c s rest (Hne c Hc) Ec) as [-> Hl].
      destruct (IH rest) as [H1 (front & H2)]; [lia|]. split; [done|]. exists (c +:+ front).
      rewrite append_assoc. by rewrite <- H2.
Qed.

Lemma white_nonempty c : In c (map char_of white_space) -> c <> "".
Proof. intros H ->. vm_compute in H. tauto || (repeat destruct H as [H|H]; discriminate || done). Qed.

Lemma white_rev_nonempty c : In c (map (fun c => char_of (rev c)) white_space) -> c <> "".
Proof. intros H ->. vm_compute in H. tauto || (repeat destruct H as [H|H]; discriminate || done). Qed.

Lemma trim_idempotent s : trim (trim s) = trim s.
Proof.
  unfold trim at 2. set (front := strip_chars (String.length s) (map char_of white_space) s).
  set (back := strip_chars (String.length front) (map (fun c => char_of (rev c)) white_space) (str_rev front)).
  destruct (strip_chars_done (map char_of white_space) (String.length s) s white_nonempty) as [Hf _]; [done|].
  fold front in Hf.
  assert (Hlen : String.length (str_rev front) = String.length front).
  { unfold str_rev. clear. rewrite <- (string_of_list_ascii_of_string front) at 2.
    assert (H : forall l, String.length (string_of_list_ascii l) = length l) by (induction l; simpl; auto).
    by rewrite !H, length_rev. }
  destruct (strip_chars_done (map (fun c => char_of (rev c)) white_space) (String.length front) (str_rev front)
    white_rev_nonempty) as [Hb (tail & Ht)]; [by rewrite Hlen|]. fold back in Hb, Ht.
  unfold trim. rewrite (strip_chars_none _ (map char_of white_space) (str_rev back)).
  - rewrite str_rev_involutive. rewrite (strip_chars_none _ _ back); [|exact Hb].
    unfold trim. fold front. fold back. done.
  - intros c Hc. destruct (starts_with c (str_rev back)) eqn:E; [|done].
    rewrite <- (Hf c Hc). apply prefix_exists in E as [x E]. apply (f_equal str_rev) in Ht.
    rewrite str_rev_involutive, str_rev_append, E, append_assoc in Ht. rewrite Ht. symmetry.
    apply starts_with_append.
Qed.
