(* ===== verification/Persist.v ===== *)
(** Maps kept in memory behind a lock and in a JSON file.

    The peer registry ([crates/rackio-iroh/src/pairing.rs]) and the paired-machine registry
    ([apps/agent/src/remote/registry.rs]) share this pattern: clone the map, change the
    clone, write it to a temporary file that is renamed over the old one, and only then
    replace the map in memory. JSON is behind the [JsonCodec] interface. *)

From stdpp Require Import countable.
From S2P Require Import Prelude BTree.
Local Open Scope Z_scope.

Definition is_bytes (b : list Z) : Prop := Forall (in_u u8_max) b.

(** What the registries rely on from serde: the bytes of a value read back as it. This holds
    of the values JSON can carry, [carried]: serde writes a non-finite float as null. *)
Class JsonCodec (A : Type) (carried : A -> Prop) := {
  to_vec : A -> option (list Z);
  from_slice : list Z -> option A;
  json_reads_back a : carried a -> exists bytes, to_vec a = Some bytes /\ is_bytes bytes /\
                                    from_slice bytes = Some a;
}.

(** A value without floats is always carried. *)
Definition anything {A : Type} (a : A) : Prop := True.

(** What reading the file gives. *)
Inductive ReadOutcome := ReadOk (bytes : list Z) | NotFound | ReadError.

Inductive PersistError := PersistIo | PersistJson | LockUnavailable.

(** ** One JSON file replaced as a whole *)

Section ReplaceFile.
Context {A : Type} {carried : A -> Prop} {AJ : JsonCodec A carried}.

(** Whether the [n]-th file operation of the process fails. *)
Context (fault : nat -> bool).

(** The value of the file; a file that was never written stands for [absent]. *)
Definition read_file_or (absent : A) (f : ReadOutcome) : result A PersistError :=
  match f with
  | ReadOk bytes => ok_or (from_slice bytes) PersistJson
  | NotFound => Ok absent
  | ReadError => Err PersistIo
  end.

(** Run [k] file operations, stopping at the first that fails. *)
Fixpoint io_steps (k n : nat) : nat * bool :=
  match k with
  | O => (n, true)
  | S k => if fault n then (S n, false) else io_steps k (S n)
  end.

(** Replace the file by a temporary one, which takes [before] file operations before the value
    is encoded and [after] of them from there to the rename, the last. *)
Definition replace_steps (before after : nat) (next : A) (f : ReadOutcome) (n : nat)
  : ReadOutcome * nat * result unit PersistError :=
  match io_steps before n with
  | (n, false) => (f, n, Err PersistIo)
  | (n, true) =>
      match to_vec next with
      | None => (f, n, Err PersistJson)
      | Some bytes =>
          match io_steps after n with
          | (n, false) => (f, n, Err PersistIo)
          | (n, true) => (ReadOk bytes, n, Ok tt)
          end
      end
  end.

(** Create the directory, the temporary file and its mode; then write, sync and rename. *)
Definition replace_file : A -> ReadOutcome -> nat -> ReadOutcome * nat * result unit PersistError :=
  replace_steps 3 3.

(** A replaced file holds a text of the new value. *)
Lemma replace_steps_Ok before after next f n f' n' u :
  replace_steps before after next f n = (f', n', Ok u) -> carried next ->
  exists bytes, f' = ReadOk bytes /\ from_slice bytes = Some next.
Proof.
  unfold replace_steps. destruct (io_steps before n) as [n1 []]; [|done].
  destruct (to_vec next) as [bytes|] eqn:V1; [|done].
  destruct (io_steps after n1) as [n2 []]; [|done].
  intros [= <- <- <-] Hc. destruct (json_reads_back next Hc) as (bytes' & V2 & _ & E).
  rewrite V1 in V2. injection V2 as <-. eauto.
Qed.

Lemma replace_steps_Err before after next f n f' n' e :
  replace_steps before after next f n = (f', n', Err e) -> f' = f.
Proof.
  unfold replace_steps. destruct (io_steps before n) as [n1 []]; [|by intros [= <- <- <-]].
  destruct (to_vec next) as [bytes|]; [|by intros [= <- <- <-]].
  by destruct (io_steps after n1) as [n2 []]; intros [= <- <- <-].
Qed.

(** Either the new value is in place, or the file is as it was. *)
Lemma replace_file_cases next f n absent :
  match replace_file next f n with
  | (f', _, Ok _) => carried next -> read_file_or absent f' = Ok next
  | (f', _, Err _) => f' = f
  end.
Proof.
  destruct (replace_file next f n) as [[f' n'] [[]|e]] eqn:E.
  - intros Hc. destruct (replace_steps_Ok _ _ _ _ _ _ _ _ E Hc) as (bytes & -> & Hb). simpl.
    by rewrite Hb.
  - by eapply replace_steps_Err.
Qed.

(** When no file operation fails, replacing by what JSON can carry succeeds. *)
Lemma replace_steps_succeeds before after next f n :
  (forall n, fault n = false) -> carried next -> snd (replace_steps before after next f n) = Ok tt.
Proof.
  intros Hf Hc. unfold replace_steps.
  assert (Hio : forall k n, exists n', io_steps k n = (n', true)).
  { induction k as [|k IH]; intros m; simpl; [eauto|]. rewrite Hf. apply IH. }
  destruct (Hio before n) as (n1 & ->). destruct (json_reads_back next Hc) as (bytes & -> & _).
  destruct (Hio after n1) as (n2 & ->). done.
Qed.

Lemma replace_file_succeeds next f n :
  (forall n, fault n = false) -> carried next -> snd (replace_file next f n) = Ok tt.
Proof. apply replace_steps_succeeds. Qed.

End ReplaceFile.

Section Persist.
Context {V : Type} {carried : list (string * V) -> Prop}.
Context {VJ : JsonCodec (list (string * V)) carried}.

Record PersistedMap := {
  records : list (string * V);
  poisoned : bool;
  file : ReadOutcome;
  disk_ops : nat;
}.

Context (fault : nat -> bool).

Definition load (f : ReadOutcome) : result (list (string * V)) PersistError := read_file_or [] f.

Definition with_disk (f : ReadOutcome) (n : nat) (r : PersistedMap) : PersistedMap :=
  {| records := records r; poisoned := poisoned r; file := f; disk_ops := n |}.

Definition persist_records (next : list (string * V)) (r : PersistedMap)
  : PersistedMap * result unit PersistError :=
  let '(f, n, res) := replace_file fault next (file r) (disk_ops r) in (with_disk f n r, res).

(** Persist the new records, and only then let memory show them. *)
Definition publish {A} (next : list (string * V)) (a : A) (r : PersistedMap)
  : PersistedMap * result A PersistError :=
  match persist_records next r with
  | (r', Err e) => (r', Err e)
  | (r', Ok _) => ({| records := next; poisoned := poisoned r'; file := file r';
                      disk_ops := disk_ops r' |}, Ok a)
  end.

(** Memory shows what a restart would load. *)
Definition synced (r : PersistedMap) : Prop :=
  load (file r) = Ok (records r) /\ bt_sorted (records r).

Lemma publish_cases {A} next (a : A) r :
  match publish next a r with
  | (r', Ok b) => b = a /\ records r' = next /\ (carried next -> load (file r') = Ok next)
  | (r', Err _) => file r' = file r /\ records r' = records r
  end.
Proof.
  unfold publish, persist_records. pose proof (replace_file_cases fault next (file r) (disk_ops r) []) as P.
  by destruct (replace_file fault next (file r) (disk_ops r)) as [[f n] [[]|e]].
Qed.

Lemma publish_poisoned {A} next (a : A) r : poisoned (fst (publish next a r)) = poisoned r.
Proof. unfold publish, persist_records. by destruct (replace_file _ _ _ _) as [[f n] [[]|e]]. Qed.

Lemma publish_synced {A} next (a : A) r :
  synced r -> bt_sorted next -> carried next -> synced (fst (publish next a r)).
Proof.
  intros [H1 H2] Hn Hc. pose proof (publish_cases next a r) as P.
  destruct (publish next a r) as [r' [b|e]]; simpl in *.
  - destruct P as (_ & P1 & P2). split; rewrite P1; auto.
  - destruct P as [P1 P2]. unfold synced. by rewrite P1, P2.
Qed.

(** When no file operation fails, publishing what JSON can carry succeeds. *)
Lemma publish_succeeds {A} next (a : A) r :
  (forall n, fault n = false) -> carried next ->
  snd (publish next a r) = Ok a.
Proof.
  intros Hf Hc. unfold publish, persist_records.
  pose proof (replace_file_succeeds fault next (file r) (disk_ops r) Hf Hc) as P.
  destruct (replace_file fault next (file r) (disk_ops r)) as [[f n] res]. simpl in P. by subst res.
Qed.

End Persist.
Arguments PersistedMap V : clear implicits.

(** A JSON for any countable type, to instantiate the interface: the digits of its number. *)
Definition countable_json A `{Countable A} (carried : A -> Prop) : JsonCodec A carried.
Proof.
  refine {| to_vec a := Some (pos_bits (encode a)); from_slice b := decode (bits_pos b) |}.
  intros a _. eexists. split; [reflexivity|]. split; [apply pos_bits_bytes|].
  by rewrite pos_bits_roundtrip, decode_encode.
Defined.
