(* ===== verification/Codecs.v ===== *)
(** Decidable equality and countability of the domain types.

    Every value that is stored or sent can be numbered, so the JSON interfaces the components
    are proved against can be met: [countable_json] turns a numbering into a codec. *)

From Stdlib Require Import SpecFloat.
From stdpp Require Import countable.
From S2P Require Import Prelude Float Model Transport Persist.
Local Open Scope Z_scope.

#[export] Instance spec_float_eq_dec : EqDecision spec_float.
Proof. solve_decision. Defined.

#[export] Instance spec_float_countable : Countable spec_float.
Proof.
  refine (inj_countable'
    (fun x => match x with
              | S754_zero s => inl (inl s) | S754_infinity s => inl (inr (Some s))
              | S754_nan => inl (inr None) | S754_finite s m e => inr (s, m, e) end)
    (fun y => match y with
              | inl (inl s) => S754_zero s | inl (inr (Some s)) => S754_infinity s
              | inl (inr None) => S754_nan | inr (s, m, e) => S754_finite s m e end) _).
  by intros [].
Defined.

#[export] Instance f32_eq_dec : EqDecision f32 := spec_float_eq_dec.
#[export] Instance f32_countable : Countable f32 := spec_float_countable.

#[export] Instance NodeState_countable : Countable NodeState.
Proof.
  refine (inj_countable'
    (fun s => match s with Healthy => 0 | Warning => 1 | Critical => 2 | Stale => 3 | Offline => 4
                         | AuthError => 5 | Incompatible => 6 | Degraded => 7 end)
    (fun z => if z =? 0 then Healthy else if z =? 1 then Warning else if z =? 2 then Critical
              else if z =? 3 then Stale else if z =? 4 then Offline else if z =? 5 then AuthError
              else if z =? 6 then Incompatible else Degraded) _).
  by intros [].
Defined.

#[export] Instance ConnectionPath_countable : Countable ConnectionPath.
Proof.
  refine (inj_countable'
    (fun p => match p with LanDirect => 0 | WanDirect => 1 | Relayed => 2 | UnknownPath => 3 end)
    (fun z => if z =? 0 then LanDirect else if z =? 1 then WanDirect
              else if z =? 2 then Relayed else UnknownPath) _).
  by intros [].
Defined.

#[export] Instance CapabilityState_countable : Countable CapabilityState.
Proof.
  refine (inj_countable'
    (fun c => match c with Supported => 0 | Unsupported => 1 | PermissionDenied => 2 end)
    (fun z => if z =? 0 then Supported else if z =? 1 then Unsupported else PermissionDenied) _).
  by intros [].
Defined.

#[export] Instance MetricCapability_eq_dec : EqDecision MetricCapability.
Proof. solve_decision. Defined.
#[export] Instance MetricCapability_countable : Countable MetricCapability.
Proof.
  refine (inj_countable' (fun c => (cap_name c, cap_state c, cap_detail c))
    (fun '(n, s, d) => Build_MetricCapability n s d) _). by intros [].
Defined.

#[export] Instance ProtocolVersion_eq_dec : EqDecision ProtocolVersion.
Proof. solve_decision. Defined.
#[export] Instance ProtocolVersion_countable : Countable ProtocolVersion.
Proof.
  refine (inj_countable' (fun v => (major v, minor v)) (fun '(a, b) => Build_ProtocolVersion a b) _).
  by intros [].
Defined.

#[export] Instance NodeInfo_eq_dec : EqDecision NodeInfo.
Proof. unfold Uuid in *. intros [] []. unfold Uuid in *. solve_decision. Defined.
#[export] Instance NodeInfo_countable : Countable NodeInfo.
Proof.
  refine (inj_countable' (fun i => ((node_id i : Z), display_name i, os i, architecture i,
                                    agent_version i, protocol i, capabilities i))
    (fun '(a, b, c, d, e, f, g) => Build_NodeInfo a b c d e f g) _). by intros [].
Defined.

#[export] Instance DiskMetric_eq_dec : EqDecision DiskMetric.
Proof. solve_decision. Defined.
#[export] Instance DiskMetric_countable : Countable DiskMetric.
Proof.
  refine (inj_countable' (fun d => (mount d, total_bytes d, used_bytes d))
    (fun '(a, b, c) => Build_DiskMetric a b c) _). by intros [].
Defined.

#[export] Instance TemperatureMetric_eq_dec : EqDecision TemperatureMetric.
Proof. solve_decision. Defined.
#[export] Instance TemperatureMetric_countable : Countable TemperatureMetric.
Proof.
  refine (inj_countable' (fun t => (label t, celsius t, critical_celsius t, sensor_count t))
    (fun '(a, b, c, d) => Build_TemperatureMetric a b c d) _). by intros [].
Defined.

#[export] Instance NetworkMetric_eq_dec : EqDecision NetworkMetric.
Proof. solve_decision. Defined.
#[export] Instance NetworkMetric_countable : Countable NetworkMetric.
Proof.
  refine (inj_countable' (fun n => (received_bytes_per_second n, sent_bytes_per_second n))
    (fun '(a, b) => Build_NetworkMetric a b) _). by intros [].
Defined.

#[export] Instance CollectorError_eq_dec : EqDecision CollectorError.
Proof. solve_decision. Defined.
#[export] Instance CollectorError_countable : Countable CollectorError.
Proof.
  refine (inj_countable' (fun e => (err_source e, err_kind e, err_message e))
    (fun '(a, b, c) => Build_CollectorError a b c) _). by intros [].
Defined.

#[export] Instance MetricSample_eq_dec : EqDecision MetricSample.
Proof. solve_decision. Defined.
#[export] Instance MetricSample_countable : Countable MetricSample.
Proof.
  refine (inj_countable'
    (fun s => (timestamp_ms s, sequence s, cpu_percent s, memory_used_bytes s, memory_total_bytes s,
               swap_used_bytes s, swap_total_bytes s, disks s, network s, temperature s,
               uptime_seconds s, errors s))
    (fun '(a, b, c, d, e, f, g, h, i, j, k, l) => Build_MetricSample a b c d e f g h i j k l) _).
  by intros [].
Defined.

#[export] Instance TrendSample_eq_dec : EqDecision TrendSample.
Proof. solve_decision. Defined.
#[export] Instance TrendSample_countable : Countable TrendSample.
Proof.
  refine (inj_countable'
    (fun s => (t_timestamp_ms s, t_cpu_percent s, t_memory_used_bytes s, t_memory_total_bytes s,
               t_swap_used_bytes s, t_swap_total_bytes s, t_disk_used_bytes s, t_disk_total_bytes s,
               t_temperature_celsius s, t_network_received_bytes_per_second s,
               t_network_sent_bytes_per_second s, t_rtt_ms s))
    (fun '(a, b, c, d, e, f, g, h, i, j, k, l) => Build_TrendSample a b c d e f g h i j k l) _).
  by intros [].
Defined.

#[export] Instance SocketAddr_countable : Countable SocketAddr.
Proof.
  refine (inj_countable'
    (fun a => match a with SockV4 x p => inl (x, p) | SockV6 x p f s => inr (x, p, f, s) end)
    (fun s => match s with inl (x, p) => SockV4 x p | inr (x, p, f, s) => SockV6 x p f s end) _).
  by intros [].
Defined.
