(* ===== verification/Pairing.v ===== *)
(** Pairing and the peer registry: [crates/rackio-iroh/src/pairing.rs].

    An endpoint id is its public key as a number. Its text form, base64 and JSON belong to
    external crates and are behind the interfaces [EndpointText], [Base64] and [JsonCodec].
    The registry's file is replaced by an atomic rename, so a failed write leaves the old
    file: [persist_records] models its fallible steps in order. *)

From stdpp Require Import countable.
From S2P Require Import Prelude BTree Model Transport Persist Codecs.
Local Open Scope string_scope.
Local Open Scope Z_scope.

Definition EndpointId : Type := Z.

(** ** Interfaces to external crates *)

Class EndpointText := {
  id_text : EndpointId -> string;
  parse_id : string -> option EndpointId;
  parse_id_text id : parse_id (id_text id) = Some id;
}.

Class Base64 := {
  b64_encode : list Z -> string;
  b64_decode : string -> option (list Z);
  b64_roundtrip b : is_bytes b -> b64_decode (b64_encode b) = Some b;
}.

(** ** Data *)

Definition PAIRING_SECRET_BYTES : nat := 32.
Definition PAIRING_WINDOW_MS : Z := 5 * 60 * 1000.
Definition MAX_FAILURES : Z := 5.
Definition MAX_TRACKED_FAILING_PEERS : nat := 64.

Record PairingBundle := {
  format_version : Z;
  b_node_id : Uuid;
  b_endpoint_id : string;
  b_direct_addresses : list SocketAddr;
  b_relay_urls : list string;
  b_one_time_secret : string;
  b_expires_at_ms : Z;
}.

Record PeerPermissions := { read_metrics : bool; read_history : bool }.

Definition default_permissions : PeerPermissions :=
  {| read_metrics := true; read_history := true |}.

Record PeerRecord := {
  endpoint_id : string;
  paired_at_ms : Z;
  permissions_of : PeerPermissions;
}.

Inductive PairingError :=
  | WindowClosed | Expired | Rejected | InvalidSecret | InvalidBundle
  | RegistryUnavailable | IoError | JsonError.

Record PairingWindow := {
  secret : list Z;
  expires_at_ms : Z;
  failures : list (EndpointId * Z);
}.

(** [PairingManager]: the window that is open, if any. *)
Definition PairingManager : Type := option PairingWindow.

Definition is_open (m : PairingManager) : bool := match m with Some _ => true | None => false end.

(** ** Bundles *)

Section Bundle.
Context {ET : EndpointText} {B64 : Base64} {BJ : JsonCodec PairingBundle anything}.
Context {Url : Type} (parse_relay_url : string -> option Url).

Definition SCHEME : string := "rackio-pair:".

Definition bundle_encode (b : PairingBundle) : result string PairingError :=
  let? bytes := ok_or (to_vec b) JsonError in
  Ok (SCHEME +:+ b64_encode bytes).

Definition bundle_decode (encoded : string) : result PairingBundle PairingError :=
  let? payload := ok_or (strip_prefix SCHEME encoded) InvalidBundle in
  let? bytes := ok_or (b64_decode payload) InvalidBundle in
  let? bundle := ok_or (from_slice bytes) JsonError in
  if format_version bundle =? 1 then Ok bundle else Err InvalidBundle.

Inductive RelayOrIp := AddrIp (a : SocketAddr) | AddrRelay (u : Url).

Definition bundle_endpoint_addr (b : PairingBundle)
  : result (EndpointId * list RelayOrIp) PairingError :=
  let? id := ok_or (parse_id (b_endpoint_id b)) InvalidBundle in
  let? relays := collect_results (fun u => ok_or (parse_relay_url u) InvalidBundle)
                   (b_relay_urls b) in
  Ok (id, ((AddrIp <$> b_direct_addresses b) ++ (AddrRelay <$> relays))%list).

Lemma encoded_bundle_decodes (b : PairingBundle) :
  format_version b = 1 ->
  exists t, bundle_encode b = Ok t /\ starts_with SCHEME t = true /\ bundle_decode t = Ok b.
Proof.
  intros Hv. destruct (json_reads_back (carried := anything) b I) as (bytes & E1 & E2 & E3).
  exists (SCHEME +:+ b64_encode bytes). unfold bundle_encode, bundle_decode. rewrite E1.
  split; [done|]. split; [apply prefix_append|].
  rewrite strip_prefix_append. simpl. rewrite b64_roundtrip by done. simpl. rewrite E3. simpl.
  by rewrite Hv.
Qed.

(** A pairing bundle survives its text form: decoding the text of a version-1 bundle
    gives it back, and decoding accepts only version 1. *)
Theorem bundle_roundtrip (b : PairingBundle) (text : string) :
  (format_version b = 1 ->
   exists t, bundle_encode b = Ok t /\ starts_with SCHEME t = true /\ bundle_decode t = Ok b) /\
  (forall b', bundle_decode text = Ok b' -> format_version b' = 1).
Proof.
  split; [apply encoded_bundle_decodes|].
  - intros b'. unfold bundle_decode.
    destruct (strip_prefix SCHEME text) as [payload|]; [simpl|done].
    destruct (b64_decode payload) as [bytes|]; [simpl|done].
    destruct (from_slice bytes) as [b2|]; [simpl|done].
    destruct (Z.eqb_spec (format_version b2) 1); [|done]. by intros [= <-].
Qed.

End Bundle.

(** ** The pairing window *)

Fixpoint bump (fs : list (EndpointId * Z)) (peer : EndpointId) : option (list (EndpointId * Z)) :=
  match fs with
  | [] => None
  | (id, count) :: rest =>
      if id =? peer then Some ((id, sat_add u8_max count 1) :: rest)
      else (fun r => (id, count) :: r) <$> bump rest peer
  end.

Definition record_failure (fs : list (EndpointId * Z)) (peer : EndpointId)
  : list (EndpointId * Z) :=
  match bump fs peer with
  | Some fs' => fs'
  | None =>
      ((if (MAX_TRACKED_FAILING_PEERS <=? length fs)%nat then tail fs else fs) ++ [(peer, 1)])%list
  end.

Definition is_locked_out (fs : list (EndpointId * Z)) (peer : EndpointId) : bool :=
  existsb (fun e => (fst e =? peer) && (MAX_FAILURES <=? snd e)) fs.

Section Manager.
Context {ET : EndpointText} {B64 : Base64}.

(** [open], with the random secret and the clock as arguments. *)
Definition open (random : list Z) (now_ms : Z) (node_id : Uuid) (endpoint_id : EndpointId)
  (direct_addresses : list SocketAddr) (relay_urls : list string) (m : PairingManager)
  : PairingManager * PairingBundle :=
  let expires := now_ms + PAIRING_WINDOW_MS in
  (Some {| secret := random; expires_at_ms := expires; failures := [] |},
   {| format_version := 1; b_node_id := node_id; b_endpoint_id := id_text endpoint_id;
      b_direct_addresses := direct_addresses; b_relay_urls := relay_urls;
      b_one_time_secret := b64_encode random; b_expires_at_ms := expires |}).

Definition secret_matches (w : PairingWindow) (supplied : string) : bool :=
  match b64_decode supplied with
  | Some bytes => (length bytes =? PAIRING_SECRET_BYTES)%nat && bool_decide (secret w = bytes)
  | None => false
  end.

Definition verify_and_consume_at (now_ms : Z) (peer : EndpointId) (supplied : string)
  (m : PairingManager) : PairingManager * result unit PairingError :=
  match m with
  | None => (None, Err WindowClosed)
  | Some w =>
      if expires_at_ms w <? now_ms then (None, Err Expired)
      else if is_locked_out (failures w) peer then (Some w, Err Rejected)
      else if secret_matches w supplied then (None, Ok tt)
      else (Some {| secret := secret w; expires_at_ms := expires_at_ms w;
                    failures := record_failure (failures w) peer |}, Err Rejected)
  end.

(** A sequence of requests against the manager: time, authenticated peer, secret. *)
Definition Attempt : Type := Z * EndpointId * string.

Definition attempt (m : PairingManager) (a : Attempt) : PairingManager :=
  let '(now, peer, supplied) := a in fst (verify_and_consume_at now peer supplied m).

Definition attempts (m : PairingManager) (l : list Attempt) : PairingManager :=
  fold_left attempt l m.

(** Whether a request gets as far as the comparison with the secret. *)
Definition compared (m : PairingManager) (a : Attempt) : bool :=
  let '(now, peer, _) := a in
  match m with
  | None => false
  | Some w => negb (expires_at_ms w <? now) && negb (is_locked_out (failures w) peer)
  end.

(** How many of a peer's requests are compared with the secret along a sequence. *)
Fixpoint guesses (peer : EndpointId) (m : PairingManager) (l : list Attempt) : Z :=
  match l with
  | [] => 0
  | a :: rest =>
      (if (snd (fst a) =? peer) && compared m a then 1 else 0) + guesses peer (attempt m a) rest
  end.

(** ** Lemmas: the failure table *)

Definition count_for (fs : list (EndpointId * Z)) (peer : EndpointId) : Z :=
  match List.find (fun e => fst e =? peer) fs with Some (_, c) => c | None => 0 end.

Lemma bump_ids fs peer fs' : bump fs peer = Some fs' -> map fst fs' = map fst fs /\ In peer (map fst fs).
Proof.
  revert fs'. induction fs as [|[id c] fs IH]; intros fs'; simpl; [done|].
  destruct (Z.eqb_spec id peer) as [->|Hne].
  - intros [= <-]. simpl. auto.
  - destruct (bump fs peer) as [r|]; [|done]. intros [= <-]. simpl.
    destruct (IH r eq_refl) as [-> ?]. auto.
Qed.

Lemma bump_None fs peer : bump fs peer = None <-> ~ In peer (map fst fs).
Proof.
  induction fs as [|[id c] fs IH]; simpl; [tauto|].
  destruct (Z.eqb_spec id peer) as [->|Hne]; [split; [done|tauto]|].
  rewrite fmap_None, IH. tauto.
Qed.

Lemma bump_count fs peer fs' p :
  bump fs peer = Some fs' ->
  count_for fs' p = if p =? peer then sat_add u8_max (count_for fs peer) 1 else count_for fs p.
Proof.
  revert fs'. induction fs as [|[id c] fs IH]; intros fs'; simpl; [done|].
  unfold count_for. simpl. destruct (Z.eqb_spec id peer) as [->|Hne].
  - intros [= <-]. simpl. rewrite (Z.eqb_sym p peer). by destruct (Z.eqb_spec peer p).
  - destruct (bump fs peer) as [r|]; [|done]. intros [= <-]. simpl.
    specialize (IH r eq_refl). unfold count_for in IH.
    destruct (Z.eqb_spec id p) as [->|]; [|done].
    by rewrite (proj2 (Z.eqb_neq p peer) Hne).
Qed.

Lemma count_for_absent fs p : ~ In p (map fst fs) -> count_for fs p = 0.
Proof.
  unfold count_for. induction fs as [|[id c] fs IH]; simpl; [done|].
  intros H. destruct (Z.eqb_spec id p) as [->|]; [tauto|]. apply IH. tauto.
Qed.

Lemma count_for_snoc fs peer p :
  ~ In peer (map fst fs) ->
  count_for (fs ++ [(peer, 1)])%list p = if p =? peer then 1 else count_for fs p.
Proof.
  unfold count_for. induction fs as [|[id c] fs IH]; simpl.
  - intros _. rewrite (Z.eqb_sym p). by destruct (peer =? p).
  - intros H. destruct (Z.eqb_spec id p) as [->|]; [|apply IH; tauto].
    rewrite (proj2 (Z.eqb_neq p peer)); [done|]. tauto.
Qed.

(** With unique ids, being locked out is having five failures on record. *)
Lemma is_locked_out_count fs p :
  NoDup (map fst fs) -> is_locked_out fs p = (MAX_FAILURES <=? count_for fs p).
Proof.
  unfold is_locked_out, count_for. induction fs as [|[id c] fs IH]; simpl; [done|].
  intros [Hnot Hn]%list.NoDup_cons. destruct (Z.eqb_spec id p) as [->|Hne]; simpl; [|auto].
  destruct (MAX_FAILURES <=? c) eqn:E; [done|]. simpl.
  match goal with |- existsb ?f fs = _ => destruct (existsb f fs) eqn:X end; [|done].
  exfalso. apply Hnot.
  apply existsb_exists in X as ([i k] & Hin & Hb). apply andb_true_iff in Hb as [Ei%Z.eqb_eq _]. simpl in Ei. subst i.
  rewrite list_elem_of_In. by apply (in_map fst) in Hin.
Qed.

Lemma record_failure_ids fs peer :
  NoDup (map fst fs) -> NoDup (map fst (record_failure fs peer)) /\
  (forall x, In x (map fst (record_failure fs peer)) -> In x (map fst fs) \/ x = peer) /\
  ((length fs <= MAX_TRACKED_FAILING_PEERS)%nat ->
   (length (record_failure fs peer) <= MAX_TRACKED_FAILING_PEERS)%nat).
Proof.
  intros Hn. unfold record_failure. destruct (bump fs peer) as [fs'|] eqn:E.
  - destruct (bump_ids _ _ _ E) as [Hi Hin]. rewrite Hi.
    assert (length fs' = length fs) as -> by (by rewrite <- (length_map fst fs'), Hi, length_map).
    auto.
  - apply bump_None in E. set (kept := if (MAX_TRACKED_FAILING_PEERS <=? length fs)%nat then tail fs else fs).
    assert (Hk : forall x, In x (map fst kept) -> In x (map fst fs)).
    { unfold kept. intros x. destruct (_ <=? _)%nat; [|done]. destruct fs; simpl; auto. }
    assert (Hnk : NoDup (map fst kept)).
    { unfold kept. destruct (_ <=? _)%nat; [|done]. destruct fs; [done|].
      simpl in *. by apply list.NoDup_cons in Hn as [_ ?]. }
    rewrite map_app. split; [|split].
    + apply list.NoDup_app. repeat split; [done| |apply NoDup_singleton].
      intros x Hx ->%list_elem_of_singleton. rewrite list_elem_of_In in Hx. auto.
    + intros x [?|[<-|[]]]%in_app_or; auto.
    + intros Hl. rewrite length_app. unfold kept. cbn [length].
      assert (length (tail fs) = pred (length fs)) by (by destruct fs).
      unfold MAX_TRACKED_FAILING_PEERS in *.
      destruct (Nat.leb_spec 64 (length fs)); lia.
Qed.

(** A record of another peer's failure leaves this peer's entries alone. *)
Lemma record_failure_other fs q p c :
  p <> q -> In (p, c) (record_failure fs q) -> In (p, c) fs.
Proof.
  intros Hpq. unfold record_failure. destruct (bump fs q) as [fs'|] eqn:E.
  - revert fs' E. induction fs as [|[id k] fs IH]; intros fs'; simpl; [done|].
    destruct (Z.eqb_spec id q) as [->|Hne].
    + intros [= <-] [[= -> _]|?]; [done|auto].
    + destruct (bump fs q) as [r|]; [|done]. intros [= <-] [?|?]; eauto.
  - intros [H|[[= -> _]|[]]]%in_app_or; [|done].
    destruct (_ <=? _)%nat; [|done]. destruct fs; simpl in *; auto.
Qed.

Lemma locked_out_other fs q p :
  p <> q -> is_locked_out fs p = false -> is_locked_out (record_failure fs q) p = false.
Proof.
  intros Hpq H. apply not_true_is_false. intros ([i c] & Hin & Hb)%existsb_exists.
  apply andb_true_iff in Hb as [E%Z.eqb_eq Hc]. simpl in *. subst i.
  apply record_failure_other in Hin; [|done].
  assert (is_locked_out fs p = true); [|congruence].
  apply existsb_exists. exists (p, c). split; [done|]. simpl. by rewrite Z.eqb_refl, Hc.
Qed.

(** With room in the table, recording a failure is adding one to the peer's count. *)
Lemma record_failure_count fs peer p :
  (length fs < MAX_TRACKED_FAILING_PEERS)%nat \/ In peer (map fst fs) ->
  0 <= count_for fs peer < 255 ->
  count_for (record_failure fs peer) p =
    if p =? peer then count_for fs peer + 1 else count_for fs p.
Proof.
  intros Hroom Hc. unfold record_failure. destruct (bump fs peer) as [fs'|] eqn:E.
  - rewrite (bump_count _ _ _ p E). destruct (p =? peer); [|done]. width_lia.
  - apply bump_None in E. destruct Hroom as [Hroom|]; [|done].
    rewrite (proj2 (Nat.leb_gt _ _) Hroom), count_for_snoc by done.
    destruct (p =? peer); [|done]. by rewrite count_for_absent.
Qed.

(** The table of a window that opened empty. *)
Definition table_ok (fs : list (EndpointId * Z)) : Prop :=
  NoDup (map fst fs) /\ (length fs <= MAX_TRACKED_FAILING_PEERS)%nat.

Definition manager_ok (m : PairingManager) : Prop :=
  match m with Some w => table_ok (failures w) | None => True end.

Lemma attempt_ok m a : manager_ok m -> manager_ok (attempt m a).
Proof.
  destruct m as [w|], a as [[now q] s]; simpl; [|done]. intros [Hn Hl].
  destruct (_ <? now); [done|]. destruct (is_locked_out _ _); [done|].
  destruct (secret_matches w s); [done|]. simpl.
  destruct (record_failure_ids (failures w) q Hn) as (H1 & _ & H3). split; auto.
Qed.

Lemma attempts_ok m l : manager_ok m -> manager_ok (attempts m l).
Proof.
  unfold attempts. revert m. induction l as [|a l IH]; intros m H; simpl; auto using attempt_ok.
Qed.

(** There is room for another peer of a small set. *)
Lemma room_in (peers : list EndpointId) (fs : list (EndpointId * Z)) q :
  NoDup (map fst fs) -> (forall x, In x (map fst fs) -> In x peers) -> In q peers ->
  (length peers <= MAX_TRACKED_FAILING_PEERS)%nat ->
  (length fs < MAX_TRACKED_FAILING_PEERS)%nat \/ In q (map fst fs).
Proof.
  intros Hn Hsub Hq Hl. destruct (in_dec Z.eq_dec q (map fst fs)) as [|Hnot]; [by right|left].
  assert (Hs : q :: map fst fs ⊆+ peers).
  { apply NoDup_submseteq.
    - apply list.NoDup_cons. by rewrite list_elem_of_In.
    - intros x. rewrite !list_elem_of_In. intros [<-|?]; auto. }
  apply submseteq_length in Hs. simpl in Hs. rewrite length_map in Hs. lia.
Qed.

Lemma guesses_le peers p (l : list Attempt) m :
  (length peers <= MAX_TRACKED_FAILING_PEERS)%nat ->
  (forall a, In a l -> In (snd (fst a)) peers) ->
  match m with
  | None => guesses p m l = 0
  | Some w => NoDup (map fst (failures w)) ->
      (forall x, In x (map fst (failures w)) -> In x peers) ->
      (forall x, 0 <= count_for (failures w) x <= MAX_FAILURES) ->
      guesses p m l + count_for (failures w) p <= MAX_FAILURES
  end.
Proof.
  intros Hl. revert m. induction l as [|a l IH]; intros m Ha.
  { destruct m as [w|]; [|done]. simpl. intros _ _ H. specialize (H p). lia. }
  assert (IH' := fun m => IH m (fun b Hb => Ha b (or_intror Hb))). clear IH.
  destruct a as [[now q] s]. cbn [guesses fst snd].
  destruct m as [w|].
  2: { rewrite andb_false_r. apply (IH' None). }
  intros Hn Hsub Hc. cbn [attempt verify_and_consume_at compared].
  pose proof (IH' None) as Hclosed. cbn beta iota in Hclosed.
  destruct (expires_at_ms w <? now); cbn [negb andb fst].
  { rewrite andb_false_r, Hclosed. specialize (Hc p). lia. }
  pose proof (is_locked_out_count (failures w) q Hn) as Hlock.
  destruct (is_locked_out (failures w) q); cbn [negb fst].
  { rewrite andb_false_r. apply (IH' (Some w)); done. }
  symmetry in Hlock. apply Z.leb_gt in Hlock. rewrite andb_true_r.
  destruct (secret_matches w s); cbn [fst].
  { rewrite Hclosed. pose proof (Hc p). destruct (Z.eqb_spec q p); subst; lia. }
  pose proof (room_in peers (failures w) q Hn Hsub (Ha _ (or_introl eq_refl)) Hl) as Hroom.
  destruct (record_failure_ids (failures w) q Hn) as (Hn' & Hsub' & _).
  assert (Hcount : forall x, count_for (record_failure (failures w) q) x =
    if x =? q then count_for (failures w) q + 1 else count_for (failures w) x).
  { intros x. apply record_failure_count; [done|]. pose proof (Hc q). unfold MAX_FAILURES in *. lia. }
  specialize (IH' (Some {| secret := secret w; expires_at_ms := expires_at_ms w;
                           failures := record_failure (failures w) q |}) Hn').
  cbn [failures] in IH'.
  assert (Hbound : forall x, 0 <= count_for (record_failure (failures w) q) x <= MAX_FAILURES).
  { intros x. rewrite Hcount. pose proof (Hc x). pose proof (Hc q). destruct (x =? q); lia. }
  assert (Hin : forall x, In x (map fst (record_failure (failures w) q)) -> In x peers).
  { intros x [?| ->]%Hsub'; [auto|]. apply (Ha _ (or_introl eq_refl)). }
  specialize (IH' Hin Hbound). rewrite (Hcount p) in IH'. rewrite (Z.eqb_sym p q) in IH'.
  destruct (Z.eqb_spec q p); subst; lia.
Qed.

(** Wrong secrets from other peers within the window leave it open and leave a peer that
    was not locked out able to pair. *)
Lemma bystander_attempts w p (l : list Attempt) :
  is_locked_out (failures w) p = false ->
  (forall a, In a l -> snd (fst a) <> p /\ fst (fst a) <= expires_at_ms w /\
                       secret_matches w (snd a) = false) ->
  exists w', attempts (Some w) l = Some w' /\ secret w' = secret w /\
    expires_at_ms w' = expires_at_ms w /\ is_locked_out (failures w') p = false.
Proof.
  unfold attempts. revert w. induction l as [|[[now q] s] l IH]; intros w Hlock Ha.
  { exists w. auto. }
  destruct (Ha _ (or_introl eq_refl)) as (Hq & Hnow & Hs). cbn [fst snd] in *.
  cbn [fold_left attempt verify_and_consume_at].
  rewrite (proj2 (Z.ltb_ge _ _) Hnow), Hs.
  destruct (is_locked_out (failures w) q); cbn [fst].
  { apply IH; [done|]. intros a Hin. apply Ha. by right. }
  edestruct (IH {| secret := secret w; expires_at_ms := expires_at_ms w;
                   failures := record_failure (failures w) q |}) as (w' & H1 & H2 & H3 & H4);
    cbn [failures secret expires_at_ms]; [by apply locked_out_other; auto| |eauto].
  intros a Hin. destruct (Ha a (or_intror Hin)) as (? & ? & ?). auto.
Qed.

Lemma verify_Ok m now peer supplied m' :
  verify_and_consume_at now peer supplied m = (m', Ok tt) ->
  m' = None /\ exists w, m = Some w /\ now <= expires_at_ms w /\
    is_locked_out (failures w) peer = false /\ secret_matches w supplied = true.
Proof.
  unfold verify_and_consume_at. destruct m as [w|]; [|done].
  destruct (Z.ltb_spec (expires_at_ms w) now); [done|].
  destruct (is_locked_out (failures w) peer) eqn:L; [done|].
  destruct (secret_matches w supplied) eqn:S; [|done]. intros [= <-]. eauto 7.
Qed.

(** ** Properties: pairing *)

(** ** What the history of a window says about a request *)

(** The number of texts [p] has presented that do not decode to the secret. *)
Definition wrongs (random : list Z) (p : EndpointId) (past : list Attempt) : Z :=
  Z.of_nat (length (List.filter
    (fun a => (snd (fst a) =? p) && negb (bool_decide (b64_decode (snd a) = Some random))) past)).

(** A request inside the five minutes, carrying the secret, from a peer with fewer than
    five wrong texts behind it. *)
Definition entitled (random : list Z) (deadline : Z) (past : list Attempt) (a : Attempt) : Prop :=
  fst (fst a) <= deadline /\ b64_decode (snd a) = Some random /\
  wrongs random (snd (fst a)) past < 5.

(** No request so far was entitled or late: nothing has used the window up. *)
Definition unused (random : list Z) (deadline : Z) (past : list Attempt) : Prop :=
  forall before b after, past = (before ++ b :: after)%list ->
    fst (fst b) <= deadline /\ ~ entitled random deadline before b.

Definition accepted_after (m : PairingManager) (past : list Attempt) (a : Attempt) : Prop :=
  snd (verify_and_consume_at (fst (fst a)) (snd (fst a)) (snd a) (attempts m past)) = Ok tt.

Lemma unused_snoc random deadline past a :
  unused random deadline (past ++ [a])%list <->
  unused random deadline past /\ fst (fst a) <= deadline /\ ~ entitled random deadline past a.
Proof.
  split.
  - intros H. split; [|by apply (H past a [])]. intros before b after ->.
    apply (H before b (after ++ [a])%list). by rewrite <- app_assoc.
  - intros (H & Ha) before b after E. destruct after as [|c after _] using rev_ind.
    + apply app_inj_tail in E as [-> ->]. exact Ha.
    + rewrite app_comm_cons, app_assoc in E. apply app_inj_tail in E as [-> _]. by eapply H.
Qed.

Lemma wrongs_snoc random p past a :
  wrongs random p (past ++ [a])%list =
  wrongs random p past +
  if (snd (fst a) =? p) && negb (bool_decide (b64_decode (snd a) = Some random)) then 1 else 0.
Proof.
  unfold wrongs. rewrite List.filter_app, length_app, Nat2Z.inj_add. f_equal.
  cbn [List.filter]. by destruct (_ && _).
Qed.

Lemma wrongs_nonneg random p past : 0 <= wrongs random p past.
Proof. unfold wrongs. lia. Qed.

Lemma attempts_app m past later : attempts m (past ++ later)%list = attempts (attempts m past) later.
Proof. unfold attempts. by rewrite fold_left_app. Qed.

Lemma attempts_closed later : attempts None later = None.
Proof. unfold attempts. induction later as [|[[? ?] ?] later IH]; [done|]. exact IH. Qed.

Lemma attempts_snoc m past a : attempts m (past ++ [a])%list = attempt (attempts m past) a.
Proof. by rewrite attempts_app. Qed.

Lemma secret_matches_iff w supplied :
  length (secret w) = PAIRING_SECRET_BYTES ->
  secret_matches w supplied = bool_decide (b64_decode supplied = Some (secret w)).
Proof.
  intros Hl. unfold secret_matches. destruct (b64_decode supplied) as [bytes|].
  2: { symmetry. by apply bool_decide_eq_false_2. }
  case_bool_decide as E.
  - subst bytes. rewrite Hl, Nat.eqb_refl. symmetry. by apply bool_decide_eq_true_2.
  - rewrite andb_false_r. symmetry. apply bool_decide_eq_false_2. congruence.
Qed.

(** What a window that is still open has learnt from the requests so far. *)
Definition window_after (random : list Z) (deadline : Z) (peers : list EndpointId)
  (past : list Attempt) (w : PairingWindow) : Prop :=
  secret w = random /\ expires_at_ms w = deadline /\ NoDup (map fst (failures w)) /\
  (forall x, In x (map fst (failures w)) -> In x peers) /\
  (forall x, count_for (failures w) x = Z.min MAX_FAILURES (wrongs random x past)).

Lemma wrong_text_is_counted random deadline peers past w now q s :
  (length peers <= MAX_TRACKED_FAILING_PEERS)%nat -> In q peers ->
  window_after random deadline peers past w -> is_locked_out (failures w) q = false ->
  b64_decode s <> Some random ->
  window_after random deadline peers (past ++ [(now, q, s)])
    {| secret := secret w; expires_at_ms := expires_at_ms w;
       failures := record_failure (failures w) q |}.
Proof.
  intros Hl Hq (H1 & H2 & Hn & Hsub & Hc) Hlock Hs. rewrite (is_locked_out_count _ _ Hn) in Hlock.
  apply Z.leb_gt in Hlock. pose proof (room_in peers _ q Hn Hsub Hq Hl) as Hroom.
  destruct (record_failure_ids (failures w) q Hn) as (Hn' & Hsub' & _).
  repeat split; cbn [secret expires_at_ms failures]; [done..| |].
  - intros x [?| ->]%Hsub'; auto.
  - intros x. rewrite wrongs_snoc. cbn [fst snd]. rewrite bool_decide_eq_false_2 by done.
    rewrite andb_true_r. pose proof (wrongs_nonneg random q past). pose proof (Hc q).
    rewrite record_failure_count by (unfold MAX_FAILURES in *; try done; lia).
    rewrite (Z.eqb_sym x q). destruct (Z.eqb_spec q x) as [<-|]; [lia|].
    rewrite Hc, Z.add_0_r. done.
Qed.

(** A request that changes nothing in the table was not a counted one. *)
Lemma locked_out_is_forgotten random deadline peers past w a :
  window_after random deadline peers past w ->
  is_locked_out (failures w) (snd (fst a)) = true ->
  window_after random deadline peers (past ++ [a]) w.
Proof.
  intros (H1 & H2 & Hn & Hsub & Hc) Hlock. rewrite (is_locked_out_count _ _ Hn) in Hlock.
  apply Z.leb_le in Hlock. repeat split; [done..|]. intros x. rewrite Hc, wrongs_snoc.
  pose proof (Hc (snd (fst a))). destruct (Z.eqb_spec (snd (fst a)) x) as [<-|]; [|simpl; lia].
  destruct (negb _); simpl; lia.
Qed.

Lemma locked_out_iff random deadline peers past w q :
  window_after random deadline peers past w ->
  is_locked_out (failures w) q = (5 <=? wrongs random q past).
Proof.
  intros (_ & _ & Hn & _ & Hc). rewrite (is_locked_out_count _ _ Hn), Hc. unfold MAX_FAILURES.
  destruct (Z.leb_spec 5 (wrongs random q past)); [apply Z.leb_le|apply Z.leb_gt]; lia.
Qed.

Section History.
Context (random : list Z) (deadline : Z) (peers : list EndpointId).
Context (Hrandom : length random = PAIRING_SECRET_BYTES).
Context (Hpeers : (length peers <= MAX_TRACKED_FAILING_PEERS)%nat).

(** One request against an open window: it closes it when it is late or entitled, and is
    remembered otherwise. *)
Lemma request_outcome past w a :
  window_after random deadline peers past w -> In (snd (fst a)) peers ->
  match verify_and_consume_at (fst (fst a)) (snd (fst a)) (snd a) (Some w) with
  | (None, r) => (r = Ok tt <-> entitled random deadline past a) /\
                 (deadline < fst (fst a) \/ entitled random deadline past a)
  | (Some w', r) => r <> Ok tt /\ fst (fst a) <= deadline /\ ~ entitled random deadline past a /\
                    window_after random deadline peers (past ++ [a]) w'
  end.
Proof.
  intros H Hin. destruct a as [[now q] s]. cbn [fst snd] in *. unfold entitled. cbn [fst snd].
  pose proof (locked_out_iff _ _ _ _ _ q H) as Hlock. pose proof H as (H1 & H2 & _).
  unfold verify_and_consume_at. rewrite H2.
  destruct (Z.ltb_spec deadline now) as [Hlate|Hnow]. { split; [|by left]. split; [done|lia]. }
  destruct (is_locked_out (failures w) q) eqn:L; symmetry in Hlock.
  { apply Z.leb_le in Hlock. split; [done|]. split; [done|]. split; [lia|].
    by apply (locked_out_is_forgotten _ _ _ _ _ (now, q, s)). }
  apply Z.leb_gt in Hlock. rewrite secret_matches_iff by (by rewrite H1). rewrite H1.
  case_bool_decide as Es.
  { split; [tauto|]. by right. }
  split; [done|]. split; [done|]. split; [tauto|].
  pose proof (wrong_text_is_counted _ _ _ _ _ now q s Hpeers Hin H L Es) as R.
  by rewrite H1, H2 in R.
Qed.

Lemma window_history m past :
  m = Some {| secret := random; expires_at_ms := deadline; failures := [] |} ->
  (forall a, In a past -> In (snd (fst a)) peers) ->
  match attempts m past with
  | Some w => window_after random deadline peers past w /\ unused random deadline past
  | None => ~ unused random deadline past
  end.
Proof.
  intros ->. induction past as [|a past IH] using rev_ind; intros Hin.
  { split; [|by intros [|? ?] ? ?]. repeat split; simpl; try done; constructor. }
  specialize (IH (fun b Hb => Hin b (in_or_app _ _ _ (or_introl Hb)))).
  pose proof (unused_snoc random deadline past a) as Hs.
  rewrite attempts_snoc. destruct (attempts _ past) as [w|].
  - destruct IH as [Hw Hu].
    pose proof (request_outcome past w a Hw (Hin a (in_elt a past []))) as R.
    destruct a as [[now q] s]. cbn [attempt fst snd] in *.
    destruct (verify_and_consume_at now q s (Some w)) as [[w'|] r]; cbn [fst]; [tauto|].
    intros (_ & ? & ?)%Hs. destruct R as [_ [?|?]]; [lia|tauto].
  - destruct a as [[now q] s]. simpl. tauto.
Qed.

End History.

(** C6: A pairing window serves exactly one request, and the history of requests says
    which. Let a window be opened with a 32-byte secret, and let any requests follow, from
    at most 64 different peers, at any times and with any texts. The next request is
    accepted exactly when it arrives by the advertised expiry (inclusive), its text decodes
    to the secret that was drawn, its peer has presented fewer than five texts that do not,
    and no request before it was late or itself acceptable. Once one has been accepted, no
    later request is, whoever sends it and whatever it carries. *)
Theorem pairing_is_single_use random opened node id addrs urls m0 peers past a :
  length random = PAIRING_SECRET_BYTES ->
  (length peers <= MAX_TRACKED_FAILING_PEERS)%nat ->
  (forall b, In b (past ++ [a])%list -> In (snd (fst b)) peers) ->
  let '(m, bundle) := open random opened node id addrs urls m0 in
  let deadline := b_expires_at_ms bundle in
  deadline = opened + 300000 /\
  (accepted_after m past a <-> entitled random deadline past a /\ unused random deadline past) /\
  (accepted_after m past a -> forall later b, ~ accepted_after m (past ++ a :: later) b).
Proof.
  intros Hr Hp Hin. cbn [open b_expires_at_ms]. split; [done|].
  set (deadline := opened + PAIRING_WINDOW_MS).
  pose proof (window_history random deadline peers Hr Hp _ past eq_refl
    (fun b Hb => Hin b (in_or_app _ _ _ (or_introl Hb)))) as W.
  set (m := Some _) in *. split.
  - unfold accepted_after. destruct (attempts m past) as [w|]; [|simpl; split; [done|tauto]].
    destruct W as [Hw Hu].
    pose proof (request_outcome random deadline peers Hr Hp past w a Hw
      (Hin a (in_elt a past []))) as R.
    destruct (verify_and_consume_at _ _ _ _) as [[w'|] r]; cbn [snd]; tauto.
  - unfold accepted_after. intros Ha later b. rewrite (cons_middle a past later), app_assoc,
      attempts_app, attempts_snoc.
    destruct a as [[now q] s]. cbn [fst snd attempt] in *.
    destruct (verify_and_consume_at now q s (attempts m past)) as [m' r] eqn:E.
    cbn [snd] in Ha. subst r. apply verify_Ok in E as [-> _]. cbn [fst].
    by rewrite attempts_closed.
Qed.

(** C24: Guessing is bounded: from a freshly opened window, whatever requests arrive in
    whatever order, no peer has more than five secrets compared as long as at most 64
    different peers take part, and the table of failing peers never exceeds 64 entries
    however many peers there are. *)
Theorem guesses_are_bounded w peers peer (l : list Attempt) :
  failures w = [] -> (length peers <= MAX_TRACKED_FAILING_PEERS)%nat ->
  (forall a, In a l -> In (snd (fst a)) peers) ->
  guesses peer (Some w) l <= MAX_FAILURES /\
  (forall l' w', attempts (Some w) l' = Some w' ->
     (length (failures w') <= MAX_TRACKED_FAILING_PEERS)%nat).
Proof.
  intros Hf Hl Ha. split.
  - pose proof (guesses_le peers peer l (Some w) Hl Ha) as H. cbn beta iota in H. rewrite Hf in H.
    specialize (H ltac:(constructor) ltac:(done)). unfold count_for, MAX_FAILURES in *.
    simpl in H. specialize (H ltac:(lia)). lia.
  - intros l' w' E. pose proof (attempts_ok (Some w) l') as H. rewrite E in H. apply H.
    simpl. rewrite Hf. split; [constructor|simpl; lia].
Qed.

(** C25: A bystander cannot close the window: after any number of wrong secrets from other
    peers inside the five minutes, a peer that was not locked out still pairs with the
    secret. *)
Theorem bystanders_cannot_close_window w peer (l : list Attempt) now supplied :
  is_locked_out (failures w) peer = false ->
  (forall a, In a l -> snd (fst a) <> peer /\ fst (fst a) <= expires_at_ms w /\
                       secret_matches w (snd a) = false) ->
  now <= expires_at_ms w -> secret_matches w supplied = true ->
  verify_and_consume_at now peer supplied (attempts (Some w) l) = (None, Ok tt).
Proof.
  intros Hlock Ha Hnow Hs.
  destruct (bystander_attempts w peer l Hlock Ha) as (w' & -> & H1 & H2 & H3).
  unfold verify_and_consume_at. rewrite H2, H3, (proj2 (Z.ltb_ge _ _) Hnow).
  unfold secret_matches in *. by rewrite H1, Hs.
Qed.

(** The bundle handed to the operator opens the window it came from: for a 32-byte
    random secret, any peer that presents the bundle's secret at any time up to the
    advertised expiry is accepted, and the advertised expiry is five minutes away. *)
Theorem opened_bundle_pairs random now node id addrs urls m peer later :
  is_bytes random -> length random = PAIRING_SECRET_BYTES ->
  let '(m', bundle) := open random now node id addrs urls m in
  b_expires_at_ms bundle = now + 300000 /\
  (later <= b_expires_at_ms bundle ->
   verify_and_consume_at later peer (b_one_time_secret bundle) m' = (None, Ok tt)).
Proof.
  intros Hb Hl. cbn [open b_expires_at_ms b_one_time_secret]. split; [done|]. intros Hnow.
  cbn [verify_and_consume_at expires_at_ms failures]. rewrite (proj2 (Z.ltb_ge _ _) Hnow).
  unfold secret_matches. cbn [is_locked_out existsb]. rewrite (b64_roundtrip _ Hb), Hl.
  cbn [secret]. rewrite Nat.eqb_refl. by rewrite bool_decide_eq_true_2.
Qed.

End Manager.

(** ** The peer registry *)

Definition Records : Type := list (string * PeerRecord).

Definition PeerRegistry : Type := PersistedMap PeerRecord.

Definition pairing_error (e : PersistError) : PairingError :=
  match e with
  | PersistIo => IoError
  | PersistJson => JsonError
  | LockUnavailable => RegistryUnavailable
  end.

Section Registry.
Context {ET : EndpointText} {RJ : JsonCodec Records anything}.
(** Whether the [n]-th file operation of the process fails. *)
Context (fault : nat -> bool).

Definition registry_load (f : ReadOutcome) : result Records PairingError :=
  map_err pairing_error (load f).

Definition publish_records {A} (next : Records) (a : A) (r : PeerRegistry)
  : PeerRegistry * result A PairingError :=
  let '(r', res) := publish fault next a r in (r', map_err pairing_error res).

Definition permissions (id : EndpointId) (r : PeerRegistry)
  : result (option PeerPermissions) PairingError :=
  if poisoned r then Err RegistryUnavailable
  else Ok (permissions_of <$> bt_get (id_text id) (records r)).

Definition contains (id : EndpointId) (r : PeerRegistry) : result bool PairingError :=
  let? p := permissions id r in Ok (match p with Some _ => true | None => false end).

Definition list_records (r : PeerRegistry) : result (list PeerRecord) PairingError :=
  if poisoned r then Err RegistryUnavailable else Ok (bt_values (records r)).

Definition authorize (id : EndpointId) (p : PeerPermissions) (now_ms : Z) (r : PeerRegistry)
  : PeerRegistry * result unit PairingError :=
  if poisoned r then (r, Err RegistryUnavailable)
  else
    let next := bt_insert (id_text id)
      {| endpoint_id := id_text id; paired_at_ms := now_ms; permissions_of := p |} (records r) in
    publish_records next tt r.

Definition authorize_preserving (id : EndpointId) (now_ms : Z) (r : PeerRegistry)
  : PeerRegistry * result PeerPermissions PairingError :=
  if poisoned r then (r, Err RegistryUnavailable)
  else
    let key := id_text id in
    let p := match bt_get key (records r) with
             | Some record => permissions_of record
             | None => default_permissions
             end in
    let next := bt_insert key
      {| endpoint_id := key; paired_at_ms := now_ms; permissions_of := p |} (records r) in
    publish_records next p r.

Definition revoke (text : string) (r : PeerRegistry) : PeerRegistry * result bool PairingError :=
  if poisoned r then (r, Err RegistryUnavailable)
  else if bt_mem text (records r) then publish_records (bt_remove text (records r)) true r
  else (r, Ok false).

(** ** Registry operations as steps *)

Inductive RegistryOp :=
  | Authorize (id : EndpointId) (p : PeerPermissions) (now_ms : Z)
  | AuthorizePreserving (id : EndpointId) (now_ms : Z)
  | Revoke (text : string).

Definition step (r : PeerRegistry) (op : RegistryOp) : PeerRegistry :=
  match op with
  | Authorize id p now => fst (authorize id p now r)
  | AuthorizePreserving id now => fst (authorize_preserving id now r)
  | Revoke text => fst (revoke text r)
  end.

Lemma publish_records_cases {A} next (a : A) r :
  match publish_records next a r with
  | (r', Ok b) => b = a /\ records r' = next /\ load (file r') = Ok next
  | (r', Err _) => file r' = file r /\ records r' = records r
  end.
Proof.
  unfold publish_records. pose proof (publish_cases fault next a r) as P.
  destruct (publish fault next a r) as [r' [b|e]]; [|done]. destruct P as (P1 & P2 & P3).
  split; [done|]. split; [done|]. by apply P3.
Qed.

Lemma publish_records_fst {A} next (a : A) r :
  fst (publish_records next a r) = fst (publish fault next a r).
Proof. unfold publish_records. by destruct (publish fault next a r). Qed.

Lemma publish_records_synced {A} next (a : A) r :
  synced r -> bt_sorted next -> synced (fst (publish_records next a r)).
Proof. rewrite publish_records_fst. intros. by apply publish_synced. Qed.

Lemma step_synced r op : synced r -> synced (step r op).
Proof.
  intros H. pose proof (proj2 H) as Hs. destruct op as [id p now|id now|text]; simpl.
  - unfold authorize. destruct (poisoned r); [done|]. apply publish_records_synced; auto using bt_insert_sorted.
  - unfold authorize_preserving. destruct (poisoned r); [done|].
    apply publish_records_synced; auto using bt_insert_sorted.
  - unfold revoke. destruct (poisoned r); [done|]. destruct (bt_mem _ _); [|done].
    apply publish_records_synced; auto using bt_remove_sorted.
Qed.

Lemma id_text_inj a b : id_text a = id_text b -> a = b.
Proof. intros H. pose proof (parse_id_text a) as Ha. rewrite H, parse_id_text in Ha. congruence. Qed.

(** ** Properties: the registry *)

(** The registry never shows an authorization the disk does not hold: after any sequence
    of authorizations, re-pairings and revocations, with file operations failing anywhere,
    a restart loads exactly the records memory shows. *)
Theorem registry_survives_restart (ops : list RegistryOp) (r : PeerRegistry) :
  synced r -> registry_load (file (fold_left step ops r)) = Ok (records (fold_left step ops r)).
Proof.
  intros H. assert (S : synced (fold_left step ops r)); [|unfold registry_load; by rewrite (proj1 S)].
  revert r H. induction ops as [|op ops IH]; intros r H; simpl; auto using step_synced.
Qed.

Lemma publish_records_poisoned {A} next (a : A) r :
  poisoned (fst (publish_records next a r)) = poisoned r.
Proof. rewrite publish_records_fst. apply publish_poisoned. Qed.

Lemma authorize_preserving_poisoned id now r :
  poisoned (fst (authorize_preserving id now r)) = poisoned r.
Proof. unfold authorize_preserving. destruct (poisoned r) eqn:E; [done|]. by rewrite publish_records_poisoned. Qed.

Lemma authorize_preserving_cases (id : EndpointId) (now : Z) (r : PeerRegistry) :
  match authorize_preserving id now r with
  | (r', Ok p) =>
      permissions id r' = Ok (Some p) /\
      permissions id r = Ok (match permissions id r with
                             | Ok (Some _) => Some p | _ => None end) /\
      (permissions id r = Ok None -> p = default_permissions) /\
      (forall other, other <> id -> permissions other r' = permissions other r)
  | (r', Err _) => records r' = records r /\ file r' = file r
  end.
Proof.
  unfold authorize_preserving, permissions. destruct (poisoned r) eqn:E; [done|].
  set (p := match bt_get _ _ with Some _ => _ | None => _ end).
  match goal with |- context [publish_records ?n ?a r] => pose proof (publish_records_cases n a r) as P;
    pose proof (publish_records_poisoned n a r) as Hp end. rewrite E in Hp.
  destruct (publish_records _ p r) as [r' [q|e]]; simpl in *; [|by destruct P].
  destruct P as (-> & P1 & _). rewrite Hp, P1, bt_get_insert_eq. split; [done|].
  unfold p. split; [|split].
  - by destruct (bt_get (id_text id) (records r)).
  - by destruct (bt_get (id_text id) (records r)).
  - intros other Hne. rewrite bt_get_insert_ne; [done|]. intros Heq. apply Hne.
    symmetry. by apply id_text_inj.
Qed.

Lemma authorize_succeeds (id : EndpointId) (now : Z) (r : PeerRegistry) :
  (forall n, fault n = false) ->
  match permissions id r with
  | Ok _ => is_ok (snd (authorize_preserving id now r)) = true
  | Err _ => True
  end.
Proof.
  intros Hf. unfold permissions, authorize_preserving. destruct (poisoned r); [done|]. unfold publish_records.
  match goal with |- context [publish fault ?m ?a r] =>
    pose proof (publish_succeeds fault m a r Hf I) as P; destruct (publish fault m a r) as [q res] end.
  simpl in P. by subst res.
Qed.

(** Re-pairing keeps what an operator narrowed: the peer ends up with the permissions it
    already had, the default ones only when it was unknown, and no other peer is touched;
    if anything fails, neither memory nor the file changes. *)
Theorem repairing_never_widens (id : EndpointId) (now : Z) (r : PeerRegistry) :
  match authorize_preserving id now r with
  | (r', Ok p) =>
      permissions id r' = Ok (Some p) /\
      permissions id r = Ok (match permissions id r with
                             | Ok (Some _) => Some p | _ => None end) /\
      (permissions id r = Ok None -> p = default_permissions) /\
      (forall other, other <> id -> permissions other r' = permissions other r)
  | (r', Err _) => records r' = records r /\ file r' = file r
  end.
Proof. apply authorize_preserving_cases. Qed.

Lemma revoke_cases (text : string) (r : PeerRegistry) :
  bt_sorted (records r) ->
  match revoke text r with
  | (r', Ok removed) =>
      removed = bt_mem text (records r) /\ bt_get text (records r') = None /\
      (forall other, other <> text -> bt_get other (records r') = bt_get other (records r))
  | (r', Err _) => records r' = records r /\ file r' = file r
  end.
Proof.
  intros Hs. unfold revoke. destruct (poisoned r); [done|].
  destruct (bt_mem text (records r)) eqn:M.
  - pose proof (publish_records_cases (bt_remove text (records r)) true r) as P.
    destruct (publish_records _ true r) as [r' [q|e]]; [|by destruct P].
    destruct P as (-> & -> & _). split; [done|]. split; [by apply bt_get_remove_eq|].
    intros other Hne. by apply bt_get_remove_ne.
  - split; [done|]. split; [|done]. unfold bt_mem in M. by destruct (bt_get text (records r)).
Qed.

(** Revocation removes exactly the named peer and reports whether it was there; when it
    reports an error nothing was removed. *)
Theorem revoke_removes_peer (text : string) (r : PeerRegistry) :
  bt_sorted (records r) ->
  match revoke text r with
  | (r', Ok removed) =>
      removed = bt_mem text (records r) /\ bt_get text (records r') = None /\
      (forall other, other <> text -> bt_get other (records r') = bt_get other (records r))
  | (r', Err _) => records r' = records r /\ file r' = file r
  end.
Proof. apply revoke_cases. Qed.

End Registry.

(** ** Witnesses *)

#[export, refine] Instance unary_ids : EndpointText :=
  {| id_text := unary_text; parse_id := parse_unary |}.
Proof. apply parse_unary_text. Defined.

#[export, refine] Instance plain_base64 : Base64 :=
  {| b64_encode := byte_text; b64_decode s := Some (text_bytes s) |}.
Proof. intros b H. by rewrite text_bytes_roundtrip. Defined.

#[export] Instance PairingBundle_eq_dec : EqDecision PairingBundle.
Proof. solve_decision. Defined.

#[export] Instance PairingBundle_countable : Countable PairingBundle.
Proof.
  refine (inj_countable'
    (fun b => (format_version b, b_node_id b, b_endpoint_id b, b_direct_addresses b,
               b_relay_urls b, b_one_time_secret b, b_expires_at_ms b))
    (fun '(v, n, e, d, r, s, x) => Build_PairingBundle v n e d r s x) _).
  by intros [].
Defined.

#[export] Instance PeerPermissions_eq_dec : EqDecision PeerPermissions.
Proof. solve_decision. Defined.

#[export] Instance PeerRecord_eq_dec : EqDecision PeerRecord.
Proof. solve_decision. Defined.

#[export] Instance PeerRecord_countable : Countable PeerRecord.
Proof.
  refine (inj_countable'
    (fun r => (endpoint_id r, paired_at_ms r, read_metrics (permissions_of r),
               read_history (permissions_of r)))
    (fun '(e, p, m, h) => {| endpoint_id := e; paired_at_ms := p;
                             permissions_of := {| read_metrics := m; read_history := h |} |}) _).
  by intros [? ? []].
Defined.

#[export] Instance bundle_json : JsonCodec PairingBundle anything := countable_json PairingBundle _.
#[export] Instance records_json : JsonCodec Records anything := countable_json Records _.

Definition demo_secret : list Z := replicate 32 7.

Definition demo_window : PairingWindow :=
  {| secret := demo_secret; expires_at_ms := 300000; failures := [] |}.

Lemma pairing_is_single_use_witness :
  let past := [(1, 9, "wrong"); (2, 8, "bad"); (3, 9, "again")] in
  let m := fst (open demo_secret 0 1 2 [] [] None) in
  accepted_after m past (10, 9, byte_text demo_secret) /\
  forall later b, ~ accepted_after m (past ++ (10, 9, byte_text demo_secret) :: later) b.
Proof.
  intros past m.
  pose proof (pairing_is_single_use demo_secret 0 1 2 [] [] None [8; 9] past
    (10, 9, byte_text demo_secret)) as H.
  destruct H as (_ & _ & H).
  - reflexivity.
  - unfold MAX_TRACKED_FAILING_PEERS. simpl. lia.
  - simpl. intros b Hb. repeat destruct Hb as [<-|Hb]; simpl; tauto.
  - assert (A : accepted_after m past (10, 9, byte_text demo_secret)) by (vm_compute; reflexivity).
    split; [exact A|exact (H A)].
Defined.

Lemma guesses_are_bounded_witness :
  guesses 9 (Some demo_window) (replicate 8 (1, 9, "wrong")) <= MAX_FAILURES.
Proof.
  apply (guesses_are_bounded demo_window [9] 9 (replicate 8 (1, 9, "wrong"))).
  - reflexivity.
  - unfold MAX_TRACKED_FAILING_PEERS. simpl. lia.
  - simpl. intros a H. repeat destruct H as [<-|H]; try (by left); done.
Defined.

Lemma bystanders_cannot_close_window_witness :
  verify_and_consume_at 10 3 (byte_text demo_secret)
    (attempts (Some demo_window) (replicate 6 (1, 9, "wrong"))) = (None, Ok tt).
Proof.
  apply (bystanders_cannot_close_window demo_window 3 (replicate 6 (1, 9, "wrong")) 10).
  - reflexivity.
  - simpl. intros a H. repeat destruct H as [<-|H]; try done; repeat split; vm_compute; congruence.
  - simpl. lia.
  - vm_compute. reflexivity.
Defined.

Lemma opened_bundle_pairs_witness :
  verify_and_consume_at 7 5 (byte_text demo_secret)
    (fst (open demo_secret 0 1 2 [] [] None)) = (None, Ok tt).
Proof.
  refine (proj2 (opened_bundle_pairs demo_secret 0 1 2 [] [] None 5 7 _ _) _).
  - unfold is_bytes, demo_secret. apply Forall_forall. intros x Hx.
    rewrite <- list_elem_of_In, elem_of_replicate in Hx. destruct Hx as [-> _]. split; by vm_compute.
  - reflexivity.
  - simpl. unfold PAIRING_WINDOW_MS. lia.
Defined.

Definition empty_registry : PeerRegistry :=
  {| records := []; poisoned := false; file := NotFound; disk_ops := 0 |}.

Lemma registry_survives_restart_witness :
  let r := fold_left (step (fun n => (n =? 8)%nat))
             [AuthorizePreserving 1 10; AuthorizePreserving 2 20; Revoke "1"] empty_registry in
  registry_load (file r) = Ok (records r).
Proof. apply registry_survives_restart. split; [reflexivity|constructor]. Defined.

Lemma revoke_removes_peer_witness :
  let r := fst (authorize (fun _ => false) 1 default_permissions 10 empty_registry) in
  bt_get "1" (records (fst (revoke (fun _ => false) "1" r))) = None.
Proof.
  set (r := fst (authorize (fun _ => false) 1 default_permissions 10 empty_registry)).
  pose proof (revoke_removes_peer (fun _ => false) "1" r) as H.
  assert (Hs : bt_sorted (records r)) by (repeat constructor).
  specialize (H Hs). simpl in H |- *. exact (proj1 (proj2 H)).
Defined.

Lemma repairing_never_widens_witness :
  let narrow := {| read_metrics := true; read_history := false |} in
  let r := fst (authorize (fun _ => false) 1 narrow 10 empty_registry) in
  exists r', authorize_preserving (fun _ => false) 1 20 r = (r', Ok narrow) /\
    permissions 1 r' = Ok (Some narrow).
Proof.
  intros narrow r. pose proof (repairing_never_widens (fun _ => false) 1 20 r) as H.
  exists (fst (authorize_preserving (fun _ => false) 1 20 r)).
  assert (E : authorize_preserving (fun _ => false) 1 20 r =
              (fst (authorize_preserving (fun _ => false) 1 20 r), Ok narrow))
    by (vm_compute; reflexivity).
  split; [exact E|]. rewrite E in H. exact (proj1 H).
Defined.

Lemma bundle_roundtrip_witness :
  let b := snd (open demo_secret 0 1 2 [] ["r"] None) in
  exists t, bundle_encode b = Ok t /\ bundle_decode t = Ok b.
Proof.
  intros b. destruct (proj1 (bundle_roundtrip b "") eq_refl) as (t & E1 & _ & E2).
  exists t. split; [exact E1|exact E2].
Defined.
