(* ===== verification/Mdns.v ===== *)
(** The pairing advertisement on the local network: [crates/rackio-iroh/src/mdns.rs].

    The mDNS library is a parameter: whether starting an advertisement with a given label
    and address table succeeds. A running advertisement is the table it was started with;
    dropping it stops it. *)

From S2P Require Import Prelude BTree Transport.
Local Open Scope string_scope.
Local Open Scope Z_scope.

Definition PAIRING_SERVICE_NAME : string := "rackio-pairing-v1".

Inductive PairingMdnsError := NoDirectAddress | Start (message : string).

(** What is announced: a service, a label and the addresses of each port. *)
Record PairingMdnsAdvertisement := {
  service : string;
  label : string;
  addresses_by_port : list (Z * list IpAddr);
}.

(** [entry(port).or_default().push(ip)]. *)
Definition push_address (m : list (Z * list IpAddr)) (a : SocketAddr) : list (Z * list IpAddr) :=
  bt_insert (sock_port a) (default [] (bt_get (sock_port a) m) ++ [ip a])%list m.

Definition group_addresses (l : list SocketAddr) : list (Z * list IpAddr) :=
  fold_left push_address l [].

Record PairingMdnsState := {
  generation : Z;
  active : option PairingMdnsAdvertisement;
}.

Definition mdns_default : PairingMdnsState := {| generation := 0; active := None |}.

Section Mdns.
Context (spawn : PairingMdnsAdvertisement -> result unit string).

Definition start (z32 : string) (addrs : list SocketAddr)
  : result PairingMdnsAdvertisement PairingMdnsError :=
  match group_addresses addrs with
  | [] => Err NoDirectAddress
  | table =>
      let adv := {| service := PAIRING_SERVICE_NAME; label := z32; addresses_by_port := table |} in
      let? _ := map_err Start (spawn adv) in Ok adv
  end.

Definition next_generation (s : PairingMdnsState) : Z := sat_add u64_max (generation s) 1.

Definition mdns_open (z32 : string) (addrs : list SocketAddr) (s : PairingMdnsState)
  : PairingMdnsState * result Z PairingMdnsError :=
  let g := next_generation s in
  match start z32 addrs with
  | Ok adv => ({| generation := g; active := Some adv |}, Ok g)
  | Err e => ({| generation := g; active := None |}, Err e)
  end.

Definition mdns_close (s : PairingMdnsState) : PairingMdnsState :=
  {| generation := next_generation s; active := None |}.

Definition close_if_generation (g : Z) (s : PairingMdnsState) : PairingMdnsState * bool :=
  if generation s =? g then ({| generation := next_generation s; active := None |}, true)
  else (s, false).

(** ** The state machine *)

Inductive MdnsOp := Open (z32 : string) (addrs : list SocketAddr) | Close | Expire (g : Z).

Definition mdns_step (s : PairingMdnsState) (op : MdnsOp) : PairingMdnsState :=
  match op with
  | Open z32 addrs => fst (mdns_open z32 addrs s)
  | Close => mdns_close s
  | Expire g => fst (close_if_generation g s)
  end.

(** An operation that always opens a new generation. *)
Definition bumps (op : MdnsOp) : bool := match op with Expire _ => false | _ => true end.

Lemma mdns_step_generation s op :
  0 <= generation s < u64_max ->
  generation s <= generation (mdns_step s op) <= generation s + 1 /\
  (bumps op = true -> generation (mdns_step s op) = generation s + 1).
Proof.
  intros H. assert (Hn : next_generation s = generation s + 1)
    by (unfold next_generation; width_lia).
  destruct op as [z32 addrs| |g]; simpl.
  - unfold mdns_open. destruct (start z32 addrs); simpl; lia.
  - lia.
  - unfold close_if_generation. destruct (_ =? g); simpl; split; lia || done.
Qed.

Lemma mdns_run_generation ops s :
  0 <= generation s -> generation s + Z.of_nat (length ops) < u64_max ->
  generation s <= generation (fold_left mdns_step ops s) /\
  (existsb bumps ops = true -> generation s < generation (fold_left mdns_step ops s)).
Proof.
  revert s. induction ops as [|op ops IH]; intros s H0 Hmax; simpl; [split; [lia|done]|].
  cbn [length] in Hmax.
  destruct (mdns_step_generation s op ltac:(lia)) as [[H1 H2] H3].
  destruct (IH (mdns_step s op) ltac:(lia) ltac:(lia)) as [I1 I2].
  split; [lia|]. destruct (bumps op); simpl; intros Hb; [specialize (H3 eq_refl); lia|].
  specialize (I2 Hb). lia.
Qed.

Lemma group_addresses_get l p :
  bt_get p (group_addresses l) =
    match List.filter (fun a => sock_port a =? p) l with
    | [] => None
    | k => Some (map ip k)
    end.
Proof.
  unfold group_addresses. induction l as [|a l IH] using rev_ind; [done|].
  rewrite fold_left_app, filter_app. simpl. unfold push_address at 1.
  destruct (Z.eqb_spec (sock_port a) p) as [<-|Hne].
  - rewrite bt_get_insert_eq, IH. simpl.
    destruct (List.filter _ l) as [|b k]; simpl; [done|]. by rewrite map_app.
  - rewrite bt_get_insert_ne by done. rewrite IH, app_nil_r. done.
Qed.

(** The advertisement's expiry timer is harmless once the operator has moved on: a timer
    set for one opening closes it while it is current, but after any later opening or
    closing it finds another generation and leaves whatever is running alone. *)
Theorem stale_expiry_is_harmless z32 addrs s s1 g ops :
  0 <= generation s -> generation s + 1 + Z.of_nat (length ops) < u64_max ->
  mdns_open z32 addrs s = (s1, Ok g) ->
  active (fst (close_if_generation g s1)) = None /\ snd (close_if_generation g s1) = true /\
  (existsb bumps ops = true ->
   close_if_generation g (fold_left mdns_step ops s1) = (fold_left mdns_step ops s1, false)).
Proof.
  intros H0 Hmax. unfold mdns_open. destruct (start z32 addrs) as [adv|]; [|done].
  intros [= <- <-]. assert (Hn : next_generation s = generation s + 1)
    by (unfold next_generation; width_lia).
  unfold close_if_generation at 1 2. cbn [generation]. rewrite Z.eqb_refl.
  split; [done|]. split; [done|]. intros Hb.
  destruct (mdns_run_generation ops {| generation := next_generation s; active := Some adv |}
              ltac:(cbn [generation]; lia) ltac:(cbn [generation]; lia)) as [_ Hgt].
  specialize (Hgt Hb). cbn [generation] in Hgt. unfold close_if_generation.
  rewrite (proj2 (Z.eqb_neq _ _)); [done|]. lia.
Qed.

(** The advertisement announces each direct address under its port, and nothing else. *)
Lemma start_announces_addresses z32 addrs adv :
  start z32 addrs = Ok adv ->
  label adv = z32 /\
  (forall p i, (exists l, bt_get p (addresses_by_port adv) = Some l /\ In i l) <->
     exists a, In a addrs /\ sock_port a = p /\ ip a = i).
Proof.
  unfold start. destruct (group_addresses addrs) as [|e t] eqn:G; [done|].
  destruct (spawn _) as [[]|]; [simpl|done]. intros [= <-]. split; [done|]. cbn [addresses_by_port].
  intros p i. rewrite <- G, group_addresses_get. split.
  - intros (l & E & Hi). destruct (List.filter (fun a => sock_port a =? p) addrs) as [|b k] eqn:F; [done|].
    injection E as <-. change (In i (map ip (b :: k))) in Hi. rewrite <- F in Hi.
    apply in_map_iff in Hi as (a & <- & Ha). apply filter_In in Ha as [? ?%Z.eqb_eq]. eauto.
  - intros (a & Ha & Hp & <-).
    assert (Hin : In a (List.filter (fun a => sock_port a =? p) addrs))
      by (apply filter_In; split; [done|by apply Z.eqb_eq]).
    destruct (List.filter (fun b => sock_port b =? p) addrs) as [|b k]; [done|].
    eexists. split; [reflexivity|]. by apply in_map.
Qed.

End Mdns.

Lemma stale_expiry_is_harmless_witness :
  let spawn := fun _ => Ok tt in
  let '(s1, _) := mdns_open spawn "id" [SockV4 1 2] mdns_default in
  close_if_generation 1 (fold_left (mdns_step spawn) [Open "id" [SockV4 1 2]] s1)
    = (fold_left (mdns_step spawn) [Open "id" [SockV4 1 2]] s1, false).
Proof.
  refine (proj2 (proj2 (stale_expiry_is_harmless (fun _ => Ok tt) "id" [SockV4 1 2] mdns_default
    _ 1 [Open "id" [SockV4 1 2]] _ _ _)) _).
  - simpl. lia.
  - by vm_compute.
  - reflexivity.
  - reflexivity.
Defined.
