(* ===== verification/Identity.v ===== *)
(** The device identity file: [crates/rackio-iroh/src/identity.rs].

    A secret key is its 32 bytes. The key file is what [fs::read] would give; another daemon
    may create it at any point before this one publishes its own ([rival]). The fallible
    file operations of [create_secret_key] are counted by [fault]. *)

From S2P Require Import Prelude.
Local Open Scope Z_scope.

Inductive IdentityError := Io | InvalidLength (n : nat).

(** What reading the key file gives. *)
Inductive KeyFile := Absent | Bytes (b : list Z) | Unreadable.

Definition SecretKey : Type := list Z.

Definition read_secret_key (f : KeyFile) : result (option SecretKey) IdentityError :=
  match f with
  | Bytes b => if (length b =? 32)%nat then Ok (Some b) else Err (InvalidLength (length b))
  | Absent => Ok None
  | Unreadable => Err Io
  end.

Section Create.
(** Whether the [n]-th file operation fails, the freshly generated key, and what another
    process does to the file before the key is published. *)
Context (fault : nat -> bool) (fresh : SecretKey) (rival : KeyFile -> KeyFile).

(** [persist_noclobber]: never replaces an existing file. *)
Definition persist_noclobber (f : KeyFile) : KeyFile * bool :=
  match f with
  | Absent => if fault 6 then (Absent, false) else (Bytes fresh, true)
  | f => (f, false)
  end.

(** Create the directory (narrowing one it created itself), write a temporary file, and
    publish it; a loser of the race adopts the key it finds. *)
Definition create_secret_key (parent_exists : bool) (f : KeyFile)
  : KeyFile * result SecretKey IdentityError :=
  if fault 0 then (f, Err Io)
  else if negb parent_exists && fault 1 then (f, Err Io)
  else if fault 2 then (f, Err Io)
  else if fault 3 then (f, Err Io)
  else if fault 4 then (f, Err Io)
  else if fault 5 then (f, Err Io)
  else
    match persist_noclobber (rival f) with
    | (f', true) => (f', Ok fresh)
    | (f', false) =>
        match read_secret_key f' with
        | Err e => (f', Err e)
        | Ok (Some existing) => (f', Ok existing)
        | Ok None => (f', Err Io)
        end
    end.

Definition load_or_create_secret_key (parent_exists : bool) (f : KeyFile)
  : KeyFile * result SecretKey IdentityError :=
  match read_secret_key f with
  | Err e => (f, Err e)
  | Ok (Some secret) => (f, Ok secret)
  | Ok None => create_secret_key parent_exists f
  end.

(** C40: A device has one identity. A key on disk is returned as it is and the file left
    alone; a key is generated only when there is no file, never when the file is unreadable
    or malformed; whatever another process publishes in the meantime is adopted, not
    overwritten; and a key that was returned is the one on disk, so the next start returns
    the same key. *)
Theorem identity_is_stable (parent_exists : bool) (f : KeyFile) :
  length fresh = 32%nat ->
  let '(f', r) := load_or_create_secret_key parent_exists f in
  (f <> Absent -> f' = f) /\
  (rival f <> Absent -> f' = f \/ f' = rival f) /\
  (forall key, r = Ok key -> read_secret_key f' = Ok (Some key) /\
     (key <> fresh -> f = Bytes key \/ rival f = Bytes key)) /\
  (forall e, r = Err e -> f' = f \/ f' = rival f).
Proof.
  intros Hl. unfold load_or_create_secret_key.
  destruct (read_secret_key f) as [[key|]|e] eqn:E.
  - split; [done|]. split; [by left|]. split; [|by left]. intros k [= <-]. split; [done|].
    intros _. left. destruct f; simpl in E; [done| |done]. destruct (length b =? 32)%nat; by simplify_eq.
  - assert (f = Absent) as ->.
    { destruct f; [done| |done]. simpl in E. by destruct (length b =? 32)%nat. }
    unfold create_secret_key.
    destruct (fault 0%nat), (negb parent_exists && fault 1%nat), (fault 2%nat), (fault 3%nat),
      (fault 4%nat), (fault 5%nat); try (split_and!; [done|by left|done|by left]).
    unfold persist_noclobber. destruct (rival Absent) as [|b|] eqn:R.
    + destruct (fault 6%nat); simpl.
      * split_and!; [done|done|done|by left].
      * split_and!; [done|done| |done]. intros k [= <-]. by rewrite Hl.
    + simpl. destruct (Nat.eqb_spec (length b) 32).
      * split_and!; [done|auto| |auto]. intros k [= <-]. split; [|auto]. simpl.
        by rewrite (proj2 (Nat.eqb_eq _ _) e).
      * split_and!; [done|auto|done|auto].
    + simpl. split_and!; [done|auto|done|auto].
  - split_and!; [done|by left|done|by left].
Qed.

End Create.

Lemma identity_is_stable_witness :
  let '(f', r) := load_or_create_secret_key (fun _ => false) (replicate 32 1)
                    (fun _ => Bytes (replicate 32 2)) true Absent in
  r = Ok (replicate 32 2) /\ read_secret_key f' = Ok (Some (replicate 32 2)).
Proof.
  pose proof (identity_is_stable (fun _ => false) (replicate 32 1)
    (fun _ => Bytes (replicate 32 2)) true Absent eq_refl) as (_ & _ & H & _).
  split; [reflexivity|]. apply (H (replicate 32 2)). reflexivity.
Defined.
