(* ===== verification/Server.v ===== *)
(** The remote server: [crates/rackio-iroh/src/server.rs].

    A request is served in a state monad over the node's runtime and the responses written
    to its stream. The stream may fail at any write ([send_fails]); the database and the
    registry's file fail as in [Storage] and [Pairing]. While a history answer is streamed
    the store's lock is released between pages, so other tasks may change the store: that is
    the parameter [others]. *)

From S2P Require Import Prelude BTree Model Storage Wire Framing Transport Persist Pairing Mdns.
Local Open Scope string_scope.
Local Open Scope Z_scope.

Definition HISTORY_PAGE_SIZE : Z := 256.
Definition REQUEST_HEADER_TIMEOUT_SECS : Z := 30.

Inductive ServerError :=
  | SConnection
  | SConnecting
  | SStream (e : FrameError)
  | SStreamClosed
  | SPairing (e : PairingError)
  | SStore (e : StoreError)
  | PairingStateUnavailable
  | ActiveConnectionStateUnavailable
  | RequestHeaderTimeout.

Record Connection := { remote_id : EndpointId; stable_id : Z }.

Section Server.
Context {J : Type} {SC : SampleCodec J} (db_fault : nat -> bool).
Context {ET : EndpointText} {B64 : Base64} {RJ : JsonCodec Records anything} (fs_fault : nat -> bool).
Context (uuid_text : Uuid -> string).
Context (send_fails : list ResponseBody -> ResponseBody -> option FrameError).

(** [NodeRuntime]; a poisoned lock is a flag beside the value it guards. Closed connections
    are recorded in order. *)
Record NodeRuntime := {
  info : NodeInfo;
  health : HealthSnapshot;
  latest : option MetricSample;
  trend : TrendWindow;
  store : MetricStore (J := J);
  pairing : PairingManager;
  pairing_poisoned : bool;
  pairing_mdns : PairingMdnsState;
  peers : PeerRegistry;
  active_connections : list (string * list (Z * Connection));
  active_poisoned : bool;
  closed : list Connection;
}.

Definition with_store (s : MetricStore) (n : NodeRuntime) : NodeRuntime :=
  {| info := info n; health := health n; latest := latest n; trend := trend n; store := s;
     pairing := pairing n; pairing_poisoned := pairing_poisoned n;
     pairing_mdns := pairing_mdns n; peers := peers n;
     active_connections := active_connections n; active_poisoned := active_poisoned n;
     closed := closed n |}.

Definition with_pairing (p : PairingManager) (m : PairingMdnsState) (n : NodeRuntime)
  : NodeRuntime :=
  {| info := info n; health := health n; latest := latest n; trend := trend n; store := store n;
     pairing := p; pairing_poisoned := pairing_poisoned n; pairing_mdns := m; peers := peers n;
     active_connections := active_connections n; active_poisoned := active_poisoned n;
     closed := closed n |}.

Definition with_peers (p : PeerRegistry) (n : NodeRuntime) : NodeRuntime :=
  {| info := info n; health := health n; latest := latest n; trend := trend n; store := store n;
     pairing := pairing n; pairing_poisoned := pairing_poisoned n;
     pairing_mdns := pairing_mdns n; peers := p;
     active_connections := active_connections n; active_poisoned := active_poisoned n;
     closed := closed n |}.

Definition with_connections (a : list (string * list (Z * Connection))) (c : list Connection)
  (n : NodeRuntime) : NodeRuntime :=
  {| info := info n; health := health n; latest := latest n; trend := trend n; store := store n;
     pairing := pairing n; pairing_poisoned := pairing_poisoned n;
     pairing_mdns := pairing_mdns n; peers := peers n;
     active_connections := a; active_poisoned := active_poisoned n; closed := c |}.

(** ** Connections *)

Definition revoke_peer (id : string) (n : NodeRuntime) : NodeRuntime * result bool ServerError :=
  match revoke fs_fault id (peers n) with
  | (p, Err e) => (with_peers p n, Err (SPairing e))
  | (p, Ok false) => (with_peers p n, Ok false)
  | (p, Ok true) =>
      let n := with_peers p n in
      if active_poisoned n then (n, Err ActiveConnectionStateUnavailable)
      else
        let connections := default [] (bt_get id (active_connections n)) in
        (with_connections (bt_remove id (active_connections n))
           (closed n ++ bt_values connections)%list n, Ok true)
  end.

Definition register_connection (c : Connection) (n : NodeRuntime)
  : NodeRuntime * result unit ServerError :=
  if active_poisoned n then (n, Err ActiveConnectionStateUnavailable)
  else
    let id := id_text (remote_id c) in
    let inner := default [] (bt_get id (active_connections n)) in
    (with_connections (bt_insert id (bt_insert (stable_id c) c inner) (active_connections n))
       (closed n) n, Ok tt).

Definition unregister_connection (c : Connection) (n : NodeRuntime) : NodeRuntime :=
  if active_poisoned n then n
  else
    let id := id_text (remote_id c) in
    match bt_get id (active_connections n) with
    | None => n
    | Some inner =>
        let inner := bt_remove (stable_id c) inner in
        let active := match inner with
                      | [] => bt_remove id (active_connections n)
                      | _ => bt_insert id inner (active_connections n)
                      end in
        with_connections active (closed n) n
    end.

(** ** The request monad *)

Record St := { rt : NodeRuntime; sent : list ResponseBody }.

Definition H (A : Type) : Type := St -> St * result A ServerError.

Definition hret {A} (a : A) : H A := fun s => (s, Ok a).
Definition herr {A} (e : ServerError) : H A := fun s => (s, Err e).
Definition hbind {A B} (m : H A) (k : A -> H B) : H B := fun s =>
  match m s with (s1, Ok a) => k a s1 | (s1, Err e) => (s1, Err e) end.
Notation "'on' x := m 'in' k" := (hbind m (fun x => k))
  (at level 10, x pattern, m at level 100, k at level 200).

Definition hget : H NodeRuntime := fun s => (s, Ok (rt s)).
Definition hput (n : NodeRuntime) : H unit := fun s => ({| rt := n; sent := sent s |}, Ok tt).

Definition write_response (body : ResponseBody) : H unit := fun s =>
  match send_fails (sent s) body with
  | Some e => (s, Err (SStream e))
  | None => ({| rt := rt s; sent := (sent s ++ [body])%list |}, Ok tt)
  end.

Definition write_error (code message : string) : H unit := write_response (RError code message).

Definition require_permission (allowed : bool) (permission : string) : H bool :=
  if allowed then hret true
  else
    on _ := write_error "permission_denied"
              ("peer does not have " +:+ permission +:+ " permission") in
    hret false.

Definition version_is_compatible (version : ProtocolVersion) : H bool :=
  if compatible version then hret true
  else
    on _ := write_error "incompatible" "protocol major version is incompatible" in
    hret false.

(** Permission first, then version; both have already answered when they refuse. *)
Definition admitted (allowed : bool) (permission : string) (version : ProtocolVersion) : H bool :=
  on ok := require_permission allowed permission in
  if (ok : bool) then version_is_compatible version else hret false.

(** ** Pairing requests *)

Definition handle_pair (now_verify now_paired : Z) (remote local : EndpointId)
  (pair : PairRequest) : H unit :=
  if negb (String.eqb (viewer_endpoint_id pair) (id_text remote)) then
    write_error "identity_mismatch" "claimed viewer identity does not match the QUIC peer"
  else
    on n := hget in
    if pairing_poisoned n then herr PairingStateUnavailable
    else
      let '(window, verified) :=
        verify_and_consume_at now_verify remote (one_time_secret pair) (pairing n) in
      let mdns := if is_open window then pairing_mdns n else mdns_close (pairing_mdns n) in
      on _ := hput (with_pairing window mdns n) in
      match verified with
      | Err _ => write_error "pairing_rejected" "pairing request was rejected"
      | Ok _ =>
          on n := hget in
          match authorize_preserving fs_fault remote now_paired (peers n) with
          | (p, Err e) => on _ := hput (with_peers p n) in herr (SPairing e)
          | (p, Ok _) =>
              on _ := hput (with_peers p n) in
              write_response (RPair {| accepted := true; p_node_id := uuid_text (node_id (info n));
                                       p_endpoint_id := id_text local |})
          end
      end.

(** ** Connection path: a bounded wait for path selection *)

Fixpoint settle_loop (tries : nat) (looks : nat -> Transport.ConnectionDetails) (n : nat)
  (details : Transport.ConnectionDetails) : Transport.ConnectionDetails :=
  match tries with
  | O => details
  | S tries =>
      if decide (path details = UnknownPath)
      then settle_loop tries looks (S n) (looks n) else details
  end.

(** [looks n] is what the [n]-th look at the connection finds. *)
Definition settle (looks : nat -> Transport.ConnectionDetails) : Transport.ConnectionDetails :=
  settle_loop 10 looks 1 (looks 0%nat).

(** ** History *)

Fixpoint write_samples (samples : list MetricSample) : H unit :=
  match samples with
  | [] => hret tt
  | s :: rest =>
      on _ := write_response (RMetricSample (ToWire.metric_sample s)) in write_samples rest
  end.

Definition run_query (others : MetricStore -> MetricStore) (from_ms to_ms : Z)
  (resolution : HistoryResolution) : H (list MetricSample) := fun s =>
  let st := others (store (rt s)) in
  match query_page db_fault from_ms to_ms resolution HISTORY_PAGE_SIZE st with
  | (st', Ok page) => ({| rt := with_store st' (rt s); sent := sent s |}, Ok page)
  | (st', Err e) => ({| rt := with_store st' (rt s); sent := sent s |}, Err (SStore e))
  end.

(** [None] is running out of fuel. *)
Fixpoint history_pages (fuel : nat) (others : nat -> MetricStore -> MetricStore)
  (cursor_ms to_ms : Z) (resolution : HistoryResolution) : H (option unit) :=
  match fuel with
  | O => hret None
  | S fuel =>
      on samples := run_query (others fuel) cursor_ms to_ms resolution in
      match head (rev samples) with
      | None => hret (Some tt)
      | Some last_sample =>
          on _ := write_samples samples in
          let next := i64_sat_add (timestamp_ms last_sample) 1 in
          if next <=? cursor_ms then hret (Some tt)
          else history_pages fuel others next to_ms resolution
      end
  end.

(** The cursor advances by at least a millisecond per page and stops past the range. *)
Definition history_fuel (from_ms to_ms : Z) : nat := Z.to_nat (to_ms - from_ms + 2).

Definition resolution_of (z : Z) : option HistoryResolution :=
  if z =? 1 then Some Raw else if z =? 2 then Some Minute else None.

Definition handle_history (others : nat -> MetricStore -> MetricStore) (p : PeerPermissions)
  (query : HistoryQuery) : H (option unit) :=
  on ok := require_permission (read_history p) "read_history" in
  if negb ok then hret (Some tt)
  else match q_protocol query with
  | None =>
      on _ := write_error "invalid_request" "history protocol version is required" in
      hret (Some tt)
  | Some version =>
      on ok := version_is_compatible version in
      if negb ok then hret (Some tt)
      else if q_to_ms query <? q_from_ms query then
        on _ := write_error "invalid_range" "history range is reversed" in hret (Some tt)
      else match resolution_of (q_resolution query) with
      | None =>
          on _ := write_error "invalid_resolution" "history resolution is required" in
          hret (Some tt)
      | Some resolution =>
          on done := history_pages (history_fuel (q_from_ms query) (q_to_ms query)) others
                       (q_from_ms query) (q_to_ms query) resolution in
          match done with
          | None => hret None
          | Some _ => on _ := write_response RStreamComplete in hret (Some tt)
          end
      end
  end.

(** ** Live metrics *)

(** What wakes the stream: the sampler publishing, the sampler going away, or the heartbeat timer;
    and what [latest.borrow()] finds in the channel when the arm runs.  A sample published while
    the previous response was being written is found by whichever arm runs next. *)
Inductive WatchEvent :=
  | Changed (latest : option MetricSample)
  | SenderGone
  | Heartbeat (now_ms : Z) (latest : option MetricSample).

Fixpoint watch_loop (events : list WatchEvent) : H unit :=
  match events with
  | [] => hret tt
  | SenderGone :: _ => hret tt
  | Changed latest :: rest =>
      on _ := match latest with
              | Some s => write_response (RMetricSample (ToWire.metric_sample s))
              | None => hret tt
              end in
      watch_loop rest
  | Heartbeat now latest :: rest =>
      on _ := write_response (RHeartbeat now (match latest with Some s => sequence s | None => 0 end)) in
      watch_loop rest
  end.

Definition watch_metrics (events : list WatchEvent) : H unit :=
  on n := hget in
  on _ := match latest n with
          | Some s => write_response (RMetricSample (ToWire.metric_sample s))
          | None => hret tt
          end in
  watch_loop events.

(** ** Requests *)

(** What the environment of one request provides. *)
Record Env := {
  now_verify : Z;
  now_paired : Z;
  looks : nat -> Transport.ConnectionDetails;
  events : list WatchEvent;
  others : nat -> MetricStore (J := J) -> MetricStore (J := J);
}.

Definition handle_authorized (env : Env) (local : EndpointId) (body : RequestBody)
  (p : PeerPermissions) : H (option unit) :=
  match body with
  | GetNodeInfo version =>
      on ok := admitted (read_metrics p) "read_metrics" version in
      if (ok : bool) then
        on n := hget in
        on _ := write_response (RNodeInfo (ToWire.node_info uuid_text id_text (info n) local)) in
        hret (Some tt)
      else hret (Some tt)
  | GetHealth version =>
      on ok := admitted (read_metrics p) "read_metrics" version in
      if (ok : bool) then
        on n := hget in
        on _ := write_response (RHealth (ToWire.health (health n))) in hret (Some tt)
      else hret (Some tt)
  | GetConnectionPath version =>
      on ok := admitted (read_metrics p) "read_metrics" version in
      if (ok : bool) then
        let details := settle (looks env) in
        on _ := write_response (RConnectionPath
                  (ToWire.connection_details (path details) (rtt_ms details))) in
        hret (Some tt)
      else hret (Some tt)
  | WatchMetrics version =>
      on ok := admitted (read_metrics p) "read_metrics" version in
      if (ok : bool) then on _ := watch_metrics (events env) in hret (Some tt)
      else hret (Some tt)
  | QueryHistory query => handle_history (others env) p query
  | Pair _ => hret (Some tt)   (* unreachable: [handle_request] takes pair requests first *)
  end.

Definition handle_request (env : Env) (remote local : EndpointId) (request : Request)
  : H (option unit) :=
  match request with
  | None =>
      on _ := write_error "invalid_request" "request body is required" in hret (Some tt)
  | Some (Pair p) =>
      on _ := handle_pair (now_verify env) (now_paired env) remote local p in hret (Some tt)
  | Some body =>
      on n := hget in
      match permissions remote (peers n) with
      | Err e => herr (SPairing e)
      | Ok None => on _ := write_error "auth_error" "peer is not authorized" in hret (Some tt)
      | Ok (Some p) => handle_authorized env local body p
      end
  end.

(** One stream: the request must arrive in time. *)
Inductive HeaderRead := TimedOut | ReadFailed (e : FrameError) | Got (r : Request).

Definition serve_stream (env : Env) (remote local : EndpointId) (header : HeaderRead)
  : H (option unit) :=
  match header with
  | TimedOut => herr RequestHeaderTimeout
  | ReadFailed e => herr (SStream e)
  | Got request => handle_request env remote local request
  end.

(** ** Connections: accepting streams until the peer closes or is lost *)

Inductive ConnectionEvent :=
  | StreamOpened (env : Env) (header : HeaderRead)
  | ApplicationClosed
  | ConnectionLost.

(** The streams of a connection, each with the responses it sends; what goes wrong in one of
    them is only logged. A list that ends is a connection that is still open. *)
Fixpoint handle_connection (remote local : EndpointId) (evs : list ConnectionEvent)
  (n : NodeRuntime) : NodeRuntime * result unit ServerError :=
  match evs with
  | [] => (n, Ok tt)
  | StreamOpened env header :: rest =>
      handle_connection remote local rest
        (rt (fst (serve_stream env remote local header {| rt := n; sent := [] |})))
  | ApplicationClosed :: _ => (n, Ok tt)
  | ConnectionLost :: _ => (n, Err SConnection)
  end.

(** What [RemoteServer::run] does with an accepted connection. *)
Definition run_connection (local : EndpointId) (c : Connection) (evs : list ConnectionEvent)
  (n : NodeRuntime) : NodeRuntime * result unit ServerError :=
  match register_connection c n with
  | (n, Err e) => (n, Err e)
  | (n, Ok _) =>
      let '(n, r) := handle_connection (remote_id c) local evs n in
      (unregister_connection c n, r)
  end.

(** ** Lemmas: what a computation may write and change *)

(** Every response [m] writes satisfies [P], and it changes the runtime only within [K]. *)
Definition writes_only {A} (P : ResponseBody -> Prop) (K : NodeRuntime -> NodeRuntime -> Prop)
  (m : H A) : Prop :=
  forall s, exists new, sent (fst (m s)) = (sent s ++ new)%list /\ Forall P new /\
                        K (rt s) (rt (fst (m s))).

Section WritesOnly.
Context (P : ResponseBody -> Prop) (K : NodeRuntime -> NodeRuntime -> Prop) `{!PreOrder K}.

Lemma writes_ret {A} (a : A) : writes_only P K (hret a).
Proof. intros s. exists []. by rewrite app_nil_r. Qed.

Lemma writes_err {A} e : writes_only P K (herr (A := A) e).
Proof. intros s. exists []. by rewrite app_nil_r. Qed.

Lemma writes_get : writes_only P K hget.
Proof. intros s. exists []. by rewrite app_nil_r. Qed.

(** The continuation matters only for the values [m] can return. *)
Lemma writes_bind_returned {A B} (m : H A) (k : A -> H B) :
  writes_only P K m -> (forall a, (exists s s1, m s = (s1, Ok a)) -> writes_only P K (k a)) ->
  writes_only P K (hbind m k).
Proof.
  intros Hm Hk s. unfold hbind. destruct (Hm s) as (n1 & E1 & F1 & K1).
  destruct (m s) as [s1 [a|e]] eqn:Em; simpl in *; [|eauto].
  destruct (Hk a ltac:(eauto) s1) as (n2 & E2 & F2 & K2). exists (n1 ++ n2)%list.
  rewrite E2, E1, app_assoc. split; [done|]. split; [by apply Forall_app|]. by etransitivity.
Qed.

Lemma writes_bind {A B} (m : H A) (k : A -> H B) :
  writes_only P K m -> (forall a, writes_only P K (k a)) -> writes_only P K (hbind m k).
Proof. intros Hm Hk. apply writes_bind_returned; auto. Qed.

Lemma writes_response body : P body -> writes_only P K (write_response body).
Proof.
  intros Hp s. unfold write_response. destruct (send_fails (sent s) body); simpl.
  - exists []. by rewrite app_nil_r.
  - exists [body]. repeat constructor; done.
Qed.

Lemma writes_put (n : NodeRuntime) s :
  K (rt s) n -> exists new, sent (fst (hput n s)) = (sent s ++ new)%list /\ Forall P new /\
                            K (rt s) (rt (fst (hput n s))).
Proof. intros Hk. exists []. by rewrite app_nil_r. Qed.

Lemma writes_samples samples :
  (forall s, P (RMetricSample s)) -> writes_only P K (write_samples samples).
Proof.
  intros Hp. induction samples as [|x l IH]; cbn [write_samples]; [apply writes_ret|].
  apply writes_bind; [by apply writes_response|done].
Qed.

End WritesOnly.

Create HintDb server.
#[local] Hint Extern 1 (PreOrder _) => apply _ : server.
#[local] Hint Resolve writes_ret writes_err writes_get writes_bind writes_response writes_samples : server.

(** A response that carries the machine's data. *)
Definition is_data (b : ResponseBody) : bool :=
  match b with RError _ _ | RPair _ => false | _ => true end.

Definition no_data (b : ResponseBody) : Prop := is_data b = false.

(** The table of connections stays. *)
Definition same_connections (n n' : NodeRuntime) : Prop :=
  active_connections n' = active_connections n /\ active_poisoned n' = active_poisoned n /\
  closed n' = closed n.

#[local] Instance same_connections_preorder : PreOrder same_connections.
Proof.
  split; [done|]. intros a b c (H1 & H2 & H3) (H4 & H5 & H6).
  unfold same_connections. by rewrite H4, H5, H6.
Qed.

(** The authorizations and the table of connections stay. *)
Definition same_peers (n n' : NodeRuntime) : Prop :=
  peers n' = peers n /\ same_connections n n'.

#[local] Instance same_peers_preorder : PreOrder same_peers.
Proof.
  split; [done|]. intros a b c [H1 H2] [H3 H4]. split; [congruence|]. by etransitivity.
Qed.

Definition any_output (n n' : NodeRuntime) : Prop := True.

#[local] Instance anything_preorder : PreOrder any_output.
Proof. split; done. Qed.

Lemma require_permission_writes P K `{!PreOrder K} allowed name :
  (forall c m, P (RError c m)) -> writes_only P K (require_permission allowed name).
Proof. intros Hp. unfold require_permission, write_error. destruct allowed; auto with server. Qed.

Lemma version_writes P K `{!PreOrder K} v :
  (forall c m, P (RError c m)) -> writes_only P K (version_is_compatible v).
Proof. intros Hp. unfold version_is_compatible, write_error. destruct (compatible v); auto with server. Qed.

Lemma admitted_writes P K `{!PreOrder K} allowed name v :
  (forall c m, P (RError c m)) -> writes_only P K (admitted allowed name v).
Proof.
  intros Hp. unfold admitted. apply writes_bind; [done|by apply require_permission_writes|].
  intros []; [by apply version_writes|auto with server].
Qed.

#[local] Hint Resolve require_permission_writes version_writes admitted_writes : server.

(** A history query changes the store only. *)
Definition store_free (K : NodeRuntime -> NodeRuntime -> Prop) : Prop := forall n st, K n (with_store st n).

Lemma run_query_writes P K f from to res :
  store_free K -> writes_only P K (run_query f from to res).
Proof.
  intros Hk s. exists []. unfold run_query.
  destruct (query_page db_fault from to res HISTORY_PAGE_SIZE _) as [st' [l|e]]; simpl;
    by rewrite app_nil_r.
Qed.

Lemma history_pages_writes P K `{!PreOrder K} fuel f from to res :
  store_free K -> (forall s, P (RMetricSample s)) -> writes_only P K (history_pages fuel f from to res).
Proof.
  intros Hk Hp. revert from. induction fuel as [|fuel IH]; intros from; cbn [history_pages];
    [auto with server|].
  apply writes_bind; [done|by apply run_query_writes|]. intros samples.
  destruct (head (rev samples)); [|auto with server].
  apply writes_bind; [done|by apply writes_samples|]. intros _.
  destruct (_ <=? from); [auto with server|apply IH].
Qed.

Lemma watch_loop_writes P K `{!PreOrder K} evs :
  (forall s, P (RMetricSample s)) -> (forall t n, P (RHeartbeat t n)) ->
  writes_only P K (watch_loop evs).
Proof.
  intros H1 H2. induction evs as [|[o| |now o] evs IH]; cbn [watch_loop];
    auto with server.
  apply writes_bind; [done| |auto]. destruct o; auto with server.
Qed.

Definition everything (b : ResponseBody) : Prop := True.

(** The permission and the protocol version a request needs. *)
Definition allowed (p : PeerPermissions) (body : RequestBody) : bool :=
  match body with QueryHistory _ => read_history p | Pair _ => false | _ => read_metrics p end.

Definition version_ok (body : RequestBody) : bool :=
  match body with
  | GetNodeInfo v | WatchMetrics v | GetHealth v | GetConnectionPath v => compatible v
  | QueryHistory q => match q_protocol q with Some v => compatible v | None => false end
  | Pair _ => false
  end.

Lemma require_permission_true a name s s1 :
  require_permission a name s = (s1, Ok true) -> a = true /\ s1 = s.
Proof.
  unfold require_permission. destruct a; [by intros [= ->]|].
  unfold hbind, write_error, write_response. by destruct (send_fails _ _).
Qed.

Lemma version_true v s s1 : version_is_compatible v s = (s1, Ok true) -> compatible v = true /\ s1 = s.
Proof.
  unfold version_is_compatible. destruct (compatible v); [by intros [= ->]|].
  unfold hbind, write_error, write_response. by destruct (send_fails _ _).
Qed.

Lemma admitted_true a name v s s1 :
  admitted a name v s = (s1, Ok true) -> a = true /\ compatible v = true /\ s1 = s.
Proof.
  unfold admitted, hbind. destruct (require_permission a name s) as [s2 [[]|e]] eqn:E; [|done|done].
  apply require_permission_true in E as [-> ->]. intros [-> ->]%version_true. done.
Qed.

(** A request behind [admitted] writes what its body writes, or an error. *)
Lemma admitted_guard {A} P K `{!PreOrder K} a name v (k l : H A) :
  (forall c m, P (RError c m)) -> writes_only P K l ->
  (a = true -> compatible v = true -> writes_only P K k) ->
  writes_only P K (hbind (admitted a name v) (fun ok => if ok : bool then k else l)).
Proof.
  intros Hp Hl Hk. apply writes_bind_returned; [done|by apply admitted_writes|].
  intros [] (s & s1 & E); [|done]. apply admitted_true in E as (? & ? & _). auto.
Qed.

Lemma watch_metrics_writes P K `{!PreOrder K} evs :
  (forall s, P (RMetricSample s)) -> (forall t n, P (RHeartbeat t n)) ->
  writes_only P K (watch_metrics evs).
Proof.
  intros H1 H2. unfold watch_metrics. apply writes_bind; [done|by apply writes_get|]. intros n.
  apply writes_bind; [done| |intros; by apply watch_loop_writes]. destruct (latest n); auto with server.
Qed.

Lemma handle_history_writes P K `{!PreOrder K} f p q :
  store_free K -> (forall c m, P (RError c m)) ->
  (read_history p = true -> version_ok (QueryHistory q) = true ->
   (forall s, P (RMetricSample s)) /\ P RStreamComplete) ->
  writes_only P K (handle_history f p q).
Proof.
  intros Hk He Hd. unfold handle_history.
  apply writes_bind_returned; [done|auto with server|].
  intros [] (s & s1 & E); [|by apply writes_ret]. apply require_permission_true in E as [Ea _].
  cbn [negb]. cbn [version_ok] in Hd. destruct (q_protocol q) as [v|].
  2: { unfold write_error. apply writes_bind; auto with server. }
  apply writes_bind_returned; [done|auto with server|].
  intros [] (s2 & s3 & E); [|by apply writes_ret]. apply version_true in E as [Ev _].
  destruct (Hd Ea Ev) as [Hs Hc]. cbn [negb]. unfold write_error.
  destruct (_ <? _); [apply writes_bind; auto with server|].
  destruct (resolution_of _); [|apply writes_bind; auto with server].
  apply writes_bind; [done|by apply history_pages_writes|]. intros [|]; [|auto with server].
  apply writes_bind; auto with server.
Qed.

Lemma handle_authorized_writes P K `{!PreOrder K} env local body p :
  store_free K -> (forall c m, P (RError c m)) ->
  (allowed p body = true -> version_ok body = true -> forall b, P b) ->
  writes_only P K (handle_authorized env local body p).
Proof.
  intros Hk He Hd. destruct body as [v|v|q|v|v|pr]; cbn [handle_authorized allowed version_ok] in *;
    try (apply admitted_guard; [done|done|auto with server|]; intros Ha Hv;
         specialize (Hd Ha Hv)).
  - apply writes_bind; auto with server.
  - apply writes_bind; [done|apply watch_metrics_writes; auto with server|auto with server].
  - apply handle_history_writes; [done|done|done|]. intros Ha Hv. specialize (Hd Ha Hv). auto.
  - apply writes_bind; auto with server.
  - apply writes_bind; auto with server.
  - auto with server.
Qed.

Lemma same_peers_store_free : store_free same_peers.
Proof. done. Qed.
#[local] Hint Resolve same_peers_store_free : server.

Lemma handle_pair_writes t1 t2 remote local pr :
  writes_only no_data any_output (handle_pair t1 t2 remote local pr).
Proof.
  assert (Hput : forall n, writes_only no_data any_output (hput n))
    by (intros n s; by apply writes_put).
  unfold handle_pair, write_error. destruct (negb _); [apply writes_response; done|].
  apply writes_bind; auto with server. intros n. destruct (pairing_poisoned n); auto with server.
  destruct (verify_and_consume_at _ _ _ _) as [w [[]|e]].
  - apply writes_bind; auto with server. intros _. apply writes_bind; auto with server. intros n'.
    destruct (authorize_preserving _ _ _ _) as [q [perm|e]]; apply writes_bind; auto with server.
    intros _. apply writes_response; done.
  - apply writes_bind; auto with server. intros _. apply writes_response; done.
Qed.

(** What a pair request does to the authorizations. *)
Lemma handle_pair_peers t1 t2 remote local pr s id :
  permissions id (peers (rt (fst (handle_pair t1 t2 remote local pr s)))) <>
    permissions id (peers (rt s)) ->
  id = remote /\ viewer_endpoint_id pr = id_text remote /\
  pairing (rt (fst (handle_pair t1 t2 remote local pr s))) = None /\
  verify_and_consume_at t1 remote (one_time_secret pr) (pairing (rt s)) = (None, Ok tt).
Proof.
  unfold handle_pair, write_error, write_response.
  destruct (String.eqb_spec (viewer_endpoint_id pr) (id_text remote)) as [Ev|]; simpl.
  2: { by destruct (send_fails _ _). }
  unfold hbind, hget. destruct (pairing_poisoned (rt s)); [done|].
  destruct (verify_and_consume_at t1 remote (one_time_secret pr) (pairing (rt s)))
    as [w [[]|e]] eqn:V; simpl.
  2: { by destruct (send_fails _ _). }
  pose proof (verify_Ok _ _ _ _ _ V) as [-> _].
  pose proof (authorize_preserving_cases fs_fault remote t2 (peers (rt s))) as A.
  destruct (authorize_preserving fs_fault remote t2 (peers (rt s))) as [q [perm|e]] eqn:Q; simpl.
  - assert (Hq : permissions id q <> permissions id (peers (rt s)) -> id = remote).
    { intros Hne. destruct (Z.eq_dec id remote) as [|Hid]; [done|].
      exfalso. apply Hne. by apply A. }
    destruct (send_fails _ _); simpl; auto.
  - destruct A as [A1 A2]. intros Hne. exfalso. apply Hne. unfold permissions.
    pose proof (authorize_preserving_poisoned fs_fault remote t2 (peers (rt s))) as Hp.
    rewrite Q in Hp. simpl in Hp. by rewrite Hp, A1.
Qed.

(** Every body is a pair request or not. *)
Lemma pair_or_not body : (exists pr, body = Pair pr) \/ (forall pr, body <> Pair pr).
Proof. destruct body; try (by right); left; eauto. Qed.

Lemma handle_request_body env remote local body :
  (forall pr, body <> Pair pr) ->
  handle_request env remote local (Some body) =
    (on n := hget in
     match permissions remote (peers n) with
     | Err e => herr (SPairing e)
     | Ok None => on _ := write_error "auth_error" "peer is not authorized" in hret (Some tt)
     | Ok (Some p) => handle_authorized env local body p
     end).
Proof. intros Hb. destruct body; try done. by destruct (Hb p). Qed.

Lemma handle_request_keeps_access env remote local body s :
  (forall pr, body <> Pair pr) ->
  same_peers (rt s) (rt (fst (handle_request env remote local (Some body) s))).
Proof.
  intros Hb. assert (W : writes_only everything same_peers
    (on n := hget in
     match permissions remote (peers n) with
     | Err e => herr (SPairing e)
     | Ok None => on _ := write_error "auth_error" "peer is not authorized" in hret (Some tt)
     | Ok (Some p) => handle_authorized env local body p
     end)).
  { apply writes_bind; auto with server. intros n. unfold write_error.
    destruct (permissions remote (peers n)) as [[p|]|e].
    - by apply (handle_authorized_writes everything same_peers).
    - apply writes_bind; auto with server. by apply (writes_response everything same_peers).
    - auto with server. }
  rewrite handle_request_body by done. by destruct (W s) as (new & _ & _ & E).
Qed.

Lemma handle_request_keeps_peers env remote local body s :
  (forall pr, body <> Pair pr) ->
  peers (rt (fst (handle_request env remote local (Some body) s))) = peers (rt s).
Proof. intros Hb. by apply handle_request_keeps_access. Qed.

Lemma handle_pair_connections t1 t2 remote local pr s :
  same_connections (rt s) (rt (fst (handle_pair t1 t2 remote local pr s))).
Proof.
  unfold handle_pair, write_error, write_response, hbind, hget. destruct (negb _); simpl.
  { by destruct (send_fails _ _). }
  destruct (pairing_poisoned (rt s)); [done|].
  destruct (verify_and_consume_at _ _ _ _) as [w [[]|e]]; simpl; [|by destruct (send_fails _ _)].
  destruct (authorize_preserving _ _ _ _) as [q [perm|e]]; simpl; [|done].
  by destruct (send_fails _ _).
Qed.

Lemma serve_stream_connections env remote local header s :
  same_connections (rt s) (rt (fst (serve_stream env remote local header s))).
Proof.
  destruct header as [|e|[body|]]; [done|done| |].
  - destruct (pair_or_not body) as [[pr ->]|Hb].
    + cbn [serve_stream handle_request]. unfold hbind.
      pose proof (handle_pair_connections (now_verify env) (now_paired env) remote local pr s) as H.
      by destruct (handle_pair _ _ _ _ pr s) as [s1 [[]|e]].
    + by apply handle_request_keeps_access.
  - cbn [serve_stream handle_request]. unfold hbind, write_error, write_response.
    by destruct (send_fails _ _).
Qed.

Lemma handle_connection_connections remote local evs n :
  same_connections n (fst (handle_connection remote local evs n)).
Proof.
  revert n. induction evs as [|[env header| |] evs IH]; intros n; try done. cbn [handle_connection].
  etransitivity; [|apply IH].
  exact (serve_stream_connections env remote local header {| rt := n; sent := [] |}).
Qed.

(** ** Lemmas: the table of connections *)

(** Sorted by peer and by connection, with no peer listed without a connection. *)
Definition table_ok (n : NodeRuntime) : Prop :=
  bt_sorted (active_connections n) /\
  forall id inner, bt_get id (active_connections n) = Some inner -> bt_sorted inner /\ inner <> [].

Definition connected (id : string) (sid : Z) (n : NodeRuntime) : option Connection :=
  bt_get id (active_connections n) ≫= bt_get sid.

Lemma table_ok_inner id n : table_ok n -> bt_sorted (default [] (bt_get id (active_connections n))).
Proof.
  intros [_ H]. destruct (bt_get id (active_connections n)) eqn:E; simpl; [by apply (H id)|constructor].
Qed.

Lemma register_table_ok c n : table_ok n -> table_ok (fst (register_connection c n)).
Proof.
  intros Ht. pose proof Ht as [Hs H]. unfold register_connection. destruct (active_poisoned n); [done|].
  split; simpl; [by apply bt_insert_sorted|]. intros id inner.
  destruct (decide (id_text (remote_id c) = id)) as [<-|Hne].
  - rewrite bt_get_insert_eq. intros [= <-]. split; [by apply bt_insert_sorted, table_ok_inner|].
    intros E. apply (f_equal (bt_get (stable_id c))) in E. by rewrite bt_get_insert_eq in E.
  - rewrite bt_get_insert_ne by done. apply H.
Qed.

Lemma unregister_table_ok c n : table_ok n -> table_ok (unregister_connection c n).
Proof.
  intros Ht. pose proof Ht as [Hs H]. unfold unregister_connection. destruct (active_poisoned n); [done|].
  destruct (bt_get (id_text (remote_id c)) (active_connections n)) as [inner|] eqn:E; [|done].
  destruct (H _ _ E) as [Hi _].
  destruct (bt_remove (stable_id c) inner) as [|e rest] eqn:R; split; simpl;
    auto using bt_remove_sorted, bt_insert_sorted; intros id x.
  - destruct (decide (id_text (remote_id c) = id)) as [<-|Hne]; [by rewrite bt_get_remove_eq|].
    rewrite bt_get_remove_ne by done. apply H.
  - destruct (decide (id_text (remote_id c) = id)) as [<-|Hne].
    + rewrite bt_get_insert_eq. intros [= <-]. rewrite <- R. split; [by apply bt_remove_sorted|by rewrite R].
    + rewrite bt_get_insert_ne by done. apply H.
Qed.

Lemma unregister_connected c n id sid :
  table_ok n -> active_poisoned n = false ->
  connected id sid (unregister_connection c n) =
    if bool_decide (id = id_text (remote_id c) /\ sid = stable_id c) then None
    else connected id sid n.
Proof.
  intros [Hs H] Hp. unfold unregister_connection, connected. rewrite Hp.
  destruct (bt_get (id_text (remote_id c)) (active_connections n)) as [inner|] eqn:E.
  2: { case_bool_decide as B; [|done]. destruct B as [-> ->]. by rewrite E. }
  destruct (H _ _ E) as [Hi _].
  assert (Hin : forall k, bt_get k (bt_remove (stable_id c) inner) =
                  if bool_decide (k = stable_id c) then None else bt_get k inner).
  { intros k. case_bool_decide as B; [subst; by apply bt_get_remove_eq|].
    apply bt_get_remove_ne. congruence. }
  destruct (decide (id = id_text (remote_id c))) as [->|Hne].
  - rewrite E. simpl. destruct (bt_remove (stable_id c) inner) as [|e rest] eqn:R; simpl.
    + rewrite bt_get_remove_eq by done. simpl. specialize (Hin sid). simpl in Hin.
      do 2 case_bool_decide; intuition congruence.
    + rewrite bt_get_insert_eq. specialize (Hin sid).
      transitivity (bt_get sid (e :: rest)); [reflexivity|]. rewrite Hin. do 2 case_bool_decide; intuition congruence.
  - rewrite bool_decide_eq_false_2 by tauto.
    destruct (bt_remove (stable_id c) inner); simpl;
      [rewrite bt_get_remove_ne by congruence|rewrite bt_get_insert_ne by congruence]; done.
Qed.

Lemma register_connected c n id sid :
  active_poisoned n = false ->
  connected id sid (fst (register_connection c n)) =
    if bool_decide (id = id_text (remote_id c) /\ sid = stable_id c) then Some c
    else connected id sid n.
Proof.
  intros Hp. unfold register_connection, connected. rewrite Hp. simpl.
  destruct (decide (id = id_text (remote_id c))) as [->|Hne].
  - rewrite bt_get_insert_eq. simpl. destruct (decide (sid = stable_id c)) as [->|Hs].
    + by rewrite bt_get_insert_eq, bool_decide_eq_true_2.
    + rewrite bt_get_insert_ne by congruence. rewrite bool_decide_eq_false_2 by tauto.
      by destruct (bt_get _ (active_connections n)).
  - rewrite bt_get_insert_ne by congruence. by rewrite bool_decide_eq_false_2 by tauto.
Qed.

(** A viewer that left is forgotten: whatever its streams asked for and however the connection
    ended, afterwards it is not in the table of connections, every other connection is listed
    as before, and the table keeps its shape. *)
Theorem departed_connection_is_forgotten local c evs n :
  table_ok n -> active_poisoned n = false ->
  let n' := fst (run_connection local c evs n) in
  table_ok n' /\
  forall id sid, connected id sid n' =
    if bool_decide (id = id_text (remote_id c) /\ sid = stable_id c) then None
    else connected id sid n.
Proof.
  intros Ht Hp. unfold run_connection.
  pose proof (register_table_ok c n Ht) as Ht1.
  pose proof (fun id sid => register_connected c n id sid Hp) as Hc.
  assert (Hp1 : active_poisoned (fst (register_connection c n)) = false /\
                snd (register_connection c n) = Ok tt)
    by (unfold register_connection; by rewrite Hp).
  destruct (register_connection c n) as [n1 r]. destruct Hp1 as [Hp1 Hr]. simpl in *. subst r.
  pose proof (handle_connection_connections (remote_id c) local evs n1) as (K1 & K2 & K3).
  destruct (handle_connection (remote_id c) local evs n1) as [n2 r]. simpl in *.
  assert (Ht2 : table_ok n2) by (unfold table_ok; by rewrite K1).
  split; [by apply unregister_table_ok|]. intros id sid.
  rewrite unregister_connected by (done || congruence). case_bool_decide as B; [done|].
  unfold connected at 1. rewrite K1. specialize (Hc id sid).
  rewrite bool_decide_eq_false_2 in Hc by done. exact Hc.
Qed.

(** ** Properties: authorization *)

(** C7: No data without permission: whatever request a peer sends and whatever fails while
    it is served, node information, samples, health, connection path, heartbeats and history
    are written only if the registry holds that QUIC peer at the time of the request with
    the permission that kind of request needs, and the request's protocol version is
    compatible. Everyone else gets errors only. *)
Theorem data_needs_permission env remote local request s :
  let '(s', _) := handle_request env remote local request s in
  exists new, sent s' = (sent s ++ new)%list /\
    (existsb is_data new = true ->
     exists body p, request = Some body /\
       permissions remote (peers (rt s)) = Ok (Some p) /\
       allowed p body = true /\ version_ok body = true).
Proof.
  assert (Hnd : forall new, Forall no_data new -> existsb is_data new = true -> False).
  { intros new F (b & Hb & E)%existsb_exists. rewrite Forall_forall in F.
    specialize (F b Hb). unfold no_data in F. congruence. }
  assert (Hw : forall m : H (option unit), writes_only no_data any_output m ->
    exists new, sent (fst (m s)) = (sent s ++ new)%list /\ Forall no_data new).
  { intros m W. destruct (W s) as (new & ? & ? & _). eauto. }
  assert (Herr : forall c m, no_data (RError c m)) by done.
  destruct (handle_request env remote local request s) as [s' r] eqn:E.
  change s' with (fst (s', r)). rewrite <- E. clear E s' r.
  destruct request as [body|].
  2: { destruct (Hw (handle_request env remote local None)) as (new & En & F).
       { unfold handle_request, write_error. auto with server. }
       exists new. split; [exact En|]. intros Hx. by destruct (Hnd new F Hx). }
  destruct (pair_or_not body) as [[pr ->]|Hnp].
  { destruct (Hw (handle_request env remote local (Some (Pair pr)))) as (new & En & F).
    { cbn [handle_request]. apply writes_bind; auto using handle_pair_writes with server. }
    exists new. split; [exact En|]. intros Hx. by destruct (Hnd new F Hx). }
  rewrite (handle_request_body env remote local body Hnp).
  unfold hbind, hget. destruct (permissions remote (peers (rt s))) as [[p|]|e] eqn:Ep.
  - destruct (allowed p body && version_ok body) eqn:A.
    + apply andb_true_iff in A as [A1 A2].
      destruct (handle_authorized_writes everything same_peers env local body p same_peers_store_free
                  ltac:(done) ltac:(done) s)
        as (new & En & _ & _).
      exists new. split; [exact En|]. eauto 7.
    + destruct (handle_authorized_writes no_data same_peers env local body p same_peers_store_free Herr) with (s := s)
        as (new & En & F & _).
      { intros A1 A2. by rewrite A1, A2 in A. }
      exists new. split; [exact En|]. intros Hx. by destruct (Hnd new F Hx).
  - destruct (Hw (on _ := write_error "auth_error" "peer is not authorized" in hret (Some tt)))
      as (new & En & F); [unfold write_error; auto with server|].
    exists new. split; [exact En|]. intros Hx. by destruct (Hnd new F Hx).
  - exists []. simpl. by rewrite app_nil_r.
Qed.

(** C8: Only the holder of the secret becomes authorized, and only as itself: if serving a
    request changes any peer's permissions, the request was a pair request, that peer is the
    authenticated QUIC peer that sent it, the identity it claimed is its own, its secret was
    accepted by the open window, and the window is closed afterwards. *)
Theorem only_secret_holder_is_authorized env remote local request s id :
  permissions id (peers (rt (fst (handle_request env remote local request s)))) <>
    permissions id (peers (rt s)) ->
  id = remote /\
  exists pr, request = Some (Pair pr) /\ viewer_endpoint_id pr = id_text remote /\
    verify_and_consume_at (now_verify env) remote (one_time_secret pr) (pairing (rt s))
      = (None, Ok tt) /\
    pairing (rt (fst (handle_request env remote local request s))) = None.
Proof.
  destruct request as [body|].
  2: { unfold handle_request, hbind, write_error, write_response. by destruct (send_fails _ _). }
  destruct (pair_or_not body) as [[pr ->]|Hnp].
  - cbn [handle_request]. unfold hbind.
    pose proof (handle_pair_peers (now_verify env) (now_paired env) remote local pr s id) as P.
    destruct (handle_pair (now_verify env) (now_paired env) remote local pr s) as [s1 [[]|e]];
      simpl in *; intros Hne; destruct (P Hne) as (-> & ? & ? & ?); eauto 7.
  - rewrite (handle_request_keeps_peers env remote local body s Hnp). done.
Qed.

(** A revoked peer is cut off: when revocation succeeds its record is gone, its
    connections have all been closed and forgotten, the connections of other peers are
    untouched, and every later request of that peer that is not a new pairing is answered
    with an authorization error and nothing else. *)
Theorem revoked_peer_is_cut_off (peer : EndpointId) (n n' : NodeRuntime) env local body s' :
  bt_sorted (records (peers n)) -> bt_sorted (active_connections n) ->
  revoke_peer (id_text peer) n = (n', Ok true) ->
  bt_get (id_text peer) (active_connections n') = None /\
  (forall other, other <> id_text peer ->
     bt_get other (active_connections n') = bt_get other (active_connections n)) /\
  closed n' = (closed n ++ bt_values (default [] (bt_get (id_text peer) (active_connections n))))%list /\
  ((forall pr, body <> Pair pr) -> rt s' = n' -> poisoned (peers n') = false ->
   forall r, fst (handle_request env peer local (Some body) s') = r ->
   sent r = sent s' \/ sent r = (sent s' ++ [RError "auth_error" "peer is not authorized"])%list).
Proof.
  intros Hs Ha. unfold revoke_peer.
  pose proof (revoke_cases fs_fault (id_text peer) (peers n) Hs) as R.
  destruct (revoke fs_fault (id_text peer) (peers n)) as [q [[]|e]]; [|done|done].
  destruct R as (_ & Hgone & _). cbn [active_poisoned with_peers].
  destruct (active_poisoned n); [done|]. intros [= <-].
  split; [by apply bt_get_remove_eq|]. split; [intros other Hne; by apply bt_get_remove_ne|].
  split; [done|]. intros Hnp Hrt Hp r <-.
  rewrite handle_request_body by done. unfold hbind, hget, permissions. rewrite Hrt, Hp.
  cbn [with_connections with_peers peers]. rewrite Hgone. simpl.
  unfold write_error, write_response. destruct (send_fails _ _); auto.
Qed.

(** ** Lemmas: history *)

Lemma select_page_past_end {V} from to limit (table : list (Z * V)) :
  to < from -> select_page from to limit table = [].
Proof.
  intros Hlt. unfold select_page.
  assert (F : List.filter (fun e => between from to (fst e)) table = []).
  { apply filter_existsb, not_true_is_false. intros ([k v] & _ & Hb)%existsb_exists.
    unfold between in Hb. simpl in Hb. bool_to_prop. lia. }
  rewrite F. apply take_nil.
Qed.

Lemma run_query_past_end f from to res s page s1 :
  to < from -> run_query f from to res s = (s1, Ok page) -> page = [].
Proof.
  intros Hlt. unfold run_query, query_page.
  destruct res; unfold query_raw, query_minute, Storage.mbind, statement;
    destruct (db_fault _); try done; simpl; rewrite select_page_past_end by done; simpl; congruence.
Qed.

Lemma history_pages_terminate fuel f from to res s :
  (1 <= fuel)%nat -> to - from + 2 <= Z.of_nat fuel ->
  snd (history_pages fuel f from to res s) <> Ok None.
Proof.
  revert from s. induction fuel as [|fuel IH]; intros from s H1 H2; [lia|].
  cbn [history_pages]. unfold hbind at 1.
  destruct (run_query (f fuel) from to res s) as [s1 [page|e]] eqn:Q; [|done].
  destruct (Z.ltb_spec to from) as [Hlt|Hge].
  { apply run_query_past_end in Q as ->; [|done]. done. }
  destruct (head (rev page)) as [l|]; [|done].
  unfold hbind. destruct (write_samples page s1) as [s2 [[]|e]]; [|done].
  destruct (Z.leb_spec (i64_sat_add (timestamp_ms l) 1) from); [done|].
  apply IH; lia.
Qed.

Definition as_responses (l : list MetricSample) : list ResponseBody :=
  (fun x => RMetricSample (ToWire.metric_sample x)) <$> l.

(** The stream takes this sample whenever it is sent. *)
Definition takes (x : MetricSample) : Prop :=
  forall h, send_fails h (RMetricSample (ToWire.metric_sample x)) = None.

Lemma write_samples_all l s :
  Forall takes l ->
  write_samples l s = ({| rt := rt s; sent := (sent s ++ as_responses l)%list |}, Ok tt).
Proof.
  intros Hf. revert s. induction Hf as [|x l Hx Hl IH]; intros s; cbn [write_samples].
  - unfold hret. destruct s; simpl. by rewrite app_nil_r.
  - unfold hbind, write_response. rewrite (Hx (sent s)), IH. simpl. by rewrite <- app_assoc.
Qed.

(** The rows of a table from a cursor on. *)
Definition rows_from {V} (table : list (Z * V)) (to from : Z) : list (Z * V) :=
  List.filter (fun e => between from to (fst e)) table.

Lemma filter_none {A} (f : A -> bool) l : (forall x, In x l -> f x = false) -> List.filter f l = [].
Proof. intros Hf. induction l as [|x l IH]; simpl; [done|]. rewrite Hf by (by left). apply IH. auto using in_cons. Qed.

Lemma filter_all {A} (f : A -> bool) l : (forall x, In x l -> f x = true) -> List.filter f l = l.
Proof.
  intros Hf. induction l as [|x l IH]; simpl; [done|]. rewrite Hf by (by left). f_equal.
  apply IH. auto using in_cons.
Qed.

Lemma rows_from_later {V} (table : list (Z * V)) to from t :
  from <= t -> rows_from table to t = List.filter (fun e => t <=? fst e) (rows_from table to from).
Proof.
  intros Hle. unfold rows_from. induction table as [|e l IH]; simpl; [done|].
  assert (E : between t to (fst e) = between from to (fst e) && (t <=? fst e)).
  { unfold between. destruct (Z.leb_spec from (fst e)), (Z.leb_spec (fst e) to),
      (Z.leb_spec t (fst e)); simpl; done || lia. }
  rewrite E. destruct (between from to (fst e)); simpl; [|done].
  destruct (t <=? fst e); simpl; by rewrite IH.
Qed.

(** Past the last row of a page, what remains is the rest of the range. *)
Lemma rows_from_next {V} (table : list (Z * V)) to from n page t v :
  bt_sorted table -> take n (rows_from table to from) = (page ++ [(t, v)])%list ->
  from <= t <= to /\ rows_from table to (t + 1) = drop n (rows_from table to from).
Proof.
  intros Hs Ht. set (R := rows_from table to from) in *.
  assert (Hr : from <= t <= to).
  { assert (Hin : In (t, v) R)
      by (apply (in_take n); rewrite Ht; apply in_or_app; right; by left).
    apply filter_In in Hin as [_ Hb]. unfold between in Hb. simpl in Hb. bool_to_prop. lia. }
  split; [done|]. rewrite (rows_from_later table to from (t + 1)) by lia. fold R.
  pose proof (bt_filter_sorted (fun e => between from to (fst e)) table Hs) as HR.
  change (StronglySorted bt_entry_lt R) in HR. rewrite <- (take_drop n R) in HR.
  rewrite Ht in HR.
  rewrite <- (take_drop n R) at 1. rewrite Ht, filter_app, filter_none, filter_all; [done| |].
  - intros e He. assert (Hlt : bt_entry_lt (t, v) e).
    { eapply sorted_app_cross; [exact HR| |exact He]. apply in_or_app. right. by left. }
    apply Z.leb_le. apply (proj1 (Z.compare_lt_iff t (fst e))) in Hlt. lia.
  - intros e [He|[<-|[]]]%in_app_or; [|apply Z.leb_gt; simpl; lia].
    assert (Hlt : bt_entry_lt e (t, v)).
    { rewrite <- app_assoc in HR. eapply sorted_app_cross; [exact HR|exact He|]. by left. }
    apply Z.leb_gt. apply (proj1 (Z.compare_lt_iff (fst e) t)) in Hlt. lia.
Qed.

Lemma bt_sorted_keys {V} (l : list (Z * V)) :
  bt_sorted l -> StronglySorted (fun a b => fst a < fst b) l.
Proof.
  induction 1 as [|e l _ IH Ha]; constructor; [done|].
  eapply Forall_impl; [|exact Ha]. intros a. apply Z.compare_lt_iff.
Qed.

Lemma Forall2_last {A B} (Q : A -> B -> Prop) l k y :
  Forall2 Q l (k ++ [y])%list -> exists l' x, l = (l' ++ [x])%list /\ Q x y.
Proof.
  intros (l' & r & _ & F & ->)%Forall2_app_inv_r.
  inversion F as [|x ? ? ? Hx Hnil]; subst. inversion Hnil; subst. eauto.
Qed.

Section Complete.
Context (log : list MetricSample) (T : Tables (J := J)).
Context (Hlog : consistent log T) (Hfin : Forall (fun x => sample_finite x = true) log).
Context (Hdb : forall n, db_fault n = false).

Lemma rows_from_samples to from :
  exists answer, collect_results (fun e => parse_json (snd e))
                   (rows_from (metric_samples T) to from) = Ok answer /\
    timestamp_ms <$> answer = fst <$> rows_from (metric_samples T) to from /\
    Forall2 (fun e x => In x log /\ to_json x = Some (snd e))
      (rows_from (metric_samples T) to from) answer.
Proof.
  apply collect_rows; [done|]. intros ts j [Hin _]%filter_In. by eapply raw_row_logged.
Qed.

Lemma row_key k j x :
  In (k, j) (metric_samples T) -> parse_json j = Ok x -> timestamp_ms x = k.
Proof.
  intros Hin Hp. destruct (raw_row_logged log T k j Hlog Hin) as (y & Hy & <- & Ej).
  rewrite Forall_forall in Hfin. rewrite (parse_written y j (Hfin y Hy) Ej) in Hp. congruence.
Qed.

(** One page of the unchanged store. *)
Lemma run_query_page to from s page :
  tables (store (rt s)) = T ->
  collect_results (fun e => parse_json (snd e))
    (take 256 (rows_from (metric_samples T) to from)) = Ok page ->
  exists s1, run_query (fun st => st) from to Raw s = (s1, Ok page) /\
    sent s1 = sent s /\ tables (store (rt s1)) = T.
Proof.
  intros Ht E. unfold run_query, query_page, query_raw, Storage.mbind, statement.
  rewrite Hdb, Ht. cbn [snd fst].
  change (select_page from to HISTORY_PAGE_SIZE (metric_samples T))
    with (take 256 (rows_from (metric_samples T) to from)).
  rewrite E. eexists. split; [reflexivity|]. done.
Qed.

Lemma history_pages_complete fuel to from s answer :
  (1 <= fuel)%nat -> to - from + 2 <= Z.of_nat fuel -> i64_min <= from -> to < i64_max ->
  tables (store (rt s)) = T ->
  collect_results (fun e => parse_json (snd e)) (rows_from (metric_samples T) to from) = Ok answer ->
  Forall takes answer ->
  exists s', history_pages fuel (fun _ st => st) from to Raw s = (s', Ok (Some tt)) /\
    sent s' = (sent s ++ as_responses answer)%list.
Proof.
  revert from s answer. induction fuel as [|fuel IH]; intros from s answer H1 H2 Hmin Hmax Ht Ha Hsend; [lia|].
  set (R := rows_from (metric_samples T) to from) in *.
  assert (Ha' := Ha). rewrite <- (take_drop 256 R) in Ha'.
  apply collect_results_app in Ha' as (page & rest & Hp & Hr & ->).
  apply Forall_app in Hsend as [Hsp Hsr].
  destruct (run_query_page to from s page Ht Hp) as (s1 & Q & Hs1 & Ht1).
  cbn [history_pages]. unfold hbind at 1. rewrite Q.
  destruct page as [|x page _] using rev_ind.
  { apply collect_results_Ok in Hp. apply Forall2_nil_inv_r in Hp.
    assert (R = []) as HR by (destruct R; [done|discriminate Hp]).
    rewrite HR in Hr. simpl in Hr. injection Hr as <-. simpl. exists s1.
    split; [done|]. by rewrite app_nil_r. }
  rewrite rev_app_distr. cbn [rev app head]. unfold hbind.
  rewrite (write_samples_all _ s1 Hsp).
  assert (exists rs j, take 256 R = (rs ++ [(timestamp_ms x, j)])%list) as (rs & j & HR).
  { apply collect_results_Ok, Forall2_last in Hp as (rs & [k j] & HR & Hk).
    exists rs, j. rewrite HR. do 3 f_equal. symmetry. apply (row_key _ j); [|done].
    assert (Hin : In (k, j) R) by (apply (in_take 256); rewrite HR; apply in_or_app; right; by left).
    by apply filter_In in Hin as [? _]. }
  destruct (rows_from_next _ to from 256 rs _ j (con_raw_sorted _ _ Hlog) HR) as [Hb Hnext].
  assert (En : i64_sat_add (timestamp_ms x) 1 = timestamp_ms x + 1) by width_lia.
  rewrite En, (proj2 (Z.leb_gt _ _)) by lia.
  destruct (IH (timestamp_ms x + 1)
              {| rt := rt s1; sent := (sent s1 ++ as_responses (page ++ [x]))%list |} rest)
    as (s' & E' & Hs'); [lia|lia|lia|done|done| |done|].
  { rewrite Hnext. exact Hr. }
  exists s'. split; [exact E'|]. rewrite Hs'. cbn [sent]. rewrite Hs1.
  unfold as_responses. by rewrite !fmap_app, <- !app_assoc.
Qed.

End Complete.

(** ** Properties: history *)

(** C23: A history request is always answered: however other tasks change the store between
    pages, and whatever fails, paging stops. *)
Theorem history_terminates others p query s :
  snd (handle_history others p query s) <> Ok None.
Proof.
  unfold handle_history, write_error. unfold hbind at 1.
  destruct (require_permission _ _ s) as [s1 [[]|e]]; cbn [negb]; try done.
  destruct (q_protocol query) as [v|].
  2: { unfold hbind. by destruct (write_response _ s1) as [s2 [[]|e]]. }
  unfold hbind at 1. destruct (version_is_compatible v s1) as [s2 [[]|e]]; cbn [negb]; try done.
  destruct (Z.ltb_spec (q_to_ms query) (q_from_ms query)).
  { unfold hbind. by destruct (write_response _ s2) as [s3 [[]|e]]. }
  destruct (resolution_of (q_resolution query)) as [res|].
  2: { unfold hbind. by destruct (write_response _ s2) as [s3 [[]|e]]. }
  unfold hbind. pose proof (history_pages_terminate
    (history_fuel (q_from_ms query) (q_to_ms query)) others (q_from_ms query) (q_to_ms query) res s2
    ltac:(unfold history_fuel; lia) ltac:(unfold history_fuel; lia)) as T.
  destruct (history_pages _ _ _ _ _ s2) as [s3 [[[]|]|e]]; try done.
  by destruct (write_response _ s3) as [s4 [[]|e]].
Qed.

Lemma history_answered log p query s :
  (forall n, db_fault n = false) -> Forall takes log -> (forall h, send_fails h RStreamComplete = None) ->
  consistent log (tables (store (rt s))) -> Forall (fun x => sample_finite x = true) log ->
  read_history p = true -> version_ok (QueryHistory query) = true -> q_resolution query = 1 ->
  i64_min <= q_from_ms query <= q_to_ms query -> q_to_ms query < i64_max ->
  exists answer s', handle_history (fun _ st => st) p query s = (s', Ok (Some tt)) /\
    sent s' = (sent s ++ as_responses answer ++ [RStreamComplete])%list /\
    StronglySorted Z.lt (timestamp_ms <$> answer) /\
    (forall x, In x answer <->
       In x log /\ q_from_ms query <= timestamp_ms x <= q_to_ms query).
Proof.
  intros Hdb Hsend Hdone Hlog Hfin Hp Hv Hr Hrange Hmax.
  set (T := tables (store (rt s))) in *. set (from := q_from_ms query) in *.
  set (to := q_to_ms query) in *.
  destruct (rows_from_samples log T Hlog Hfin to from) as (answer & Ea & Hts & F2).
  destruct (history_pages_complete log T Hlog Hfin Hdb (history_fuel from to) to from s answer)
    as (s1 & E1 & Hs1); try (unfold history_fuel; lia); try done.
  { apply List.Forall_forall. intros x Hx. destruct (Forall2_In_l _ _ _ x (Forall2_flip F2) Hx) as (e & _ & Hin & _).
    rewrite List.Forall_forall in Hsend. auto. }
  exists answer, {| rt := rt s1; sent := (sent s1 ++ [RStreamComplete])%list |}.
  split; [|split; [|split]].
  - unfold handle_history, require_permission. rewrite Hp. unfold hbind at 1, hret at 1. cbn [negb].
    cbn [version_ok] in Hv. destruct (q_protocol query) as [v|]; [|done].
    unfold version_is_compatible. rewrite Hv. unfold hbind at 1, hret at 1. cbn [negb].
    fold to from. rewrite (proj2 (Z.ltb_ge _ _)) by lia. rewrite Hr. cbn [resolution_of Z.eqb Pos.eqb].
    unfold hbind. rewrite E1. unfold write_response. by rewrite Hdone.
  - cbn [sent]. by rewrite Hs1, <- app_assoc.
  - rewrite Hts. apply sorted_fmap.
    by apply bt_sorted_keys, bt_filter_sorted, (con_raw_sorted _ _ Hlog).
  - intros x. split.
    + intros Hx. destruct (Forall2_In_l _ _ _ x (Forall2_flip F2) Hx) as ([k j] & He & Hin & Ej).
      split; [done|]. apply filter_In in He as [Hrow Hb].
      rewrite Forall_forall in Hfin.
      rewrite (row_key log T Hlog (proj2 (Forall_forall _ _) Hfin) k j x Hrow
                 (parse_written x j (Hfin x Hin) Ej)).
      unfold between in Hb. simpl in Hb. bool_to_prop. lia.
    + intros [Hin Hb]. destruct (logged_raw_row log T x Hlog Hin) as (j & Ej & Hrow).
      assert (He : In (timestamp_ms x, j) (rows_from (metric_samples T) to from)).
      { apply filter_In. split; [done|]. unfold between. simpl. lia. }
      destruct (Forall2_In_l _ _ _ _ F2 He) as (y & Hy & Hiny & Ejy). simpl in Ejy.
      rewrite Forall_forall in Hfin.
      pose proof (parse_written x j (Hfin x Hin) Ej). pose proof (parse_written y j (Hfin y Hiny) Ejy).
      congruence.
Qed.

(** C16: A history answer is complete: over a store that holds a log of finite samples and is
    left alone meanwhile, a raw query by a permitted peer with a valid range is answered with
    every logged sample of the inclusive range exactly once, in time order, followed by the
    completion marker, however many pages that takes. (The end of the range must be before
    the last representable millisecond.) *)
Theorem history_answer_is_complete log p query s :
  (forall n, db_fault n = false) -> (forall h b, send_fails h b = None) ->
  consistent log (tables (store (rt s))) -> Forall (fun x => sample_finite x = true) log ->
  read_history p = true -> version_ok (QueryHistory query) = true -> q_resolution query = 1 ->
  i64_min <= q_from_ms query <= q_to_ms query -> q_to_ms query < i64_max ->
  exists answer s', handle_history (fun _ st => st) p query s = (s', Ok (Some tt)) /\
    sent s' = (sent s ++ as_responses answer ++ [RStreamComplete])%list /\
    StronglySorted Z.lt (timestamp_ms <$> answer) /\
    (forall x, In x answer <->
       In x log /\ q_from_ms query <= timestamp_ms x <= q_to_ms query).
Proof.
  intros Hdb Hsend. apply history_answered; [done| |done]. apply List.Forall_forall. intros x _ h. apply Hsend.
Qed.

End Server.

(** ** Witnesses *)

Definition demo_info : NodeInfo :=
  {| node_id := 4; display_name := "box"; os := "linux"; architecture := "x86_64";
     agent_version := "1"; protocol := V1; capabilities := [] |}.

Definition demo_runtime (window : PairingManager) (registry : PeerRegistry) (t : MetricStore)
  : NodeRuntime (J := MetricSample) :=
  {| info := demo_info;
     health := {| state := Healthy; collector_degraded := false; storage_degraded := false;
                  remote_listener_degraded := false; details := [] |};
     latest := None; trend := []; store := t; pairing := window; pairing_poisoned := false;
     pairing_mdns := mdns_default; peers := registry;
     active_connections := [("111", [(7, {| remote_id := 3; stable_id := 7 |})])];
     active_poisoned := false; closed := [] |}.

Definition demo_env : Env (J := MetricSample) :=
  {| now_verify := 10; now_paired := 11;
     looks := fun _ => {| path := LanDirect; rtt_ms := 1 |}; events := [];
     others := fun _ st => st |}.

Definition never_fails : list ResponseBody -> ResponseBody -> option FrameError := fun _ _ => None.

Definition demo_pair : PairRequest :=
  {| one_time_secret := byte_text demo_secret; viewer_endpoint_id := "111" |}.

Definition pairing_st : St (J := MetricSample) :=
  {| rt := demo_runtime (Some demo_window) empty_registry filled; sent := [] |}.

Lemma only_secret_holder_is_authorized_witness :
  permissions 3 (peers (rt (fst (handle_request never never unary_text never_fails demo_env 3 8
                                   (Some (Pair demo_pair)) pairing_st)))) = Ok (Some default_permissions) /\
  exists pr, Some (Pair demo_pair) = Some (Pair pr) /\ viewer_endpoint_id pr = id_text 3.
Proof.
  assert (E : permissions 3 (peers (rt (fst (handle_request never never unary_text never_fails demo_env 3 8
                                   (Some (Pair demo_pair)) pairing_st)))) = Ok (Some default_permissions))
    by (vm_compute; reflexivity).
  split; [exact E|].
  destruct (only_secret_holder_is_authorized never never unary_text never_fails demo_env 3 8
              (Some (Pair demo_pair)) pairing_st 3) as (_ & pr & H1 & H2 & _).
  - rewrite E. vm_compute. congruence.
  - exists pr. split; [exact H1|exact H2].
Defined.

(** The registry and runtime after the pairing above. *)
Definition paired_runtime : NodeRuntime (J := MetricSample) :=
  demo_runtime None (fst (authorize_preserving never 3 11 empty_registry)) filled.

Lemma revoked_peer_is_cut_off_witness :
  let n' := fst (revoke_peer never "111" paired_runtime) in
  bt_get "111" (active_connections n') = None /\
  closed n' = [{| remote_id := 3; stable_id := 7 |}].
Proof.
  destruct (revoked_peer_is_cut_off never never unary_text never_fails 3 paired_runtime
    (fst (revoke_peer never "111" paired_runtime)) demo_env 8 (GetHealth V1)
    {| rt := fst (revoke_peer never "111" paired_runtime); sent := [] |}) as (H1 & _ & H2 & _).
  - vm_compute. repeat constructor.
  - vm_compute. repeat constructor.
  - vm_compute. reflexivity.
  - split; [exact H1|]. rewrite H2. vm_compute. reflexivity.
Defined.

Definition demo_query (to_ms : Z) : HistoryQuery :=
  {| q_from_ms := 0; q_to_ms := to_ms; q_resolution := 1; q_protocol := Some V1 |}.

Lemma history_answer_is_complete_witness :
  exists answer s', handle_history never never_fails (fun _ st => st) default_permissions
    (demo_query 100000) {| rt := paired_runtime; sent := [] |} = (s', Ok (Some tt)) /\
    sent s' = (as_responses answer ++ [RStreamComplete])%list.
Proof.
  destruct (history_answer_is_complete never never_fails two_samples default_permissions
    (demo_query 100000) {| rt := paired_runtime; sent := [] |}) as (answer & s' & H1 & H2 & _);
    try reflexivity; try exact two_samples_consistent.
  - repeat constructor.
  - vm_compute. split; congruence.
  - exists answer, s'. split; [exact H1|exact H2].
Defined.

(** At the last representable millisecond the cursor cannot advance past the sample, so the
    loop answers with it twice before it stops. *)
Definition last_ms_store : MetricStore (J := MetricSample) :=
  fst (insert_batch never [plain_sample i64_max 1] empty_store).

Lemma history_repeats_last_millisecond :
  sent (fst (history_pages never never_fails 3 (fun _ st => st) 0 i64_max Raw
               {| rt := demo_runtime None empty_registry last_ms_store; sent := [] |})) =
    as_responses [plain_sample i64_max 1; plain_sample i64_max 1].
Proof. vm_compute. reflexivity. Qed.

Lemma data_needs_permission_witness :
  existsb is_data (sent (fst (handle_request never never unary_text never_fails demo_env 3 8
    (Some (GetHealth V1)) {| rt := paired_runtime; sent := [] |}))) = true /\
  exists p, permissions 3 (peers paired_runtime) = Ok (Some p) /\ allowed p (GetHealth V1) = true.
Proof.
  assert (D : existsb is_data (sent (fst (handle_request never never unary_text never_fails demo_env 3 8
    (Some (GetHealth V1)) {| rt := paired_runtime; sent := [] |}))) = true) by (vm_compute; reflexivity).
  split; [exact D|].
  pose proof (data_needs_permission never never unary_text never_fails demo_env 3 8
                (Some (GetHealth V1)) {| rt := paired_runtime; sent := [] |}) as H.
  destruct (handle_request _ _ _ _ _ _ _ _ _) as [s' r]. destruct H as (new & E & H).
  cbn [fst] in D. rewrite E in D. destruct (H D) as (body & p & [= <-] & H1 & H2 & _).
  exists p. split; [exact H1|exact H2].
Defined.
