(* ===== verification/Sampling.v ===== *)
(** The sampling loop: [apps/agent/src/runtime/sampling.rs].

    One tick is a function of the sampler's state, the host readings of that moment, the
    alert rules then configured and the monotonic clock; the loop is the fold of its ticks.
    The runtime's health, trend, latest sample and store are part of the state. *)

From S2P Require Import Prelude BTree Float Model Alert Collector Storage.
Local Open Scope string_scope.
Local Open Scope Z_scope.

(** ** Health projection *)

Definition degraded_tokens (h : HealthSnapshot) : list string :=
  ((if collector_degraded h then ["collector_degraded"] else []) ++
   (if storage_degraded h then ["storage_degraded"] else []) ++
   (if remote_listener_degraded h then ["remote_listener_degraded"] else []))%list.

Definition project_health (h : HealthSnapshot) (severity : option NodeState)
  (alert_details : list string) : HealthSnapshot :=
  {| collector_degraded := collector_degraded h;
     storage_degraded := storage_degraded h;
     remote_listener_degraded := remote_listener_degraded h;
     details := (degraded_tokens h ++ alert_details)%list;
     state := if collector_degraded h || storage_degraded h || remote_listener_degraded h
              then Degraded else default Healthy severity |}.

Definition set_collector (b : bool) (h : HealthSnapshot) : HealthSnapshot :=
  {| state := state h; collector_degraded := b; storage_degraded := storage_degraded h;
     remote_listener_degraded := remote_listener_degraded h; details := details h |}.

Definition set_storage (b : bool) (h : HealthSnapshot) : HealthSnapshot :=
  {| state := state h; collector_degraded := collector_degraded h; storage_degraded := b;
     remote_listener_degraded := remote_listener_degraded h; details := details h |}.

Definition apply_health (errors : list CollectorError) (severity : option NodeState)
  (alert_details : list string) (h : HealthSnapshot) : HealthSnapshot :=
  project_health (set_collector (negb (is_empty errors)) h) severity alert_details.

Section Sampler.
Context {J : Type} {SC : SampleCodec J} (db_fault : nat -> bool).
Context (page_count page_size freelist_count : nat -> Tables (J := J) -> Z).

Record Sampler := {
  health : HealthSnapshot;
  latest : option MetricSample;
  trend : TrendWindow;
  store : MetricStore (J := J);
  collector : SystemCollector;
  alerts : AlertEvaluator;
  pending : list MetricSample;
  prune_counter : Z;
}.

Definition flush_pending (s : Sampler) : Sampler :=
  match pending s with
  | [] => s
  | batch =>
      let '(st, r) := insert_batch db_fault batch (store s) in
      {| health := health s; latest := latest s; trend := trend s; store := st;
         collector := collector s; alerts := alerts s;
         pending := if is_ok r then [] else batch; prune_counter := prune_counter s |}
  end.

(** Every fifth sample commits the batch; a failing disk drops it and shows as degraded. *)
Definition commit_batch (severity : option NodeState) (alert_details : list string)
  (batch : list MetricSample) (st : MetricStore) (h : HealthSnapshot)
  : MetricStore * HealthSnapshot * list MetricSample :=
  if (5 <=? length batch)%nat then
    match insert_batch db_fault batch st with
    | (st', Ok _) =>
        (st', if storage_degraded h
              then project_health (set_storage false h) severity alert_details else h, [])
    | (st', Err _) => (st', project_health (set_storage true h) severity alert_details, [])
    end
  else (st, h, batch).

(** Every 300th tick prunes. *)
Definition maybe_prune (now : Z) (severity : option NodeState) (alert_details : list string)
  (counter : Z) (st : MetricStore) (h : HealthSnapshot) : MetricStore * HealthSnapshot * Z :=
  let counter := sat_add u16_max counter 1 in
  if 300 <=? counter then
    match prune db_fault page_count page_size freelist_count now st with
    | (st', Ok _) => (st', h, 0)
    | (st', Err _) => (st', project_health (set_storage true h) severity alert_details, 0)
    end
  else (st, h, counter).

(** What one tick finds: the host, the rules in force, and the clock's instant. *)
Record Tick := { tick_host : Host; tick_rules : list AlertRule; tick_now : Z }.

Definition tick (clock : Clock) (s : Sampler) (t : Tick) : Sampler :=
  let '(collector', x) := sample (collector s) (tick_host t) in
  let '(alerts', _) := evaluate (alerts s) x (tick_rules t) in
  let severity := worst_active_severity alerts' in
  let lines := active_details alerts' in
  let h := apply_health (errors x) severity lines (health s) in
  let batch := (pending s ++ [x])%list in
  let '(st, h, rest) := commit_batch severity lines batch (store s) h in
  let '(st, h, counter) :=
    maybe_prune (now_ms clock (tick_now t)) severity lines (prune_counter s) st h in
  {| health := h; latest := Some x; trend := trend_push (trend s) (trend_of_sample x);
     store := st; collector := collector'; alerts := alerts'; pending := rest;
     prune_counter := counter |}.

Definition run_ticks (clock : Clock) (s : Sampler) (ts : list Tick) : Sampler :=
  fold_left (tick clock) ts s.

(** ** Lemmas *)

(** The health a snapshot's own flags and the current alerts call for. *)
Definition projected (alerts : AlertEvaluator) (h : HealthSnapshot) : Prop :=
  state h = (if collector_degraded h || storage_degraded h || remote_listener_degraded h
             then Degraded else default Healthy (worst_active_severity alerts)) /\
  details h = (degraded_tokens h ++ active_details alerts)%list.

Lemma project_projected a h :
  projected a (project_health h (worst_active_severity a) (active_details a)).
Proof. done. Qed.

Lemma commit_projected a batch st h :
  projected a h ->
  projected a (snd (fst (commit_batch (worst_active_severity a) (active_details a) batch st h))).
Proof.
  intros H. unfold commit_batch. destruct (_ <=? _)%nat; [|done].
  destruct (insert_batch db_fault batch st) as [st' [u|e]]; simpl; [|done].
  by destruct (storage_degraded h).
Qed.

Lemma prune_projected now a counter st h :
  projected a h ->
  projected a (snd (fst (maybe_prune now (worst_active_severity a) (active_details a) counter st h))).
Proof.
  intros H. unfold maybe_prune. destruct (300 <=? _); [|done].
  by destruct (prune _ _ _ _ now st) as [st' [u|e]].
Qed.

Lemma tick_projected clock s t : projected (alerts (tick clock s t)) (health (tick clock s t)).
Proof.
  unfold tick. destruct (sample (collector s) (tick_host t)) as [c' x].
  destruct (evaluate (alerts s) x (tick_rules t)) as [a' sigs].
  set (h0 := apply_health _ _ _ _). assert (H0 : projected a' h0) by done.
  pose proof (commit_projected a' (pending s ++ [x])%list (store s) h0 H0) as H1.
  destruct (commit_batch _ _ _ _ h0) as [[st1 h1] rest]. cbn [fst snd] in H1.
  pose proof (prune_projected (now_ms clock (tick_now t)) a' (prune_counter s) st1 h1 H1) as H2.
  destruct (maybe_prune _ _ _ _ st1 h1) as [[st2 h2] c2]. exact H2.
Qed.

Lemma commit_collector sev lines batch st h :
  collector_degraded (snd (fst (commit_batch sev lines batch st h))) = collector_degraded h.
Proof.
  unfold commit_batch. destruct (_ <=? _)%nat; [|done].
  destruct (insert_batch db_fault batch st) as [st' [u|e]]; simpl; [|done].
  by destruct (storage_degraded h).
Qed.

Lemma prune_collector now sev lines counter st h :
  collector_degraded (snd (fst (maybe_prune now sev lines counter st h))) = collector_degraded h.
Proof.
  unfold maybe_prune. destruct (300 <=? _); [|done].
  by destruct (prune _ _ _ _ now st) as [st' [u|e]].
Qed.

Lemma tick_collector_flag clock s t :
  collector_degraded (health (tick clock s t)) =
    negb (is_empty (errors (snd (sample (collector s) (tick_host t))))).
Proof.
  unfold tick. destruct (sample (collector s) (tick_host t)) as [c' x].
  destruct (evaluate (alerts s) x (tick_rules t)) as [a' sigs]. cbn [snd].
  match goal with |- context [commit_batch ?a ?b ?c ?d ?e] =>
    pose proof (commit_collector a b c d e) as H1;
    destruct (commit_batch a b c d e) as [[st1 h1] rest] end.
  match goal with |- context [maybe_prune ?a ?b ?c ?d ?e ?f] =>
    pose proof (prune_collector a b c d e f) as H2;
    destruct (maybe_prune a b c d e f) as [[st2 h2] c2] end.
  cbn [fst snd health] in *. by rewrite H2, H1.
Qed.

Lemma commit_pending sev lines batch st h :
  (length batch <= 5)%nat ->
  (length (snd (commit_batch sev lines batch st h)) < 5)%nat.
Proof.
  intros Hl. unfold commit_batch. destruct (Nat.leb_spec 5 (length batch)); [|simpl; lia].
  destruct (insert_batch db_fault batch st) as [st' [u|e]]; simpl; lia.
Qed.

Lemma tick_pending clock s t :
  (length (pending s) < 5)%nat -> (length (pending (tick clock s t)) < 5)%nat.
Proof.
  intros Hl. unfold tick. destruct (sample (collector s) (tick_host t)) as [c' x].
  destruct (evaluate (alerts s) x (tick_rules t)) as [a' sigs].
  match goal with |- context [commit_batch ?a ?b ?c ?d ?e] =>
    pose proof (commit_pending a b c d e) as H1;
    destruct (commit_batch a b c d e) as [[st1 h1] rest] end.
  destruct (maybe_prune _ _ _ _ st1 h1) as [[st2 h2] c2]. cbn [pending]. cbn [snd] in H1.
  apply H1. rewrite length_app. simpl. lia.
Qed.

(** The samples a sequence of ticks takes. *)
Fixpoint taken (c : SystemCollector) (ts : list Tick) : list MetricSample :=
  match ts with
  | [] => []
  | t :: rest => let '(c', x) := sample c (tick_host t) in x :: taken c' rest
  end.

Lemma tick_collector clock s t :
  collector (tick clock s t) = fst (sample (collector s) (tick_host t)).
Proof.
  unfold tick. destruct (sample (collector s) (tick_host t)) as [c' x].
  destruct (evaluate (alerts s) x (tick_rules t)) as [a' sigs].
  destruct (commit_batch _ _ _ _ _) as [[st1 h1] rest].
  by destruct (maybe_prune _ _ _ _ st1 h1) as [[st2 h2] c2].
Qed.

Lemma tick_counter clock s t :
  0 <= prune_counter s < 300 ->
  0 <= prune_counter (tick clock s t) < 300 /\
  (prune_counter s + 1 < 300 -> prune_counter (tick clock s t) = prune_counter s + 1).
Proof.
  intros Hc. unfold tick. destruct (sample (collector s) (tick_host t)) as [c' x].
  destruct (evaluate (alerts s) x (tick_rules t)) as [a' sigs].
  destruct (commit_batch _ _ _ _ _) as [[st1 h1] rest]. unfold maybe_prune.
  assert (E : sat_add u16_max (prune_counter s) 1 = prune_counter s + 1)
    by (unfold sat_add, u16_max; lia).
  rewrite E. destruct (Z.leb_spec 300 (prune_counter s + 1)); [|simpl; lia].
  destruct (prune _ _ _ _ _ st1) as [st2 [u|e]]; simpl; lia.
Qed.

(** ** What became of every sample *)

(** The batch a tick commits, if it fills one, and whether the database took it. *)
Definition tick_batch (s : Sampler) (t : Tick) : list MetricSample :=
  (pending s ++ [snd (sample (collector s) (tick_host t))])%list.

Definition committed (s : Sampler) (t : Tick) : option (bool * list MetricSample) :=
  if (5 <=? length (tick_batch s t))%nat
  then Some (is_ok (snd (insert_batch db_fault (tick_batch s t) (store s))), tick_batch s t)
  else None.

(** The batches of a run, in order. *)
Fixpoint batches (clock : Clock) (s : Sampler) (ts : list Tick) : list (bool * list MetricSample) :=
  match ts with
  | [] => []
  | t :: rest => (option_list (committed s t) ++ batches clock (tick clock s t) rest)%list
  end.

Definition taken_batches (l : list (bool * list MetricSample)) : list MetricSample :=
  concat (map snd l).

Definition kept_batches (l : list (bool * list MetricSample)) : list MetricSample :=
  concat (map snd (List.filter fst l)).

(** The store between the commit and the prune of a tick. *)
Definition store_committed (s : Sampler) (t : Tick) : MetricStore :=
  if (5 <=? length (tick_batch s t))%nat
  then fst (insert_batch db_fault (tick_batch s t) (store s)) else store s.

Definition prune_due (s : Sampler) : bool := 300 <=? sat_add u16_max (prune_counter s) 1.

(** The raw table has a row for this millisecond. *)
Definition recorded (ms : Z) (st : MetricStore (J := J)) : bool := bt_mem ms (metric_samples (tables st)).

(** A prune of the run took this millisecond out, as expired or to get within the size cap. *)
Definition pruned (clock : Clock) (s : Sampler) (ts : list Tick) (ms : Z) : Prop :=
  exists before t after, ts = (before ++ t :: after)%list /\
    let s1 := run_ticks clock s before in
    prune_due s1 = true /\ recorded ms (store_committed s1 t) = true /\
    recorded ms (store (tick clock s1 t)) = false /\
    reclaimed (expired_dropped (now_ms clock (tick_now t)) (tables (store_committed s1 t)))
              (tables (store (tick clock s1 t))).

Lemma tick_parts clock s t :
  pending (tick clock s t) = match committed s t with Some _ => [] | None => tick_batch s t end /\
  store (tick clock s t) =
    (if prune_due s
     then fst (prune db_fault page_count page_size freelist_count (now_ms clock (tick_now t)) (store_committed s t))
     else store_committed s t) /\
  ((exists b, committed s t = Some (false, b)) -> storage_degraded (health (tick clock s t)) = true).
Proof.
  unfold tick, committed, store_committed, tick_batch, prune_due.
  destruct (sample (collector s) (tick_host t)) as [c' x]. cbn [snd].
  destruct (evaluate (alerts s) x (tick_rules t)) as [a' sigs]. unfold commit_batch, maybe_prune.
  destruct (5 <=? length (pending s ++ [x]))%nat.
  - destruct (insert_batch db_fault (pending s ++ [x])%list (store s)) as [st' [u|e]]; cbn [is_ok fst snd];
      (destruct (300 <=? _); [destruct (prune _ _ _ _ _ st') as [st2 [?|?]]|]);
      cbn [pending store health fst]; split_and!; try done; by intros [b [=]].
  - destruct (300 <=? _); [destruct (prune _ _ _ _ _ (store s)) as [st2 [?|?]]|];
      cbn [pending store health fst]; split_and!; try done; by intros [b [=]].
Qed.

(** A committed batch has its rows, and no row is lost by a commit. *)
Lemma commit_records s t ms :
  recorded ms (store s) = true \/
    (exists b x, committed s t = Some (true, b) /\ In x b /\ timestamp_ms x = ms) ->
  recorded ms (store_committed s t) = true.
Proof.
  unfold committed, store_committed, recorded. destruct (5 <=? length (tick_batch s t))%nat.
  2: { intros [?|(b & x & [=] & _)]; done. }
  pose proof (insert_batch_cases db_fault (tick_batch s t) (store s)) as I.
  pose proof (insert_batch_written db_fault (tick_batch s t) (store s)) as W.
  destruct (insert_batch db_fault (tick_batch s t) (store s)) as [st' [u|e]]; cbn [is_ok fst snd] in *; rewrite I.
  - intros [H|(b & x & [= <-] & Hx & <-)].
    + unfold bt_mem in *. destruct (bt_get ms (metric_samples (tables (store s)))) as [j|] eqn:E; [|done].
      by rewrite (fold_insert_tables_get_raw _ _ _ j E).
    + specialize (W eq_refl). rewrite Forall_forall in W. apply inserted_has_row; auto.
  - intros [?|(b & x & [=] & _)]; done.
Qed.

(** A row of a tick's store stays, or this tick's prune takes it. *)
Lemma tick_survives clock s t ms :
  recorded ms (store_committed s t) = true ->
  recorded ms (store (tick clock s t)) = true \/ pruned clock s [t] ms.
Proof.
  intros H. destruct (recorded ms (store (tick clock s t))) eqn:E; [by left|right].
  exists [], t, []. split; [done|]. cbn [run_ticks fold_left].
  destruct (tick_parts clock s t) as (_ & Est & _). destruct (prune_due s) eqn:P.
  2: { rewrite Est in E. congruence. }
  split_and!; try done. rewrite Est in E |- *.
  pose proof (prune_keeps_retention db_fault page_count page_size freelist_count (now_ms clock (tick_now t))
    (store_committed s t)) as K.
  destruct (prune _ _ _ _ _ _) as [st' [[u|]|e]]; cbn [fst] in *; [by destruct K|done|].
  destruct K as [K|K]; [|done]. unfold recorded in *. rewrite K in E. congruence.
Qed.

Lemma pruned_later clock s t ts ms : pruned clock (tick clock s t) ts ms -> pruned clock s (t :: ts) ms.
Proof. intros (before & u & after & -> & H). by exists (t :: before), u, after. Qed.

Lemma pruned_now clock s t ts ms : pruned clock s [t] ms -> pruned clock s (t :: ts) ms.
Proof.
  intros (before & u & after & E & H). destruct before as [|v before].
  - injection E as -> <-. by exists [], u, ts.
  - injection E as -> E. symmetry in E. by apply app_eq_nil in E as [_ ?].
Qed.

Lemma rows_survive clock ts s ms :
  recorded ms (store s) = true -> recorded ms (store (run_ticks clock s ts)) = true \/ pruned clock s ts ms.
Proof.
  unfold run_ticks. revert s. induction ts as [|t ts IH]; intros s H; [by left|]. cbn [fold_left].
  destruct (tick_survives clock s t ms) as [H1|H1]; [apply commit_records; by left| |right; by apply pruned_now].
  destruct (IH _ H1) as [H2|H2]; [by left|right; by apply pruned_later].
Qed.

Lemma kept_rows_survive clock ts s b x :
  In (true, b) (batches clock s ts) -> In x b ->
  recorded (timestamp_ms x) (store (run_ticks clock s ts)) = true \/ pruned clock s ts (timestamp_ms x).
Proof.
  unfold run_ticks. revert s. induction ts as [|t ts IH]; intros s Hin Hx; [done|]. cbn [batches fold_left] in *.
  apply in_app_or in Hin as [Hin|Hin].
  - assert (Hc : committed s t = Some (true, b)) by (destruct (committed s t); [by destruct Hin as [->|[]]|done]).
    destruct (tick_survives clock s t (timestamp_ms x)) as [H1|H1];
      [apply commit_records; right; by exists b, x| |right; by apply pruned_now].
    destruct (rows_survive clock ts _ _ H1) as [H2|H2]; [by left|right; by apply pruned_later].
  - destruct (IH _ Hin Hx) as [H2|H2]; [by left|right; by apply pruned_later].
Qed.

(** The batches and the pending samples are the samples taken, in order. *)
Lemma batches_partition clock ts s :
  (pending s ++ taken (collector s) ts)%list =
  (taken_batches (batches clock s ts) ++ pending (run_ticks clock s ts))%list.
Proof.
  unfold run_ticks, taken_batches. revert s.
  induction ts as [|t ts IH]; intros s; [cbn; by rewrite app_nil_r|]. cbn [batches taken fold_left].
  destruct (tick_parts clock s t) as (Hp & _). specialize (IH (tick clock s t)).
  rewrite tick_collector in IH. unfold tick_batch in Hp. rewrite Hp in IH. rewrite map_app, concat_app.
  rewrite <- app_assoc, <- IH. unfold committed, tick_batch.
  destruct (sample (collector s) (tick_host t)) as [c' x]. cbn [fst snd].
  destruct (5 <=? _)%nat; simpl; by rewrite ?app_nil_r, <- ?app_assoc.
Qed.

(** Between two prunes the tables are exactly the log of the batches that were taken. *)
Lemma run_ticks_consistent clock ts s log :
  0 <= prune_counter s -> prune_counter s + Z.of_nat (length ts) < 300 ->
  consistent log (tables (store s)) ->
  consistent (accept_all log (kept_batches (batches clock s ts))) (tables (store (run_ticks clock s ts))).
Proof.
  unfold run_ticks, kept_batches. revert s log.
  induction ts as [|t ts IH]; intros s log Hc Hl C; [done|]. cbn [length] in Hl. cbn [fold_left batches].
  destruct (tick_counter clock s t ltac:(lia)) as [Hb Hn]. specialize (Hn ltac:(lia)).
  destruct (tick_parts clock s t) as (_ & Est & _).
  assert (Hd : prune_due s = false) by (unfold prune_due, sat_add, u16_max; apply Z.leb_gt; lia).
  rewrite Hd in Est. unfold accept_all. rewrite List.filter_app, map_app, concat_app, fold_left_app.
  apply (IH (tick clock s t)); [lia|lia|]. rewrite Est. clear - C. unfold committed, store_committed.
  destruct (5 <=? _)%nat; [|done].
  pose proof (insert_batch_cases db_fault (tick_batch s t) (store s)) as I.
  destruct (insert_batch db_fault (tick_batch s t) (store s)) as [st' [u|e]]; cbn [is_ok fst snd] in *;
    simpl; rewrite I; [|done].
  rewrite app_nil_r. by apply (consistent_inserts _ log).
Qed.

Lemma flush_outcome s :
  pending (flush_pending s) = [] /\
    Forall (fun x => is_Some (to_json x)) (pending s) /\
    tables (store (flush_pending s)) = fold_left insert_tables (pending s) (tables (store s)) \/
  pending (flush_pending s) = pending s /\ tables (store (flush_pending s)) = tables (store s) /\
    is_ok (snd (insert_batch db_fault (pending s) (store s))) = false.
Proof.
  unfold flush_pending. destruct (pending s) as [|x l] eqn:E; [left; by rewrite E|].
  pose proof (insert_batch_cases db_fault (x :: l) (store s)) as I.
  pose proof (insert_batch_written db_fault (x :: l) (store s)) as W.
  destruct (insert_batch db_fault (x :: l) (store s)) as [st' [u|e]]; cbn [is_ok snd] in *.
  - left. split; [done|]. split; [by apply W|done].
  - right. done.
Qed.

Lemma flush_keeps_rows s ms : recorded ms (store s) = true -> recorded ms (store (flush_pending s)) = true.
Proof.
  unfold recorded, bt_mem. destruct (bt_get ms (metric_samples (tables (store s)))) as [j|] eqn:E; [|done].
  destruct (flush_outcome s) as [(_ & _ & ->)|(_ & -> & _)]; intros _; [|by rewrite E].
  by rewrite (fold_insert_tables_get_raw _ _ _ j E).
Qed.

Lemma run_ticks_bounds clock ts s :
  (length (pending s) < 5)%nat -> 0 <= prune_counter s < 300 -> (length (trend s) <= CAPACITY)%nat ->
  (length (pending (run_ticks clock s ts)) < 5)%nat /\
  0 <= prune_counter (run_ticks clock s ts) < 300 /\
  (length (trend (run_ticks clock s ts)) <= CAPACITY)%nat.
Proof.
  unfold run_ticks. revert s. induction ts as [|t ts IH]; intros s H1 H2 H3; [done|].
  cbn [fold_left]. apply IH; [by apply tick_pending|apply tick_counter; lia|].
  unfold tick. destruct (sample (collector s) (tick_host t)) as [c' x].
  destruct (evaluate (alerts s) x (tick_rules t)) as [a' sigs].
  destruct (commit_batch _ _ _ _ _) as [[st1 h1] rest].
  destruct (maybe_prune _ _ _ _ st1 h1) as [[st2 h2] c2]. cbn [trend].
  unfold trend_push. rewrite length_skipn. lia.
Qed.

Lemma run_ticks_pending clock ts s :
  (length (pending s) < 5)%nat -> (length (pending (run_ticks clock s ts)) < 5)%nat.
Proof.
  unfold run_ticks. revert s. induction ts as [|t ts IH]; intros s H; [done|]. by apply IH, tick_pending.
Qed.

Lemma batches_length clock ts s ok b :
  (length (pending s) < 5)%nat -> In (ok, b) (batches clock s ts) -> length b = 5%nat.
Proof.
  revert s. induction ts as [|t ts IH]; intros s Hl; [done|]. cbn [batches]. intros [H|H]%in_app_or.
  - unfold committed in H. destruct (Nat.leb_spec 5 (length (tick_batch s t))) as [Hb|]; [|done].
    destruct H as [[= _ <-]|[]]. unfold tick_batch in *. rewrite length_app in *. simpl in *. lia.
  - by apply (IH (tick clock s t)); [apply tick_pending|].
Qed.

Lemma batches_taken clock ts s :
  (forall n, db_fault n = false) -> (forall x, is_Some (to_json x)) ->
  Forall (fun b => fst b = true) (batches clock s ts).
Proof.
  intros Hdb Hj. revert s. induction ts as [|t ts IH]; intros s; [constructor|]. cbn [batches].
  apply Forall_app. split; [|done]. unfold committed. destruct (5 <=? _)%nat; [|constructor].
  constructor; [|constructor]. cbn [fst]. apply insert_batch_succeeds; [done|]. apply Forall_forall. auto.
Qed.

Lemma accept_all_app log a b : accept_all log (a ++ b)%list = accept_all (accept_all log a) b.
Proof. unfold accept_all. apply fold_left_app. Qed.

(** ** Properties *)

(** Published health is never stale: after every tick, whatever the collector read,
    whatever the store did and whatever the health was before, the published state is
    degraded exactly when a subsystem is flagged, otherwise the worst active alert severity,
    and healthy only when neither exists; the explanation lists exactly the flagged
    subsystems first and then the active alerts, and the collector is flagged exactly when
    this tick's sample reports an unreadable source. The sample is published as the latest
    reading and as the newest point of the trend. *)
Theorem tick_publishes_health clock s t :
  let s' := tick clock s t in
  let h := health s' in
  (state h = Degraded <->
     collector_degraded h = true \/ storage_degraded h = true \/
     remote_listener_degraded h = true \/ worst_active_severity (alerts s') = Some Degraded) /\
  (state h = Healthy -> actives (alerts s') = [] \/ worst_active_severity (alerts s') = Some Healthy) /\
  details h = (degraded_tokens h ++ active_details (alerts s'))%list /\
  collector_degraded h = negb (is_empty (errors (snd (sample (collector s) (tick_host t))))) /\
  latest s' = Some (snd (sample (collector s) (tick_host t))) /\
  trend s' = trend_push (trend s) (trend_of_sample (snd (sample (collector s) (tick_host t)))).
Proof.
  intros s' h. destruct (tick_projected clock s t) as [Hst Hd]. fold s' in Hst, Hd. fold h in Hst, Hd.
  assert (Hl : latest s' = Some (snd (sample (collector s) (tick_host t))) /\
    trend s' = trend_push (trend s) (trend_of_sample (snd (sample (collector s) (tick_host t))))).
  { unfold s', tick. destruct (sample (collector s) (tick_host t)) as [c' x].
    destruct (evaluate (alerts s) x (tick_rules t)) as [a' sigs].
    destruct (commit_batch _ _ _ _ _) as [[st1 h1] rest].
    by destruct (maybe_prune _ _ _ _ st1 h1) as [[st2 h2] c2]. }
  split; [|split; [|split; [done|split; [apply tick_collector_flag|exact Hl]]]].
  - rewrite Hst. destruct (collector_degraded h), (storage_degraded h), (remote_listener_degraded h);
      simpl; try (split; auto; done).
    destruct (worst_active_severity (alerts s')) as [v|]; simpl.
    + split; [intros ->; auto|]. intros [?|[?|[?|[= ->]]]]; done.
    + split; [done|]. intros [?|[?|[?|?]]]; done.
  - rewrite Hst. destruct (_ || _ || _); [done|]. unfold worst_active_severity.
    destruct (actives (alerts s')) as [|e l]; [by left|]. simpl. intros ->. by right.
Qed.

(** Live sampling never queues without bound: however many ticks run and whatever the
    disk does, fewer than five samples wait to be stored, the prune counter stays below its
    period and the trend within its capacity. *)
Theorem sampler_is_bounded clock ts s :
  pending s = [] -> prune_counter s = 0 -> (length (trend s) <= CAPACITY)%nat ->
  (length (pending (run_ticks clock s ts)) < 5)%nat /\
  0 <= prune_counter (run_ticks clock s ts) < 300 /\
  (length (trend (run_ticks clock s ts)) <= CAPACITY)%nat.
Proof. intros H1 H2 H3. apply run_ticks_bounds; rewrite ?H1, ?H2; simpl; auto; lia. Qed.

(** C34: Every sample is accounted for when the flush of a shutdown has run, however long the daemon ran and whatever
    failed. The samples taken are, in order, the batches of five that were committed, each
    taken or refused by the database as a whole, followed by the fewer than five that wait.
    A sample of a batch that was taken has its row in the store after the shutdown, unless a prune took it
    out (as older than a day, or oldest first to get within the size cap). A batch that was refused is
    dropped, and the tick that drops it publishes a degraded storage. The flush of the shutdown
    stores the waiting samples, or, if the database refuses them, changes nothing. When no
    statement fails and every sample can be written, every batch is taken and nothing waits;
    and between two prunes the tables are exactly the log extended by what was taken. *)
Theorem shutdown_accounts_for_every_sample clock ts s :
  pending s = [] ->
  let s' := run_ticks clock s ts in
  let s'' := flush_pending s' in
  let bs := batches clock s ts in
  (taken (collector s) ts = taken_batches bs ++ pending s' /\ (length (pending s') < 5)%nat /\
   forall ok b, In (ok, b) bs -> length b = 5)%nat%list /\
  (forall b x, In (true, b) bs -> In x b ->
     recorded (timestamp_ms x) (store s'') = true \/ pruned clock s ts (timestamp_ms x)) /\
  (forall before t after b, ts = (before ++ t :: after)%list ->
     committed (run_ticks clock s before) t = Some (false, b) ->
     storage_degraded (health (run_ticks clock s (before ++ [t]))) = true) /\
  (pending s'' = [] /\ (forall x, In x (pending s') -> recorded (timestamp_ms x) (store s'') = true) \/
   pending s'' = pending s' /\ tables (store s'') = tables (store s') /\
     is_ok (snd (insert_batch db_fault (pending s') (store s'))) = false) /\
  ((forall n, db_fault n = false) -> (forall x, is_Some (to_json x)) ->
     Forall (fun b => fst b = true) bs /\ pending s'' = []) /\
  (forall log, consistent log (tables (store s)) ->
     0 <= prune_counter s -> prune_counter s + Z.of_nat (length ts) < 300 -> pending s'' = [] ->
     consistent (accept_all log (kept_batches bs ++ pending s')) (tables (store s''))).
Proof.
  intros Hp s' s'' bs. split; [|split; [|split; [|split; [|split]]]].
  - pose proof (batches_partition clock ts s) as E. rewrite Hp in E. split; [exact E|]. split.
    + apply run_ticks_pending. rewrite Hp. simpl. lia.
    + intros ok b. apply batches_length. rewrite Hp. simpl. lia.
  - intros b x Hb Hx. destruct (kept_rows_survive clock ts s b x Hb Hx) as [H|H]; [left|by right].
    by apply flush_keeps_rows.
  - intros before t after b -> Hc. unfold run_ticks. rewrite fold_left_app. cbn [fold_left].
    apply tick_parts. by exists b.
  - destruct (flush_outcome s') as [(F1 & F2 & F3)|(F1 & F2 & F3)]; [left|by right]. split; [done|].
    intros x Hx. unfold recorded, s''. rewrite F3. rewrite Forall_forall in F2. apply inserted_has_row; auto.
  - intros Hdb Hj. split; [by apply batches_taken|]. destruct (flush_outcome s') as [(F1 & _)|(_ & _ & F3)]; [done|].
    rewrite insert_batch_succeeds in F3; [done|done|]. apply Forall_forall. auto.
  - intros log C H1 H2 Hn. unfold s''. pose proof (run_ticks_consistent clock ts s log H1 H2 C) as K.
    rewrite accept_all_app. destruct (flush_outcome s') as [(_ & _ & ->)|(F1 & -> & _)].
    + by apply consistent_inserts.
    + unfold s'' in Hn. rewrite F1 in Hn. by rewrite Hn.
Qed.

End Sampler.

(** ** Witnesses *)

Definition quiet_host (wall : Z) : Host :=
  {| h_cpu_count := 0; h_cpu_usage := f32_of_Z 0; h_total_memory := 100; h_used_memory := 10;
     h_used_swap := 0; h_total_swap := 0; h_disks := []; h_interfaces := []; h_sensors := [];
     h_uptime := 1; h_wall_ms := wall; h_now := wall; h_elapsed_now := wall;
     h_refreshed_now := wall |}.

Definition fresh_sampler : Sampler (J := MetricSample) :=
  {| health := {| state := Healthy; collector_degraded := false; storage_degraded := false;
                  remote_listener_degraded := false; details := [] |};
     latest := None; trend := []; store := empty_store; collector := collector_new (quiet_host 0);
     alerts := evaluator_default; pending := []; prune_counter := 0 |}.

Definition seven_ticks : list Tick :=
  map (fun k => {| tick_host := quiet_host (2000 * Z.of_nat k); tick_rules := [];
                   tick_now := 2000 * Z.of_nat k |}) (seq 1 7).

(** A database that reports no pages. *)
Definition no_pages : nat -> Tables (J := MetricSample) -> Z := fun _ _ => 0.

Lemma sampler_is_bounded_witness :
  (length (pending (run_ticks (fun _ => true) no_pages no_pages no_pages
             (clock_new 0 0) fresh_sampler seven_ticks)) < 5)%nat.
Proof. apply sampler_is_bounded; [reflexivity|reflexivity|simpl; lia]. Defined.

(** A database whose second transaction fails: the first five samples are stored, the next
    five are dropped with the storage reported as degraded, the last two are flushed. *)
Definition twelve_ticks : list Tick :=
  map (fun k => {| tick_host := quiet_host (2000 * Z.of_nat k); tick_rules := [];
                   tick_now := 2000 * Z.of_nat k |}) (seq 1 12).

Definition second_fails (n : nat) : bool := (n =? 14)%nat.

Lemma shutdown_accounts_for_every_sample_witness :
  let s' := run_ticks second_fails no_pages no_pages no_pages (clock_new 0 0) fresh_sampler twelve_ticks in
  let bs := batches second_fails no_pages no_pages no_pages (clock_new 0 0) fresh_sampler twelve_ticks in
  map fst bs = [true; false] /\
  taken (collector_new (quiet_host 0)) twelve_ticks = (taken_batches bs ++ pending s')%list /\
  length (pending s') = 2%nat.
Proof.
  pose proof (shutdown_accounts_for_every_sample second_fails no_pages no_pages no_pages (clock_new 0 0)
    twelve_ticks fresh_sampler eq_refl) as H.
  cbv zeta in *. split; [vm_compute; reflexivity|]. split; [exact (proj1 (proj1 H))|vm_compute; reflexivity].
Defined.
