(* ===== verification/Remote.v ===== *)
(** Paired remote machines: [apps/agent/src/remote/snapshot.rs] (freshness),
    [remote/registry.rs] (which machines are paired) and the connection part of
    [remote/client.rs] (identity pinning, requests).

    A QUIC session is what its peer answers: [answer n body] is the outcome of the [n]-th
    request of the session, within the request timeout or not. *)

From stdpp Require Import countable.
From S2P Require Import Prelude BTree Model Storage Wire Transport Persist Codecs Pairing.
Local Open Scope string_scope.
Local Open Scope Z_scope.

Inductive RemoteFleetError :=
  | FPairing (e : PairingError)
  | FTransport (e : TransportError)
  | Timeout (operation : string)
  | IdentityMismatch
  | PairingRejected
  | UnexpectedResponse (what : string)
  | AlreadyPaired
  | UnknownMachine
  | InvalidHistoryRange
  | HistoryResponseTooLarge
  | FRegistryUnavailable
  | FIo
  | FJson.

(** ** Snapshots *)

Definition STALE_AFTER_MS : Z := 10000.
Definition OFFLINE_AFTER_MS : Z := 30000.

Record PersistedRemoteSnapshot := {
  ps_latest : option MetricSample;
  ps_state : NodeState;
  ps_path : ConnectionPath;
  ps_rtt_ms : option Z;
  ps_last_seen_ms : option Z;
  ps_trend : TrendWindow;
  ps_details : list string;
}.

Record RemoteMachineRecord := {
  node : NodeInfo;
  r_endpoint_id : string;
  direct_addresses : list SocketAddr;
  r_relay_urls : list string;
  r_paired_at_ms : Z;
  last_snapshot : option PersistedRemoteSnapshot;
}.

Record RemoteMachineSnapshot := {
  s_node : NodeInfo;
  s_endpoint_id : string;
  s_latest : option MetricSample;
  s_state : NodeState;
  s_path : ConnectionPath;
  s_rtt_ms : option Z;
  s_last_seen_ms : option Z;
  s_trend : TrendWindow;
  s_details : list string;
}.

Definition offline (record : RemoteMachineRecord) : RemoteMachineSnapshot :=
  match last_snapshot record with
  | Some p =>
      {| s_node := node record; s_endpoint_id := r_endpoint_id record; s_latest := ps_latest p;
         s_state := ps_state p; s_path := ps_path p; s_rtt_ms := ps_rtt_ms p;
         s_last_seen_ms := ps_last_seen_ms p; s_trend := ps_trend p; s_details := ps_details p |}
  | None =>
      {| s_node := node record; s_endpoint_id := r_endpoint_id record; s_latest := None;
         s_state := Offline; s_path := UnknownPath; s_rtt_ms := None; s_last_seen_ms := None;
         s_trend := []; s_details := ["Waiting for remote connection"] |}
  end.

(** [PersistedRemoteSnapshot::from]. *)
Definition persisted (s : RemoteMachineSnapshot) : PersistedRemoteSnapshot :=
  {| ps_latest := s_latest s; ps_state := s_state s; ps_path := s_path s;
     ps_rtt_ms := s_rtt_ms s; ps_last_seen_ms := s_last_seen_ms s; ps_trend := s_trend s;
     ps_details := s_details s |}.

Definition state_at (s : RemoteMachineSnapshot) (now_ms : Z) : NodeState :=
  match s_state s with
  | AuthError => AuthError
  | Incompatible => Incompatible
  | st =>
      match s_last_seen_ms s with
      | None => st
      | Some last_seen =>
          let age := Z.max (i64_sat_sub now_ms last_seen) 0 in
          if OFFLINE_AFTER_MS <=? age then Offline
          else if STALE_AFTER_MS <=? age then Stale
          else st
      end
  end.

(** ** The paired-machine registry *)

Definition Machines : Type := list (string * RemoteMachineRecord).

(** The samples JSON can carry: what a snapshot holds has only finite floats. *)
Definition trend_finite (p : TrendSample) : bool :=
  opt_finite (t_cpu_percent p) && opt_finite (t_temperature_celsius p).

Definition shown_finite (latest : option MetricSample) (trend : TrendWindow) : Prop :=
  (forall s, latest = Some s -> sample_finite s = true) /\
  Forall (fun p => trend_finite p = true) trend.

Definition snapshot_finite (s : RemoteMachineSnapshot) : Prop :=
  shown_finite (s_latest s) (s_trend s).

Definition record_finite (m : RemoteMachineRecord) : Prop :=
  forall p, last_snapshot m = Some p -> shown_finite (ps_latest p) (ps_trend p).

Definition machines_finite (l : Machines) : Prop := Forall (fun e => record_finite (snd e)) l.

Definition MachineRegistry : Type := PersistedMap RemoteMachineRecord.

Definition fleet_error (e : PersistError) : RemoteFleetError :=
  match e with
  | PersistIo => FIo
  | PersistJson => FJson
  | LockUnavailable => FRegistryUnavailable
  end.

Section MachineRegistry.
Context {MJ : JsonCodec Machines machines_finite} (fault : nat -> bool).

Definition machines_load (f : ReadOutcome) : result Machines RemoteFleetError :=
  map_err fleet_error (load f).

Definition publish_machines {A} (next : Machines) (a : A) (r : MachineRegistry)
  : MachineRegistry * result A RemoteFleetError :=
  let '(r', res) := publish fault next a r in (r', map_err fleet_error res).

Definition machines_list (r : MachineRegistry) : result (list RemoteMachineRecord) RemoteFleetError :=
  if poisoned r then Err FRegistryUnavailable else Ok (bt_values (records r)).

Definition machines_contains (id : string) (r : MachineRegistry) : result bool RemoteFleetError :=
  if poisoned r then Err FRegistryUnavailable else Ok (bt_mem id (records r)).

Definition machines_get (id : string) (r : MachineRegistry)
  : result RemoteMachineRecord RemoteFleetError :=
  if poisoned r then Err FRegistryUnavailable else ok_or (bt_get id (records r)) UnknownMachine.

Definition machines_insert (record : RemoteMachineRecord) (r : MachineRegistry)
  : MachineRegistry * result unit RemoteFleetError :=
  if poisoned r then (r, Err FRegistryUnavailable)
  else publish_machines (bt_insert (r_endpoint_id record) record (records r)) tt r.

Definition set_addresses (addrs : list SocketAddr) (m : RemoteMachineRecord) : RemoteMachineRecord :=
  {| node := node m; r_endpoint_id := r_endpoint_id m; direct_addresses := addrs;
     r_relay_urls := r_relay_urls m; r_paired_at_ms := r_paired_at_ms m;
     last_snapshot := last_snapshot m |}.

Definition set_snapshot (s : RemoteMachineSnapshot) (m : RemoteMachineRecord) : RemoteMachineRecord :=
  {| node := node m; r_endpoint_id := r_endpoint_id m; direct_addresses := direct_addresses m;
     r_relay_urls := r_relay_urls m; r_paired_at_ms := r_paired_at_ms m;
     last_snapshot := Some (persisted s) |}.

(** [get_mut] on the clone, change it, publish. *)
Definition modify_machine (f : RemoteMachineRecord -> RemoteMachineRecord) (id : string)
  (r : MachineRegistry) : MachineRegistry * result unit RemoteFleetError :=
  if poisoned r then (r, Err FRegistryUnavailable)
  else match bt_get id (records r) with
  | None => (r, Err UnknownMachine)
  | Some m => publish_machines (bt_insert id (f m) (records r)) tt r
  end.

Definition update_addresses (id : string) (addrs : list SocketAddr) (r : MachineRegistry) :=
  modify_machine (set_addresses addrs) id r.

Definition update_snapshot (id : string) (s : RemoteMachineSnapshot) (r : MachineRegistry) :=
  modify_machine (set_snapshot s) id r.

Definition machines_remove (id : string) (r : MachineRegistry)
  : MachineRegistry * result bool RemoteFleetError :=
  if poisoned r then (r, Err FRegistryUnavailable)
  else if bt_mem id (records r) then publish_machines (bt_remove id (records r)) true r
  else (r, Ok false).

Inductive MachineOp :=
  | Insert (m : RemoteMachineRecord)
  | UpdateAddresses (id : string) (addrs : list SocketAddr)
  | UpdateSnapshot (id : string) (s : RemoteMachineSnapshot)
  | RemoveMachine (id : string).

Definition machine_step (r : MachineRegistry) (op : MachineOp) : MachineRegistry :=
  match op with
  | Insert m => fst (machines_insert m r)
  | UpdateAddresses id addrs => fst (update_addresses id addrs r)
  | UpdateSnapshot id s => fst (update_snapshot id s r)
  | RemoveMachine id => fst (machines_remove id r)
  end.

(** ** Lemmas *)

Lemma publish_machines_cases {A} next (a : A) r :
  match publish_machines next a r with
  | (r', Ok b) => b = a /\ records r' = next /\ (machines_finite next -> load (file r') = Ok next)
  | (r', Err _) => file r' = file r /\ records r' = records r
  end.
Proof.
  unfold publish_machines. pose proof (publish_cases fault next a r) as P.
  by destruct (publish fault next a r) as [r' [b|e]].
Qed.

Lemma publish_machines_fst {A} next (a : A) r :
  fst (publish_machines next a r) = fst (publish fault next a r).
Proof. unfold publish_machines. by destruct (publish fault next a r). Qed.

Lemma publish_machines_synced {A} next (a : A) r :
  synced r -> bt_sorted next -> machines_finite next -> synced (fst (publish_machines next a r)).
Proof. rewrite publish_machines_fst. apply publish_synced. Qed.

(** Every record is filed under its own endpoint id. *)
Definition keyed (l : Machines) : Prop := forall k m, bt_get k l = Some m -> r_endpoint_id m = k.

Definition registry_ok (r : MachineRegistry) : Prop :=
  synced r /\ keyed (records r) /\ machines_finite (records r).

Lemma finite_insert k m l : machines_finite l -> record_finite m -> machines_finite (bt_insert k m l).
Proof. intros Hl Hm. by apply bt_insert_Forall. Qed.

Lemma finite_remove k l : machines_finite l -> machines_finite (bt_remove k l).
Proof.
  unfold machines_finite. rewrite !List.Forall_forall. intros H e He. apply H.
  by eapply bt_remove_In.
Qed.

Lemma finite_get k m l : machines_finite l -> bt_get k l = Some m -> record_finite m.
Proof.
  unfold machines_finite. rewrite List.Forall_forall. intros H Hg. apply bt_get_In in Hg.
  by apply (H _ Hg).
Qed.

Lemma set_snapshot_finite s m : snapshot_finite s -> record_finite (set_snapshot s m).
Proof. intros H p [= <-]. exact H. Qed.

Lemma offline_finite m : record_finite m -> snapshot_finite (offline m).
Proof.
  unfold record_finite, offline, snapshot_finite. destruct (last_snapshot m) as [p|]; simpl.
  - intros H. by apply (H p).
  - intros _. split; [done|constructor].
Qed.

(** What an operation writes is finite. *)
Definition op_finite (op : MachineOp) : Prop :=
  match op with
  | Insert m => record_finite m
  | UpdateSnapshot _ s => snapshot_finite s
  | _ => True
  end.

Lemma keyed_insert k m l : keyed l -> r_endpoint_id m = k -> keyed (bt_insert k m l).
Proof.
  intros Hk He k' m'. destruct (decide (k = k')) as [<-|Hne].
  - rewrite bt_get_insert_eq. by intros [= <-].
  - rewrite bt_get_insert_ne by done. apply Hk.
Qed.

Lemma keyed_remove k l : bt_sorted l -> keyed l -> keyed (bt_remove k l).
Proof.
  intros Hs Hk k' m'. destruct (decide (k = k')) as [<-|Hne].
  - by rewrite bt_get_remove_eq.
  - rewrite bt_get_remove_ne by done. apply Hk.
Qed.

Lemma publish_machines_ok {A} next (a : A) r :
  registry_ok r -> bt_sorted next -> keyed next -> machines_finite next ->
  registry_ok (fst (publish_machines next a r)).
Proof.
  intros (Hs & Hk & Hf) Hn Hkn Hfn. split; [by apply publish_machines_synced|].
  pose proof (publish_machines_cases next a r) as P.
  destruct (publish_machines next a r) as [r' [b|e]]; simpl.
  - destruct P as (_ & -> & _). done.
  - destruct P as [_ ->]. done.
Qed.

Lemma modify_machine_ok f id r :
  (forall m, r_endpoint_id (f m) = r_endpoint_id m) ->
  (forall m, record_finite m -> record_finite (f m)) ->
  registry_ok r -> registry_ok (fst (modify_machine f id r)).
Proof.
  intros Hf Hfin Hr. pose proof Hr as [[_ Hs] [Hk Hr2]]. unfold modify_machine.
  destruct (poisoned r); [done|]. destruct (bt_get id (records r)) as [m|] eqn:E; [|done].
  apply publish_machines_ok; [done|by apply bt_insert_sorted|..].
  - apply keyed_insert; [done|]. rewrite Hf. by apply Hk.
  - apply finite_insert; [done|]. apply Hfin. by eapply finite_get.
Qed.

Lemma update_snapshot_ok id s r :
  snapshot_finite s -> registry_ok r -> registry_ok (fst (update_snapshot id s r)).
Proof. intros Hs Hr. apply modify_machine_ok; [done| |done]. intros m _. by apply set_snapshot_finite. Qed.

Lemma update_addresses_ok id addrs r :
  registry_ok r -> registry_ok (fst (update_addresses id addrs r)).
Proof. intros Hr. by apply modify_machine_ok. Qed.

Lemma machine_step_ok r op : op_finite op -> registry_ok r -> registry_ok (machine_step r op).
Proof.
  intros Ho Hr. pose proof Hr as [[_ Hs] [Hk Hf]]. destruct op as [m|id addrs|id s|id]; simpl.
  - unfold machines_insert. destruct (poisoned r); [done|].
    apply publish_machines_ok; 
      [done|by apply bt_insert_sorted|by apply keyed_insert|by apply finite_insert].
  - by apply update_addresses_ok.
  - by apply update_snapshot_ok.
  - unfold machines_remove. destruct (poisoned r); [done|]. destruct (bt_mem id (records r)); [|done].
    apply publish_machines_ok;
      [done|by apply bt_remove_sorted|by apply keyed_remove|by apply finite_remove].
Qed.

(** A refresh never adds, removes or renames a machine. *)
Lemma modify_machine_domain f id r k :
  (forall m, r_endpoint_id (f m) = r_endpoint_id m /\ node (f m) = node m) ->
  bt_mem k (records (fst (modify_machine f id r))) = bt_mem k (records r) /\
  (forall m, bt_get k (records (fst (modify_machine f id r))) = Some m ->
     exists m0, bt_get k (records r) = Some m0 /\ node m = node m0 /\
       r_endpoint_id m = r_endpoint_id m0 /\ (k <> id -> m = m0)).
Proof.
  intros Hf. unfold modify_machine. destruct (poisoned r); [eauto 7|].
  destruct (bt_get id (records r)) as [m0|] eqn:E; [|eauto 7].
  pose proof (publish_machines_cases (bt_insert id (f m0) (records r)) tt r) as P.
  destruct (publish_machines _ tt r) as [r' [b|e]]; simpl.
  2: { destruct P as [_ ->]. eauto 7. }
  destruct P as (_ & -> & _). unfold bt_mem. destruct (decide (id = k)) as [<-|Hne].
  - rewrite bt_get_insert_eq, E. split; [done|]. intros m [= <-].
    destruct (Hf m0). exists m0. done.
  - rewrite bt_get_insert_ne by done. eauto 7.
Qed.

(** ** Properties: the registry *)

(** The paired-machine registry survives restarts and failures: after any sequence of
    pairings, address and snapshot refreshes and removals, with file operations failing
    anywhere, a restart loads exactly the machines memory shows, each under its own endpoint
    id; a refresh never adds, removes or renames a machine. *)
Theorem machines_survive_restart ops r id addrs s k :
  registry_ok r -> Forall op_finite ops ->
  let r' := fold_left machine_step ops r in
  machines_load (file r') = Ok (records r') /\ keyed (records r') /\
  bt_mem k (records (machine_step r' (UpdateAddresses id addrs))) = bt_mem k (records r') /\
  bt_mem k (records (machine_step r' (UpdateSnapshot id s))) = bt_mem k (records r').
Proof.
  intros Hr Hops. assert (Hok : registry_ok (fold_left machine_step ops r)).
  { revert r Hr. induction Hops as [|op ops Ho _ IH]; intros r Hr; simpl; auto using machine_step_ok. }
  destruct Hok as [[Hl _] [Hk _]]. unfold machines_load. rewrite Hl. repeat split; [done|..].
  - by apply modify_machine_domain.
  - by apply modify_machine_domain.
Qed.

End MachineRegistry.

Lemma age_at_least t seen k :
  in_i64 t -> in_i64 seen -> 0 < k <= 30000 ->
  (k <=? Z.max (i64_sat_sub t seen) 0) = negb (t - seen <? k).
Proof.
  intros Ht Hs Hk. unfold in_i64, i64_sat_sub, i64_clamp, i64_min, i64_max in *.
  change (2 ^ 63) with 9223372036854775808 in *.
  destruct (Z.ltb_spec (t - seen) k); simpl; [apply Z.leb_gt|apply Z.leb_le]; lia.
Qed.

Lemma state_at_age s seen t :
  in_i64 seen -> in_i64 t -> s_last_seen_ms s = Some seen ->
  s_state s <> AuthError -> s_state s <> Incompatible ->
  state_at s t = if t - seen <? STALE_AFTER_MS then s_state s
                 else if t - seen <? OFFLINE_AFTER_MS then Stale else Offline.
Proof.
  intros Hs Ht Hl Ha Hi. unfold state_at. rewrite Hl.
  rewrite !age_at_least by (unfold OFFLINE_AFTER_MS, STALE_AFTER_MS; done || lia).
  assert (Hmono : (t - seen <? STALE_AFTER_MS) = true -> (t - seen <? OFFLINE_AFTER_MS) = true)
    by (unfold OFFLINE_AFTER_MS, STALE_AFTER_MS; lia).
  destruct (t - seen <? STALE_AFTER_MS); [rewrite Hmono by done|];
    [|destruct (t - seen <? OFFLINE_AFTER_MS)]; simpl; by destruct (s_state s).
Qed.

(** Freshness is derived from when this viewer last saw the machine: an authorization or
    compatibility failure stays; otherwise the machine is offline from thirty seconds of
    silence, stale from ten, and before that shows its last reported state, also when the
    clock has gone backwards; with time only staleness grows. *)
Theorem freshness_is_monotone s seen t1 t2 :
  in_i64 seen -> in_i64 t1 -> in_i64 t2 -> s_last_seen_ms s = Some seen ->
  s_state s <> AuthError -> s_state s <> Incompatible ->
  (state_at s t1 = if t1 - seen <? STALE_AFTER_MS then s_state s
                   else if t1 - seen <? OFFLINE_AFTER_MS then Stale else Offline) /\
  (t1 <= t2 -> s_state s <> Offline -> s_state s <> Stale ->
   (state_at s t1 = Offline -> state_at s t2 = Offline) /\
   (state_at s t1 = Stale -> state_at s t2 = Stale \/ state_at s t2 = Offline)).
Proof.
  intros Hs H1 H2 Hl Ha Hi. rewrite !(state_at_age s seen) by done. split; [done|].
  intros Hle Ho Hst. unfold OFFLINE_AFTER_MS, STALE_AFTER_MS. split.
  - destruct (Z.ltb_spec (t1 - seen) 10000); [done|].
    destruct (Z.ltb_spec (t1 - seen) 30000); [done|]. intros _.
    by rewrite !(proj2 (Z.ltb_ge _ _)) by lia.
  - destruct (Z.ltb_spec (t1 - seen) 10000); [done|]. intros _.
    rewrite (proj2 (Z.ltb_ge (t2 - seen) 10000)) by lia.
    destruct (t2 - seen <? 30000); auto.
Qed.

(** ** The client: [remote/client.rs] *)

Definition CONNECT_TIMEOUT_SECS : Z := 10.
Definition REQUEST_TIMEOUT_SECS : Z := 8.

(** The outcome of an operation under a timeout. *)
Inductive Timed (A : Type) := TimedOut | Done (r : result A TransportError).
Arguments TimedOut {A}.
Arguments Done {A} r.

Record ClientConnection := {
  c_remote_id : EndpointId;
  c_local_id : EndpointId;
  c_paths : list Path;
  answer : nat -> RequestBody -> Timed Response;
}.

Section Client.
Context {ET : EndpointText} (parse_uuid : string -> option Uuid).
Context {Url : Type} (parse_relay_url : string -> option Url).
(** What dialling an address gives. *)
Context (dial : EndpointId * list (RelayOrIp (Url := Url)) -> Timed ClientConnection).

Definition timed {A} (operation : string) (t : Timed A) : result A RemoteFleetError :=
  match t with
  | TimedOut => Err (Timeout operation)
  | Done r => map_err FTransport r
  end.

(** The [n]-th request of the session. *)
Definition request (client : ClientConnection) (n : nat) (body : RequestBody) (operation : string)
  : result Response RemoteFleetError :=
  let? response := timed operation (answer client n body) in
  match response with
  | Some (RError code message) => Err (FTransport (Remote code message))
  | r => Ok r
  end.

Definition get_node_info (client : ClientConnection) (n : nat) : result NodeInfo RemoteFleetError :=
  let? response := request client n (GetNodeInfo current_version) "node info" in
  match response with
  | Some (RNodeInfo info) => map_err UnexpectedResponse (FromWire.node_info parse_uuid info)
  | _ => Err (UnexpectedResponse "node info")
  end.

Definition get_health (client : ClientConnection) (n : nat)
  : result HealthSnapshot RemoteFleetError :=
  let? response := request client n (GetHealth current_version) "health" in
  match response with
  | Some (RHealth h) => Ok (FromWire.health h)
  | _ => Err (UnexpectedResponse "health")
  end.

Definition get_connection_path (client : ClientConnection) (n : nat)
  : result (ConnectionPath * Z) RemoteFleetError :=
  let? response := request client n (GetConnectionPath current_version) "connection path" in
  match response with
  | Some (RConnectionPath d) => Ok (FromWire.connection_path (w_path d), w_rtt_ms d)
  | _ => Err (UnexpectedResponse "connection path")
  end.

(** [RemoteMachineRecord::endpoint_addr]. *)
Definition record_bundle (m : RemoteMachineRecord) : PairingBundle :=
  {| format_version := 1; b_node_id := node_id (node m); b_endpoint_id := r_endpoint_id m;
     b_direct_addresses := direct_addresses m; b_relay_urls := r_relay_urls m;
     b_one_time_secret := ""; b_expires_at_ms := i64_max |}.

Definition record_endpoint_addr (m : RemoteMachineRecord) :=
  bundle_endpoint_addr parse_relay_url (record_bundle m).

Definition connect_record (m : RemoteMachineRecord) : result ClientConnection RemoteFleetError :=
  let? address := map_err FPairing (record_endpoint_addr m) in
  let? client := timed "connect" (dial address) in
  if negb (String.eqb (id_text (c_remote_id client)) (r_endpoint_id m)) then Err IdentityMismatch
  else
    let? info := get_node_info client 0 in
    if negb (node_id info =? node_id (node m)) then Err IdentityMismatch else Ok client.

(** A session is pinned to the machine that was paired: a connection is used only if its
    authenticated QUIC identity is the recorded endpoint and the node it reports is the
    recorded node, reached at the recorded endpoint's addresses; an answer that carries a
    remote error, has no body or is of another kind is never taken for the requested
    information. *)
Theorem sessions_are_pinned m client :
  connect_record m = Ok client ->
  id_text (c_remote_id client) = r_endpoint_id m /\
  (exists addrs, dial (c_remote_id client, addrs) = Done (Ok client)) /\
  exists wire info, answer client 0 (GetNodeInfo current_version) = Done (Ok (Some (RNodeInfo wire))) /\
    FromWire.node_info parse_uuid wire = Ok info /\ node_id info = node_id (node m).
Proof.
  unfold connect_record, record_endpoint_addr, bundle_endpoint_addr.
  destruct (parse_id (b_endpoint_id (record_bundle m))) as [id|] eqn:P; [simpl|done].
  destruct (collect_results _ _) as [relays|]; [simpl|done].
  destruct (dial _) as [|[c|e]] eqn:D; [done|simpl|done].
  destruct (String.eqb_spec (id_text (c_remote_id c)) (r_endpoint_id m)) as [Hid|]; [simpl|done].
  unfold get_node_info, request.
  destruct (answer c 0 (GetNodeInfo current_version)) as [|[r|e]] eqn:A; [done|simpl|done].
  destruct r as [[wire|?|?|?|?|?|?|]|]; try done. simpl.
  destruct (FromWire.node_info parse_uuid wire) as [info|] eqn:N; [simpl|done].
  destruct (Z.eqb_spec (node_id info) (node_id (node m))); [simpl|done].
  intros [= <-]. split; [done|]. split; [|eauto].
  simpl in P. rewrite <- Hid, parse_id_text in P. injection P as <-. eauto.
Qed.

End Client.

(** ** Witnesses *)

Definition demo_node : NodeInfo :=
  {| node_id := 4; display_name := "box"; os := "linux"; architecture := "x86_64";
     agent_version := "1"; protocol := V1; capabilities := [] |}.

Definition demo_record : RemoteMachineRecord :=
  {| node := demo_node; r_endpoint_id := "111"; direct_addresses := [SockV4 1 2];
     r_relay_urls := []; r_paired_at_ms := 5; last_snapshot := None |}.

Definition demo_client : ClientConnection :=
  {| c_remote_id := 3; c_local_id := 9; c_paths := [];
     answer := fun _ _ => Done (Ok (Some (RNodeInfo
       (ToWire.node_info unary_text unary_text demo_node 3)))) |}.

Lemma sessions_are_pinned_witness :
  connect_record parse_unary (fun u : string => Some u) (fun _ => Done (Ok demo_client)) demo_record
    = Ok demo_client /\ id_text (c_remote_id demo_client) = "111".
Proof.
  split; [reflexivity|].
  apply (sessions_are_pinned parse_unary (fun u : string => Some u)
           (fun _ => Done (Ok demo_client)) demo_record demo_client). reflexivity.
Defined.

Definition seen_snapshot : RemoteMachineSnapshot :=
  {| s_node := demo_node; s_endpoint_id := "111"; s_latest := None; s_state := Healthy;
     s_path := LanDirect; s_rtt_ms := None; s_last_seen_ms := Some 10000; s_trend := [];
     s_details := [] |}.

Lemma freshness_is_monotone_witness :
  state_at seen_snapshot 20000 = Stale /\
  (state_at seen_snapshot 50000 = Stale \/ state_at seen_snapshot 50000 = Offline).
Proof.
  split; [reflexivity|].
  assert (R : forall z, 0 <= z <= 50000 -> in_i64 z) by (intros; unfold in_i64, i64_min, i64_max; lia).
  refine (proj2 (proj2 (freshness_is_monotone seen_snapshot 10000 20000 50000 _ _ _ eq_refl _ _)
            _ _ _) eq_refl); try (apply R; lia); try discriminate; lia.
Defined.

#[export] Instance PersistedRemoteSnapshot_eq_dec : EqDecision PersistedRemoteSnapshot.
Proof. intros [] []. unfold TrendWindow in *. solve_decision. Defined.
#[export] Instance PersistedRemoteSnapshot_countable : Countable PersistedRemoteSnapshot.
Proof.
  refine (inj_countable'
    (fun s => (ps_latest s, ps_state s, ps_path s, ps_rtt_ms s, ps_last_seen_ms s,
               (ps_trend s : list TrendSample), ps_details s))
    (fun '(a, b, c, d, e, f, g) => Build_PersistedRemoteSnapshot a b c d e f g) _). by intros [].
Defined.

#[export] Instance RemoteMachineRecord_eq_dec : EqDecision RemoteMachineRecord.
Proof. solve_decision. Defined.
#[export] Instance RemoteMachineRecord_countable : Countable RemoteMachineRecord.
Proof.
  refine (inj_countable'
    (fun m => (node m, r_endpoint_id m, direct_addresses m, r_relay_urls m, r_paired_at_ms m,
               last_snapshot m))
    (fun '(a, b, c, d, e, f) => Build_RemoteMachineRecord a b c d e f) _). by intros [].
Defined.

#[export] Instance machines_json : JsonCodec Machines machines_finite := countable_json Machines _.

Definition empty_machines : MachineRegistry :=
  {| records := []; poisoned := false; file := NotFound; disk_ops := 0 |}.

Lemma machines_survive_restart_witness :
  let r := fold_left (machine_step (fun n => (n =? 8)%nat))
             [Insert demo_record; RemoveMachine "111"] empty_machines in
  machines_load (file r) = Ok (records r).
Proof.
  apply (machines_survive_restart (fun n => (n =? 8)%nat)
    [Insert demo_record; RemoveMachine "111"] empty_machines "111" [] seen_snapshot "111").
  - split; [split; [reflexivity|constructor]|]. split; [intros k m; discriminate|constructor].
  - repeat constructor; discriminate.
Defined.
