(* ===== verification/Fleet.v ===== *)
(** Monitoring the paired machines: [apps/agent/src/remote/monitor.rs] (the per-machine loop)
    and [apps/agent/src/remote.rs] (the fleet: pairing, history queries, removal).

    A session is a sequence of events: frames of the metric stream with the wall time and the
    monotonic instant at which they are handled, and ticks of the five-second refresh timer.
    The text of an error ([error_text], derived by thiserror) is a parameter. *)

From S2P Require Import Prelude BTree Model Storage Wire Transport Persist Pairing Remote.
Local Open Scope string_scope.
Local Open Scope Z_scope.

(** Durations and instants are in milliseconds. *)
Definition STREAM_SILENCE_TIMEOUT : Z := 12000.
Definition SNAPSHOT_PERSIST_INTERVAL : Z := 10000.
Definition INITIAL_RECONNECT_DELAY : Z := 1000.
Definition MAX_RECONNECT_DELAY : Z := 30000.
Definition MAX_RECORD_DIRECT_ADDRESSES : nat := 8.

(** ** Candidate addresses *)

Definition push_new (merged : list SocketAddr) (a : SocketAddr) : list SocketAddr :=
  if bool_decide (a ∈ merged) then merged else (merged ++ [a])%list.

Definition merged_direct_addresses (observed known : list SocketAddr) : list SocketAddr :=
  take MAX_RECORD_DIRECT_ADDRESSES (fold_left push_new (observed ++ known)%list []).

(** ** Reconnect backoff *)

(** After a session of [elapsed]: how long the loop sleeps, and the delay it keeps. *)
Definition backoff (elapsed retry_delay : Z) : Z * Z :=
  let retry_delay :=
    if STREAM_SILENCE_TIMEOUT <=? elapsed then INITIAL_RECONNECT_DELAY else retry_delay in
  (retry_delay, Z.min (retry_delay * 2) MAX_RECONNECT_DELAY).

(** The sleeps of a sequence of sessions. *)
Fixpoint sleeps (retry_delay : Z) (sessions : list Z) : list Z :=
  match sessions with
  | [] => []
  | elapsed :: rest => let '(slept, next) := backoff elapsed retry_delay in slept :: sleeps next rest
  end.

(** ** Error hints *)

Definition unreachable_hint (e : RemoteFleetError) (relay_configured : bool) : option string :=
  let unreachable := match e with
    | Timeout op => String.eqb op "connect"
    | FTransport Connect => true
    | _ => false
    end in
  if unreachable then
    Some (if relay_configured then
      "no known address answered and the configured relay did not carry the session; check that the relay is running and reachable, or if this machine restarted on a new port, give it a fixed one with `rackio listen-port set <PORT>` and restart it"
    else
      "no known address answered; if this machine restarted on a new port, give it a fixed one with `rackio listen-port set <PORT>` and restart it, or pair again")
  else None.

Definition Snapshots : Type := list (string * RemoteMachineSnapshot).

Section Monitor.
Context {ET : EndpointText} {MJ : JsonCodec Machines machines_finite} (fs_fault : nat -> bool).
Context (parse_uuid : string -> option Uuid).
Context {Url : Type} (parse_relay_url : string -> option Url).
Context (error_text : RemoteFleetError -> string).

Record MonitorState := {
  registry : MachineRegistry;
  snapshots : Snapshots;
  record : RemoteMachineRecord;
  last_persisted : option Z;
}.

Definition with_snapshots (s : Snapshots) (m : MonitorState) : MonitorState :=
  {| registry := registry m; snapshots := s; record := record m;
     last_persisted := last_persisted m |}.

(** [entries.entry(id).or_insert_with(offline)], changed by [f]. *)
Definition update_entry (f : RemoteMachineSnapshot -> RemoteMachineSnapshot) (m : MonitorState)
  : MonitorState :=
  let id := r_endpoint_id (record m) in
  with_snapshots
    (bt_insert id (f (default (offline (record m)) (bt_get id (snapshots m)))) (snapshots m)) m.

Definition refresh_direct_addresses (client : ClientConnection) (m : MonitorState) : MonitorState :=
  let observed := observed_direct_addresses (c_paths client) in
  match observed with
  | [] => m
  | _ =>
      let merged := merged_direct_addresses observed (direct_addresses (record m)) in
      if bool_decide (merged = direct_addresses (record m)) then m
      else
        match update_addresses fs_fault (r_endpoint_id (record m)) merged (registry m) with
        | (r, Ok _) => {| registry := r; snapshots := snapshots m;
                          record := set_addresses merged (record m);
                          last_persisted := last_persisted m |}
        | (r, Err _) => {| registry := r; snapshots := snapshots m; record := record m;
                           last_persisted := last_persisted m |}
        end
  end.

Definition apply_connection_path (path : ConnectionPath) (rtt : Z) (s : RemoteMachineSnapshot)
  : RemoteMachineSnapshot :=
  {| s_node := s_node s; s_endpoint_id := s_endpoint_id s; s_latest := s_latest s;
     s_state := s_state s; s_path := path; s_rtt_ms := Some rtt;
     s_last_seen_ms := s_last_seen_ms s; s_trend := s_trend s; s_details := s_details s |}.

Definition apply_status (st : NodeState) (lines : list string) (s : RemoteMachineSnapshot)
  : RemoteMachineSnapshot :=
  {| s_node := s_node s; s_endpoint_id := s_endpoint_id s; s_latest := s_latest s;
     s_state := st; s_path := s_path s; s_rtt_ms := s_rtt_ms s;
     s_last_seen_ms := s_last_seen_ms s; s_trend := s_trend s; s_details := lines |}.

Definition seen_at (now_ms : Z) (s : RemoteMachineSnapshot) : RemoteMachineSnapshot :=
  {| s_node := s_node s; s_endpoint_id := s_endpoint_id s; s_latest := s_latest s;
     s_state := s_state s; s_path := s_path s; s_rtt_ms := s_rtt_ms s;
     s_last_seen_ms := Some now_ms; s_trend := s_trend s; s_details := s_details s |}.

Definition set_node (n : NodeInfo) (s : RemoteMachineSnapshot) : RemoteMachineSnapshot :=
  {| s_node := n; s_endpoint_id := s_endpoint_id s; s_latest := s_latest s;
     s_state := s_state s; s_path := s_path s; s_rtt_ms := s_rtt_ms s;
     s_last_seen_ms := s_last_seen_ms s; s_trend := s_trend s; s_details := s_details s |}.

(** The viewer's own round-trip time is stamped on the trend point. *)
Definition stamp_rtt (rtt : option Z) (p : TrendSample) : TrendSample :=
  {| t_timestamp_ms := t_timestamp_ms p; t_cpu_percent := t_cpu_percent p;
     t_memory_used_bytes := t_memory_used_bytes p; t_memory_total_bytes := t_memory_total_bytes p;
     t_swap_used_bytes := t_swap_used_bytes p; t_swap_total_bytes := t_swap_total_bytes p;
     t_disk_used_bytes := t_disk_used_bytes p; t_disk_total_bytes := t_disk_total_bytes p;
     t_temperature_celsius := t_temperature_celsius p;
     t_network_received_bytes_per_second := t_network_received_bytes_per_second p;
     t_network_sent_bytes_per_second := t_network_sent_bytes_per_second p; t_rtt_ms := rtt |}.

Definition take_sample (x : MetricSample) (now_ms : Z) (s : RemoteMachineSnapshot)
  : RemoteMachineSnapshot :=
  {| s_node := s_node s; s_endpoint_id := s_endpoint_id s; s_latest := Some x;
     s_state := s_state s; s_path := s_path s; s_rtt_ms := s_rtt_ms s;
     s_last_seen_ms := Some now_ms;
     s_trend := trend_push (s_trend s) (stamp_rtt (s_rtt_ms s) (trend_of_sample x));
     s_details := s_details s |}.

(** ** Events of a session *)

(** A frame arrives at [instant]; the snapshots' lock is acquired after [waited] more. *)
Inductive SessionEvent :=
  | StreamFrame (r : Timed Response) (now_ms instant : Z) (waited : nat)
  | RefreshDue (n : nat).

Definition should_persist (instant : Z) (m : MonitorState) : bool :=
  match last_persisted m with
  | None => true
  | Some last => SNAPSHOT_PERSIST_INTERVAL <=? sat_sub instant last
  end.

Definition handle_sample (x : MetricSample) (now_ms instant : Z) (waited : nat) (m : MonitorState)
  : MonitorState :=
  let m' := update_entry (take_sample x now_ms) m in
  if should_persist instant m then
    let id := r_endpoint_id (record m) in
    let snapshot := default (offline (record m)) (bt_get id (snapshots m')) in
    {| registry := fst (update_snapshot fs_fault id snapshot (registry m'));
       snapshots := snapshots m'; record := record m';
       last_persisted := Some (instant + Z.of_nat waited) |}
  else m'.

Definition refresh_remote_state (client : ClientConnection) (n : nat) (m : MonitorState)
  : MonitorState * result unit RemoteFleetError :=
  match get_health client n with
  | Err e => (m, Err e)
  | Ok h =>
      match get_connection_path client (S n) with
      | Err e => (m, Err e)
      | Ok (path, rtt) =>
          (update_entry (fun s => apply_connection_path path rtt
                                    (apply_status (state h) (details h) s)) m, Ok tt)
      end
  end.

Definition handle_event (client : ClientConnection) (ev : SessionEvent) (m : MonitorState)
  : MonitorState * result unit RemoteFleetError :=
  match ev with
  | RefreshDue n => refresh_remote_state client n m
  | StreamFrame TimedOut _ _ _ => (m, Err (Timeout "metrics heartbeat"))
  | StreamFrame (Done (Err e)) _ _ _ => (m, Err (FTransport e))
  | StreamFrame (Done (Ok (Some (RMetricSample w)))) now instant waited =>
      (handle_sample (FromWire.metric_sample w) now instant waited m, Ok tt)
  | StreamFrame (Done (Ok (Some (RHeartbeat _ _)))) now _ _ =>
      let id := r_endpoint_id (record m) in
      (match bt_get id (snapshots m) with
       | Some s => with_snapshots (bt_insert id (seen_at now s) (snapshots m)) m
       | None => m
       end, Ok tt)
  | StreamFrame (Done (Ok _)) _ _ _ => (m, Err (UnexpectedResponse "metrics event"))
  end.

(** The event loop ends with the first error; the events are a prefix of the session. *)
Fixpoint session_loop (client : ClientConnection) (evs : list SessionEvent) (m : MonitorState)
  : MonitorState * result unit RemoteFleetError :=
  match evs with
  | [] => (m, Ok tt)
  | ev :: rest =>
      match handle_event client ev m with
      | (m', Ok _) => session_loop client rest m'
      | (m', Err e) => (m', Err e)
      end
  end.

(** What a session's environment provides. *)
Record Session := {
  dial : EndpointId * list (RelayOrIp (Url := Url)) -> Timed ClientConnection;
  started_ms : Z;
  watch : Timed unit;
  session_events : list SessionEvent;
}.

(** Connect, follow the address, and take the machine's status. *)
Definition session_start (env : Session) (m : MonitorState)
  : MonitorState * result ClientConnection RemoteFleetError :=
  match connect_record parse_uuid parse_relay_url (dial env) (record m) with
  | Err e => (m, Err e)
  | Ok client =>
      let m := refresh_direct_addresses client m in
      match get_node_info parse_uuid client 1 with
      | Err e => (m, Err e)
      | Ok n =>
          match get_health client 2 with
          | Err e => (m, Err e)
          | Ok h =>
              match get_connection_path client 3 with
              | Err e => (m, Err e)
              | Ok (path, rtt) =>
                  let m := update_entry (fun s => seen_at (started_ms env)
                    (apply_connection_path path rtt
                       (apply_status (state h) (details h) (set_node n s)))) m in
                  match timed "watch metrics" (watch env) with
                  | Err e => (m, Err e)
                  | Ok _ => (m, Ok client)
                  end
              end
          end
      end
  end.

Definition monitor_session (env : Session) (m : MonitorState)
  : MonitorState * result unit RemoteFleetError :=
  match session_start env m with
  | (m, Err e) => (m, Err e)
  | (m, Ok client) => session_loop client (session_events env) m
  end.

Definition error_state (e : RemoteFleetError) (now_ms : Z) (s : RemoteMachineSnapshot)
  : NodeState :=
  match e with
  | FTransport (Transport.Remote code _) =>
      if String.eqb code "auth_error" then AuthError
      else if String.eqb code "incompatible" then Incompatible
      else state_at s now_ms
  | IdentityMismatch => AuthError
  | _ => state_at s now_ms
  end.

Definition is_nil {A} (l : list A) : bool := match l with [] => true | _ => false end.

Definition update_error (e : RemoteFleetError) (now_ms : Z) (m : MonitorState) : MonitorState :=
  update_entry (fun s =>
    apply_status (error_state e now_ms s)
      (error_text e ::
       match unreachable_hint e (negb (is_nil (r_relay_urls (record m)))) with
       | Some hint => [hint]
       | None => []
       end) s) m.

(** ** The reconnect loop *)

(** One round: what the session does, when it fails, and how long it lasted. *)
Record Round := { session : Session; failed_at_ms : Z; elapsed_ms : Z }.

(** [None]: the pairing record is gone, the task stops. *)
Definition monitor_round (env : Round) (m : MonitorState) (retry_delay : Z)
  : option (MonitorState * Z * Z) :=
  match machines_contains (r_endpoint_id (record m)) (registry m) with
  | Ok false => None
  | _ =>
      let '(m', r) := monitor_session (session env) m in
      let m'' := match r with Err e => update_error e (failed_at_ms env) m' | Ok _ => m' end in
      let '(slept, next) := backoff (elapsed_ms env) retry_delay in
      Some (m'', slept, next)
  end.

Fixpoint monitor_machine (rounds : list Round) (m : MonitorState) (retry_delay : Z)
  : MonitorState :=
  match rounds with
  | [] => m
  | env :: rest =>
      match monitor_round env m retry_delay with
      | None => m
      | Some (m', _, next) => monitor_machine rest m' next
      end
  end.

(** ** Lemmas: addresses *)

Lemma push_new_spec l acc :
  NoDup acc -> NoDup (fold_left push_new l acc) /\ acc `prefix_of` fold_left push_new l acc /\
  (forall a, In a (fold_left push_new l acc) <-> In a acc \/ In a l).
Proof.
  revert acc. induction l as [|x l IH]; intros acc Hn; simpl.
  { split; [done|]. split; [done|]. intros a. tauto. }
  unfold push_new at 2 4 6. case_bool_decide as Hx.
  - destruct (IH acc Hn) as (H1 & H2 & H3). split; [done|]. split; [done|].
    intros a. rewrite H3. rewrite list_elem_of_In in Hx. intuition congruence.
  - destruct (IH (acc ++ [x])%list) as (H1 & H2 & H3).
    { apply list.NoDup_app. repeat split; [done| |apply NoDup_singleton].
      intros y Hy ->%list_elem_of_singleton. done. }
    split; [done|]. split; [by etransitivity; [apply prefix_app_r|]|].
    intros a. rewrite H3, in_app_iff. simpl. tauto.
Qed.

Lemma push_new_fresh l acc : NoDup (acc ++ l)%list -> fold_left push_new l acc = (acc ++ l)%list.
Proof.
  revert acc. induction l as [|x l IH]; intros acc Hn; simpl; [by rewrite app_nil_r|].
  unfold push_new at 2. rewrite bool_decide_eq_false_2.
  - rewrite IH; [by rewrite <- app_assoc|]. by rewrite <- app_assoc.
  - apply list.NoDup_app in Hn as (_ & Hd & _). intros Hx. apply (Hd x Hx). by left.
Qed.

(** ** Lemmas: the persistence throttle *)

(** The instants at which a change of state wrote a snapshot to the registry. *)
Definition noted (m m' : MonitorState) : list Z :=
  match last_persisted m' with
  | Some t => if bool_decide (last_persisted m = Some t) then [] else [t]
  | None => []
  end.

Fixpoint session_persists (client : ClientConnection) (evs : list SessionEvent) (m : MonitorState)
  : list Z :=
  match evs with
  | [] => []
  | ev :: rest =>
      match handle_event client ev m with
      | (m', Ok _) => (noted m m' ++ session_persists client rest m')%list
      | (m', Err _) => noted m m'
      end
  end.

(** The writes of a whole monitoring task, across its sessions. *)
Fixpoint machine_persists (rounds : list Round) (m : MonitorState) (retry_delay : Z) : list Z :=
  match rounds with
  | [] => []
  | env :: rest =>
      match monitor_round env m retry_delay with
      | None => []
      | Some (m', _, next) =>
          ((match session_start (session env) m with
            | (m1, Ok client) => session_persists client (session_events (session env)) m1
            | (_, Err _) => []
            end) ++ machine_persists rest m' next)%list
      end
  end.

Definition olist (o : option Z) : list Z := match o with Some t => [t] | None => [] end.

(** At least ten seconds apart. *)
Definition spaced : list Z -> Prop :=
  StronglySorted (fun a b => a + SNAPSHOT_PERSIST_INTERVAL <= b).

Lemma handle_event_persist client ev m m' r :
  handle_event client ev m = (m', r) ->
  last_persisted m' = last_persisted m \/
  exists t, last_persisted m' = Some t /\
    (forall last, last_persisted m = Some last -> last + SNAPSHOT_PERSIST_INTERVAL <= t).
Proof.
  destruct ev as [[|[[body|]|e]] now instant waited|n]; simpl; try (by intros [= <- <-]; left).
  - destruct body; try (by intros [= <- <-]; left).
    + intros [= <- <-]. unfold handle_sample, should_persist.
      destruct (last_persisted m) as [last|] eqn:E.
      * destruct (Z.leb_spec SNAPSHOT_PERSIST_INTERVAL (sat_sub instant last)) as [Hle|]; simpl.
        -- right. exists (instant + Z.of_nat waited). split; [done|]. intros l [= <-].
           unfold sat_sub, SNAPSHOT_PERSIST_INTERVAL in *. lia.
        -- left. done.
      * right. eexists. done.
    + intros [= <- <-]. left. by destruct (bt_get _ _).
  - unfold refresh_remote_state. destruct (get_health client n); [|by intros [= <- <-]; left].
    destruct (get_connection_path client (S n)) as [[p t]|]; intros [= <- <-]; by left.
Qed.

Lemma sorted_snoc {A} (R : A -> A -> Prop) l x :
  StronglySorted R l -> Forall (fun y => R y x) l -> StronglySorted R (l ++ [x])%list.
Proof.
  induction 1 as [|y l Hs IH Hy]; intros Hx; simpl; [repeat constructor|].
  apply Forall_cons_iff in Hx as [Hyx Hx]. constructor; [auto|].
  apply Forall_app. split; [done|]. by repeat constructor.
Qed.

(** The writes so far are spaced and the last of them is the one remembered. *)
Definition throttled (writes : list Z) (m : MonitorState) : Prop :=
  spaced writes /\ last_persisted m = head (rev writes).

Lemma throttled_keep writes m m' :
  throttled writes m -> last_persisted m' = last_persisted m -> throttled writes m'.
Proof. intros [H1 H2] E. split; congruence. Qed.

Lemma throttled_write writes m t :
  throttled writes m ->
  (forall last, last_persisted m = Some last -> last + SNAPSHOT_PERSIST_INTERVAL <= t) ->
  spaced (writes ++ [t])%list.
Proof.
  intros [Hs Hl] Hgap. apply sorted_snoc; [done|].
  destruct writes as [|l writes _] using rev_ind; [constructor|].
  rewrite rev_app_distr in Hl. simpl in Hl. specialize (Hgap l Hl).
  apply Forall_app. split; [|by repeat constructor]. apply Forall_forall. intros y Hy.
  assert (y + SNAPSHOT_PERSIST_INTERVAL <= l)
    by (eapply (sorted_app_cross _ _ _ y l Hs Hy); by left).
  unfold SNAPSHOT_PERSIST_INTERVAL in *. lia.
Qed.

Lemma throttled_step writes m m' :
  throttled writes m ->
  (last_persisted m' = last_persisted m \/
   exists t, last_persisted m' = Some t /\
     (forall last, last_persisted m = Some last -> last + SNAPSHOT_PERSIST_INTERVAL <= t)) ->
  throttled (writes ++ noted m m')%list m'.
Proof.
  intros Ht [E|(t & E & Hgap)]; unfold noted.
  - rewrite E. destruct (last_persisted m) as [l|] eqn:El; simpl;
      rewrite ?bool_decide_eq_true_2, app_nil_r by done; apply (throttled_keep writes m); congruence.
  - rewrite E. case_bool_decide as Hsame.
    + rewrite app_nil_r. apply (throttled_keep writes m); congruence.
    + split; [by apply (throttled_write writes m)|]. rewrite E, rev_app_distr. done.
Qed.

Lemma session_throttled client evs m writes :
  throttled writes m ->
  throttled (writes ++ session_persists client evs m)%list (fst (session_loop client evs m)).
Proof.
  revert m writes. induction evs as [|ev evs IH]; intros m writes Ht; simpl.
  { by rewrite app_nil_r. }
  destruct (handle_event client ev m) as [m' [[]|e]] eqn:E; simpl.
  - rewrite app_assoc. apply IH. apply throttled_step; [done|]. by eapply handle_event_persist.
  - apply throttled_step; [done|]. by eapply handle_event_persist.
Qed.

Lemma session_start_keeps env m : last_persisted (fst (session_start env m)) = last_persisted m.
Proof.
  unfold session_start. destruct (connect_record _ _ _ _) as [client|]; [|done].
  assert (E : last_persisted (refresh_direct_addresses client m) = last_persisted m).
  { unfold refresh_direct_addresses. destruct (observed_direct_addresses _); [done|].
    destruct (bool_decide _); [done|]. by destruct (update_addresses _ _ _ _) as [r [[]|e]]. }
  destruct (get_node_info _ client 1); [|done]. destruct (get_health client 2); [|done].
  destruct (get_connection_path client 3) as [[p t]|]; [|done].
  by destruct (timed _ _).
Qed.

Lemma machine_throttled rounds m delay writes :
  throttled writes m -> spaced (writes ++ machine_persists rounds m delay)%list.
Proof.
  revert m delay writes. induction rounds as [|env rounds IH]; intros m delay writes Ht; simpl.
  { rewrite app_nil_r. apply Ht. }
  unfold monitor_round. pose proof (session_start_keeps (session env) m) as Hk.
  assert (Hround : forall m1 r, monitor_session (session env) m = (m1, r) ->
    throttled (writes ++ match session_start (session env) m with
                         | (m2, Ok client) => session_persists client (session_events (session env)) m2
                         | (_, Err _) => []
                         end)%list
      (match r with Err e => update_error e (failed_at_ms env) m1 | Ok _ => m1 end)).
  { intros m1 r. unfold monitor_session.
    destruct (session_start (session env) m) as [m2 [client|e]]; simpl in Hk.
    - intros Hm. pose proof (session_throttled client (session_events (session env)) m2 writes
        (throttled_keep _ _ _ Ht Hk)) as Hs. rewrite Hm in Hs. simpl in Hs.
      destruct r; [done|]. eapply throttled_keep; [exact Hs|done].
    - intros [= <- <-]. rewrite app_nil_r. eapply throttled_keep; [exact Ht|]. done. }
  destruct (monitor_session (session env) m) as [m1 r]. specialize (Hround m1 r eq_refl).
  destruct (machines_contains _ _) as [[]|e]; [| rewrite app_nil_r; apply Ht |];
    destruct (backoff (elapsed_ms env) delay) as [sl nx]; rewrite app_assoc; by apply IH.
Qed.

(** ** Lemmas: backoff *)

Lemma sleeps_short d k :
  INITIAL_RECONNECT_DELAY <= d <= MAX_RECONNECT_DELAY ->
  forall sessions, Forall (fun e => e < STREAM_SILENCE_TIMEOUT) sessions ->
  forall slept, nth_error (sleeps d sessions) k = Some slept ->
  slept = Z.min (d * 2 ^ Z.of_nat k) MAX_RECONNECT_DELAY.
Proof.
  revert d. induction k as [|k IH]; intros d Hd sessions Hs slept Hn;
    destruct Hs as [|e sessions He Hs]; simpl in Hn; try done;
    unfold backoff in Hn; rewrite (proj2 (Z.leb_gt _ _) He) in Hn; simpl in Hn.
  - injection Hn as <-. simpl. lia.
  - assert (Hd' : INITIAL_RECONNECT_DELAY <= Z.min (d * 2) MAX_RECONNECT_DELAY <= MAX_RECONNECT_DELAY)
      by (unfold INITIAL_RECONNECT_DELAY, MAX_RECONNECT_DELAY in *; lia).
    rewrite (IH _ Hd' sessions Hs slept Hn).
    rewrite Nat2Z.inj_succ, Z.pow_succ_r by lia.
    unfold INITIAL_RECONNECT_DELAY, MAX_RECONNECT_DELAY in *.
    assert (1 <= 2 ^ Z.of_nat k) by (pose proof (Z.pow_pos_nonneg 2 (Z.of_nat k)); lia). nia.
Qed.

Lemma sleeps_bounded d sessions :
  INITIAL_RECONNECT_DELAY <= d <= MAX_RECONNECT_DELAY ->
  Forall (fun t => INITIAL_RECONNECT_DELAY <= t <= MAX_RECONNECT_DELAY) (sleeps d sessions).
Proof.
  revert d. induction sessions as [|e sessions IH]; intros d Hd; simpl; [constructor|].
  unfold backoff. constructor; [|apply IH];
    unfold INITIAL_RECONNECT_DELAY, MAX_RECONNECT_DELAY in *; destruct (_ <=? e); lia.
Qed.

(** ** Lemmas: what the task stores can be read back *)

Definition monitor_ok (m : MonitorState) : Prop :=
  registry_ok (registry m) /\ record_finite (record m) /\
  Forall (fun e => snapshot_finite (snd e)) (snapshots m).

Lemma monitor_entry_finite m id :
  monitor_ok m -> snapshot_finite (default (offline (record m)) (bt_get id (snapshots m))).
Proof.
  intros (_ & Hr & Hs). destruct (bt_get id (snapshots m)) as [s|] eqn:E; simpl.
  - apply bt_get_In in E. rewrite List.Forall_forall in Hs. by apply (Hs _ E).
  - by apply offline_finite.
Qed.

Lemma update_entry_ok f m :
  (forall s, snapshot_finite s -> snapshot_finite (f s)) -> monitor_ok m ->
  monitor_ok (update_entry f m).
Proof.
  intros Hf Hm. pose proof Hm as (H1 & H2 & H3). split; [done|]. split; [done|].
  apply bt_insert_Forall; [|done]. apply Hf. by apply monitor_entry_finite.
Qed.

Lemma trend_point_finite x rtt :
  sample_finite x = true -> trend_finite (stamp_rtt rtt (trend_of_sample x)) = true.
Proof.
  unfold sample_finite, trend_finite. simpl. intros [-> Hx]%andb_true_iff.
  destruct (temperature x); [|done]. by apply andb_true_iff in Hx as [Hc _].
Qed.

Lemma take_sample_finite x now s :
  sample_finite x = true -> snapshot_finite s -> snapshot_finite (take_sample x now s).
Proof.
  intros Hx [Hl Ht]. split; simpl.
  - by intros ? [= <-].
  - unfold trend_push. apply Forall_drop, Forall_app. split; [done|].
    by repeat constructor; apply trend_point_finite.
Qed.

Lemma handle_event_ok client ev m : monitor_ok m -> monitor_ok (fst (handle_event client ev m)).
Proof.
  intros Hm. destruct ev as [[|[[body|]|e]] now instant waited|n]; simpl; try done.
  - destruct body; try done; simpl.
    + unfold handle_sample.
      assert (Hu : monitor_ok (update_entry (take_sample (FromWire.metric_sample s) now) m)).
      { apply update_entry_ok; [|done]. intros.
        by apply take_sample_finite; [apply decoded_sample_finite|]. }
      destruct (should_persist instant m); [|done]. pose proof Hu as (H1 & H2 & H3).
      split; [|done]. apply update_snapshot_ok; [|done].
      apply (monitor_entry_finite _ (r_endpoint_id (record m)) Hu).
    + destruct (bt_get _ (snapshots m)) as [x|] eqn:E; [|done].
      pose proof Hm as (H1 & H2 & H3). split; [done|]. split; [done|].
      apply bt_insert_Forall; [|done]. pose proof (monitor_entry_finite m (r_endpoint_id (record m)) Hm) as Hx.
      rewrite E in Hx. exact Hx.
  - unfold refresh_remote_state. destruct (get_health client n); [|done].
    destruct (get_connection_path client (S n)) as [[p t]|]; [|done]. by apply update_entry_ok.
Qed.

Lemma refresh_direct_addresses_ok client m : monitor_ok m -> monitor_ok (refresh_direct_addresses client m).
Proof.
  intros Hm. unfold refresh_direct_addresses. destruct (observed_direct_addresses _); [done|].
  destruct (bool_decide _); [done|]. pose proof Hm as (H1 & H2 & H3).
  match goal with |- context [update_addresses ?f ?i ?a ?r] =>
    pose proof (update_addresses_ok f i a r H1) as Hu end.
  by destruct (update_addresses _ _ _ _) as [r [[]|e]].
Qed.

Lemma session_start_ok env m : monitor_ok m -> monitor_ok (fst (session_start env m)).
Proof.
  intros Hm. unfold session_start. destruct (connect_record _ _ _ _) as [client|]; [|done].
  pose proof (refresh_direct_addresses_ok client m Hm) as Hr.
  destruct (get_node_info _ client 1); [|done]. destruct (get_health client 2); [|done].
  destruct (get_connection_path client 3) as [[p t]|]; [|done].
  destruct (timed _ _); by apply update_entry_ok.
Qed.

Lemma monitor_session_ok env m : monitor_ok m -> monitor_ok (fst (monitor_session env m)).
Proof.
  intros Hm. apply (session_start_ok env) in Hm. unfold monitor_session.
  destruct (session_start env m) as [m1 [client|e]]; [|done]. simpl in Hm. revert m1 Hm.
  induction (session_events env) as [|ev evs IH]; intros m1 Hm; simpl; [done|].
  apply (handle_event_ok client ev) in Hm.
  destruct (handle_event client ev m1) as [m2 [[]|e]]; [by apply IH|done].
Qed.

Lemma monitor_machine_ok rounds m delay : monitor_ok m -> monitor_ok (monitor_machine rounds m delay).
Proof.
  revert m delay. induction rounds as [|env rounds IH]; intros m delay Hm; simpl; [done|].
  unfold monitor_round. apply (monitor_session_ok (session env)) in Hm as Hs.
  destruct (monitor_session (session env) m) as [m1 r]. simpl in Hs.
  destruct (backoff (elapsed_ms env) delay) as [sl nx].
  destruct (machines_contains _ _) as [[]|]; [|done|]; apply IH;
    (destruct r; [done|by apply update_entry_ok]).
Qed.

(** ** Properties *)

(** The peer cannot make the viewer write to disk faster than it chooses: whatever
    samples arrive, in however many sessions and reconnects, the snapshots a monitoring task
    writes to the registry are at least ten seconds apart. *)
Theorem snapshot_writes_are_throttled rounds m delay :
  spaced (olist (last_persisted m) ++ machine_persists rounds m delay)%list.
Proof.
  apply machine_throttled. split; [|by destruct (last_persisted m)].
  destruct (last_persisted m); repeat constructor.
Qed.

(** C32: No peer can corrupt the paired-machine registry: whatever its sessions send, over any
    number of reconnects and with file operations failing anywhere, what a restart loads is
    what memory holds, every record under its own endpoint id and every stored float finite,
    so that the file always parses. *)
Theorem monitoring_keeps_registry rounds m delay :
  monitor_ok m ->
  let m' := monitor_machine rounds m delay in
  machines_load (file (registry m')) = Ok (records (registry m')) /\
  keyed (records (registry m')) /\ machines_finite (records (registry m')) /\
  Forall (fun e => snapshot_finite (snd e)) (snapshots m').
Proof.
  intros Hm. apply (monitor_machine_ok rounds m delay) in Hm as ([[Hl _] [Hk Hf]] & _ & Hs).
  unfold machines_load. by rewrite Hl.
Qed.

End Monitor.

(** Reconnecting backs off exponentially between one and thirty seconds: every sleep is
    within those bounds, the k-th sleep in a row of sessions that ended before the silence
    timeout doubles the starting delay k times up to the ceiling, and a session that
    outlived the timeout starts again from one second. *)
Theorem reconnect_backs_off sessions k slept elapsed d :
  INITIAL_RECONNECT_DELAY <= d <= MAX_RECONNECT_DELAY ->
  Forall (fun t => INITIAL_RECONNECT_DELAY <= t <= MAX_RECONNECT_DELAY) (sleeps d sessions) /\
  (Forall (fun e => e < STREAM_SILENCE_TIMEOUT) sessions ->
   nth_error (sleeps d sessions) k = Some slept ->
   slept = Z.min (d * 2 ^ Z.of_nat k) MAX_RECONNECT_DELAY) /\
  (STREAM_SILENCE_TIMEOUT <= elapsed -> fst (backoff elapsed d) = INITIAL_RECONNECT_DELAY).
Proof.
  intros Hd. split; [by apply sleeps_bounded|]. split.
  - intros Hs Hn. by apply (sleeps_short d k Hd sessions Hs).
  - intros He. unfold backoff. by rewrite (proj2 (Z.leb_le _ _) He).
Qed.

Lemma reconnect_backs_off_witness :
  nth_error (sleeps 1000 [0; 0; 0]) 2 = Some 4000 /\
  4000 = Z.min (1000 * 2 ^ Z.of_nat 2) MAX_RECONNECT_DELAY.
Proof.
  split; [reflexivity|].
  apply (reconnect_backs_off [0; 0; 0] 2 4000 0 1000).
  - unfold INITIAL_RECONNECT_DELAY, MAX_RECONNECT_DELAY. lia.
  - repeat constructor.
  - reflexivity.
Defined.

(** Where a machine is dialled next is bounded and follows it: the merged addresses are
    at most eight, without repetition, all observed or known before; the ones just observed
    come first and, when they fit, none of them is lost. *)
Theorem merged_addresses_follow_peer observed known :
  NoDup observed ->
  let merged := merged_direct_addresses observed known in
  NoDup merged /\ (length merged <= MAX_RECORD_DIRECT_ADDRESSES)%nat /\
  (forall a, In a merged -> In a observed \/ In a known) /\
  ((length observed <= MAX_RECORD_DIRECT_ADDRESSES)%nat -> observed `prefix_of` merged).
Proof.
  intros Hn merged. unfold merged, merged_direct_addresses. rewrite fold_left_app.
  rewrite (push_new_fresh observed []) by done. rewrite app_nil_l.
  destruct (push_new_spec known observed Hn) as (H1 & [rest H2] & H3).
  set (all := fold_left push_new known observed) in *. split; [|split; [|split]].
  - apply (sublist_NoDup _ all); [done|]. apply sublist_take.
  - rewrite length_take. lia.
  - intros a Ha. apply in_take in Ha. apply H3 in Ha. done.
  - intros Hl. rewrite H2, take_app_ge by done. apply prefix_app_r. done.
Qed.

Lemma merged_addresses_follow_peer_witness :
  [SockV4 1 1] `prefix_of` merged_direct_addresses [SockV4 1 1] [SockV4 2 2; SockV4 1 1].
Proof.
  apply (merged_addresses_follow_peer [SockV4 1 1] [SockV4 2 2; SockV4 1 1]).
  - by_computation.
  - simpl. unfold MAX_RECORD_DIRECT_ADDRESSES. lia.
Defined.

(** ** The fleet: [apps/agent/src/remote.rs] *)

Definition HISTORY_RESPONSE_TIMEOUT : Z := 60000.
Definition MAX_REMOTE_HISTORY_SAMPLES : Z := MAX_QUERY_ROWS.
Definition MAX_HISTORY_RANGE_MS : Z := 7 * 24 * 60 * 60 * 1000.

(** ** History queries *)

Definition history_range_ok (from_ms to_ms : Z) : bool :=
  negb (to_ms <? from_ms) && negb (MAX_HISTORY_RANGE_MS <? i64_sat_sub to_ms from_ms).

Definition history_request (from_ms to_ms : Z) (resolution : HistoryResolution) : RequestBody :=
  QueryHistory {| q_from_ms := from_ms; q_to_ms := to_ms;
                  q_resolution := match resolution with Raw => 1 | Minute => 2 end;
                  q_protocol := Some current_version |}.

(** The response stream: the instant before the [n]-th read, and what the read gives. *)
Definition FrameStream : Type := nat -> Z * Timed Response.

(** [None] is running out of fuel. *)
Fixpoint history_loop (fuel : nat) (frames : FrameStream) (n : nat) (deadline : Z)
  (samples : list MetricSample) : option (result (list MetricSample) RemoteFleetError) :=
  match fuel with
  | O => None
  | S fuel =>
      let '(instant, read) := frames n in
      if deadline <=? instant then Some (Err (Timeout "history response"))
      else match timed "history response" read with
      | Err e => Some (Err e)
      | Ok (Some (RMetricSample w)) =>
          if MAX_REMOTE_HISTORY_SAMPLES <=? Z.of_nat (length samples)
          then Some (Err HistoryResponseTooLarge)
          else history_loop fuel frames (S n) deadline (samples ++ [FromWire.metric_sample w])%list
      | Ok (Some RStreamComplete) => Some (Ok samples)
      | Ok (Some (RError code message)) => Some (Err (FTransport (Transport.Remote code message)))
      | Ok _ => Some (Err (UnexpectedResponse "history event"))
      end
  end.

(** Each round but the last adds a sample, and there is a limit on samples. *)
Definition history_loop_fuel : nat := Z.to_nat (MAX_REMOTE_HISTORY_SAMPLES + 2).

Section FleetHistory.
Context {ET : EndpointText} (parse_uuid : string -> option Uuid).
Context {Url : Type} (parse_relay_url : string -> option Url).

Definition query_history (dial : EndpointId * list (RelayOrIp (Url := Url)) -> Timed ClientConnection)
  (open_stream : RequestBody -> Timed FrameStream) (started : Z) (registry : MachineRegistry)
  (id : string) (from_ms to_ms : Z) (resolution : HistoryResolution)
  : option (result (list MetricSample) RemoteFleetError) :=
  if negb (history_range_ok from_ms to_ms) then Some (Err InvalidHistoryRange)
  else match machines_get id registry with
  | Err e => Some (Err e)
  | Ok m =>
      match connect_record parse_uuid parse_relay_url dial m with
      | Err e => Some (Err e)
      | Ok _ =>
          match timed "history request" (open_stream (history_request from_ms to_ms resolution)) with
          | Err e => Some (Err e)
          | Ok frames => history_loop history_loop_fuel frames 0 (started + HISTORY_RESPONSE_TIMEOUT) []
          end
      end
  end.

End FleetHistory.

(** What the loop has read when it returns: sample frames, then the completion marker. *)
Lemma history_loop_spec fuel frames n deadline samples :
  MAX_REMOTE_HISTORY_SAMPLES < Z.of_nat (length samples) + Z.of_nat fuel ->
  Z.of_nat (length samples) <= MAX_REMOTE_HISTORY_SAMPLES ->
  exists r, history_loop fuel frames n deadline samples = Some r /\
    forall l, r = Ok l ->
      exists ws, l = (samples ++ (FromWire.metric_sample <$> ws))%list /\
        Z.of_nat (length l) <= MAX_REMOTE_HISTORY_SAMPLES /\
        (forall i w, ws !! i = Some w ->
           snd (frames (n + i)%nat) = Done (Ok (Some (RMetricSample w))) /\
           fst (frames (n + i)%nat) < deadline) /\
        snd (frames (n + length ws)%nat) = Done (Ok (Some RStreamComplete)).
Proof.
  revert n samples. induction fuel as [|fuel IH]; intros n samples Hf Hs; [lia|].
  cbn [history_loop]. destruct (frames n) as [instant read] eqn:F.
  destruct (Z.leb_spec deadline instant) as [|Hd]; [eexists; split; [done|]; by intros|].
  destruct read as [|[[body|]|e]]; cbn [timed map_err]; try (eexists; split; [done|]; by intros).
  destruct body; try (eexists; split; [done|]; by intros).
  - destruct (Z.leb_spec MAX_REMOTE_HISTORY_SAMPLES (Z.of_nat (length samples))).
    { eexists; split; [done|]; by intros. }
    destruct (IH (S n) (samples ++ [FromWire.metric_sample s])%list) as (r & E & Hr).
    { rewrite length_app. simpl. lia. }
    { rewrite length_app. simpl. lia. }
    exists r. split; [done|]. intros l Hl. destruct (Hr l Hl) as (ws & -> & Hlen & Hws & Hend).
    exists (s :: ws). split; [by rewrite <- app_assoc|]. split; [done|]. split.
    + intros [|i] w; simpl.
      * intros [= <-]. rewrite Nat.add_0_r, F. done.
      * rewrite Nat.add_succ_r. apply Hws.
    + simpl. by rewrite Nat.add_succ_r.
  - eexists. split; [done|]. intros l [= <-]. exists []. rewrite app_nil_r. split; [done|]. split; [done|]. split.
    + intros i w Hw. by rewrite lookup_nil in Hw.
    + simpl. by rewrite Nat.add_0_r, F.
Qed.

(** A history query always ends and never holds more than a machine can retain: whatever
    the peer streams, however slowly or endlessly, the query returns; it succeeds only when
    the peer sent at most the retention's worth of samples before the deadline and then the
    completion marker, and returns exactly those samples in order, all finite. An invalid or
    oversized range is refused without contacting the machine. *)
Theorem history_query_is_bounded {ET : EndpointText} parse_uuid {Url} (parse_url : string -> option Url)
  dial open_stream started registry id from_ms to_ms resolution :
  exists r, query_history parse_uuid parse_url dial open_stream started registry id from_ms to_ms
              resolution = Some r /\
  forall l, r = Ok l ->
    from_ms <= to_ms /\ Z.of_nat (length l) <= MAX_QUERY_ROWS /\
    Forall (fun x => sample_finite x = true) l /\
    exists frames ws, open_stream (history_request from_ms to_ms resolution) = Done (Ok frames) /\
      l = FromWire.metric_sample <$> ws /\
      (forall i w, ws !! i = Some w ->
         snd (frames i) = Done (Ok (Some (RMetricSample w))) /\
         fst (frames i) < started + HISTORY_RESPONSE_TIMEOUT) /\
      snd (frames (length ws)) = Done (Ok (Some RStreamComplete)).
Proof.
  unfold query_history. destruct (history_range_ok from_ms to_ms) eqn:R; cbn [negb];
    [|eexists; split; [done|]; by intros].
  destruct (machines_get id registry) as [m|]; [|eexists; split; [done|]; by intros].
  destruct (connect_record _ _ _ m) as [c|]; [|eexists; split; [done|]; by intros].
  destruct (open_stream _) as [|[frames|e]] eqn:O; cbn [timed map_err];
    try (eexists; split; [done|]; by intros).
  destruct (history_loop_spec history_loop_fuel frames 0 (started + HISTORY_RESPONSE_TIMEOUT) [])
    as (r & E & Hr).
  { unfold history_loop_fuel. cbn [length]. pose proof (eq_refl : MAX_REMOTE_HISTORY_SAMPLES = 43200). lia. }
  { cbn [length]. pose proof (eq_refl : MAX_REMOTE_HISTORY_SAMPLES = 43200). lia. }
  exists r. split; [done|]. intros l Hl. destruct (Hr l Hl) as (ws & -> & Hlen & Hws & Hend).
  unfold history_range_ok in R. split; [lia|]. split; [done|]. split.
  - apply Forall_forall. intros x Hx. apply in_map_iff in Hx as (w & <- & _).
    apply decoded_sample_finite.
  - exists frames, ws. done.
Qed.

(** ** The limit and a full retention window *)

Lemma history_loop_overflows fuel frames deadline samples :
  MAX_REMOTE_HISTORY_SAMPLES < Z.of_nat (length samples) + Z.of_nat fuel ->
  Z.of_nat (length samples) <= MAX_REMOTE_HISTORY_SAMPLES ->
  (forall i, Z.of_nat i <= MAX_REMOTE_HISTORY_SAMPLES ->
     exists t w, frames i = (t, Done (Ok (Some (RMetricSample w)))) /\ t < deadline) ->
  history_loop fuel frames (length samples) deadline samples = Some (Err HistoryResponseTooLarge).
Proof.
  revert samples. induction fuel as [|fuel IH]; intros samples Hf Hs Hfr; [lia|].
  cbn [history_loop]. destruct (Hfr (length samples) Hs) as (t & w & -> & Ht).
  rewrite (proj2 (Z.leb_gt _ _) Ht). cbn [timed map_err].
  destruct (Z.leb_spec MAX_REMOTE_HISTORY_SAMPLES (Z.of_nat (length samples))); [done|].
  specialize (IH (samples ++ [FromWire.metric_sample w])%list).
  rewrite length_app in IH. cbn [length] in IH. rewrite Nat.add_1_r in IH. apply IH; [lia|lia|done].
Qed.

(** A machine that sampled every two seconds for a day holds one row more than the limit: all
    of them are inside the retention window, ends included, so pruning keeps them, and the
    viewer that asks for them refuses the answer as larger than retention can hold. *)
Lemma full_retention_is_refused now frames wire deadline :
  (forall i, exists t, frames i = (t, Done (Ok (Some (RMetricSample (wire i))))) /\ t < deadline /\
     w_timestamp_ms (wire i) = now - RAW_RETENTION_MS + SAMPLE_INTERVAL_MS * Z.of_nat i) ->
  (forall i, Z.of_nat i <= MAX_REMOTE_HISTORY_SAMPLES ->
     now - RAW_RETENTION_MS <= w_timestamp_ms (wire i) <= now) /\
  history_loop history_loop_fuel frames 0 deadline [] = Some (Err HistoryResponseTooLarge).
Proof.
  intros Hfr. assert (Hmax : MAX_REMOTE_HISTORY_SAMPLES = 43200) by reflexivity. split.
  - intros i Hi. destruct (Hfr i) as (t & _ & _ & ->).
    unfold RAW_RETENTION_MS, SAMPLE_INTERVAL_MS. lia.
  - apply (history_loop_overflows history_loop_fuel frames deadline []).
    + unfold history_loop_fuel. cbn [length]. lia.
    + cbn [length]. lia.
    + intros i _. destruct (Hfr i) as (t & E & Ht & _). eauto.
Qed.

(** ** Pairing, monitors and removal *)

Section FleetOps.
Context {ET : EndpointText} {B64 : Base64} {BJ : JsonCodec PairingBundle anything}.
Context {MJ : JsonCodec Machines machines_finite} (fs_fault : nat -> bool).
Context (uuid_text : Uuid -> string) (parse_uuid : string -> option Uuid).
Context {Url : Type} (parse_relay_url : string -> option Url).

(** Monitoring tasks are numbered as they are spawned; [running] are those not aborted. *)
Record RemoteFleet := {
  f_registry : MachineRegistry;
  f_snapshots : Snapshots;
  f_monitors : list (string * nat);
  f_monitors_poisoned : bool;
  f_spawned : nat;
  f_running : list (nat * string);
}.

Definition abort (task : nat) (running : list (nat * string)) : list (nat * string) :=
  List.filter (fun e => negb (fst e =? task)%nat) running.

Definition abort_opt (task : option nat) (running : list (nat * string)) : list (nat * string) :=
  match task with Some t => abort t running | None => running end.

Definition fleet_load (f : ReadOutcome) : result RemoteFleet RemoteFleetError :=
  let? recs := machines_load f in
  Ok {| f_registry := {| records := recs; poisoned := false; file := f; disk_ops := 0 |};
        f_snapshots := fold_left (fun s m => bt_insert (r_endpoint_id m) (offline m) s)
                         (bt_values recs) [];
        f_monitors := []; f_monitors_poisoned := false; f_spawned := 0; f_running := [] |}.

Definition spawn_monitor (m : RemoteMachineRecord) (f : RemoteFleet) : RemoteFleet :=
  let id := r_endpoint_id m in
  let task := f_spawned f in
  let running := ((task, id) :: f_running f) in
  if f_monitors_poisoned f then
    {| f_registry := f_registry f; f_snapshots := f_snapshots f; f_monitors := f_monitors f;
       f_monitors_poisoned := true; f_spawned := S task; f_running := running |}
  else
    let running := abort_opt (bt_get id (f_monitors f)) running in
    let gone := match machines_contains id (f_registry f) with Ok false => true | _ => false end in
    {| f_registry := f_registry f; f_snapshots := f_snapshots f;
       f_monitors := if gone then bt_remove id (f_monitors f) else bt_insert id task (f_monitors f);
       f_monitors_poisoned := false; f_spawned := S task;
       f_running := if gone then abort task running else running |}.

Definition fleet_start (f : RemoteFleet) : result RemoteFleet RemoteFleetError :=
  let? l := machines_list (f_registry f) in
  Ok (fold_left (fun f m => spawn_monitor m f) l f).

Definition snapshots_at (now_ms : Z) (f : RemoteFleet) : list RemoteMachineSnapshot :=
  (fun s => apply_status (state_at s now_ms) (s_details s) s) <$> bt_values (f_snapshots f).

Definition with_registry (r : MachineRegistry) (f : RemoteFleet) : RemoteFleet :=
  {| f_registry := r; f_snapshots := f_snapshots f; f_monitors := f_monitors f;
     f_monitors_poisoned := f_monitors_poisoned f; f_spawned := f_spawned f;
     f_running := f_running f |}.

(** The three steps of a removal that found the record. *)
Definition stop_monitor (id : string) (f : RemoteFleet) : RemoteFleet :=
  if f_monitors_poisoned f then f
  else
    {| f_registry := f_registry f; f_snapshots := f_snapshots f;
       f_monitors := bt_remove id (f_monitors f); f_monitors_poisoned := false;
       f_spawned := f_spawned f;
       f_running := abort_opt (bt_get id (f_monitors f)) (f_running f) |}.

Definition drop_snapshot (id : string) (f : RemoteFleet) : RemoteFleet :=
  {| f_registry := f_registry f; f_snapshots := bt_remove id (f_snapshots f);
     f_monitors := f_monitors f; f_monitors_poisoned := f_monitors_poisoned f;
     f_spawned := f_spawned f; f_running := f_running f |}.

Definition remove_machine (id : string) (f : RemoteFleet)
  : RemoteFleet * result bool RemoteFleetError :=
  match machines_remove fs_fault id (f_registry f) with
  | (r, Err e) => (with_registry r f, Err e)
  | (r, Ok false) => (with_registry r f, Ok false)
  | (r, Ok true) => (drop_snapshot id (stop_monitor id (with_registry r f)), Ok true)
  end.

Definition validate_bundle (b : PairingBundle) (now_ms : Z) : result unit PairingError :=
  if b_expires_at_ms b <? now_ms then Err Expired
  else if is_nil (b_direct_addresses b) && is_nil (b_relay_urls b) then Err InvalidBundle
  else let? _ := bundle_endpoint_addr parse_relay_url b in Ok tt.

(** What importing finds: the clock at its steps, and the machine it reaches. *)
Record ImportEnv := {
  now_valid : Z;
  now_seen : Z;
  now_recorded : Z;
  import_dial : EndpointId * list (RelayOrIp (Url := Url)) -> Timed ClientConnection;
}.

Definition insert_snapshot (id : string) (s : RemoteMachineSnapshot) (f : RemoteFleet)
  : RemoteFleet :=
  {| f_registry := f_registry f; f_snapshots := bt_insert id s (f_snapshots f);
     f_monitors := f_monitors f; f_monitors_poisoned := f_monitors_poisoned f;
     f_spawned := f_spawned f; f_running := f_running f |}.

(** The exchange with the machine: the pinned node, its first snapshot and its record. *)
Definition pair_exchange (env : ImportEnv) (bundle : PairingBundle) (client : ClientConnection)
  : result (RemoteMachineSnapshot * RemoteMachineRecord) RemoteFleetError :=
  let? response := request client 0
    (Pair {| one_time_secret := b_one_time_secret bundle;
             viewer_endpoint_id := id_text (c_local_id client) |}) "pairing" in
  let? paired := match response with
    | Some (RPair p) => Ok p
    | _ => Err (UnexpectedResponse "pairing response")
    end in
  if negb (accepted paired) then Err PairingRejected
  else if negb (String.eqb (p_node_id paired) (uuid_text (b_node_id bundle))
                && String.eqb (p_endpoint_id paired) (b_endpoint_id bundle))
  then Err IdentityMismatch
  else
    let? info := get_node_info parse_uuid client 1 in
    if negb (node_id info =? b_node_id bundle) then Err IdentityMismatch
    else
      let '(st, lines) := match get_health client 2 with
        | Ok h => (state h, details h)
        | Err _ => (Degraded, ["health_unknown"])
        end in
      let '(path, rtt) := match get_connection_path client 3 with
        | Ok (p, r) => (p, Some r)
        | Err _ => (UnknownPath, None)
        end in
      Ok ({| s_node := info; s_endpoint_id := b_endpoint_id bundle; s_latest := None;
             s_state := st; s_path := path; s_rtt_ms := rtt;
             s_last_seen_ms := Some (now_seen env); s_trend := []; s_details := lines |},
          {| node := info; r_endpoint_id := b_endpoint_id bundle;
             direct_addresses := merged_direct_addresses
               (observed_direct_addresses (c_paths client)) (b_direct_addresses bundle);
             r_relay_urls := b_relay_urls bundle; r_paired_at_ms := now_recorded env;
             last_snapshot := None |}).

Definition import_pairing (env : ImportEnv) (encoded : string) (f : RemoteFleet)
  : RemoteFleet * result RemoteMachineSnapshot RemoteFleetError :=
  match (let? bundle := map_err FPairing (bundle_decode (trim encoded)) in
         let? _ := map_err FPairing (validate_bundle bundle (now_valid env)) in
         let? known := machines_contains (b_endpoint_id bundle) (f_registry f) in
         if (known : bool) then Err AlreadyPaired
         else
           let? address := map_err FPairing (bundle_endpoint_addr parse_relay_url bundle) in
           let? client := timed "connect" (import_dial env address) in
           if negb (String.eqb (id_text (c_remote_id client)) (b_endpoint_id bundle))
           then Err IdentityMismatch
           else pair_exchange env bundle client) with
  | Err e => (f, Err e)
  | Ok (snapshot, m) =>
      match machines_insert fs_fault m (f_registry f) with
      | (r, Err e) => (with_registry r f, Err e)
      | (r, Ok _) =>
          (spawn_monitor m (insert_snapshot (r_endpoint_id m) snapshot (with_registry r f)),
           Ok snapshot)
      end
  end.

(** ** Lemmas *)

Lemma abort_In e task running :
  In e (abort task running) <-> In e running /\ fst e <> task.
Proof.
  unfold abort. rewrite filter_In. destruct (Nat.eqb_spec (fst e) task); simpl; intuition done.
Qed.

Lemma abort_opt_In e o running :
  In e (abort_opt o running) <-> In e running /\ o <> Some (fst e).
Proof.
  destruct o as [t|]; simpl; [rewrite abort_In|]; split; intros [? ?] || intros ?; split_and?;
    try done; congruence.
Qed.

(** Handles name distinct tasks that have been spawned. *)
Definition handles_ok (handles : list (string * nat)) (spawned : nat) : Prop :=
  bt_sorted handles /\
  (forall id t, bt_get id handles = Some t -> (t < spawned)%nat) /\
  (forall id1 id2 t, bt_get id1 handles = Some t -> bt_get id2 handles = Some t -> id1 = id2).

Lemma handles_remove id l n : handles_ok l n -> handles_ok (bt_remove id l) n.
Proof.
  intros (Hs & Hlt & Hinj).
  assert (Hget : forall k t, bt_get k (bt_remove id l) = Some t -> bt_get k l = Some t).
  { intros k t. destruct (decide (id = k)) as [<-|Hne]; [by rewrite bt_get_remove_eq|].
    by rewrite bt_get_remove_ne. }
  split; [by apply bt_remove_sorted|]. split; eauto.
Qed.

Lemma handles_insert id l n : handles_ok l n -> handles_ok (bt_insert id n l) (S n).
Proof.
  intros (Hs & Hlt & Hinj).
  assert (Hget : forall k t, bt_get k (bt_insert id n l) = Some t ->
                 k = id /\ t = n \/ k <> id /\ bt_get k l = Some t /\ (t < n)%nat).
  { intros k t. destruct (decide (id = k)) as [<-|Hne].
    - rewrite bt_get_insert_eq. intros [= <-]. by left.
    - rewrite bt_get_insert_ne by done. intros E. right. eauto. }
  split; [by apply bt_insert_sorted|]. split.
  - intros k t [[_ ->]|(_ & _ & ?)]%Hget; lia.
  - intros k1 k2 t [[-> ->]|(? & E1 & ?)]%Hget [[-> ?]|(? & E2 & ?)]%Hget; try done; try lia. eauto.
Qed.

Lemma handles_S l n : handles_ok l n -> handles_ok l (S n).
Proof. intros (Hs & Hlt & Hinj). split; [done|]. split; [|done]. intros k t E. apply Hlt in E. lia. Qed.

(** Every running task for a machine is the one its handle names. *)
Definition tracked (f : RemoteFleet) : Prop :=
  f_monitors_poisoned f = false /\
  (forall t id, In (t, id) (f_running f) -> bt_get id (f_monitors f) = Some t) /\
  handles_ok (f_monitors f) (f_spawned f).

(** Nothing runs for the machine and nothing is tracked for it. *)
Definition unmonitored (id : string) (f : RemoteFleet) : Prop :=
  bt_get id (f_monitors f) = None /\ (forall t, ~ In (t, id) (f_running f)).

Definition unpaired (id : string) (f : RemoteFleet) : Prop :=
  poisoned (f_registry f) = false /\ bt_get id (records (f_registry f)) = None.

Lemma spawn_running m f t id :
  tracked f -> In (t, id) (f_running (spawn_monitor m f)) ->
  bt_get id (f_monitors (spawn_monitor m f)) = Some t.
Proof.
  intros (Hp & Hr & Hs). unfold spawn_monitor. rewrite Hp. cbn [f_running f_monitors].
  set (gone := match machines_contains _ _ with Ok false => true | _ => false end).
  set (run := abort_opt _ _). intros Hin.
  assert (Hrun : In (t, id) run) by (destruct gone; [by apply abort_In in Hin as [? _]|done]).
  apply abort_opt_In in Hrun as [[[= <- <-]|Hold] Hne].
  - destruct gone.
    + apply abort_In in Hin as [_ Hx]. done.
    + apply bt_get_insert_eq.
  - pose proof (Hr t id Hold) as Hg.
    assert (Hid : r_endpoint_id m <> id) by (intros E; rewrite E in Hne; done).
    destruct gone; [by rewrite bt_get_remove_ne|by rewrite bt_get_insert_ne].
Qed.

Lemma spawn_tracked m f : tracked f -> tracked (spawn_monitor m f).
Proof.
  intros Ht. pose proof Ht as (Hp & Hr & Hs). split; [|split].
  - unfold spawn_monitor. by rewrite Hp.
  - intros t id. by apply spawn_running.
  - unfold spawn_monitor. rewrite Hp. cbn [f_monitors f_spawned].
    destruct (match machines_contains _ _ with Ok false => true | _ => false end);
      auto using handles_remove, handles_insert, handles_S.
Qed.

Lemma tracked_handle f t id :
  tracked f -> bt_get id (f_monitors f) = None -> ~ In (t, id) (f_running f).
Proof. intros (_ & Hr & _) Hn Hin. pose proof (Hr t id Hin). congruence. Qed.

Lemma spawn_unpaired m f :
  tracked f -> unpaired (r_endpoint_id m) f -> unmonitored (r_endpoint_id m) (spawn_monitor m f).
Proof.
  intros Ht [Hpo Hu]. assert (Hn : bt_get (r_endpoint_id m) (f_monitors (spawn_monitor m f)) = None).
  { pose proof Ht as (Hp & _ & Hs & _). unfold spawn_monitor. rewrite Hp. cbn [f_monitors].
    unfold machines_contains, bt_mem. rewrite Hpo, Hu. by apply bt_get_remove_eq. }
  split; [done|]. intros t. by apply tracked_handle; [apply spawn_tracked|].
Qed.

Lemma stop_tracked id f : tracked f -> tracked (stop_monitor id f).
Proof.
  intros (Hp & Hr & Hs). unfold stop_monitor. rewrite Hp. split; [done|]. cbn [f_running f_monitors f_spawned].
  split; [|by apply handles_remove]. intros t id' [Hin Hne]%abort_opt_In.
  pose proof (Hr t id' Hin) as Hg.
  rewrite bt_get_remove_ne; [done|]. intros ->. done.
Qed.

Lemma stop_unmonitored id f : tracked f -> unmonitored id (stop_monitor id f).
Proof.
  intros Ht. assert (Hn : bt_get id (f_monitors (stop_monitor id f)) = None).
  { pose proof Ht as (Hp & _ & Hs & _). unfold stop_monitor. rewrite Hp. by apply bt_get_remove_eq. }
  split; [done|]. intros t. by apply tracked_handle; [apply stop_tracked|].
Qed.

(** ** Interleavings of a pairing and a removal of one machine *)

Inductive FleetStep := ShowSnapshot | SpawnMonitor | DropRecord | StopMonitor | DropSnapshot.

Definition fleet_step (m : RemoteMachineRecord) (s : RemoteMachineSnapshot) (f : RemoteFleet)
  (step : FleetStep) : RemoteFleet :=
  match step with
  | ShowSnapshot => insert_snapshot (r_endpoint_id m) s f
  | SpawnMonitor => spawn_monitor m f
  | DropRecord => with_registry (fst (machines_remove fs_fault (r_endpoint_id m) (f_registry f))) f
  | StopMonitor => stop_monitor (r_endpoint_id m) f
  | DropSnapshot => drop_snapshot (r_endpoint_id m) f
  end.

(** All ways to interleave two sequences of steps. *)
Fixpoint interleavings {A} (a : list A) : list A -> list (list A) :=
  fix inner (b : list A) : list (list A) :=
    match a, b with
    | [], _ => [b]
    | _, [] => [a]
    | x :: a', y :: b' => ((cons x <$> interleavings a' b) ++ (cons y <$> inner b'))%list
    end.

(** The rest of a pairing whose record is on disk, and a removal that finds it. *)
Definition pairing_tail : list FleetStep := [ShowSnapshot; SpawnMonitor].
Definition removal : list FleetStep := [DropRecord; StopMonitor; DropSnapshot].

Definition fleet_ok (f : RemoteFleet) : Prop :=
  tracked f /\ poisoned (f_registry f) = false /\ bt_sorted (records (f_registry f)) /\
  machines_finite (records (f_registry f)).

Section Race.
Context (m : RemoteMachineRecord) (s : RemoteMachineSnapshot).
Context (Hfs : forall n, fs_fault n = false).
Let step := fleet_step m s.
Let id := r_endpoint_id m.

Lemma machines_remove_ok r :
  poisoned r = false -> bt_sorted (records r) -> machines_finite (records r) ->
  poisoned (fst (machines_remove fs_fault id r)) = false /\
  bt_sorted (records (fst (machines_remove fs_fault id r))) /\
  machines_finite (records (fst (machines_remove fs_fault id r))) /\
  bt_get id (records (fst (machines_remove fs_fault id r))) = None.
Proof.
  intros Hp Hs Hf. unfold machines_remove. rewrite Hp. destruct (bt_mem id (records r)) eqn:M; simpl.
  - rewrite publish_machines_fst, publish_poisoned.
    assert (Hn : machines_finite (bt_remove id (records r))) by (by apply finite_remove).
    pose proof (publish_succeeds fs_fault _ true r Hfs Hn) as Hok.
    pose proof (publish_cases fs_fault (bt_remove id (records r)) true r) as P.
    destruct (publish fs_fault _ true r) as [r' res]. simpl in *. rewrite Hok in P.
    destruct P as (_ & -> & _).
    auto using bt_remove_sorted, bt_get_remove_eq.
  - split; [done|]. split; [done|]. split; [done|]. unfold bt_mem in M. by destruct (bt_get id (records r)).
Qed.

Lemma step_ok f x : fleet_ok f -> fleet_ok (step f x).
Proof.
  intros (Ht & Hp & Hs & Hf). destruct x; simpl.
  - done.
  - split; [by apply spawn_tracked|]. unfold spawn_monitor. by destruct (f_monitors_poisoned f).
  - destruct (machines_remove_ok (f_registry f) Hp Hs Hf) as (H1 & H2 & H3 & _). done.
  - split; [by apply stop_tracked|]. unfold stop_monitor. by destruct (f_monitors_poisoned f).
  - done.
Qed.

Lemma drop_unpaired f : fleet_ok f -> unpaired id (step f DropRecord).
Proof.
  intros (_ & Hp & Hs & Hf).
  by destruct (machines_remove_ok (f_registry f) Hp Hs Hf) as (H1 & _ & _ & H3).
Qed.

Lemma step_unpaired f x : unpaired id f -> fleet_ok f -> unpaired id (step f x).
Proof.
  intros Hu Hok. destruct x; simpl; try done.
  - unfold spawn_monitor. by destruct (f_monitors_poisoned f).
  - by apply drop_unpaired.
  - unfold stop_monitor. by destruct (f_monitors_poisoned f).
Qed.

(** Once unpaired, every step of the race keeps or makes the machine unmonitored. *)
Lemma step_unmonitored f x :
  unpaired id f -> fleet_ok f -> unmonitored id f \/ x = SpawnMonitor \/ x = StopMonitor ->
  unmonitored id (step f x).
Proof.
  intros Hu (Ht & _) Hx. destruct x; simpl; try (destruct Hx as [?|[?|?]]; done).
  - by apply spawn_unpaired.
  - by apply stop_unmonitored.
Qed.

Lemma race_unmonitored f sched :
  fleet_ok f -> In sched (interleavings pairing_tail removal) ->
  unpaired id (fold_left step sched f) /\ unmonitored id (fold_left step sched f).
Proof.
  intros Hok Hin. simpl in Hin.
  assert (O := step_ok). assert (D := drop_unpaired). assert (U := step_unpaired).
  assert (W := step_unmonitored).
  repeat destruct Hin as [<-|Hin]; try done; cbn [fold_left];
    (split; [repeat first [apply D; solve [auto 10] | apply U; [|solve [auto 10]]]|]);
    repeat (apply W; [repeat first [apply D; solve [auto 10] | apply U; [|solve [auto 10]]]
                     |solve [auto 10]
                     |first [right; solve [auto] | left]]).
Qed.

End Race.

Definition ghost_schedule : list FleetStep :=
  [DropRecord; StopMonitor; DropSnapshot; ShowSnapshot; SpawnMonitor].

(** A removal that completes between a pairing's registry write and its snapshot leaves the
    snapshot of a machine that is not paired: shown until the process restarts, and refused
    by a further removal. *)
Lemma removal_race_leaves_ghost m s f :
  (forall n, fs_fault n = false) -> fleet_ok f ->
  let f' := fold_left (fleet_step m s) ghost_schedule f in
  In ghost_schedule (interleavings pairing_tail removal) /\
  bt_get (r_endpoint_id m) (f_snapshots f') = Some s /\
  snd (remove_machine (r_endpoint_id m) f') = Ok false.
Proof.
  intros Hfs Hok f'.
  assert (Hin : In ghost_schedule (interleavings pairing_tail removal)) by (simpl; tauto).
  split; [done|]. destruct (race_unmonitored m s Hfs f _ Hok Hin) as [[Hp Hg] _]. split.
  - unfold f', ghost_schedule. cbn [fold_left fleet_step].
    match goal with |- context [spawn_monitor m ?g] => set (f4 := g) end.
    assert (E : f_snapshots (spawn_monitor m f4) = f_snapshots f4)
      by (unfold spawn_monitor; by destruct (f_monitors_poisoned f4)).
    rewrite E. apply bt_get_insert_eq.
  - unfold remove_machine, machines_remove, bt_mem. fold f' in Hp, Hg. by rewrite Hp, Hg.
Qed.

(** ** Lemmas: removing and importing *)

Lemma stop_monitor_other id f :
  f_registry (stop_monitor id f) = f_registry f /\ f_snapshots (stop_monitor id f) = f_snapshots f /\
  (forall other, other <> id -> bt_get other (f_monitors (stop_monitor id f)) = bt_get other (f_monitors f)).
Proof.
  unfold stop_monitor. destruct (f_monitors_poisoned f); [done|]. split; [done|]. split; [done|].
  intros other Hne. by apply bt_get_remove_ne.
Qed.

Lemma stop_monitor_running id other t f :
  tracked f -> other <> id ->
  In (t, other) (f_running (stop_monitor id f)) <-> In (t, other) (f_running f).
Proof.
  intros (Hp & Hr & _ & _ & Hinj) Hne. unfold stop_monitor. rewrite Hp. simpl. rewrite abort_opt_In. simpl.
  split; [by intros [? _]|]. intros Hin. split; [done|]. intros E.
  apply Hne. by apply (Hinj _ _ t (Hr t other Hin)).
Qed.

(** Nothing anyone can observe has changed, on disk or in memory. *)
Definition untouched (f f' : RemoteFleet) : Prop :=
  records (f_registry f') = records (f_registry f) /\ file (f_registry f') = file (f_registry f) /\
  f_snapshots f' = f_snapshots f /\ f_monitors f' = f_monitors f /\ f_running f' = f_running f.

(** The other machines keep their record, snapshot, handle and task. *)
Definition others_kept (id : string) (f f' : RemoteFleet) : Prop :=
  forall other, other <> id ->
    bt_get other (records (f_registry f')) = bt_get other (records (f_registry f)) /\
    bt_get other (f_snapshots f') = bt_get other (f_snapshots f) /\
    bt_get other (f_monitors f') = bt_get other (f_monitors f) /\
    (forall t, In (t, other) (f_running f') <-> In (t, other) (f_running f)).

Lemma machines_remove_cases id r :
  bt_sorted (records r) ->
  match machines_remove fs_fault id r with
  | (r', Ok true) =>
      bt_mem id (records r) = true /\ poisoned r' = poisoned r /\
      records r' = bt_remove id (records r) /\
      (machines_finite (records r) -> machines_load (file r') = Ok (records r'))
  | (r', Ok false) => r' = r /\ bt_mem id (records r) = false
  | (r', Err _) => records r' = records r /\ file r' = file r
  end.
Proof.
  intros Hs. unfold machines_remove. destruct (poisoned r) eqn:Hp; [done|].
  destruct (bt_mem id (records r)) eqn:M; [|done].
  pose proof (publish_machines_cases fs_fault (bt_remove id (records r)) true r) as P.
  pose proof (publish_machines_fst fs_fault (bt_remove id (records r)) true r) as F.
  pose proof (publish_poisoned fs_fault (bt_remove id (records r)) true r) as Q.
  destruct (publish_machines _ _ true r) as [r' [b|e]]; simpl in F; [|by destruct P].
  destruct P as (-> & E & Hl). rewrite <- F in Q. split; [done|]. split; [congruence|].
  split; [done|]. intros Hf. unfold machines_load. rewrite E, Hl; [done|]. by apply finite_remove.
Qed.

(** Removing a machine forgets it: its record is gone from memory and from the file a
    restart would load, its monitoring task is stopped and its snapshot dropped, and no other
    machine is touched. A machine that is not paired is reported as such, and a removal that
    fails leaves the fleet as it was. *)
Theorem removal_forgets_machine id f :
  fleet_ok f -> bt_sorted (f_snapshots f) ->
  match remove_machine id f with
  | (f', Ok true) =>
      bt_mem id (records (f_registry f)) = true /\
      machines_load (file (f_registry f')) = Ok (records (f_registry f')) /\
      unpaired id f' /\ unmonitored id f' /\ bt_get id (f_snapshots f') = None /\
      others_kept id f f'
  | (f', Ok false) => bt_mem id (records (f_registry f)) = false /\ untouched f f'
  | (f', Err _) => untouched f f'
  end.
Proof.
  intros (Ht & Hp & Hs & Hf) Hsn. unfold remove_machine.
  pose proof (machines_remove_cases id (f_registry f) Hs) as P.
  destruct (machines_remove fs_fault id (f_registry f)) as [r [[]|e]].
  - destruct P as (Hm & Hpo & E & Hl). set (f1 := with_registry r f).
    destruct (stop_monitor_other id f1) as (R1 & R2 & R3).
    assert (Ht1 : tracked f1) by done.
    split; [done|]. unfold drop_snapshot, unpaired. cbn [f_registry f_snapshots].
    rewrite R1, R2. simpl. split; [by apply Hl|]. rewrite Hpo, E.
    split; [split; [done|by apply bt_get_remove_eq]|].
    split; [exact (stop_unmonitored id f1 Ht1)|]. split; [by apply bt_get_remove_eq|].
    intros other Hne. cbn [f_registry f_snapshots f_monitors f_running].
    rewrite R3 by done. simpl. rewrite E, !bt_get_remove_ne by done.
    split_and!; try done. intros t. by rewrite stop_monitor_running.
  - by destruct P as [-> ?].
  - by destruct P.
Qed.

(** A removal wins against a pairing it races with: however the steps that finish a
    pairing (show the snapshot, start the monitor) interleave with those of the removal of
    the same machine, in the end the machine is not paired and no task runs for it. *)
Theorem removal_wins_every_race m s f sched :
  (forall n, fs_fault n = false) -> fleet_ok f ->
  In sched (interleavings pairing_tail removal) ->
  let f' := fold_left (fleet_step m s) sched f in
  unpaired (r_endpoint_id m) f' /\ unmonitored (r_endpoint_id m) f'.
Proof. intros Hfs Hok Hin. by apply race_unmonitored. Qed.

Lemma spawn_paired m f :
  tracked f -> poisoned (f_registry f) = false -> bt_mem (r_endpoint_id m) (records (f_registry f)) = true ->
  exists t, bt_get (r_endpoint_id m) (f_monitors (spawn_monitor m f)) = Some t /\
            In (t, r_endpoint_id m) (f_running (spawn_monitor m f)).
Proof.
  intros (Hp & Hr & _ & Hlt & _) Hpo Hm. exists (f_spawned f). unfold spawn_monitor. rewrite Hp.
  unfold machines_contains. rewrite Hpo, Hm. simpl. split; [apply bt_get_insert_eq|].
  apply abort_opt_In. split; [by left|]. simpl. intros E. apply Hlt in E. lia.
Qed.

(** What the exchange with a machine has to establish before it is paired. *)
Lemma pair_exchange_pins env bundle client snapshot m :
  pair_exchange env bundle client = Ok (snapshot, m) ->
  (exists p, request client 0
     (Pair {| one_time_secret := b_one_time_secret bundle;
              viewer_endpoint_id := id_text (c_local_id client) |}) "pairing" = Ok (Some (RPair p)) /\
     accepted p = true /\ p_node_id p = uuid_text (b_node_id bundle) /\
     p_endpoint_id p = b_endpoint_id bundle) /\
  node m = s_node snapshot /\ node_id (node m) = b_node_id bundle /\
  r_endpoint_id m = b_endpoint_id bundle /\ last_snapshot m = None /\
  ((forall h, get_health client 2 <> Ok h) -> s_state snapshot = Degraded).
Proof.
  unfold pair_exchange. destruct (request client 0 _ _) as [[[]|]|]; simpl; try done.
  destruct (accepted p) eqn:Ha; simpl; [|done].
  destruct (String.eqb_spec (p_node_id p) (uuid_text (b_node_id bundle))) as [E1|]; simpl; [|done].
  destruct (String.eqb_spec (p_endpoint_id p) (b_endpoint_id bundle)) as [E2|]; simpl; [|done].
  destruct (get_node_info parse_uuid client 1) as [info|]; simpl; [|done].
  destruct (Z.eqb_spec (node_id info) (b_node_id bundle)) as [E3|]; simpl; [|done].
  destruct (get_health client 2) as [h|] eqn:Hh; destruct (get_connection_path client 3) as [[q t]|];
    intros [= <- <-]; simpl; (split; [eauto 6|]); split_and!; try done; intros Hno; by destruct (Hno h).
Qed.

Lemma pair_exchange_finite env bundle client snapshot m :
  pair_exchange env bundle client = Ok (snapshot, m) -> snapshot_finite snapshot.
Proof.
  unfold pair_exchange. destruct (request client 0 _ _) as [[[]|]|]; simpl; try done.
  destruct (negb _); [done|]. destruct (negb _); [done|].
  destruct (get_node_info parse_uuid client 1) as [info|]; simpl; [|done]. destruct (negb _); [done|].
  destruct (get_health client 2) as [h|]; destruct (get_connection_path client 3) as [[q t]|];
    intros [= <- _]; split; (done || constructor).
Qed.

(** The machine answered the secret of the bundle as the node and endpoint the bundle names,
    and its own description [info] names that node too. *)
Definition vouched (bundle : PairingBundle) (client : ClientConnection) (info : NodeInfo) : Prop :=
  (exists p, request client 0
     (Pair {| one_time_secret := b_one_time_secret bundle;
              viewer_endpoint_id := id_text (c_local_id client) |}) "pairing" = Ok (Some (RPair p)) /\
     accepted p = true /\ p_node_id p = uuid_text (b_node_id bundle) /\
     p_endpoint_id p = b_endpoint_id bundle) /\
  get_node_info parse_uuid client 1 = Ok info /\ node_id info = b_node_id bundle.

(** The record of a machine paired by a bundle. *)
Definition bundle_record (env : ImportEnv) (bundle : PairingBundle) (client : ClientConnection)
  (info : NodeInfo) : RemoteMachineRecord :=
  {| node := info; r_endpoint_id := b_endpoint_id bundle;
     direct_addresses := merged_direct_addresses
       (observed_direct_addresses (c_paths client)) (b_direct_addresses bundle);
     r_relay_urls := b_relay_urls bundle; r_paired_at_ms := now_recorded env;
     last_snapshot := None |}.

Lemma pair_exchange_vouched env bundle client snapshot m :
  pair_exchange env bundle client = Ok (snapshot, m) ->
  vouched bundle client (s_node snapshot) /\ s_endpoint_id snapshot = b_endpoint_id bundle /\
  m = bundle_record env bundle client (s_node snapshot).
Proof.
  intros E. destruct (pair_exchange_pins _ _ _ _ _ E) as (Hp & _). unfold vouched.
  unfold pair_exchange in E.
  destruct (request client 0 _ _) as [[[]|]|]; simpl in E; try done.
  destruct (negb _); [done|]. destruct (negb _); [done|].
  destruct (get_node_info parse_uuid client 1) as [info|]; simpl in E; [|done].
  destruct (Z.eqb_spec (node_id info) (b_node_id bundle)) as [E3|]; simpl in E; [|done].
  destruct (get_health client 2) as [h|]; destruct (get_connection_path client 3) as [[q t]|];
    injection E as <- <-; by split_and!.
Qed.

(** A machine whose record was inserted is on disk, shown and monitored, and the other
    machines are as they were. *)
Lemma recorded_import m snapshot f r u :
  fleet_ok f -> last_snapshot m = None -> machines_insert fs_fault m (f_registry f) = (r, Ok u) ->
  let f' := spawn_monitor m (insert_snapshot (r_endpoint_id m) snapshot (with_registry r f)) in
  records (f_registry f') = bt_insert (r_endpoint_id m) m (records (f_registry f)) /\
  machines_load (file (f_registry f')) = Ok (records (f_registry f')) /\
  f_snapshots f' = bt_insert (r_endpoint_id m) snapshot (f_snapshots f) /\
  f_monitors f' = bt_insert (r_endpoint_id m) (f_spawned f) (f_monitors f) /\
  f_running f' = abort_opt (bt_get (r_endpoint_id m) (f_monitors f))
                   ((f_spawned f, r_endpoint_id m) :: f_running f).
Proof.
  intros (Ht & Hp & Hs & Hf) Hn. unfold machines_insert. rewrite Hp.
  set (next := bt_insert (r_endpoint_id m) m (records (f_registry f))).
  pose proof (publish_machines_cases fs_fault next tt (f_registry f)) as C.
  pose proof (publish_machines_fst fs_fault next tt (f_registry f)) as F.
  pose proof (publish_poisoned fs_fault next tt (f_registry f)) as Q. intros E. rewrite E in C, F. simpl in F.
  destruct C as (_ & Er & Hl). rewrite <- F, Hp in Q. unfold spawn_monitor, machines_contains.
  cbn [insert_snapshot with_registry f_registry f_monitors_poisoned f_monitors f_snapshots f_spawned f_running].
  assert (Hm : bt_mem (r_endpoint_id m) next = true) by (unfold bt_mem, next; by rewrite bt_get_insert_eq).
  rewrite (proj1 Ht), Q, Er, Hm. split_and!; try done.
  cbn [f_registry]. unfold machines_load. rewrite Hl; [by rewrite Er|]. apply finite_insert; [done|]. intros p. by rewrite Hn.
Qed.

(** Registering a new task for one machine stops no task of another. *)
Lemma other_tasks_run id f e :
  tracked f -> snd e <> id ->
  In e (abort_opt (bt_get id (f_monitors f)) ((f_spawned f, id) :: f_running f)) <-> In e (f_running f).
Proof.
  intros (_ & Hr & _ & _ & Hinj) Hne. rewrite abort_opt_In. cbn [In]. destruct e as [t k]. cbn [fst snd] in *.
  split; [intros [[[= _ ->]|?] _]; done|]. intros Hin. split; [by right|]. intros E.
  pose proof (Hr _ _ Hin). apply Hne. eauto.
Qed.

Lemma own_task_runs id f t :
  tracked f ->
  In (t, id) (abort_opt (bt_get id (f_monitors f)) ((f_spawned f, id) :: f_running f)) <-> t = f_spawned f.
Proof.
  intros (_ & Hr & _ & Hlt & _). rewrite abort_opt_In. cbn [In fst]. split.
  - intros [[[= <-]|Hin] Hne]; [done|]. by destruct Hne; apply Hr.
  - intros ->. split; [by left|]. intros E. apply Hlt in E. lia.
Qed.

(** C19: Importing a bundle pairs the machine the bundle names and no other. When an import
    succeeds, the bundle was not expired and its machine not paired before; the QUIC peer that
    was reached is the bundle's endpoint; that peer accepted the bundle's secret, answering as
    the bundle's node and endpoint, and its own description names the bundle's node. The
    registry then has exactly one record more, built from the bundle and that description, and
    is on disk; one snapshot more is shown (never healthier than degraded while its health is
    unknown); exactly one task monitors the machine, a new one; and every other machine keeps its record,
    its snapshot, its handle and its task. An import that fails leaves the fleet as it was. *)
Theorem import_pins_identity env text f :
  fleet_ok f ->
  match import_pairing env text f with
  | (f', Ok snapshot) =>
      exists bundle client addr,
        let id := b_endpoint_id bundle in
        let m := bundle_record env bundle client (s_node snapshot) in
        bundle_decode (trim text) = Ok bundle /\ now_valid env <= b_expires_at_ms bundle /\
        bt_get id (records (f_registry f)) = None /\
        bundle_endpoint_addr parse_relay_url bundle = Ok addr /\
        import_dial env addr = Done (Ok client) /\ id_text (c_remote_id client) = id /\
        vouched bundle client (s_node snapshot) /\ s_endpoint_id snapshot = id /\
        ((forall h, get_health client 2 <> Ok h) -> s_state snapshot = Degraded) /\
        records (f_registry f') = bt_insert id m (records (f_registry f)) /\
        machines_load (file (f_registry f')) = Ok (records (f_registry f')) /\
        f_snapshots f' = bt_insert id snapshot (f_snapshots f) /\
        f_monitors f' = bt_insert id (f_spawned f) (f_monitors f) /\
        (forall t, In (t, id) (f_running f') <-> t = f_spawned f) /\
        (forall e, snd e <> id -> In e (f_running f') <-> In e (f_running f))
  | (f', Err _) => untouched f f'
  end.
Proof.
  intros Hok. pose proof Hok as (Ht & Hp & Hs & Hf). unfold import_pairing.
  destruct (bundle_decode (trim text)) as [bundle|]; simpl; [|done].
  unfold validate_bundle. destruct (Z.ltb_spec (b_expires_at_ms bundle) (now_valid env)); simpl; [done|].
  destruct (is_nil _ && is_nil _); simpl; [done|].
  destruct (bundle_endpoint_addr parse_relay_url bundle) as [addr|] eqn:Ea; simpl; [|done].
  unfold machines_contains at 1. rewrite Hp. simpl.
  destruct (bt_mem (b_endpoint_id bundle) (records (f_registry f))) eqn:Hm; simpl; [done|].
  unfold timed. destruct (import_dial env addr) as [|[client|]] eqn:Ed; simpl; try done.
  destruct (String.eqb_spec (id_text (c_remote_id client)) (b_endpoint_id bundle)) as [Ec|]; simpl; [|done].
  destruct (pair_exchange env bundle client) as [[snapshot m]|] eqn:Ep; [|done].
  destruct (pair_exchange_pins _ _ _ _ _ Ep) as (_ & _ & _ & P3 & P4 & P5).
  destruct (pair_exchange_vouched _ _ _ _ _ Ep) as (V1 & V2 & V3).
  destruct (machines_insert fs_fault m (f_registry f)) as [r [u|e]] eqn:Ei.
  - pose proof (recorded_import m snapshot f r u Hok P4 Ei) as (R1 & R2 & R3 & R4 & R5). rewrite P3 in *.
    exists bundle, client, addr. rewrite <- V3, R5. split_and!; try done.
    + unfold bt_mem in Hm. by destruct (bt_get _ _).
    + intros t. by apply own_task_runs.
    + intros e He. by apply other_tasks_run.
  - unfold machines_insert in Ei. rewrite Hp in Ei.
    pose proof (publish_machines_cases fs_fault (bt_insert (r_endpoint_id m) m (records (f_registry f))) tt (f_registry f)) as C.
    rewrite Ei in C. by destruct C.
Qed.

End FleetOps.

(** ** Witnesses: a fleet without machines, and one with a machine being monitored *)

Definition no_fault (n : nat) : bool := false.

Definition empty_fleet : RemoteFleet :=
  {| f_registry := empty_machines; f_snapshots := []; f_monitors := [];
     f_monitors_poisoned := false; f_spawned := 0; f_running := [] |}.

Lemma empty_fleet_ok : fleet_ok empty_fleet.
Proof. repeat split; done || constructor. Qed.

Definition demo_bundle : PairingBundle :=
  {| format_version := 1; b_node_id := 4; b_endpoint_id := "111"; b_direct_addresses := [SockV4 1 2];
     b_relay_urls := []; b_one_time_secret := "s"; b_expires_at_ms := 100 |}.

Definition bundle_text : string := match bundle_encode demo_bundle with Ok t => t | Err _ => "" end.

(** A machine that accepts the pairing and does not answer about its health. *)
Definition pairing_client : ClientConnection :=
  {| c_remote_id := 3; c_local_id := 9; c_paths := [];
     answer := fun n _ =>
       match n with
       | 0%nat => Done (Ok (Some (RPair {| accepted := true; p_node_id := unary_text 4;
                                           p_endpoint_id := "111" |})))
       | 1%nat => Done (Ok (Some (RNodeInfo (ToWire.node_info unary_text unary_text demo_node 3))))
       | _ => TimedOut
       end |}.

Definition demo_import : ImportEnv (Url := string) :=
  {| now_valid := 10; now_seen := 11; now_recorded := 12;
     import_dial := fun _ => Done (Ok pairing_client) |}.

Definition demo_imported : RemoteFleet * result RemoteMachineSnapshot RemoteFleetError :=
  import_pairing no_fault unary_text parse_unary Some demo_import bundle_text empty_fleet.

Lemma import_pins_identity_witness :
  match demo_imported with
  | (f', Ok snapshot) => exists m, records (f_registry f') = [("111", m)] /\ node m = demo_node
  | _ => False
  end.
Proof.
  pose proof (import_pins_identity no_fault unary_text parse_unary Some demo_import bundle_text
                empty_fleet empty_fleet_ok) as H.
  fold demo_imported in H. vm_compute in H. vm_compute.
  destruct H as (b & c & a & [= <-] & _ & _ & _ & [= <-] & _ & _ & _ & _ & Hg & _).
  eexists. split; [exact Hg|reflexivity].
Defined.

Definition paired_registry : MachineRegistry :=
  fst (machines_insert no_fault demo_record empty_machines).

Definition paired_fleet : RemoteFleet :=
  {| f_registry := paired_registry; f_snapshots := [("111", seen_snapshot)];
     f_monitors := [("111", 0%nat)]; f_monitors_poisoned := false; f_spawned := 1;
     f_running := [(0%nat, "111")] |}.

Lemma demo_record_finite : record_finite demo_record.
Proof. done. Qed.

Lemma paired_registry_ok : registry_ok paired_registry.
Proof.
  apply (machine_step_ok no_fault empty_machines (Insert demo_record)); [exact demo_record_finite|].
  repeat split; done || constructor.
Qed.

Lemma paired_handles_ok : handles_ok [("111", 0%nat)] 1.
Proof.
  apply (handles_insert "111" [] 0). split; [constructor|]. split; done.
Qed.

Lemma paired_fleet_ok : fleet_ok paired_fleet.
Proof.
  destruct paired_registry_ok as [[_ Hs] [_ Hf]]. split; [|done].
  split; [done|]. split; [|exact paired_handles_ok]. intros t id [[= <- <-]|[]]. reflexivity.
Qed.

Lemma removal_forgets_machine_witness :
  unmonitored "111" (fst (remove_machine no_fault "111" paired_fleet)) /\
  bt_get "111" (f_snapshots (fst (remove_machine no_fault "111" paired_fleet))) = None.
Proof.
  pose proof (removal_forgets_machine no_fault "111" paired_fleet paired_fleet_ok) as H.
  destruct (remove_machine no_fault "111" paired_fleet) as [f' r] eqn:E.
  assert (Hr : r = Ok true) by (change r with (snd (f', r)); rewrite <- E; vm_compute; reflexivity).
  rewrite Hr in H. simpl. destruct H as (_ & _ & _ & H1 & H2 & _); [repeat constructor|]. done.
Defined.

Lemma removal_wins_every_race_witness :
  unmonitored "111" (fold_left (fleet_step no_fault demo_record seen_snapshot)
    [ShowSnapshot; DropRecord; StopMonitor; SpawnMonitor; DropSnapshot] paired_fleet).
Proof.
  apply (removal_wins_every_race no_fault demo_record seen_snapshot paired_fleet).
  - reflexivity.
  - exact paired_fleet_ok.
  - simpl. tauto.
Defined.

Definition demo_monitor : MonitorState :=
  {| registry := paired_registry; snapshots := [("111", seen_snapshot)]; record := demo_record;
     last_persisted := None |}.

Definition nan_sample : MetricSample :=
  {| timestamp_ms := 5; sequence := 1; cpu_percent := Some SpecFloat.S754_nan;
     memory_used_bytes := None; memory_total_bytes := None; swap_used_bytes := None;
     swap_total_bytes := None; disks := []; network := None; temperature := None;
     uptime_seconds := 5; errors := [] |}.

(** A session in which the peer sends a reading that is not a number. *)
Definition nan_client : ClientConnection :=
  {| c_remote_id := 3; c_local_id := 9; c_paths := [];
     answer := fun n body =>
       match n with
       | 2%nat => Done (Ok (Some (RHealth (ToWire.health
           {| state := Healthy; collector_degraded := false; storage_degraded := false;
              remote_listener_degraded := false; details := [] |}))))
       | 3%nat => Done (Ok (Some (RConnectionPath (ToWire.connection_details LanDirect 4))))
       | _ => answer demo_client n body
       end |}.

Definition nan_round : Round (Url := string) :=
  {| session := {| dial := fun _ => Done (Ok nan_client); started_ms := 1; watch := Done (Ok tt);
                   session_events :=
                     [StreamFrame (Done (Ok (Some (RMetricSample (ToWire.metric_sample nan_sample))))) 7 8 0] |};
     failed_at_ms := 2; elapsed_ms := 3 |}.

Definition monitored : MonitorState :=
  monitor_machine no_fault parse_unary Some (fun _ => "error") [nan_round] demo_monitor 1000.

Lemma monitoring_keeps_registry_witness :
  last_persisted monitored = Some 8 /\
  machines_load (file (registry monitored)) = Ok (records (registry monitored)) /\
  machines_finite (records (registry monitored)).
Proof.
  split; [vm_compute; reflexivity|].
  destruct (monitoring_keeps_registry no_fault parse_unary Some (fun _ => "error") [nan_round]
           demo_monitor 1000) as (H1 & _ & H2 & _); [|split; [exact H1|exact H2]].
  split; [exact paired_registry_ok|]. split; [exact demo_record_finite|].
  repeat constructor. discriminate.
Defined.
