(* ===== verification/Viewer.v ===== *)
(** The viewer's tasks, interleaved: [apps/agent/src/remote.rs] and [remote/monitor.rs].

    [Fleet] has a pairing, a removal and a monitor's round as computations of their own. Here
    every monitor, every import and every removal is a task, and a step is what one task does
    between two points where another may run: a critical section of the registry, the snapshots or
    the table of monitors, or an exchange with a machine. The pieces are the definitions of
    [Fleet] and [Remote]. An aborted monitor may go on for a while, until it next yields; only a
    removal waits for that.

    What is promised is promised per machine, by an automaton of four stages: operations on the
    same machine that do not overlap take it from unpaired to paired and back, whatever the
    operations on other machines and all the monitors do meanwhile. What overlapping operations
    can leave behind is shown by two concrete runs. *)

From stdpp Require Import gmap.
From S2P Require Import Prelude BTree Model Storage Wire Transport Persist Pairing Remote Fleet.
Local Open Scope string_scope.
Local Open Scope Z_scope.

(** ** The tasks *)

(** A monitor: before it looks for its record, before a session, connected, before the metric
    stream is open, in the session's loop, before it writes a snapshot to the registry, after a
    session that failed, and waiting to reconnect. *)
Inductive MonitorPhase :=
  | Deciding
  | Connecting
  | Starting (client : ClientConnection)
  | Opening (client : ClientConnection)
  | Watching (client : ClientConnection)
  | Persisting (client : ClientConnection) (s : RemoteMachineSnapshot)
  | Failing (e : RemoteFleetError)
  | Sleeping.

Record Monitor := {
  mo_record : RemoteMachineRecord;
  mo_persisted : option Z;
  mo_phase : MonitorPhase;
  mo_aborted : bool;
}.

(** An import: after it found no record, after the exchange, and after each of its effects. *)
Inductive Import :=
  | Asking (b : PairingBundle)
  | Recording (s : RemoteMachineSnapshot) (m : RemoteMachineRecord)
  | Showing (s : RemoteMachineSnapshot) (m : RemoteMachineRecord)
  | Spawning (m : RemoteMachineRecord)
  | Registering (m : RemoteMachineRecord) (task : nat).

(** A removal that has deleted the record. *)
Inductive Removal :=
  | Stopping (id : string)
  | Awaiting (id : string) (task : nat)
  | Dropping (id : string).

Inductive Label :=
  | Silently
  | Recorded (id : string)
  | Imported (id : string)
  | Removed (id : string)
  | Forgot (id : string)
  | Dialled (id : string).

Section Tasks.
Context {ET : EndpointText} {B64 : Base64} {BJ : JsonCodec PairingBundle anything}.
Context {MJ : JsonCodec Machines machines_finite} (fs_fault : nat -> bool).
Context (uuid_text : Uuid -> string) (parse_uuid : string -> option Uuid).
Context {Url : Type} (parse_relay_url : string -> option Url).
Context (error_text : RemoteFleetError -> string).

Record Viewer := {
  v_registry : MachineRegistry;
  v_snapshots : Snapshots;
  v_handles : list (string * nat);
  v_poisoned : bool;
  v_monitors : gmap nat Monitor;
  v_imports : gmap nat Import;
  v_removals : gmap nat Removal;
}.

Definition set_shared r s v :=
  {| v_registry := r; v_snapshots := s; v_handles := v_handles v; v_poisoned := v_poisoned v;
     v_monitors := v_monitors v; v_imports := v_imports v; v_removals := v_removals v |}.
Definition set_handles h v :=
  {| v_registry := v_registry v; v_snapshots := v_snapshots v; v_handles := h; v_poisoned := v_poisoned v;
     v_monitors := v_monitors v; v_imports := v_imports v; v_removals := v_removals v |}.
Definition set_monitors m v :=
  {| v_registry := v_registry v; v_snapshots := v_snapshots v; v_handles := v_handles v; v_poisoned := v_poisoned v;
     v_monitors := m; v_imports := v_imports v; v_removals := v_removals v |}.
Definition set_imports i v :=
  {| v_registry := v_registry v; v_snapshots := v_snapshots v; v_handles := v_handles v; v_poisoned := v_poisoned v;
     v_monitors := v_monitors v; v_imports := i; v_removals := v_removals v |}.
Definition set_removals r v :=
  {| v_registry := v_registry v; v_snapshots := v_snapshots v; v_handles := v_handles v; v_poisoned := v_poisoned v;
     v_monitors := v_monitors v; v_imports := v_imports v; v_removals := r |}.

(** ** A monitor *)

(** What lets a monitor go on. *)
Inductive MonitorEvent :=
  | MDecide
  | MConnect (dial : EndpointId * list (RelayOrIp (Url := Url)) -> Timed ClientConnection)
  | MStatus (now_ms : Z)
  | MWatch (w : Timed unit)
  | MSession (ev : SessionEvent)
  | MPersist
  | MFailed (now_ms : Z)
  | MSlept.

Definition status_of (client : ClientConnection) : result (NodeInfo * HealthSnapshot * (ConnectionPath * Z)) RemoteFleetError :=
  let? n := get_node_info parse_uuid client 1 in
  let? h := get_health client 2 in
  let? p := get_connection_path client 3 in
  Ok (n, h, p).

Definition noted_persist (at_ms : Z) (m : MonitorState) : MonitorState :=
  {| registry := registry m; snapshots := snapshots m; record := record m; last_persisted := Some at_ms |}.

(** The next phase, or the end of the task. *)
Definition monitor_step (ev : MonitorEvent) (ph : MonitorPhase) (m : MonitorState)
  : option (MonitorState * option MonitorPhase) :=
  match ph, ev with
  | Deciding, MDecide =>
      Some (m, match machines_contains (r_endpoint_id (record m)) (registry m) with
               | Ok false => None
               | _ => Some Connecting
               end)
  | Connecting, MConnect dial =>
      Some match connect_record parse_uuid parse_relay_url dial (record m) with
           | Err e => (m, Some (Failing e))
           | Ok client => (refresh_direct_addresses fs_fault client m, Some (Starting client))
           end
  | Starting client, MStatus now =>
      Some match status_of client with
           | Err e => (m, Some (Failing e))
           | Ok (n, h, (path, rtt)) =>
               (update_entry (fun s => seen_at now (apply_connection_path path rtt
                  (apply_status (state h) (details h) (set_node n s)))) m, Some (Opening client))
           end
  | Opening client, MWatch w =>
      Some (m, Some match timed "watch metrics" w with Err e => Failing e | Ok _ => Watching client end)
  | Watching client, MSession (StreamFrame (Done (Ok (Some (RMetricSample w)))) now instant waited) =>
      let m' := update_entry (take_sample (FromWire.metric_sample w) now) m in
      if should_persist instant m then
        let snapshot := default (offline (record m)) (bt_get (r_endpoint_id (record m)) (snapshots m')) in
        Some (noted_persist (instant + Z.of_nat waited) m', Some (Persisting client snapshot))
      else Some (m', Some (Watching client))
  | Watching client, MSession ev =>
      Some match handle_event fs_fault client ev m with
           | (m, Ok _) => (m, Some (Watching client))
           | (m, Err e) => (m, Some (Failing e))
           end
  | Persisting client s, MPersist =>
      Some ({| registry := fst (update_snapshot fs_fault (r_endpoint_id (record m)) s (registry m));
               snapshots := snapshots m; record := record m; last_persisted := last_persisted m |},
            Some (Watching client))
  | Failing e, MFailed now => Some (update_error error_text e now m, Some Sleeping)
  | Sleeping, MSlept => Some (m, Some Deciding)
  | _, _ => None
  end.

(** A monitor's state: its own and what it shares. *)
Definition view_of (m : Monitor) (v : Viewer) : MonitorState :=
  {| registry := v_registry v; snapshots := v_snapshots v; record := mo_record m;
     last_persisted := mo_persisted m |}.

Definition continued (t : nat) (m : Monitor) (s : MonitorState) (ph : option MonitorPhase) (v : Viewer) : Viewer :=
  set_monitors
    match ph with
    | Some ph => <[t := {| mo_record := record s; mo_persisted := last_persisted s; mo_phase := ph;
                           mo_aborted := mo_aborted m |}]> (v_monitors v)
    | None => delete t (v_monitors v)
    end (set_shared (registry s) (snapshots s) v).

Definition monitor_label (m : Monitor) : Label :=
  match mo_phase m with Connecting => Dialled (r_endpoint_id (mo_record m)) | _ => Silently end.

Definition fresh_monitor (m : RemoteMachineRecord) : Monitor :=
  {| mo_record := m; mo_persisted := None; mo_phase := Deciding; mo_aborted := false |}.

Definition aborted (m : Monitor) : Monitor :=
  {| mo_record := mo_record m; mo_persisted := mo_persisted m; mo_phase := mo_phase m; mo_aborted := true |}.

Definition abort_task (t : option nat) (m : gmap nat Monitor) : gmap nat Monitor :=
  match t with Some t => alter aborted t m | None => m end.

(** ** Imports and removals *)

(** Whether an import may ask the machine: what it checks before it connects. *)
Definition may_import (now_ms : Z) (encoded : string) (r : MachineRegistry) : result PairingBundle RemoteFleetError :=
  let? bundle := map_err FPairing (bundle_decode (trim encoded)) in
  let? _ := map_err FPairing (validate_bundle parse_relay_url bundle now_ms) in
  let? known := machines_contains (b_endpoint_id bundle) r in
  if (known : bool) then Err AlreadyPaired else Ok bundle.

Definition ask (env : ImportEnv (Url := Url)) (bundle : PairingBundle)
  : result (RemoteMachineSnapshot * RemoteMachineRecord) RemoteFleetError :=
  let? address := map_err FPairing (bundle_endpoint_addr parse_relay_url bundle) in
  let? client := timed "connect" (import_dial env address) in
  if negb (String.eqb (id_text (c_remote_id client)) (b_endpoint_id bundle)) then Err IdentityMismatch
  else pair_exchange uuid_text parse_uuid env bundle client.

(** A spawned monitor is registered under the lock of the table, where it is also decided whether
    its record went away meanwhile. *)
Definition register (id : string) (t : nat) (v : Viewer) : Viewer :=
  if v_poisoned v then v
  else
    let gone := match machines_contains id (v_registry v) with Ok false => true | _ => false end in
    let v := set_monitors (abort_task (bt_get id (v_handles v)) (v_monitors v)) v in
    if gone then set_handles (bt_remove id (v_handles v)) (set_monitors (abort_task (Some t) (v_monitors v)) v)
    else set_handles (bt_insert id t (v_handles v)) v.

(** A removal takes the handle out of the table and aborts the task. *)
Definition stop (id : string) (v : Viewer) : Viewer * Removal :=
  if v_poisoned v then (v, Dropping id)
  else
    (set_handles (bt_remove id (v_handles v)) (set_monitors (abort_task (bt_get id (v_handles v)) (v_monitors v)) v),
     match bt_get id (v_handles v) with Some t => Awaiting id t | None => Dropping id end).

(** No handle is on task [t]. *)
Definition fresh (t : nat) (v : Viewer) : Prop :=
  v_monitors v !! t = None /\ (forall id, bt_get id (v_handles v) <> Some t) /\
  map_Forall (fun _ i => match i with Registering _ t' => t' <> t | _ => True end) (v_imports v) /\
  map_Forall (fun _ r => match r with Awaiting _ t' => t' <> t | _ => True end) (v_removals v).

(** ** Steps *)

Inductive step (v : Viewer) : Label -> Viewer -> Prop :=
  | step_monitor t m ev s ph :
      v_monitors v !! t = Some m -> monitor_step ev (mo_phase m) (view_of m v) = Some (s, ph) ->
      step v (monitor_label m) (continued t m s ph v)
  (* An aborted task ends where it next yields. *)
  | step_aborted t m :
      v_monitors v !! t = Some m -> mo_aborted m = true ->
      step v Silently (set_monitors (delete t (v_monitors v)) v)
  | step_check k now encoded bundle :
      v_imports v !! k = None -> may_import now encoded (v_registry v) = Ok bundle ->
      step v Silently (set_imports (<[k := Asking bundle]> (v_imports v)) v)
  | step_ask k bundle env :
      v_imports v !! k = Some (Asking bundle) ->
      step v Silently
        (set_imports (match ask env bundle with
                      | Ok (s, m) => <[k := Recording s m]> (v_imports v)
                      | Err _ => delete k (v_imports v)
                      end) v)
  | step_record k s m r res :
      v_imports v !! k = Some (Recording s m) -> machines_insert fs_fault m (v_registry v) = (r, res) ->
      step v (if is_ok res then Recorded (r_endpoint_id m) else Silently)
        (set_imports (if is_ok res then <[k := Showing s m]> (v_imports v) else delete k (v_imports v))
           (set_shared r (v_snapshots v) v))
  | step_show k s m :
      v_imports v !! k = Some (Showing s m) ->
      step v Silently
        (set_imports (<[k := Spawning m]> (v_imports v))
           (set_shared (v_registry v) (bt_insert (r_endpoint_id m) s (v_snapshots v)) v))
  | step_spawn k m t :
      v_imports v !! k = Some (Spawning m) -> fresh t v ->
      step v Silently
        (set_imports (<[k := Registering m t]> (v_imports v))
           (set_monitors (<[t := fresh_monitor m]> (v_monitors v)) v))
  | step_register k m t :
      v_imports v !! k = Some (Registering m t) ->
      step v (Imported (r_endpoint_id m))
        (set_imports (delete k (v_imports v)) (register (r_endpoint_id m) t v))
  | step_remove k id r res :
      v_removals v !! k = None -> machines_remove fs_fault id (v_registry v) = (r, res) ->
      let found := match res with Ok true => true | _ => false end in
      step v (if found then Removed id else Silently)
        (set_removals (if found then <[k := Stopping id]> (v_removals v) else v_removals v)
           (set_shared r (v_snapshots v) v))
  | step_stop k id :
      v_removals v !! k = Some (Stopping id) ->
      step v Silently
        (set_removals (<[k := snd (stop id v)]> (v_removals v)) (fst (stop id v)))
  | step_joined k id t :
      v_removals v !! k = Some (Awaiting id t) -> v_monitors v !! t = None ->
      step v Silently (set_removals (<[k := Dropping id]> (v_removals v)) v)
  | step_drop k id :
      v_removals v !! k = Some (Dropping id) ->
      step v (Forgot id)
        (set_removals (delete k (v_removals v))
           (set_shared (v_registry v) (bt_remove id (v_snapshots v)) v)).

Inductive run (v0 : Viewer) : list Label -> Viewer -> Prop :=
  | run_nil : run v0 [] v0
  | run_snoc tr v l v' : run v0 tr v -> step v l v' -> run v0 (tr ++ [l])%list v'.

(** ** Lemmas: a monitor's step *)

(** What a monitor changes: snapshots of its own machine, and no record is added or removed. *)
Record own_entry (m m' : MonitorState) : Prop := {
  oe_id : r_endpoint_id (record m') = r_endpoint_id (record m);
  oe_records k : bt_mem k (records (registry m')) = bt_mem k (records (registry m));
  oe_others k : k <> r_endpoint_id (record m) -> bt_get k (snapshots m') = bt_get k (snapshots m);
  oe_own : is_Some (bt_get (r_endpoint_id (record m)) (snapshots m)) ->
           is_Some (bt_get (r_endpoint_id (record m)) (snapshots m'));
  oe_sorted : bt_sorted (snapshots m) -> bt_sorted (snapshots m');
}.

Lemma own_entry_refl m : own_entry m m.
Proof. by split. Qed.

Lemma own_entry_put m s : own_entry m (with_snapshots (bt_insert (r_endpoint_id (record m)) s (snapshots m)) m).
Proof.
  split; try done; cbn [with_snapshots snapshots].
  - intros k Hk. by apply bt_get_insert_ne, not_eq_sym.
  - intros _. rewrite bt_get_insert_eq. by eexists.
  - by apply bt_insert_sorted.
Qed.

Lemma own_entry_modify m f id p rec :
  (forall x, r_endpoint_id (f x) = r_endpoint_id x /\ node (f x) = node x) ->
  r_endpoint_id rec = r_endpoint_id (record m) ->
  own_entry m {| registry := fst (modify_machine fs_fault f id (registry m)); snapshots := snapshots m;
                 record := rec; last_persisted := p |}.
Proof. intros Hf Hr. split; try done. intros k. by apply modify_machine_domain. Qed.

Lemma own_entry_addresses client m : own_entry m (refresh_direct_addresses fs_fault client m).
Proof.
  unfold refresh_direct_addresses. destruct (observed_direct_addresses _); [apply own_entry_refl|].
  destruct (bool_decide _); [apply own_entry_refl|]. unfold update_addresses.
  match goal with |- context [modify_machine _ ?f ?i _] =>
    pose proof (fun rec => own_entry_modify m f i (last_persisted m) rec (fun _ => conj eq_refl eq_refl)) as H end.
  destruct (modify_machine _ _ _ _) as [r [[]|e]]; by apply H.
Qed.

Lemma own_entry_event client ev m :
  (forall w now instant waited, ev <> StreamFrame (Done (Ok (Some (RMetricSample w)))) now instant waited) ->
  own_entry m (fst (handle_event fs_fault client ev m)).
Proof.
  intros Hev. destruct ev as [[|[[body|]|e]] now instant waited|n]; simpl; try apply own_entry_refl.
  - destruct body; simpl; try apply own_entry_refl; [by destruct (Hev s now instant waited)|].
    destruct (bt_get _ _); [apply own_entry_put|apply own_entry_refl].
  - unfold refresh_remote_state. destruct (get_health client n); [|apply own_entry_refl].
    destruct (get_connection_path client (S n)) as [[p t]|]; [apply own_entry_put|apply own_entry_refl].
Qed.

Lemma monitor_step_frame ev ph m m' ph' :
  monitor_step ev ph m = Some (m', ph') ->
  own_entry m m' /\
  (ph' = None -> m' = m /\ machines_contains (r_endpoint_id (record m)) (registry m) = Ok false).
Proof.
  intros H. destruct ph, ev; try done; cbn [monitor_step] in H.
  - injection H as <- <-. split; [apply own_entry_refl|]. by destruct (machines_contains _ _) as [[]|].
  - injection H as H. destruct (connect_record _ _ _ _); injection H as <- <-;
      (split; [|done]); [apply own_entry_addresses|apply own_entry_refl].
  - injection H as H. destruct (status_of client) as [[[n h] [p t]]|]; injection H as <- <-;
      (split; [|done]); [apply own_entry_put|apply own_entry_refl].
  - injection H as <- <-. split; [apply own_entry_refl|done].
  - destruct (match ev with StreamFrame (Done (Ok (Some (RMetricSample _)))) _ _ _ => true | _ => false end) eqn:E.
    + destruct ev as [[|[[[]|]|]] now instant waited|]; try done.
      destruct (should_persist _ _); injection H as <- <-; (split; [|done]);
        by destruct (own_entry_put m (take_sample (FromWire.metric_sample s) now
          (default (offline (record m)) (bt_get (r_endpoint_id (record m)) (snapshots m))))).
    + pose proof (own_entry_event client ev m) as F. specialize (F ltac:(intros; by intros ->)).
      assert (H' : Some match handle_event fs_fault client ev m with
                        | (m, Ok _) => (m, Some (Watching client))
                        | (m, Err e) => (m, Some (Failing e)) end = Some (m', ph')).
      { rewrite <- H. by destruct ev as [[|[[[]|]|]] now instant waited|]. }
      destruct (handle_event _ _ _ _) as [m1 [[]|e]]; injection H' as <- <-; by split.
  - injection H as <- <-. split; [|done]. by apply own_entry_modify.
  - injection H as <- <-. split; [apply own_entry_put|done].
  - injection H as <- <-. split; [apply own_entry_refl|done].
Qed.

Definition phase_ok (ph : MonitorPhase) : Prop :=
  match ph with Persisting _ s => snapshot_finite s | _ => True end.

Lemma monitor_step_ok ev ph m m' ph' :
  monitor_step ev ph m = Some (m', ph') -> monitor_ok m -> phase_ok ph ->
  monitor_ok m' /\ forall p, ph' = Some p -> phase_ok p.
Proof.
  intros H Hm Hp. destruct ph, ev; try done; cbn [monitor_step] in H.
  - injection H as <- <-. split; [done|]. by destruct (machines_contains _ _) as [[]|]; intros p [= <-].
  - injection H as H. destruct (connect_record _ _ _ _); injection H as <- <-; (split; [|by intros p [= <-]]);
      [by apply refresh_direct_addresses_ok|done].
  - injection H as H. destruct (status_of client) as [[[n h] [p t]]|]; injection H as <- <-;
      (split; [|by intros q [= <-]]); [by apply update_entry_ok|done].
  - injection H as <- <-. split; [done|]. by destruct (timed _ _); intros p [= <-].
  - destruct (match ev with StreamFrame (Done (Ok (Some (RMetricSample _)))) _ _ _ => true | _ => false end) eqn:E.
    + destruct ev as [[|[[[]|]|]] now instant waited|]; try done.
      assert (Hu : monitor_ok (update_entry (take_sample (FromWire.metric_sample s) now) m)).
      { apply update_entry_ok; [|done]. intros. by apply take_sample_finite; [apply decoded_sample_finite|]. }
      destruct (should_persist _ _); injection H as <- <-; (split; [done|]); intros p [= <-]; [|done].
      apply (monitor_entry_finite _ (r_endpoint_id (record m)) Hu).
    + pose proof (handle_event_ok fs_fault client ev m Hm) as F.
      assert (H' : Some match handle_event fs_fault client ev m with
                        | (m, Ok _) => (m, Some (Watching client))
                        | (m, Err e) => (m, Some (Failing e)) end = Some (m', ph')).
      { rewrite <- H. by destruct ev as [[|[[[]|]|]] now instant waited|]. }
      destruct (handle_event _ _ _ _) as [m1 [[]|e]]; injection H' as <- <-; (split; [done|]); by intros p [= <-].
  - injection H as <- <-. destruct Hm as (H1 & H2 & H3). split; [|by intros p [= <-]].
    split; [|done]. by apply update_snapshot_ok.
  - injection H as <- <-. split; [by apply update_entry_ok|by intros p [= <-]].
  - injection H as <- <-. split; [done|by intros p [= <-]].
Qed.

(** ** The invariant of all runs *)

Definition import_ok (i : Import) : Prop :=
  match i with
  | Asking _ => True
  | Recording s m | Showing s m => snapshot_finite s /\ record_finite m
  | Spawning m | Registering m _ => record_finite m
  end.

Definition monitors (id : string) (v : Viewer) (t : nat) : Prop :=
  forall m, v_monitors v !! t = Some m -> r_endpoint_id (mo_record m) = id.

(** What memory holds can be read back, and a handle is on a monitor of its own machine. *)
Record viewer_ok (v : Viewer) : Prop := {
  vo_registry : registry_ok (v_registry v);
  vo_shown : bt_sorted (v_snapshots v) /\ Forall (fun e => snapshot_finite (snd e)) (v_snapshots v);
  vo_handles : v_poisoned v = false /\ bt_sorted (v_handles v);
  vo_monitors : map_Forall (fun _ m => record_finite (mo_record m) /\ phase_ok (mo_phase m)) (v_monitors v);
  vo_imports : map_Forall (fun _ => import_ok) (v_imports v);
  vo_tracked id t : bt_get id (v_handles v) = Some t -> monitors id v t;
  vo_registering k m t : v_imports v !! k = Some (Registering m t) -> monitors (r_endpoint_id m) v t;
}.

Lemma aborted_lookup o t ms m :
  abort_task o ms !! t = Some m ->
  exists m0, ms !! t = Some m0 /\ mo_record m = mo_record m0 /\ mo_phase m = mo_phase m0 /\
    (o <> Some t -> m = m0).
Proof.
  destruct o as [t'|]; cbn [abort_task]; [|eauto 6]. destruct (decide (t' = t)) as [->|Hne].
  - rewrite lookup_alter_eq. destruct (ms !! t) as [m0|]; [|done]. intros [= <-]. exists m0. by split_and!.
  - rewrite lookup_alter_ne by done. eauto 6.
Qed.

(** Monitors that end or are aborted leave the invariant as it is. *)
Lemma ok_fewer v ms :
  viewer_ok v ->
  (forall t m, ms !! t = Some m -> exists m0, v_monitors v !! t = Some m0 /\
     mo_record m = mo_record m0 /\ mo_phase m = mo_phase m0) ->
  viewer_ok (set_monitors ms v).
Proof.
  intros [H1 H2 H3 H4 H5 H6 H7] Hms.
  assert (Hm : forall id t, monitors id v t -> monitors id (set_monitors ms v) t).
  { intros id t H m Hl. destruct (Hms t m Hl) as (m0 & E & -> & _). by apply H. }
  split; try done.
  - intros t m Hl. destruct (Hms t m Hl) as (m0 & E & -> & ->). by apply (H4 t).
  - intros id t Hg. by apply Hm, H6.
  - intros k m t Hi. by apply Hm, (H7 k).
Qed.

Lemma ok_import v i :
  viewer_ok v ->
  (forall k x, i !! k = Some x -> import_ok x /\
     forall m t, x = Registering m t -> monitors (r_endpoint_id m) v t) ->
  viewer_ok (set_imports i v).
Proof.
  intros [H1 H2 H3 H4 H5 H6 H7] Hi. split; try done.
  - intros k x Hk. by apply (Hi k).
  - intros k m t Hk. by apply (proj2 (Hi k _ Hk) m t).
Qed.

Lemma ok_insert_import v k x :
  viewer_ok v -> import_ok x -> (forall m t, x = Registering m t -> monitors (r_endpoint_id m) v t) ->
  viewer_ok (set_imports (<[k := x]> (v_imports v)) v).
Proof.
  intros Hv Hx Hr. apply ok_import; [done|]. intros j y. destruct (decide (k = j)) as [->|Hne].
  - rewrite lookup_insert_eq. by intros [= <-].
  - rewrite lookup_insert_ne by done. intros Hy. split; [by apply (vo_imports v Hv j)|].
    intros m t ->. by apply (vo_registering v Hv j).
Qed.

Lemma ok_delete_import v k : viewer_ok v -> viewer_ok (set_imports (delete k (v_imports v)) v).
Proof.
  intros Hv. apply ok_import; [done|]. intros j y [_ Hy]%lookup_delete_Some.
  split; [by apply (vo_imports v Hv j)|]. intros m t ->. by apply (vo_registering v Hv j).
Qed.

Lemma ok_shared v r s :
  viewer_ok v -> registry_ok r -> bt_sorted s -> Forall (fun e => snapshot_finite (snd e)) s ->
  viewer_ok (set_shared r s v).
Proof. by intros [H1 H2 H3 H4 H5 H6 H7]; split. Qed.

Lemma ok_untrack v id : viewer_ok v -> viewer_ok (set_handles (bt_remove id (v_handles v)) v).
Proof.
  intros [H1 H2 [H3 H3'] H4 H5 H6 H7]. split; try done.
  - split; [done|]. by apply bt_remove_sorted.
  - intros id' t Hg. apply H6. destruct (decide (id = id')) as [->|Hne].
    + cbn [v_handles set_handles] in Hg. by rewrite bt_get_remove_eq in Hg.
    + cbn [v_handles set_handles] in Hg. by rewrite bt_get_remove_ne in Hg.
Qed.

Lemma ok_abort v o : viewer_ok v -> viewer_ok (set_monitors (abort_task o (v_monitors v)) v).
Proof.
  intros Hv. apply ok_fewer; [done|]. intros t m (m0 & E & E1 & E2 & _)%aborted_lookup. eauto.
Qed.

Lemma ok_register v id t : viewer_ok v -> monitors id v t -> viewer_ok (register id t v).
Proof.
  intros Hv Ht. unfold register. rewrite (proj1 (vo_handles v Hv)).
  pose proof (ok_abort v (bt_get id (v_handles v)) Hv) as Ha.
  destruct (machines_contains id (v_registry v)) as [[]|]; [|exact (ok_untrack _ id (ok_abort _ (Some t) Ha))|];
    (destruct Ha as [H1 H2 [H3 H3'] H4 H5 H6 H7]; split; try done;
     [split; [done|by apply bt_insert_sorted]|]; intros id' t'; cbn [v_handles set_handles set_monitors];
     destruct (decide (id = id')) as [->|Hne];
     [rewrite bt_get_insert_eq; intros [= <-] m (m0 & E & -> & _)%aborted_lookup; by apply Ht
     |rewrite bt_get_insert_ne by done; apply H6]).
Qed.

(** Registering touches the table and the monitors it aborts. *)
Lemma register_keeps id t v :
  v_registry (register id t v) = v_registry v /\ v_snapshots (register id t v) = v_snapshots v /\
  v_poisoned (register id t v) = v_poisoned v /\ v_imports (register id t v) = v_imports v /\
  v_removals (register id t v) = v_removals v.
Proof. unfold register. destruct (v_poisoned v) eqn:E; [done|]. by destruct (machines_contains _ _) as [[]|]. Qed.

Lemma ok_removals v r : viewer_ok v -> viewer_ok (set_removals r v).
Proof. by intros []; split. Qed.

Lemma ok_stop v id : viewer_ok v -> viewer_ok (fst (stop id v)).
Proof.
  intros Hv. unfold stop. rewrite (proj1 (vo_handles v Hv)). exact (ok_untrack _ id (ok_abort _ _ Hv)).
Qed.

Lemma ok_continued v t m ev s ph :
  viewer_ok v -> v_monitors v !! t = Some m -> monitor_step ev (mo_phase m) (view_of m v) = Some (s, ph) ->
  viewer_ok (continued t m s ph v).
Proof.
  intros Hv Ht Hs. pose proof (monitor_step_frame _ _ _ _ _ Hs) as [[E1 E2 E3 E4 E5] _].
  destruct Hv as [H1 [H2 H2'] H3 H4 H5 H6 H7]. destruct (H4 t m Ht) as [Hr Hp].
  destruct (monitor_step_ok _ _ _ _ _ Hs) as [(K1 & K2 & K3) Kp]; [by split_and!|done|].
  assert (Hm : forall id t', monitors id v t' -> monitors id (continued t m s ph v) t').
  { intros id t' H m'. unfold continued. cbn [v_monitors set_monitors]. destruct ph as [p|].
    - destruct (decide (t = t')) as [<-|Hne]; [|rewrite lookup_insert_ne by done; apply H].
      rewrite lookup_insert_eq. intros [= <-]. cbn [mo_record]. rewrite E1. by apply (H m).
    - intros [_ Hl]%lookup_delete_Some. by apply H. }
  split; try done.
  - split; [by apply E5|done].
  - unfold continued. cbn [v_monitors set_monitors]. destruct ph as [p|].
    + apply map_Forall_insert_2; [|done]. split; [done|]. by apply Kp.
    + by apply map_Forall_delete.
  - intros id t' Hg. by apply Hm, H6.
  - intros k m' t' Hi. by apply Hm, (H7 k).
Qed.

Lemma ask_finite env b s m : ask env b = Ok (s, m) -> snapshot_finite s /\ record_finite m.
Proof.
  unfold ask. destruct (bundle_endpoint_addr _ b) as [a|]; [cbn [map_err result_bind]|done].
  destruct (timed _ _) as [client|]; [cbn [result_bind]|done]. destruct (negb _); [done|]. intros H.
  split; [by eapply pair_exchange_finite|]. apply pair_exchange_pins in H as (_ & _ & _ & _ & E & _).
  intros p. by rewrite E.
Qed.

Lemma ok_spawn v t m :
  viewer_ok v -> fresh t v -> record_finite m ->
  viewer_ok (set_monitors (<[t := fresh_monitor m]> (v_monitors v)) v).
Proof.
  intros [H1 H2 H3 H4 H5 H6 H7] (F1 & F2 & F3 & _) Hm.
  assert (Hother : forall id t', t' <> t -> monitors id v t' ->
    monitors id (set_monitors (<[t := fresh_monitor m]> (v_monitors v)) v) t').
  { intros id t' Hne H m'. cbn [v_monitors set_monitors]. rewrite lookup_insert_ne by done. apply H. }
  split; try done.
  - by apply map_Forall_insert_2.
  - intros id t' Hg. apply Hother; [|by apply H6]. intros ->. by destruct (F2 id).
  - intros k m' t' Hi. apply Hother; [|by apply (H7 k)]. exact (F3 _ _ Hi).
Qed.

Lemma viewer_step_ok v l v' : step v l v' -> viewer_ok v -> viewer_ok v'.
Proof.
  intros Hs Hv. pose proof (vo_registry v Hv) as Hr. pose proof (vo_shown v Hv) as [Hsh Hsf].
  destruct Hs as [t m ev s ph Ht Hs|t m Ht _|k now text b Hk Hc|k b env Hk|k s m r res Hk Hi|k s m Hk|k m t Hk Hf|k m t Hk|
    k id r res Hk Hrm found|k id Hk|k id t Hk Ht|k id Hk].
  - by eapply ok_continued.
  - apply ok_fewer; [done|]. intros t' m' [_ H]%lookup_delete_Some. eauto.
  - by apply ok_insert_import.
  - destruct (ask env b) as [[s m]|] eqn:E; [|by apply ok_delete_import].
    apply ok_insert_import; [done|by eapply ask_finite|done].
  - pose proof (vo_imports v Hv _ _ Hk) as [K1 K2].
    assert (Hr' : registry_ok r).
    { replace r with (machine_step fs_fault (v_registry v) (Insert m)) by (simpl; by rewrite Hi).
      by apply machine_step_ok. }
    pose proof (ok_shared v r (v_snapshots v) Hv Hr' Hsh Hsf) as Hv'.
    destruct (is_ok res); [by apply (ok_insert_import _ k _ Hv')|by apply (ok_delete_import _ k Hv')].
  - pose proof (vo_imports v Hv _ _ Hk) as [K1 K2]. refine (ok_insert_import _ k _ (ok_shared v _ _ Hv Hr _ _) _ _).
    + by apply bt_insert_sorted.
    + by apply bt_insert_Forall.
    + done.
    + done.
  - pose proof (vo_imports v Hv _ _ Hk) as K. refine (ok_insert_import _ k (Registering m t) (ok_spawn v t m Hv Hf K) K _).
    intros m1 t1 [= <- <-] m2. cbn [v_monitors set_monitors]. rewrite lookup_insert_eq. by intros [= <-].
  - destruct (register_keeps (r_endpoint_id m) t v) as (_ & _ & _ & E & _). rewrite <- E.
    apply ok_delete_import, ok_register; [done|]. by apply (vo_registering v Hv k).
  - apply ok_removals, ok_shared; try done.
    replace r with (machine_step fs_fault (v_registry v) (RemoveMachine id)) by (simpl; by rewrite Hrm).
    by apply machine_step_ok.
  - by apply ok_removals, ok_stop.
  - by apply ok_removals.
  - apply ok_removals, ok_shared; try done; [by apply bt_remove_sorted|].
    apply List.Forall_forall. intros e He. apply bt_remove_In in He. rewrite List.Forall_forall in Hsf. auto.
Qed.

(** ** One machine *)

(** The machine an import has recorded, and the one a removal deleted. *)
Definition import_id (i : Import) : option string :=
  match i with
  | Asking _ | Recording _ _ => None
  | Showing _ m | Spawning m | Registering m _ => Some (r_endpoint_id m)
  end.

Definition removal_id (r : Removal) : string :=
  match r with Stopping id | Awaiting id _ | Dropping id => id end.

(** The part of a table of tasks that is about one machine. *)
Definition part {A} (P : A -> Prop) `{!forall x, Decision (P x)} (m : gmap nat A) (k : nat) : option A :=
  match m !! k with Some x => if decide (P x) then Some x else None | None => None end.

Lemma part_insert {A} (P : A -> Prop) `{!forall x, Decision (P x)} (m : gmap nat A) k x j :
  part P (<[k := x]> m) j = if decide (k = j) then (if decide (P x) then Some x else None) else part P m j.
Proof.
  unfold part. destruct (decide (k = j)) as [->|Hne]; [by rewrite lookup_insert_eq|by rewrite lookup_insert_ne].
Qed.

Lemma part_delete {A} (P : A -> Prop) `{!forall x, Decision (P x)} (m : gmap nat A) k j :
  part P (delete k m) j = if decide (k = j) then None else part P m j.
Proof.
  unfold part. destruct (decide (k = j)) as [->|Hne]; [by rewrite lookup_delete_eq|by rewrite lookup_delete_ne].
Qed.

Definition monitors_of (id : string) (v : Viewer) : nat -> option bool :=
  fun t => mo_aborted <$> part (fun m => r_endpoint_id (mo_record m) = id) (v_monitors v) t.
Definition imports_of (id : string) (v : Viewer) : nat -> option Import :=
  part (fun i => import_id i = Some id) (v_imports v).
Definition removals_of (id : string) (v : Viewer) : nat -> option Removal :=
  part (fun r => removal_id r = id) (v_removals v).

(** What one machine's operations see of the viewer. *)
Record Local := {
  l_paired : bool;
  l_shown : bool;
  l_handle : option nat;
  l_monitor : nat -> option bool;
  l_import : nat -> option Import;
  l_removal : nat -> option Removal;
}.

Definition local (id : string) (v : Viewer) : Local :=
  {| l_paired := bt_mem id (records (v_registry v)); l_shown := bt_mem id (v_snapshots v);
     l_handle := bt_get id (v_handles v); l_monitor := monitors_of id v; l_import := imports_of id v;
     l_removal := removals_of id v |}.

(** The stages of a machine, and how an operation takes it from one to the next: [None] is an
    operation that starts while another has not returned. *)
Inductive Stage := Unpaired | Pairing | Paired | Removing.

Definition next_stage (id : string) (st : Stage) (l : Label) : option Stage :=
  match l with
  | Recorded i => if decide (i = id) then match st with Unpaired => Some Pairing | _ => None end else Some st
  | Imported i => if decide (i = id) then match st with Pairing => Some Paired | _ => None end else Some st
  | Removed i => if decide (i = id) then match st with Paired => Some Removing | _ => None end else Some st
  | Forgot i => if decide (i = id) then match st with Removing => Some Unpaired | _ => None end else Some st
  | Silently | Dialled _ => Some st
  end.

Fixpoint stages (id : string) (st : Stage) (tr : list Label) : option Stage :=
  match tr with
  | [] => Some st
  | l :: tr => match next_stage id st l with Some st => stages id st tr | None => None end
  end.

Definition none {A} (f : nat -> option A) : Prop := forall k, f k = None.
Definition within {A} (f : nat -> option A) (k : nat) : Prop := forall j, j <> k -> f j = None.
Definition alone {A} (f : nat -> option A) (k : nat) (x : A) : Prop := f k = Some x /\ within f k.

(** What holds of the machine at a stage: an unpaired one has no record, no snapshot, no monitor and
    no handle; a paired one has a record, a snapshot and exactly one monitor, which is not aborted
    and whose handle is in the table. *)
Definition stage_ok (st : Stage) (x : Local) : Prop :=
  match st with
  | Unpaired =>
      l_paired x = false /\ l_shown x = false /\ l_handle x = None /\ none (l_monitor x) /\
      none (l_import x) /\ none (l_removal x)
  | Pairing =>
      l_paired x = true /\ l_handle x = None /\ none (l_removal x) /\
      exists k i, alone (l_import x) k i /\
        match i with
        | Showing _ _ => none (l_monitor x)
        | Spawning _ => l_shown x = true /\ none (l_monitor x)
        | Registering _ t => l_shown x = true /\ alone (l_monitor x) t false
        | _ => False
        end
  | Paired =>
      l_paired x = true /\ l_shown x = true /\ none (l_import x) /\ none (l_removal x) /\
      exists t, l_handle x = Some t /\ alone (l_monitor x) t false
  | Removing =>
      l_paired x = false /\ none (l_import x) /\
      exists k r, alone (l_removal x) k r /\
        match r with
        | Stopping _ => exists t, l_handle x = Some t /\ within (l_monitor x) t
        | Awaiting _ t => l_handle x = None /\ within (l_monitor x) t
        | Dropping _ => l_handle x = None /\ none (l_monitor x)
        end
  end.

(** ** Lemmas: stages that stay *)

Lemma alone_eq {A} (f g : nat -> option A) k x : (forall j, g j = f j) -> alone f k x -> alone g k x.
Proof. intros E [H1 H2]. split; [by rewrite E|]. intros j Hj. rewrite E. auto. Qed.

Lemma alone_same {A} (f : nat -> option A) k x k' x' : alone f k x -> alone f k' x' -> k' = k /\ x' = x.
Proof.
  intros [H1 H2] [H3 H4]. destruct (decide (k = k')) as [->|Hne]; [split; congruence|].
  rewrite (H4 k Hne) in H1. done.
Qed.

Lemma none_eq {A} (f g : nat -> option A) : (forall j, g j = f j) -> none f -> none g.
Proof. intros E H j. by rewrite E. Qed.

(** A monitor may show its machine. *)
Lemma stage_same st x y :
  stage_ok st x -> l_paired y = l_paired x -> l_handle y = l_handle x ->
  (l_shown y = l_shown x \/ l_shown y = true /\ exists t, l_monitor x t <> None) ->
  (forall t, l_monitor y t = l_monitor x t) -> (forall k, l_import y k = l_import x k) ->
  (forall k, l_removal y k = l_removal x k) -> stage_ok st y.
Proof.
  intros H Ep Eh Es Em Ei Er.
  assert (Hw : forall t, within (l_monitor x) t -> within (l_monitor y) t) by (intros t Ht j Hj; rewrite Em; auto).
  destruct st; cbn [stage_ok] in *; rewrite Ep, Eh.
  - destruct H as (H1 & H2 & H3 & H4 & H5 & H6). split_and!; try done; try by eapply none_eq.
    destruct Es as [->|[_ [t Ht]]]; [done|]. by destruct Ht.
  - destruct H as (H1 & H2 & H3 & k & i & Hk & Hi). split_and!; try done; [by eapply none_eq|].
    exists k, i. split; [by eapply alone_eq|]. destruct i; try done; [by eapply none_eq|..];
      (destruct Hi as [Hs Hm]; split; [destruct Es as [->|[-> _]]; done|]); [by eapply none_eq|by eapply alone_eq].
  - destruct H as (H1 & H2 & H3 & H4 & t & Ht & Hm). split_and!; try done; try (by eapply none_eq).
    + destruct Es as [->|[-> _]]; done.
    + exists t. split; [done|]. by eapply alone_eq.
  - destruct H as (H1 & H2 & k & r & Hk & Hr). split_and!; [done|by eapply none_eq|].
    exists k, r. split; [by eapply alone_eq|]. destruct r; [|destruct Hr; split; auto|destruct Hr; split; [done|by eapply none_eq]].
    destruct Hr as (t & Ht & Hm). eauto.
Qed.

(** A monitor ends only if it was aborted or its machine is not paired. *)
Lemma stage_end st x y t :
  stage_ok st x -> l_monitor x t = Some true \/ l_monitor x t <> None /\ l_paired x = false ->
  l_paired y = l_paired x -> l_handle y = l_handle x -> l_shown y = l_shown x ->
  l_monitor y t = None -> (forall j, j <> t -> l_monitor y j = l_monitor x j) ->
  (forall k, l_import y k = l_import x k) -> (forall k, l_removal y k = l_removal x k) -> stage_ok st y.
Proof.
  intros H Ht Ep Eh Es Et Em Ei Er.
  assert (Hno : ~ none (l_monitor x)) by (intros Hn; specialize (Hn t); destruct Ht as [Ht|[Ht _]]; congruence).
  assert (Hal : l_paired x = true -> forall t', ~ alone (l_monitor x) t' false).
  { intros Hp t' [H1 H2]. destruct Ht as [Ht|[_ Ht]]; [|congruence]. destruct (decide (t = t')) as [->|Hne]; [congruence|].
    rewrite (H2 t Hne) in Ht. done. }
  assert (Hw : forall t', within (l_monitor x) t' -> within (l_monitor y) t').
  { intros t' Hw j Hj. destruct (decide (j = t)) as [->|Hne]; [done|]. rewrite Em by done. auto. }
  destruct st; cbn [stage_ok] in *; rewrite Ep, Eh.
  - by destruct H as (H1 & H2 & H3 & H4 & H5 & H6).
  - destruct H as (H1 & H2 & H3 & k & i & Hk & Hi). destruct i; try done; [by destruct Hi|]. destruct Hi as [_ Hi]. by apply Hal in Hi.
  - destruct H as (H1 & H2 & H3 & H4 & t' & _ & Hm). by apply Hal in Hm.
  - destruct H as (H1 & H2 & k & r & Hk & Hr). split_and!; [done|by eapply none_eq|].
    exists k, r. split; [by eapply alone_eq|]. destruct r; [|destruct Hr; split; auto|by destruct Hr].
    destruct Hr as (t' & Ht' & Hm). eauto.
Qed.

(** ** Lemmas: one machine's part after a step *)

Lemma monitors_of_continued id t m s p v j :
  v_monitors v !! t = Some m -> r_endpoint_id (record s) = r_endpoint_id (mo_record m) ->
  monitors_of id (continued t m s (Some p) v) j = monitors_of id v j.
Proof.
  intros Ht E. unfold monitors_of, continued. cbn [v_monitors set_monitors]. rewrite part_insert. cbn [mo_record].
  destruct (decide (t = j)) as [->|]; [|done]. unfold part. rewrite Ht, E. by destruct (decide _).
Qed.

Lemma monitors_of_delete id t v j :
  monitors_of id (set_monitors (delete t (v_monitors v)) v) j = if decide (t = j) then None else monitors_of id v j.
Proof. unfold monitors_of. cbn [v_monitors set_monitors]. rewrite part_delete. by destruct (decide _). Qed.

Lemma monitors_of_abort id o v j :
  monitors_of id (set_monitors (abort_task o (v_monitors v)) v) j =
    if decide (o = Some j) then (fun _ => true) <$> monitors_of id v j else monitors_of id v j.
Proof.
  unfold monitors_of, part. cbn [v_monitors set_monitors]. destruct o as [t|]; cbn [abort_task].
  - destruct (decide (Some t = Some j)) as [[= ->]|Hne].
    + rewrite lookup_alter_eq. destruct (v_monitors v !! j) as [m|]; [|done]. cbn [fmap option_fmap option_map].
      cbn [aborted mo_record]. by destruct (decide _).
    + rewrite lookup_alter_ne by congruence. done.
  - by destruct (decide (None = Some j)).
Qed.

(** Aborting another machine's monitor does not touch this one's. *)
Lemma monitors_of_abort_other id i o v j :
  i <> id -> (forall t, o = Some t -> monitors i v t) ->
  monitors_of id (set_monitors (abort_task o (v_monitors v)) v) j = monitors_of id v j.
Proof.
  intros Hne Ho. rewrite monitors_of_abort. destruct (decide (o = Some j)) as [E|]; [|done].
  unfold monitors_of, part. specialize (Ho j E). unfold monitors in Ho.
  destruct (v_monitors v !! j) as [m|]; [|done]. rewrite (Ho m eq_refl). by rewrite decide_False.
Qed.

Lemma monitors_of_Some id v t m :
  v_monitors v !! t = Some m -> r_endpoint_id (mo_record m) = id -> monitors_of id v t = Some (mo_aborted m).
Proof. intros Ht Hm. unfold monitors_of, part. by rewrite Ht, decide_True. Qed.

Lemma imports_of_Some id v k i : v_imports v !! k = Some i -> import_id i = Some id -> imports_of id v k = Some i.
Proof. intros Hk Hi. unfold imports_of, part. by rewrite Hk, decide_True. Qed.

Lemma removals_of_Some id v k r : v_removals v !! k = Some r -> removal_id r = id -> removals_of id v k = Some r.
Proof. intros Hk Hr. unfold removals_of, part. by rewrite Hk, decide_True. Qed.

Lemma machines_insert_cases m r :
  match machines_insert fs_fault m r with
  | (r', Ok _) => forall k, bt_mem k (records r') = bool_decide (k = r_endpoint_id m) || bt_mem k (records r)
  | (r', Err _) => records r' = records r
  end.
Proof.
  unfold machines_insert. destruct (poisoned r); [done|].
  pose proof (publish_machines_cases fs_fault (bt_insert (r_endpoint_id m) m (records r)) tt r) as P.
  destruct (publish_machines _ _ tt r) as [r' [u|e]]; [|by destruct P]. destruct P as (_ & -> & _). intros k.
  unfold bt_mem. destruct (decide (r_endpoint_id m = k)) as [<-|Hne].
  - by rewrite bt_get_insert_eq, bool_decide_eq_true_2.
  - by rewrite bt_get_insert_ne, bool_decide_eq_false_2 by congruence.
Qed.

(** ** Lemmas: each step moves the stage as its label says *)

Section Stages.
Context (id : string) (v : Viewer) (Hv : viewer_ok v).

Lemma shown_or_more (s : Snapshots) :
  (is_Some (bt_get id (v_snapshots v)) -> is_Some (bt_get id s)) ->
  bt_mem id s = bt_mem id (v_snapshots v) \/ bt_mem id s = true.
Proof.
  unfold bt_mem. destruct (bt_get id s); [by right|]. destruct (bt_get id (v_snapshots v)); [|by left].
  intros H. by destruct (H ltac:(eauto)).
Qed.

(** A monitor that ends leaves the rest of the viewer. *)
Lemma stage_ended st t m :
  stage_ok st (local id v) -> v_monitors v !! t = Some m ->
  mo_aborted m = true \/ bt_mem (r_endpoint_id (mo_record m)) (records (v_registry v)) = false ->
  stage_ok st (local id (set_monitors (delete t (v_monitors v)) v)).
Proof.
  intros H Ht He. destruct (decide (r_endpoint_id (mo_record m) = id)) as [Hid|Hid].
  - pose proof (monitors_of_Some id v t m Ht Hid) as Hm.
    apply (stage_end st (local id v) _ t); try done; cbn [local l_monitor l_paired].
    + rewrite Hm. destruct He as [->|He]; [by left|right]. by rewrite Hid in He.
    + by rewrite monitors_of_delete, decide_True.
    + intros j Hj. by rewrite monitors_of_delete, decide_False.
  - apply (stage_same st (local id v)); try done; cbn [local l_shown l_monitor]; [by left|].
    intros j. rewrite monitors_of_delete. destruct (decide (t = j)) as [<-|]; [|done].
    unfold monitors_of, part. by rewrite Ht, decide_False.
Qed.

Lemma stage_monitor st t m ev s ph :
  stage_ok st (local id v) -> v_monitors v !! t = Some m ->
  monitor_step ev (mo_phase m) (view_of m v) = Some (s, ph) -> stage_ok st (local id (continued t m s ph v)).
Proof.
  intros H Ht Hs. pose proof (monitor_step_frame _ _ _ _ _ Hs) as [[E1 E2 E3 E4 E5] Hend].
  cbn [view_of record registry snapshots] in *. specialize (E2 id). destruct ph as [p|].
  - apply (stage_same st (local id v)); try done; cbn [local l_shown l_monitor].
    + cbn [continued v_snapshots set_monitors set_shared].
      destruct (decide (r_endpoint_id (mo_record m) = id)) as [Hid|Hid].
      * rewrite Hid in E4. destruct (shown_or_more _ E4) as [-> | ->]; [by left|right]. split; [done|].
        exists t. by rewrite (monitors_of_Some id v t m).
      * left. unfold bt_mem. by rewrite E3 by done.
    + intros j. by apply monitors_of_continued.
  - destruct (Hend eq_refl) as [-> Hc]. unfold machines_contains in Hc. destruct (poisoned _); [done|]. injection Hc as Hc.
    replace (continued t m (view_of m v) None v) with (set_monitors (delete t (v_monitors v)) v) by (by destruct v).
    apply (stage_ended st t m); auto.
Qed.

(** A change of the imports that is not about this machine. *)
Lemma stage_import st k i :
  stage_ok st (local id v) ->
  (forall x, v_imports v !! k = Some x -> import_id x <> Some id) ->
  (forall x, i = Some x -> import_id x <> Some id) ->
  stage_ok st (local id (set_imports (partial_alter (fun _ => i) k (v_imports v)) v)).
Proof.
  intros H Hk Hi. apply (stage_same st (local id v)); try done; cbn [local l_shown l_import]; [by left|].
  intros j. unfold imports_of, part. cbn [v_imports set_imports]. destruct (decide (k = j)) as [<-|Hne].
  - rewrite lookup_partial_alter_eq. destruct i as [x|]; [rewrite decide_False by auto|];
      (destruct (v_imports v !! k) as [y|] eqn:E; [|done]); by rewrite decide_False by auto.
  - by rewrite lookup_partial_alter_ne by done.
Qed.

(** The steps of an import on this machine: it is the one in flight. *)
Lemma import_in_flight st k i :
  stage_ok st (local id v) -> v_imports v !! k = Some i -> import_id i = Some id ->
  st = Pairing /\ alone (imports_of id v) k i.
Proof.
  intros H Hk Hi. pose proof (imports_of_Some id v k i Hk Hi) as E. destruct st; cbn [stage_ok local] in H.
  - destruct H as (_ & _ & _ & _ & H & _). specialize (H k). cbn [local l_import] in H. congruence.
  - split; [done|]. destruct H as (_ & _ & _ & k' & i' & [H1 H2] & _). cbn [local l_import] in *.
    destruct (decide (k = k')) as [->|Hne]; [|rewrite (H2 k Hne) in E; done]. rewrite H1 in E. by injection E as ->.
  - destruct H as (_ & _ & H & _). specialize (H k). cbn [local l_import] in H. congruence.
  - destruct H as (_ & H & _). specialize (H k). cbn [local l_import] in H. congruence.
Qed.

Lemma removal_in_flight st k r :
  stage_ok st (local id v) -> v_removals v !! k = Some r -> removal_id r = id ->
  st = Removing /\ alone (removals_of id v) k r.
Proof.
  intros H Hk Hr. pose proof (removals_of_Some id v k r Hk Hr) as E. destruct st; cbn [stage_ok local] in H.
  - destruct H as (_ & _ & _ & _ & _ & H). specialize (H k). cbn [local l_removal] in H. congruence.
  - destruct H as (_ & _ & H & _). specialize (H k). cbn [local l_removal] in H. congruence.
  - destruct H as (_ & _ & _ & H & _). specialize (H k). cbn [local l_removal] in H. congruence.
  - split; [done|]. destruct H as (_ & _ & k' & r' & [H1 H2] & _). cbn [local l_removal] in *.
    destruct (decide (k = k')) as [->|Hne]; [|rewrite (H2 k Hne) in E; done]. rewrite H1 in E. by injection E as ->.
Qed.

(** The one in flight goes on, or returns. *)
Lemma alone_next {A} (P : A -> Prop) `{!forall x, Decision (P x)} (m : gmap nat A) k x y :
  alone (part P m) k x -> P y -> alone (part P (<[k := y]> m)) k y.
Proof.
  intros [_ Ha] Hy. split; [by rewrite part_insert, !decide_True|].
  intros j Hj. rewrite part_insert, decide_False by congruence. by apply Ha.
Qed.

Lemma alone_done {A} (P : A -> Prop) `{!forall x, Decision (P x)} (m : gmap nat A) k x :
  alone (part P m) k x -> none (part P (delete k m)).
Proof. intros [_ Ha] j. rewrite part_delete. destruct (decide (k = j)); [done|]. by apply Ha, not_eq_sym. Qed.

Lemma alone_first {A} (P : A -> Prop) `{!forall x, Decision (P x)} (m : gmap nat A) k y :
  none (part P m) -> P y -> alone (part P (<[k := y]> m)) k y.
Proof.
  intros Hn Hy. split; [by rewrite part_insert, !decide_True|].
  intros j Hj. rewrite part_insert, decide_False by congruence. by apply Hn.
Qed.

Lemma stage_record st st' k s m r res :
  stage_ok st (local id v) -> v_imports v !! k = Some (Recording s m) ->
  machines_insert fs_fault m (v_registry v) = (r, res) ->
  next_stage id st (if is_ok res then Recorded (r_endpoint_id m) else Silently) = Some st' ->
  stage_ok st' (local id
    (set_imports (if is_ok res then <[k := Showing s m]> (v_imports v) else delete k (v_imports v))
       (set_shared r (v_snapshots v) v))).
Proof.
  intros H Hk Hi Hn. pose proof (machines_insert_cases m (v_registry v)) as C. rewrite Hi in C.
  assert (Hnot : forall x, v_imports v !! k = Some x -> import_id x <> Some id) by (rewrite Hk; by intros x [= <-]).
  destruct res as [u|e]; cbn [is_ok next_stage] in *.
  - destruct (decide (r_endpoint_id m = id)) as [Hid|Hid].
    + destruct st; try done. injection Hn as <-. destruct H as (H1 & H2 & H3 & H4 & H5 & H6).
      cbn [stage_ok local l_paired]. split_and!; try done; [by rewrite C, bool_decide_eq_true_2|].
      exists k, (Showing s m). split; [|done]. apply alone_first; [exact H5|by rewrite <- Hid].
    + injection Hn as <-. apply (stage_same st (local id (set_imports (<[k := Showing s m]> (v_imports v)) v))); try done.
      * apply (stage_import st k (Some (Showing s m)) H Hnot). intros x [= <-] [= E]. done.
      * cbn [local l_paired]. cbn [v_registry set_imports set_shared]. by rewrite C, bool_decide_eq_false_2 by congruence.
      * by left.
  - injection Hn as <-. apply (stage_same st (local id (set_imports (delete k (v_imports v)) v))); try done.
    + by apply (stage_import st k None H Hnot).
    + cbn [local l_paired]. cbn [v_registry set_imports set_shared]. by rewrite C.
    + by left.
Qed.

Lemma stage_show st k s m :
  stage_ok st (local id v) -> v_imports v !! k = Some (Showing s m) ->
  stage_ok st (local id (set_imports (<[k := Spawning m]> (v_imports v))
    (set_shared (v_registry v) (bt_insert (r_endpoint_id m) s (v_snapshots v)) v))).
Proof.
  intros H Hk. destruct (decide (r_endpoint_id m = id)) as [Hid|Hid].
  - destruct (import_in_flight st k _ H Hk) as [-> Ha]; [by rewrite <- Hid|].
    destruct H as (H1 & H2 & H3 & k' & i & Hi & Hm). cbn [stage_ok]. split_and!; try done.
    exists k, (Spawning m). split; [eapply alone_next; [exact Ha|by rewrite <- Hid]|].
    destruct (alone_same _ _ _ _ _ Ha Hi) as [-> ->].
    split; [|exact Hm]. unfold bt_mem. cbn [local l_shown v_snapshots set_shared set_imports].
    unfold bt_mem. by rewrite <- Hid, bt_get_insert_eq.
  - apply (stage_same st (local id (set_imports (<[k := Spawning m]> (v_imports v)) v))); try done.
    + apply (stage_import st k (Some (Spawning m)) H); [rewrite Hk|]; intros x [= <-] [= E]; done.
    + left. cbn [local l_shown v_snapshots set_shared set_imports]. unfold bt_mem. by rewrite bt_get_insert_ne.
Qed.

Lemma stage_spawn st k m t :
  stage_ok st (local id v) -> v_imports v !! k = Some (Spawning m) -> fresh t v ->
  stage_ok st (local id (set_imports (<[k := Registering m t]> (v_imports v))
    (set_monitors (<[t := fresh_monitor m]> (v_monitors v)) v))).
Proof.
  intros H Hk Hf. destruct (decide (r_endpoint_id m = id)) as [Hid|Hid].
  - destruct (import_in_flight st k _ H Hk) as [-> Ha]; [by rewrite <- Hid|].
    destruct H as (H1 & H2 & H3 & k' & i & Hi & Hm). cbn [stage_ok]. split_and!; try done.
    exists k, (Registering m t). split; [eapply alone_next; [exact Ha|by rewrite <- Hid]|].
    destruct (alone_same _ _ _ _ _ Ha Hi) as [-> ->].
    destruct Hm as [Hsh Hm]. split; [exact Hsh|]. cbn [local l_monitor] in *. unfold monitors_of in *.
    cbn [v_monitors set_monitors set_imports] in *. split.
    + by rewrite part_insert, !decide_True.
    + intros j Hj. rewrite part_insert, decide_False by congruence. apply Hm.
  - apply (stage_same st (local id (set_imports (<[k := Registering m t]> (v_imports v)) v))); try done.
    + apply (stage_import st k (Some (Registering m t)) H); [rewrite Hk|]; intros x [= <-] [= E]; done.
    + by left.
    + intros j. cbn [local l_monitor]. unfold monitors_of. cbn [v_monitors set_monitors set_imports].
      rewrite part_insert. destruct (decide (t = j)) as [<-|]; [|done]. unfold part. destruct Hf as [-> _].
      by rewrite decide_False.
Qed.

Lemma register_other k m t j :
  r_endpoint_id m <> id -> v_imports v !! k = Some (Registering m t) ->
  monitors_of id (register (r_endpoint_id m) t v) j = monitors_of id v j /\
  bt_get id (v_handles (register (r_endpoint_id m) t v)) = bt_get id (v_handles v).
Proof.
  intros Hid Hk. unfold register. rewrite (proj1 (vo_handles v Hv)).
  pose proof (monitors_of_abort_other id (r_endpoint_id m) (bt_get (r_endpoint_id m) (v_handles v)) v j Hid
    (fun t => vo_tracked v Hv _ t)) as E1.
  set (v1 := set_monitors (abort_task (bt_get (r_endpoint_id m) (v_handles v)) (v_monitors v)) v) in *.
  destruct (machines_contains _ _) as [[]|]; cbn [v_handles set_handles].
  - rewrite bt_get_insert_ne by done. done.
  - rewrite bt_get_remove_ne by done. split; [|done]. rewrite <- E1.
    apply (monitors_of_abort_other id (r_endpoint_id m) (Some t) v1); [done|]. intros t' [= <-].
    apply (vo_registering v1 (ok_abort v _ Hv) k). done.
  - rewrite bt_get_insert_ne by done. done.
Qed.

Lemma stage_register st st' k m t :
  stage_ok st (local id v) -> v_imports v !! k = Some (Registering m t) ->
  next_stage id st (Imported (r_endpoint_id m)) = Some st' ->
  stage_ok st' (local id (set_imports (delete k (v_imports v)) (register (r_endpoint_id m) t v))).
Proof.
  intros H Hk Hn. destruct (register_keeps (r_endpoint_id m) t v) as (E1 & E2 & E3 & E4 & E5). cbn [next_stage] in Hn.
  destruct (decide (r_endpoint_id m = id)) as [Hid|Hid].
  - destruct (import_in_flight st k _ H Hk) as [-> Ha]; [by rewrite <- Hid|]. injection Hn as <-.
    destruct H as (H1 & H2 & H3 & k' & i & Hi & Hm).
    destruct (alone_same _ _ _ _ _ Ha Hi) as [-> ->].
    destruct Hm as [Hsh Hm]. rewrite Hid in *. cbn [stage_ok local l_paired l_shown l_import l_removal l_handle l_monitor] in *.
    cbn [v_registry v_snapshots v_handles set_imports] in *. rewrite E1, E2.
    assert (Er : register id t v = set_handles (bt_insert id t (v_handles v)) v).
    { unfold register, machines_contains. rewrite (proj1 (vo_handles v Hv)), H1, H2. destruct (poisoned _); by destruct v. }
    split_and!; try done.
    + exact (alone_done _ _ k _ Ha).
    + unfold removals_of. cbn [v_removals set_imports]. by rewrite E5.
    + exists t. rewrite Er. cbn [v_handles set_handles]. split; [by rewrite bt_get_insert_eq|]. exact Hm.
  - injection Hn as <-.
    apply (stage_same st (local id (set_imports (delete k (v_imports v)) v))); try done;
      cbn [local l_paired l_handle l_shown l_monitor l_import l_removal]; cbn [v_registry v_snapshots v_handles set_imports].
    + apply (stage_import st k None H); [rewrite Hk; intros x [= <-] [= E]|]; done.
    + by rewrite E1.
    + exact (proj2 (register_other k m t 0 Hid Hk)).
    + left. by rewrite E2.
    + intros j. exact (proj1 (register_other k m t j Hid Hk)).
    + intros j. unfold removals_of. cbn [v_removals set_imports]. by rewrite E5.
Qed.

Lemma stage_removal st k r :
  stage_ok st (local id v) ->
  (forall x, v_removals v !! k = Some x -> removal_id x <> id) -> (forall x, r = Some x -> removal_id x <> id) ->
  stage_ok st (local id (set_removals (partial_alter (fun _ => r) k (v_removals v)) v)).
Proof.
  intros H Hk Hr. apply (stage_same st (local id v)); try done; cbn [local l_shown l_removal]; [by left|].
  intros j. unfold removals_of, part. cbn [v_removals set_removals]. destruct (decide (k = j)) as [<-|Hne].
  - rewrite lookup_partial_alter_eq. destruct r as [x|]; [rewrite decide_False by auto|];
      (destruct (v_removals v !! k) as [y|] eqn:E; [|done]); by rewrite decide_False by auto.
  - by rewrite lookup_partial_alter_ne by done.
Qed.

Lemma stage_remove st st' k i r res :
  stage_ok st (local id v) -> v_removals v !! k = None -> machines_remove fs_fault i (v_registry v) = (r, res) ->
  let found := match res with Ok true => true | _ => false end in
  next_stage id st (if found then Removed i else Silently) = Some st' ->
  stage_ok st' (local id (set_removals (if found then <[k := Stopping i]> (v_removals v) else v_removals v)
    (set_shared r (v_snapshots v) v))).
Proof.
  intros H Hk Hrm found Hn. destruct (vo_registry v Hv) as [[_ Hsorted] _].
  pose proof (machines_remove_cases fs_fault i (v_registry v) Hsorted) as C. rewrite Hrm in C.
  assert (Hnot : forall x, v_removals v !! k = Some x -> removal_id x <> id) by (by rewrite Hk).
  assert (Hkeep : records r = records (v_registry v) -> stage_ok st (local id (set_shared r (v_snapshots v) v))).
  { intros E. apply (stage_same st (local id v)); try done; [|by left]. cbn [local l_paired]. cbn [v_registry set_shared]. by rewrite E. }
  subst found. destruct res as [[]|e]; cbn [next_stage] in *.
  - destruct C as (C1 & _ & C3 & _). destruct (decide (i = id)) as [->|Hid].
    + destruct st; try done. injection Hn as <-. destruct H as (H1 & H2 & H3 & H4 & t & Ht & Hm).
      cbn [stage_ok local l_paired]. split; [|split; [exact H3|]].
      * unfold bt_mem. cbn [v_registry set_shared set_removals]. by rewrite C3, bt_get_remove_eq.
      * exists k, (Stopping id). split; [by apply alone_first; [exact H4|]|]. exists t. split; [exact Ht|by destruct Hm].
    + injection Hn as <-. apply (stage_same st (local id (set_removals (<[k := Stopping i]> (v_removals v)) v))); try done.
      * apply (stage_removal st k (Some (Stopping i)) H Hnot). by intros x [= <-].
      * cbn [local l_paired]. unfold bt_mem. cbn [v_registry set_removals set_shared]. by rewrite C3, bt_get_remove_ne.
      * by left.
  - injection Hn as <-. destruct C as [-> _]. by apply Hkeep.
  - injection Hn as <-. destruct C as [C _]. by apply Hkeep.
Qed.

Lemma stage_stop st k i :
  stage_ok st (local id v) -> v_removals v !! k = Some (Stopping i) ->
  stage_ok st (local id (set_removals (<[k := snd (stop i v)]> (v_removals v)) (fst (stop i v)))).
Proof.
  intros H Hk. destruct (vo_handles v Hv) as [Hp Hsorted].
  destruct (decide (i = id)) as [->|Hid].
  - destruct (removal_in_flight st k _ H Hk eq_refl) as [-> Ha].
    destruct H as (H1 & H2 & k' & r & Hr & Hm). destruct (alone_same _ _ _ _ _ Ha Hr) as [-> ->].
    destruct Hm as (t & Ht & Hm). cbn [local l_handle] in Ht. unfold stop. rewrite Hp, Ht. cbn [fst snd].
    cbn [stage_ok]. split_and!; try done. exists k, (Awaiting id t). split; [by eapply alone_next|].
    cbn [local l_handle l_monitor]. split; [by apply bt_get_remove_eq|]. intros j Hj. specialize (Hm j Hj).
    etransitivity; [exact (monitors_of_abort id (Some t) v j)|]. rewrite decide_False by congruence. exact Hm.
  - unfold stop. rewrite Hp. cbn [fst snd].
    set (r := match bt_get i (v_handles v) with Some t => Awaiting i t | None => Dropping i end).
    apply (stage_same st (local id (set_removals (<[k := r]> (v_removals v)) v))); try done.
    + apply (stage_removal st k (Some r) H); [by rewrite Hk; intros x [= <-]|].
      intros x [= <-]. unfold r. by destruct (bt_get i (v_handles v)).
    + cbn [local l_handle v_handles set_removals set_handles]. by rewrite bt_get_remove_ne.
    + by left.
    + intros j. exact (monitors_of_abort_other id i _ v j Hid (fun t => vo_tracked v Hv _ t)).
Qed.

Lemma stage_joined st k i t :
  stage_ok st (local id v) -> v_removals v !! k = Some (Awaiting i t) -> v_monitors v !! t = None ->
  stage_ok st (local id (set_removals (<[k := Dropping i]> (v_removals v)) v)).
Proof.
  intros H Hk Ht. destruct (decide (i = id)) as [->|Hid].
  - destruct (removal_in_flight st k _ H Hk eq_refl) as [-> Ha].
    destruct H as (H1 & H2 & k' & r & Hr & Hm). destruct (alone_same _ _ _ _ _ Ha Hr) as [-> ->]. destruct Hm as [Hh Hm].
    cbn [stage_ok]. split_and!; try done. exists k, (Dropping id). split; [by eapply alone_next|]. split; [exact Hh|].
    intros j. destruct (decide (j = t)) as [->|Hne]; [|exact (Hm j Hne)].
    cbn [local l_monitor]. unfold monitors_of, part. cbn [v_monitors set_removals]. by rewrite Ht.
  - apply (stage_removal st k (Some (Dropping i)) H); [by rewrite Hk; intros x [= <-]|by intros x [= <-]].
Qed.

Lemma stage_drop st st' k i :
  stage_ok st (local id v) -> v_removals v !! k = Some (Dropping i) -> next_stage id st (Forgot i) = Some st' ->
  stage_ok st' (local id (set_removals (delete k (v_removals v))
    (set_shared (v_registry v) (bt_remove i (v_snapshots v)) v))).
Proof.
  intros H Hk Hn. cbn [next_stage] in Hn. destruct (decide (i = id)) as [->|Hid].
  - destruct (removal_in_flight st k _ H Hk eq_refl) as [-> Ha]. injection Hn as <-.
    destruct H as (H1 & H2 & k' & r & Hr & Hm). destruct (alone_same _ _ _ _ _ Ha Hr) as [-> ->]. destruct Hm as [Hh Hm].
    cbn [stage_ok]. split_and!; try done; [|exact (alone_done _ _ k _ Ha)].
    cbn [local l_shown]. unfold bt_mem. cbn [v_snapshots set_removals set_shared].
    by rewrite bt_get_remove_eq by apply (proj1 (vo_shown v Hv)).
  - injection Hn as <-. apply (stage_same st (local id (set_removals (delete k (v_removals v)) v))); try done.
    + apply (stage_removal st k None H); [by rewrite Hk; intros x [= <-]|done].
    + left. cbn [local l_shown]. unfold bt_mem. cbn [v_snapshots set_removals set_shared]. by rewrite bt_get_remove_ne.
Qed.

Lemma step_stage st st' l v' :
  step v l v' -> stage_ok st (local id v) -> next_stage id st l = Some st' -> stage_ok st' (local id v').
Proof.
  intros Hs H Hn.
  destruct Hs as [t m ev s ph Ht Hs|t m Ht Ha|k now text b Hk Hc|k b env Hk|k s m r res Hk Hi|k s m Hk|k m t Hk Hf|k m t Hk|
    k i r res Hk Hrm found|k i Hk|k i t Hk Ht|k i Hk].
  - unfold monitor_label in Hn. assert (st' = st) as -> by (by destruct (mo_phase m); injection Hn).
    by eapply stage_monitor.
  - injection Hn as <-. apply (stage_ended st t m); auto.
  - injection Hn as <-. apply (stage_import st k (Some (Asking b)) H); [by rewrite Hk|by intros x [= <-]].
  - injection Hn as <-. assert (Hnot : forall x, v_imports v !! k = Some x -> import_id x <> Some id) by (by rewrite Hk; intros x [= <-]).
    destruct (ask env b) as [[s m]|]; [apply (stage_import st k (Some (Recording s m)) H Hnot); by intros x [= <-]|].
    by apply (stage_import st k None H Hnot).
  - by eapply stage_record.
  - injection Hn as <-. by apply stage_show.
  - injection Hn as <-. by apply stage_spawn.
  - by eapply stage_register.
  - by eapply stage_remove.
  - injection Hn as <-. by apply stage_stop.
  - injection Hn as <-. by eapply stage_joined.
  - by eapply stage_drop.
Qed.

(** Of the labels, only the start of an operation can come at the wrong stage. *)
Lemma overlap_starts st l v' :
  step v l v' -> stage_ok st (local id v) -> next_stage id st l = None ->
  l = Recorded id /\ st <> Unpaired \/ l = Removed id /\ st = Pairing.
Proof.
  intros Hs H Hn.
  destruct Hs as [t m ev s ph Ht Hs|t m Ht Ha|k now text b Hk Hc|k b env Hk|k s m r res Hk Hi|k s m Hk|k m t Hk Hf|k m t Hk|
    k i r res Hk Hrm found|k i Hk|k i t Hk Ht|k i Hk]; try done.
  - unfold monitor_label in Hn. by destruct (mo_phase m).
  - destruct res as [u|]; [cbn [is_ok next_stage] in *|done]. left. destruct (decide _) as [->|]; [|done].
    by destruct st.
  - cbn [next_stage] in Hn. destruct (decide _) as [E|]; [|done].
    destruct (import_in_flight st k _ H Hk) as [-> _]; [by rewrite <- E|done].
  - subst found. destruct (vo_registry v Hv) as [[_ Hsorted] _].
    pose proof (machines_remove_cases fs_fault i (v_registry v) Hsorted) as C. rewrite Hrm in C.
    destruct res as [[]|]; [|done|done]. cbn [next_stage] in *. destruct (decide _) as [->|]; [|done]. right.
    destruct C as [C _]. destruct st; try done; destruct H as [H _]; cbn [local l_paired] in H; congruence.
  - cbn [next_stage] in Hn. destruct (decide _) as [E|]; [|done].
    destruct (removal_in_flight st k _ H Hk) as [-> _]; [by rewrite <- E|done].
Qed.

(** A machine that is not paired is not dialled. *)
Lemma dialled_paired st l v' : step v l v' -> stage_ok st (local id v) -> l = Dialled id -> st <> Unpaired.
Proof.
  intros Hs H E ->. destruct H as (_ & _ & _ & H & _). cbn [local l_monitor] in H.
  destruct Hs as [t m ev s ph Ht Hs| | | |k s m r res Hk Hi| | | |k i r res Hk Hrm found| | |]; try done.
  - unfold monitor_label in E. destruct (mo_phase m); try done. injection E as E.
    specialize (H t). by rewrite (monitors_of_Some id v t m) in H.
  - by destruct (is_ok res).
  - by destruct found.
Qed.

End Stages.

(** ** Properties *)

Lemma stages_app id st tr1 tr2 :
  stages id st (tr1 ++ tr2)%list = match stages id st tr1 with Some st => stages id st tr2 | None => None end.
Proof.
  revert st. induction tr1 as [|l tr1 IH]; intros st; [done|]. cbn [app stages]. by destruct (next_stage id st l).
Qed.

Lemma viewer_run_ok v0 tr v : run v0 tr v -> viewer_ok v0 -> viewer_ok v.
Proof. induction 1; eauto using viewer_step_ok. Qed.

(** What an overlap is: a pairing that is recorded while the machine is not unpaired, or a removal
    of a machine whose pairing has not returned. *)
Definition overlap (id : string) (st0 : Stage) (tr : list Label) : Prop :=
  exists past l rest st, tr = (past ++ l :: rest)%list /\ stages id st0 past = Some st /\
    (l = Recorded id /\ st <> Unpaired \/ l = Removed id /\ st = Pairing).

(** C10: Operations on one machine are atomic to each other: in every run of the viewer, whatever its
    monitors, the operations on other machines and the file system do, a machine is always at the
    stage its own operations have brought it to, as long as none of them starts before the last one
    returned. A paired machine has its record, its snapshot and exactly one monitor, which a
    removal can find; a removed one has none of them, and is not dialled again until it is paired
    again. *)
Theorem machine_is_at_its_stage v0 tr v id st0 :
  viewer_ok v0 -> stage_ok st0 (local id v0) -> run v0 tr v ->
  match stages id st0 tr with
  | Some st => stage_ok st (local id v)
  | None => overlap id st0 tr
  end /\
  (forall past rest, tr = (past ++ Dialled id :: rest)%list -> stages id st0 past <> Some Unpaired).
Proof.
  intros Hv H Hr. induction Hr as [|tr v l v' Hr IH Hs]; [split; [done|by intros []]|].
  destruct IH as [IH1 IH2]. pose proof (viewer_run_ok _ _ _ Hr Hv) as Hv'. split.
  - rewrite stages_app. destruct (stages id st0 tr) as [st|] eqn:E.
    + cbn [stages]. destruct (next_stage id st l) as [st'|] eqn:En; [by eapply step_stage|].
      exists tr, l, [], st. split_and!; [done|done|]. by eapply overlap_starts.
    + destruct IH1 as (past & l' & rest & st & -> & Hp & Ho). exists past, l', (rest ++ [l])%list, st.
      by rewrite <- app_assoc.
  - intros past rest E. destruct rest as [|x rest _] using rev_ind.
    + apply app_inj_tail in E as [<- ->]. intros E. rewrite E in IH1. by eapply dialled_paired.
    + change (past ++ Dialled id :: rest ++ [x])%list with (past ++ (Dialled id :: rest) ++ [x])%list in E.
      rewrite app_assoc in E. apply app_inj_tail in E as [E _]. by eapply IH2.
Qed.

(** ** The start *)

(** [RemoteFleet::load] and [start]: every record is about to get its monitor. *)
Definition started (f : ReadOutcome) : result Viewer RemoteFleetError :=
  let? fleet := fleet_load f in
  let? l := machines_list (f_registry fleet) in
  Ok {| v_registry := f_registry fleet; v_snapshots := f_snapshots fleet; v_handles := f_monitors fleet;
        v_poisoned := f_monitors_poisoned fleet; v_monitors := ∅; v_imports := map_seq 0 (map Spawning l);
        v_removals := ∅ |}.

Definition show_offline (s : Snapshots) (m : RemoteMachineRecord) : Snapshots :=
  bt_insert (r_endpoint_id m) (offline m) s.

Lemma shown_offline id l acc :
  bt_mem id (fold_left show_offline l acc) = true <->
  bt_mem id acc = true \/ exists m, In m l /\ r_endpoint_id m = id.
Proof.
  revert acc. induction l as [|m l IH]; intros acc; cbn [fold_left]; [firstorder|].
  rewrite IH. unfold show_offline at 1. rewrite bt_mem_insert. split.
  - intros [[->|H]|(x & Hx & E)]; [right; exists m; by split; [left|]|by left|right; exists x; by split; [right|]].
  - intros [H|(x & [->|Hx] & E)]; [by left; right|by left; left|right; eauto].
Qed.

Lemma offline_ok l acc :
  Forall record_finite l -> bt_sorted acc -> Forall (fun e => snapshot_finite (snd e)) acc ->
  bt_sorted (fold_left show_offline l acc) /\ Forall (fun e => snapshot_finite (snd e)) (fold_left show_offline l acc).
Proof.
  intros Hl. revert acc. induction Hl as [|m l Hm Hl IH]; intros acc Hs Hf; [done|]. cbn [fold_left]. apply IH.
  - by apply bt_insert_sorted.
  - apply bt_insert_Forall; [by apply offline_finite|done].
Qed.

(** Records filed under their own ids have different ids. *)
Lemma keyed_unique (l : Machines) i j m m' :
  bt_sorted l -> keyed l -> bt_values l !! i = Some m -> bt_values l !! j = Some m' ->
  r_endpoint_id m = r_endpoint_id m' -> i = j.
Proof.
  intros Hs Hk. assert (He : forall i m, bt_values l !! i = Some m -> l !! i = Some (r_endpoint_id m, m)).
  { intros i0 m0 H. unfold bt_values in H. change (map snd l) with (snd <$> l) in H.
    apply list_lookup_fmap_Some in H as ([k x] & -> & E). etransitivity; [exact E|]. do 2 f_equal. symmetry. apply Hk, bt_In_get; [done|].
    apply list_elem_of_In. by eapply list_elem_of_lookup_2. }
  intros Hi%He Hj%He E. rewrite E in Hi. clear He Hk E.
  revert i j Hi Hj. induction Hs as [|e l Hs IH Hall]; intros i j Hi Hj; [done|]. rewrite List.Forall_forall in Hall.
  assert (Hlt : forall n x, l !! n = Some x -> bt_entry_lt e x).
  { intros n x Hn. apply Hall, list_elem_of_In. by eapply list_elem_of_lookup_2. }
  destruct i as [|i], j as [|j]; [done|..]; cbn [lookup list_lookup] in Hi, Hj.
  - injection Hi as ->. apply Hlt in Hj. unfold bt_entry_lt in Hj. cbn [fst] in Hj. by rewrite kcmp_refl in Hj.
  - injection Hj as ->. apply Hlt in Hi. unfold bt_entry_lt in Hi. cbn [fst] in Hi. by rewrite kcmp_refl in Hi.
  - f_equal. by apply IH.
Qed.

Section Started.
Context (f : ReadOutcome) (recs : Machines).
Let r : MachineRegistry := {| records := recs; poisoned := false; file := f; disk_ops := 0 |}.
Context (Hr : registry_ok r).

Let v : Viewer :=
  {| v_registry := r; v_snapshots := fold_left show_offline (bt_values recs) []; v_handles := []; v_poisoned := false;
     v_monitors := ∅; v_imports := map_seq 0 (map Spawning (bt_values recs)); v_removals := ∅ |}.

Lemma started_import k x : v_imports v !! k = Some x <-> exists m, bt_values recs !! k = Some m /\ x = Spawning m.
Proof.
  unfold v. cbn [v_imports]. rewrite lookup_map_seq_0. change (map Spawning ?l) with (Spawning <$> l).
  rewrite list_lookup_fmap_Some. split; intros (m & H1 & H2); eauto.
Qed.

Lemma started_finite : Forall record_finite (bt_values recs).
Proof. unfold bt_values. destruct Hr as [_ [_ Hf]]. by apply Forall_map. Qed.

Lemma started_viewer_ok : viewer_ok v.
Proof.
  destruct (offline_ok (bt_values recs) [] started_finite) as [Ho1 Ho2]; [constructor|constructor|]. split; try done.
  - split; [done|constructor].
  - intros k x (m & E & ->)%started_import. cbn [import_ok]. pose proof started_finite as Hv.
    rewrite List.Forall_forall in Hv. apply Hv, list_elem_of_In. by eapply list_elem_of_lookup_2.
Qed.

Lemma listed_id k m : bt_values recs !! k = Some m -> bt_get (r_endpoint_id m) recs = Some m.
Proof.
  intros Hk. destruct Hr as [[_ Hs] [Hkeyed _]]. apply list_elem_of_lookup_2, list_elem_of_In, in_map_iff in Hk as ([i m'] & E & Hin).
  cbn [snd] in E. subst m'. apply bt_In_get in Hin; [|done]. by rewrite (Hkeyed _ _ Hin).
Qed.

Lemma started_stage id : stage_ok (if bt_mem id recs then Pairing else Unpaired) (local id v).
Proof.
  pose proof Hr as [[_ Hs] [Hkeyed _]]. pose proof (shown_offline id (bt_values recs) []) as Hsh.
  destruct (bt_mem id recs) eqn:Em; cbn [stage_ok]; unfold bt_mem in Em.
  - destruct (bt_get id recs) as [m|] eqn:Eg; [|done]. pose proof (Hkeyed id m Eg) as Hid.
    apply bt_get_In, (in_map snd) in Eg. pose proof Eg as Hin. cbn [snd] in Eg.
    apply list_elem_of_In, list_elem_of_lookup in Eg as [k Ek].
    split_and!; try done; [unfold l_paired, local, bt_mem; cbn [v_registry v records r]; by rewrite <- Hid, (listed_id k m)|].
    exists k, (Spawning m). split; [split|split; [apply Hsh; right; by exists m|done]]; cbn [local l_import].
    + apply imports_of_Some; [|by rewrite <- Hid]. apply started_import. by exists m.
    + intros j Hj. unfold imports_of, part. destruct (v_imports v !! j) as [x|] eqn:Ej; [|done].
      apply started_import in Ej as (m' & Em' & ->). rewrite decide_False; [done|]. intros [= E]. apply Hj.
      apply (keyed_unique recs j k m' m Hs Hkeyed Em' Ek). congruence.
  - assert (Hno : forall k m, bt_values recs !! k = Some m -> r_endpoint_id m <> id).
    { intros k m Hk E. apply listed_id in Hk. rewrite E in Hk. by rewrite Hk in Em. }
    split_and!; try done; cbn [local l_paired l_shown l_import].
    + apply not_true_iff_false. intros E. apply Hsh in E as [E|(m & Hm & E)]; [done|].
      apply list_elem_of_In, list_elem_of_lookup in Hm as [k Hk]. by apply Hno in Hk.
    + intros k. unfold imports_of, part. destruct (v_imports v !! k) as [x|] eqn:Ek; [|done].
      apply started_import in Ek as (m & Hm & ->). rewrite decide_False; [done|]. intros [= E]. by apply Hno in Hm.
Qed.

End Started.

(** A viewer starts at the right stages: every machine in its file is being given its monitor, and
    no other machine has anything. *)
Lemma started_ok f v :
  started f = Ok v -> registry_ok (v_registry v) ->
  viewer_ok v /\
  forall id, stage_ok (if bt_mem id (records (v_registry v)) then Pairing else Unpaired) (local id v).
Proof.
  unfold started, fleet_load. destruct (machines_load f) as [recs|]; [cbn [result_bind]|done].
  intros [= <-] Hr. split; [by apply (started_viewer_ok f recs)|by apply (started_stage f recs)].
Qed.

(** ** The operations of [Fleet] are runs *)

Lemma viewer_run_app v0 tr1 v1 tr2 v2 : run v0 tr1 v1 -> run v1 tr2 v2 -> run v0 (tr1 ++ tr2)%list v2.
Proof.
  intros H1 H2. induction H2 as [|tr v l v' H IH Hs]; [by rewrite app_nil_r|].
  rewrite app_assoc. by econstructor.
Qed.

Lemma run_then v0 tr v l v' : run v0 tr v -> step v l v' -> run v0 (tr ++ [l])%list v'.
Proof. apply run_snoc. Qed.

(** The viewer shares with its tasks what the fleet holds. *)
Definition shares (v : Viewer) (f : RemoteFleet) : Prop :=
  f_registry f = v_registry v /\ f_snapshots f = v_snapshots v /\ f_monitors f = v_handles v /\
  f_monitors_poisoned f = v_poisoned v.

(** A removal that found the record, alone from there on. *)
Lemma removal_returns v k id :
  v_removals v !! k = Some (Stopping id) ->
  exists tr v', run v (tr ++ [Forgot id])%list v' /\
    v_registry v' = v_registry v /\ v_snapshots v' = bt_remove id (v_snapshots v) /\
    v_poisoned v' = v_poisoned v /\
    v_handles v' = (if v_poisoned v then v_handles v else bt_remove id (v_handles v)).
Proof.
  intros Hk. pose proof (step_stop v k id Hk) as S1.
  assert (Hdrop : forall tr v1, run v tr v1 -> v_removals v1 !! k = Some (Dropping id) ->
    run v (tr ++ [Forgot id])%list (set_removals (delete k (v_removals v1))
      (set_shared (v_registry v1) (bt_remove id (v_snapshots v1)) v1))).
  { intros tr v1 Hr H1. eapply run_then; [done|]. by apply step_drop. }
  assert (R1 : run v [Silently] (set_removals (<[k := snd (stop id v)]> (v_removals v)) (fst (stop id v))))
    by (apply (run_then v [] v); [constructor|done]).
  unfold stop in R1. destruct (v_poisoned v) eqn:Hp; cbn [fst snd] in R1.
  - eexists _, _. split; [apply (Hdrop _ _ R1); apply lookup_insert_eq|]. done.
  - destruct (bt_get id (v_handles v)) as [t|]; cbn [abort_task] in R1.
    2: { eexists _, _. split; [apply (Hdrop _ _ R1); apply lookup_insert_eq|]. done. }
    set (v1 := set_removals _ _) in R1.
    assert (H1 : v_removals v1 !! k = Some (Awaiting id t)) by apply lookup_insert_eq.
    assert (R2 : exists tr2 v2, run v tr2 v2 /\ v_monitors v2 !! t = None /\ v2 = set_monitors (v_monitors v2) v1).
    { destruct (v_monitors v1 !! t) as [m|] eqn:Em; [|exists [Silently], v1; by split_and!; [| |destruct v1]].
      eexists _, _. split; [eapply run_then; [exact R1|]; apply (step_aborted v1 t m Em)|].
      - subst v1. cbn [v_monitors set_removals set_handles set_monitors] in Em. rewrite lookup_alter_eq in Em.
        destruct (v_monitors v !! t); [|done]. by injection Em as <-.
      - split; [apply lookup_delete_eq|done]. }
    destruct R2 as (tr2 & v2 & R2 & Hend & E2). rewrite E2 in R2, Hend. clear E2.
    set (v2' := set_monitors _ v1) in *.
    pose proof (run_then _ _ _ _ _ R2 (step_joined v2' k id t H1 Hend)) as R3.
    eexists _, _. split; [apply (Hdrop _ _ R3); apply lookup_insert_eq|]. done.
Qed.

Lemma sequential_removal_is_a_run v f id :
  shares v f ->
  exists tr v', run v tr v' /\ shares v' (fst (remove_machine fs_fault id f)) /\
    (snd (remove_machine fs_fault id f) = Ok true <-> In (Forgot id) tr).
Proof.
  intros (E1 & E2 & E3 & E4). unfold remove_machine. rewrite E1.
  destruct (machines_remove fs_fault id (v_registry v)) as [r res] eqn:Er.
  pose proof (step_remove v (base.fresh (dom (v_removals v))) id r res) as S1.
  set (k := base.fresh (dom (v_removals v))) in *.
  specialize (S1 (proj1 (not_elem_of_dom _ _) (is_fresh _)) Er). cbv zeta in S1.
  pose proof (run_then v [] v _ _ (run_nil v) S1) as R1. cbn [app] in R1.
  destruct res as [[]|e].
  - set (v1 := set_removals _ _) in R1.
    destruct (removal_returns v1 k id) as (tr & v2 & R2 & F1 & F2 & F3 & F4); [apply lookup_insert_eq|].
    eexists _, v2. split; [exact (viewer_run_app _ _ _ _ _ R1 R2)|]. split.
    + unfold shares. rewrite F1, F2, F3, F4. unfold stop_monitor. cbn [f_monitors_poisoned with_registry].
      rewrite E4. destruct (v_poisoned v) eqn:Hp; subst v1;
        cbn [fst drop_snapshot f_registry f_snapshots f_monitors f_monitors_poisoned with_registry
             v_registry v_snapshots v_handles v_poisoned set_removals set_shared]; by rewrite ?Hp, ?E2, ?E3, ?E4.
    + split; [intros _|done]. apply in_or_app. right. apply in_or_app. right. by left.
  - eexists _, _. split; [exact R1|]. split; [by split_and!|]. split; [done|]. by intros [E|[]].
  - eexists _, _. split; [exact R1|]. split; [by split_and!|]. split; [done|]. by intros [E|[]].
Qed.

Lemma import_parts env text f :
  import_pairing fs_fault uuid_text parse_uuid parse_relay_url env text f =
  match (let? bundle := may_import (now_valid env) text (f_registry f) in ask env bundle) with
  | Err e => (f, Err e)
  | Ok (snapshot, m) =>
      match machines_insert fs_fault m (f_registry f) with
      | (r, Err e) => (with_registry r f, Err e)
      | (r, Ok _) =>
          (spawn_monitor m (insert_snapshot (r_endpoint_id m) snapshot (with_registry r f)), Ok snapshot)
      end
  end.
Proof.
  unfold import_pairing, may_import, ask. destruct (bundle_decode (trim text)) as [b|e]; [cbn [map_err result_bind]|done].
  destruct (validate_bundle parse_relay_url b (now_valid env)) as [u|e]; [cbn [map_err result_bind]|done].
  by destruct (machines_contains (b_endpoint_id b) (f_registry f)) as [[]|e].
Qed.

(** An import whose record is written, alone from there on. *)
Lemma import_returns v k snapshot m f t :
  v_imports v !! k = Some (Showing snapshot m) -> shares v f -> t = f_spawned f -> fresh t v ->
  exists tr v', run v (tr ++ [Imported (r_endpoint_id m)])%list v' /\
    shares v' (spawn_monitor m (insert_snapshot (r_endpoint_id m) snapshot f)).
Proof.
  intros Hk (E1 & E2 & E3 & E4) -> Hf. set (t := f_spawned f) in *.
  pose proof (run_then v [] v _ _ (run_nil v) (step_show v k snapshot m Hk)) as R1. set (v1 := set_imports _ _) in R1.
  assert (Hf1 : fresh t v1).
  { destruct Hf as (F1 & F2 & F3 & F4). split_and!; try done. by apply map_Forall_insert_2. }
  pose proof (run_then _ _ _ _ _ R1 (step_spawn v1 k m t (lookup_insert_eq _ _ _) Hf1)) as R2. set (v2 := set_imports _ _) in R2.
  pose proof (run_then _ _ _ _ _ R2 (step_register v2 k m t (lookup_insert_eq _ _ _))) as R3.
  eexists _, _. split; [exact R3|]. unfold shares, spawn_monitor, register. subst v2 v1.
  cbn [v_poisoned set_imports set_monitors set_shared f_monitors_poisoned insert_snapshot f_registry]. rewrite E4, E1.
  destruct (v_poisoned v) eqn:Hp; [cbn; by rewrite Hp, E2, E3|]. cbn [v_registry set_imports set_monitors set_shared].
  destruct (machines_contains _ _) as [[]|]; cbn; by rewrite ?Hp, ?E2, ?E3.
Qed.

Lemma sequential_import_is_a_run v f env text :
  shares v f -> fresh (f_spawned f) v ->
  let result := import_pairing fs_fault uuid_text parse_uuid parse_relay_url env text f in
  exists tr v', run v tr v' /\ shares v' (fst result) /\
    (is_ok (snd result) = true <-> exists id, In (Imported id) tr).
Proof.
  intros Hsh Hf. pose proof Hsh as (E1 & E2 & E3 & E4). cbv zeta. rewrite import_parts, E1.
  destruct (may_import (now_valid env) text (v_registry v)) as [b|e] eqn:Em; cbn [result_bind].
  2: { exists [], v. split; [constructor|]. split; [done|]. split; [done|]. by intros [? []]. }
  set (k := base.fresh (dom (v_imports v))).
  assert (Hk : v_imports v !! k = None) by (apply not_elem_of_dom, is_fresh).
  pose proof (run_then v [] v _ _ (run_nil v) (step_check v k _ text b Hk Em)) as R1. set (v1 := set_imports _ _) in R1.
  pose proof (run_then _ _ _ _ _ R1 (step_ask v1 k b env (lookup_insert_eq _ _ _))) as R2.
  destruct (ask env b) as [[s m]|e].
  2: { eexists _, _. split; [exact R2|]. split; [done|]. split; [done|]. by intros [? [E|[E|[]]]]. }
  set (v2 := set_imports _ _) in R2.
  destruct (machines_insert fs_fault m (v_registry v)) as [r res] eqn:Ei.
  pose proof (run_then _ _ _ _ _ R2 (step_record v2 k s m r res (lookup_insert_eq _ _ _) Ei)) as R3.
  destruct res as [u|e]; cbn [is_ok] in R3.
  - set (v3 := set_imports _ _) in R3.
    destruct (import_returns v3 k s m (with_registry r f) (f_spawned f)) as (tr & v4 & R4 & Hs4).
    { apply lookup_insert_eq. }
    { by split_and!. }
    { done. }
    { destruct Hf as (F1 & F2 & F3 & F4). split_and!; try done. repeat apply map_Forall_insert_2; done. }
    eexists _, v4. split; [exact (viewer_run_app _ _ _ _ _ R3 R4)|]. split; [exact Hs4|]. split; [|done].
    intros _. exists (r_endpoint_id m). apply in_or_app. right. apply in_or_app. right. by left.
  - eexists _, _. split; [exact R3|]. split; [by split_and!|]. split; [done|]. by intros [? [E|[E|[E|[]]]]].
Qed.

(** ** A monitor's round is a run *)

Lemma continued_twice t m s ph s' ph' v :
  continued t {| mo_record := record s; mo_persisted := last_persisted s; mo_phase := ph; mo_aborted := mo_aborted m |} s' ph'
    (continued t m s (Some ph) v) = continued t m s' ph' v.
Proof.
  unfold continued. cbn [v_monitors set_monitors set_shared mo_aborted].
  destruct ph' as [p|]; [by rewrite insert_insert_eq|by rewrite delete_insert_eq].
Qed.

(** The monitor [t] of [v] has come to [s] and [ph] on its own. *)
Definition reaches (v : Viewer) (t : nat) (m : Monitor) (s : MonitorState) (ph : MonitorPhase) : Prop :=
  exists tr, run v tr (continued t m s (Some ph) v).

Lemma reaches_start v t m :
  v_monitors v !! t = Some m -> reaches v t m (view_of m v) (mo_phase m).
Proof.
  intros Ht. exists []. replace (continued _ _ _ _ _) with v; [constructor|]. unfold continued, view_of.
  cbn [record last_persisted registry snapshots]. destruct m as [mr mp mph ma], v as [vr vs vh vp vm vi vrm]. cbn in *.
  unfold set_monitors, set_shared. cbn. by rewrite insert_id.
Qed.

Lemma reaches_step v t m s ph ev s' ph' :
  reaches v t m s ph -> monitor_step ev ph s = Some (s', Some ph') -> reaches v t m s' ph'.
Proof.
  intros [tr Hr] Hs.
  set (m1 := {| mo_record := record s; mo_persisted := last_persisted s; mo_phase := ph; mo_aborted := mo_aborted m |}).
  assert (E : view_of m1 (continued t m s (Some ph) v) = s) by (by destruct s).
  pose proof (step_monitor (continued t m s (Some ph) v) t m1 ev s' (Some ph')) as S1.
  rewrite E in S1. specialize (S1 (lookup_insert_eq _ _ _) Hs). eexists. eapply run_then; [exact Hr|].
  unfold m1 in S1. rewrite continued_twice in S1. exact S1.
Qed.

Lemma reaches_event v t m s client ev :
  reaches v t m s (Watching client) ->
  match handle_event fs_fault client ev s with
  | (s', Ok _) => reaches v t m s' (Watching client)
  | (s', Err e) => reaches v t m s' (Failing e)
  end.
Proof.
  intros H. pose proof (fun s' ph' => reaches_step v t m s (Watching client) (MSession ev) s' ph' H) as Hs.
  cbn [monitor_step] in Hs.
  assert (Hd : (forall w now instant waited, ev <> StreamFrame (Done (Ok (Some (RMetricSample w)))) now instant waited) \/
    exists w now instant waited, ev = StreamFrame (Done (Ok (Some (RMetricSample w)))) now instant waited).
  { destruct ev as [[|[[[]|]|]] now instant waited|]; (by right; eauto) || (by left; intros). }
  destruct Hd as [Hd|(w & now & instant & waited & ->)].
  - assert (E : forall s' ph', Some match handle_event fs_fault client ev s with
      | (s, Ok _) => (s, Some (Watching client)) | (s, Err e) => (s, Some (Failing e)) end = Some (s', Some ph') ->
      reaches v t m s' ph').
    { intros s' ph' E. apply Hs. rewrite <- E. destruct ev as [[|[[[]|]|]] now instant waited|]; try done. by destruct (Hd s0 now instant waited). }
    destruct (handle_event fs_fault client ev s) as [s' [u|e]]; by apply E.
  - cbn [handle_event]. unfold handle_sample. destruct (should_persist instant s); [|by apply Hs].
    pose proof (reaches_step v t m _ _ MPersist _ _ (Hs _ _ eq_refl) eq_refl) as H2. exact H2.
Qed.

Lemma reaches_loop v t m client evs s :
  reaches v t m s (Watching client) ->
  match session_loop fs_fault client evs s with
  | (s', Ok _) => reaches v t m s' (Watching client)
  | (s', Err e) => reaches v t m s' (Failing e)
  end.
Proof.
  revert s. induction evs as [|ev evs IH]; intros s H; cbn [session_loop]; [done|].
  pose proof (reaches_event v t m s client ev H) as E. destruct (handle_event _ _ _ _) as [s' [u|e]]; [by apply IH|done].
Qed.

Lemma reaches_session v t m env s :
  reaches v t m s Connecting ->
  match monitor_session fs_fault parse_uuid parse_relay_url env s with
  | (s', Ok _) => exists client, reaches v t m s' (Watching client)
  | (s', Err e) => reaches v t m s' (Failing e)
  end.
Proof.
  intros H. unfold monitor_session, session_start.
  pose proof (fun s' ph' => reaches_step v t m s Connecting (MConnect (dial env)) s' ph' H) as H1. cbn [monitor_step] in H1.
  destruct (connect_record parse_uuid parse_relay_url (dial env) (record s)) as [client|e]; [|by apply H1].
  specialize (H1 _ _ eq_refl).
  pose proof (fun s' ph' => reaches_step v t m _ _ (MStatus (started_ms env)) s' ph' H1) as H2. cbn [monitor_step] in H2.
  unfold status_of in H2. destruct (get_node_info parse_uuid client 1) as [n|e]; [cbn [result_bind] in H2|by apply H2].
  destruct (get_health client 2) as [h|e]; [cbn [result_bind] in H2|by apply H2].
  destruct (get_connection_path client 3) as [[path rtt]|e]; [cbn [result_bind] in H2|by apply H2].
  specialize (H2 _ _ eq_refl).
  pose proof (fun s' ph' => reaches_step v t m _ _ (MWatch (watch env)) s' ph' H2) as H3. cbn [monitor_step] in H3.
  destruct (timed "watch metrics" (watch env)) as [u|e]; [|by apply H3]. specialize (H3 _ _ eq_refl).
  pose proof (reaches_loop v t m client (session_events env) _ H3) as H4.
  destruct (session_loop _ _ _ _) as [s' [u'|e]]; [by exists client|done].
Qed.

Lemma monitor_round_is_a_run v t m env delay :
  v_monitors v !! t = Some m -> mo_phase m = Deciding ->
  match monitor_round fs_fault parse_uuid parse_relay_url error_text env (view_of m v) delay with
  | None => run v [Silently] (continued t m (view_of m v) None v)
  | Some (s, _, _) => exists ph, reaches v t m s ph
  end.
Proof.
  intros Ht Hp. unfold monitor_round. pose proof (reaches_start v t m Ht) as H0. rewrite Hp in H0.
  pose proof (fun ph' => reaches_step v t m _ _ MDecide (view_of m v) ph' H0) as H1. cbn [monitor_step] in H1.
  assert (Hgo : machines_contains (r_endpoint_id (record (view_of m v))) (registry (view_of m v)) <> Ok false ->
    let '(s', r) := monitor_session fs_fault parse_uuid parse_relay_url (session env) (view_of m v) in
    exists ph, reaches v t m (match r with Err e => update_error error_text e (failed_at_ms env) s' | Ok _ => s' end) ph).
  { intros Hc. assert (H2 : reaches v t m (view_of m v) Connecting)
      by (apply H1; by destruct (machines_contains _ _) as [[]|]).
    pose proof (reaches_session v t m (session env) _ H2) as H3. destruct (monitor_session _ _ _ _ _) as [s' [u|e]].
    - destruct H3 as [client H3]. eauto.
    - exists Sleeping. exact (reaches_step v t m _ _ (MFailed (failed_at_ms env)) _ _ H3 eq_refl). }
  destruct (machines_contains _ _) as [[]|] eqn:Ec.
  2: { pose proof (step_monitor v t m MDecide (view_of m v) None Ht) as S1. unfold monitor_label in S1. rewrite Hp in S1.
       cbn [monitor_step] in S1. rewrite Ec in S1. apply (run_then v [] v); [constructor|by apply S1]. }
  all: specialize (Hgo ltac:(done)); destruct (monitor_session _ _ _ _ _) as [s' r], (backoff _ _) as [slept next]; exact Hgo.
Qed.

(** C12: Each operation of the fleet, as [Fleet] has it in one piece, is a run of the tasks in which
    nothing else moves: it ends in the same registry, snapshots and handles, and returns what it
    returns. The same holds of a round of a monitor. *)
Theorem fleet_operations_are_runs v f :
  shares v f ->
  (forall id, exists tr v', run v tr v' /\ shares v' (fst (remove_machine fs_fault id f)) /\
     (snd (remove_machine fs_fault id f) = Ok true <-> In (Forgot id) tr)) /\
  (fresh (f_spawned f) v -> forall env text,
     let result := import_pairing fs_fault uuid_text parse_uuid parse_relay_url env text f in
     exists tr v', run v tr v' /\ shares v' (fst result) /\
       (is_ok (snd result) = true <-> exists id, In (Imported id) tr)) /\
  (forall t m env delay, v_monitors v !! t = Some m -> mo_phase m = Deciding ->
     match monitor_round fs_fault parse_uuid parse_relay_url error_text env (view_of m v) delay with
     | None => run v [Silently] (continued t m (view_of m v) None v)
     | Some (s, _, _) => exists ph, reaches v t m s ph
     end).
Proof.
  intros Hs. split_and!.
  - intros id. by apply sequential_removal_is_a_run.
  - intros Hf env text. by apply sequential_import_is_a_run.
  - intros t m env delay. apply monitor_round_is_a_run.
Qed.

(** ** Schedules *)

(** Which task takes the next step, and what it finds. *)
Inductive Action :=
  | AMonitor (t : nat) (ev : MonitorEvent)
  | AEnd (t : nat)
  | ACheck (k : nat) (now_ms : Z) (encoded : string)
  | AAsk (k : nat) (env : ImportEnv (Url := Url))
  | AImport (k : nat) (t : nat)
  | ARemove (k : nat) (id : string)
  | ARemoval (k : nat).

Definition fresh_task (t : nat) (v : Viewer) : bool :=
  match v_monitors v !! t with None => true | Some _ => false end &&
  forallb (fun e => negb (snd e =? t)%nat) (v_handles v) &&
  forallb (fun e => match snd e with Registering _ t' => negb (t' =? t)%nat | _ => true end)
    (map_to_list (v_imports v)) &&
  forallb (fun e => match snd e with Awaiting _ t' => negb (t' =? t)%nat | _ => true end)
    (map_to_list (v_removals v)).

Definition perform (a : Action) (v : Viewer) : option (Label * Viewer) :=
  match a with
  | AMonitor t ev =>
      m ← v_monitors v !! t;
      '(s, ph) ← monitor_step ev (mo_phase m) (view_of m v);
      Some (monitor_label m, continued t m s ph v)
  | AEnd t =>
      m ← v_monitors v !! t;
      if mo_aborted m then Some (Silently, set_monitors (delete t (v_monitors v)) v) else None
  | ACheck k now encoded =>
      match v_imports v !! k, may_import now encoded (v_registry v) with
      | None, Ok bundle => Some (Silently, set_imports (<[k := Asking bundle]> (v_imports v)) v)
      | _, _ => None
      end
  | AAsk k env =>
      match v_imports v !! k with
      | Some (Asking bundle) =>
          Some (Silently, set_imports (match ask env bundle with
                                       | Ok (s, m) => <[k := Recording s m]> (v_imports v)
                                       | Err _ => delete k (v_imports v)
                                       end) v)
      | _ => None
      end
  | AImport k t =>
      match v_imports v !! k with
      | Some (Recording s m) =>
          let '(r, res) := machines_insert fs_fault m (v_registry v) in
          Some (if is_ok res then Recorded (r_endpoint_id m) else Silently,
                set_imports (if is_ok res then <[k := Showing s m]> (v_imports v) else delete k (v_imports v))
                  (set_shared r (v_snapshots v) v))
      | Some (Showing s m) =>
          Some (Silently, set_imports (<[k := Spawning m]> (v_imports v))
                  (set_shared (v_registry v) (bt_insert (r_endpoint_id m) s (v_snapshots v)) v))
      | Some (Spawning m) =>
          if fresh_task t v
          then Some (Silently, set_imports (<[k := Registering m t]> (v_imports v))
                       (set_monitors (<[t := fresh_monitor m]> (v_monitors v)) v))
          else None
      | Some (Registering m t) =>
          Some (Imported (r_endpoint_id m), set_imports (delete k (v_imports v)) (register (r_endpoint_id m) t v))
      | _ => None
      end
  | ARemove k id =>
      match v_removals v !! k with
      | None =>
          let '(r, res) := machines_remove fs_fault id (v_registry v) in
          let found := match res with Ok true => true | _ => false end in
          Some (if found then Removed id else Silently,
                set_removals (if found then <[k := Stopping id]> (v_removals v) else v_removals v)
                  (set_shared r (v_snapshots v) v))
      | Some _ => None
      end
  | ARemoval k =>
      match v_removals v !! k with
      | Some (Stopping id) =>
          Some (Silently, set_removals (<[k := snd (stop id v)]> (v_removals v)) (fst (stop id v)))
      | Some (Awaiting id t) =>
          match v_monitors v !! t with
          | None => Some (Silently, set_removals (<[k := Dropping id]> (v_removals v)) v)
          | Some _ => None
          end
      | Some (Dropping id) =>
          Some (Forgot id, set_removals (delete k (v_removals v))
                  (set_shared (v_registry v) (bt_remove id (v_snapshots v)) v))
      | None => None
      end
  end.

Lemma fresh_task_spec t v : fresh_task t v = true -> fresh t v.
Proof.
  unfold fresh_task. rewrite !andb_true_iff, !forallb_forall. intros [[[H1 H2] H3] H4].
  split_and!; [by destruct (v_monitors v !! t)|..].
  - intros id Hg. apply bt_get_In, H2 in Hg. cbn [snd] in Hg. by rewrite Nat.eqb_refl in Hg.
  - intros k i Hi. apply elem_of_map_to_list, list_elem_of_In, H3 in Hi. cbn [snd] in Hi.
    destruct i; try done. intros ->. by rewrite Nat.eqb_refl in Hi.
  - intros k r Hr. apply elem_of_map_to_list, list_elem_of_In, H4 in Hr. cbn [snd] in Hr.
    destruct r; try done. intros ->. by rewrite Nat.eqb_refl in Hr.
Qed.

Lemma perform_step a v l v' : perform a v = Some (l, v') -> step v l v'.
Proof.
  destruct a as [t ev|t|k now text|k env|k t|k id|k]; unfold perform, base.mbind, option_bind.
  - destruct (v_monitors v !! t) as [m|] eqn:Ht; [|done].
    destruct (monitor_step ev (mo_phase m) (view_of m v)) as [[s ph]|] eqn:Hs; [|done]. intros [= <- <-]. by econstructor.
  - destruct (v_monitors v !! t) as [m|] eqn:Ht; [|done].
    destruct (mo_aborted m) eqn:Ha; [|done]. intros [= <- <-]. by eapply step_aborted.
  - destruct (v_imports v !! k) eqn:Hk; [done|]. destruct (may_import _ _ _) eqn:Hm; [|done]. intros [= <- <-]. by eapply step_check.
  - destruct (v_imports v !! k) as [[]|] eqn:Hk; try done. intros [= <- <-]. by apply step_ask.
  - destruct (v_imports v !! k) as [[]|] eqn:Hk; try done.
    + destruct (machines_insert fs_fault m (v_registry v)) as [r res] eqn:Hi. intros [= <- <-]. by eapply step_record.
    + intros [= <- <-]. by apply step_show.
    + destruct (fresh_task t v) eqn:Hf; [|done]. intros [= <- <-]. by apply step_spawn, fresh_task_spec.
    + intros [= <- <-]. by apply step_register.
  - destruct (v_removals v !! k) eqn:Hk; [done|].
    destruct (machines_remove fs_fault id (v_registry v)) as [r res] eqn:Hr. intros [= <- <-]. by eapply step_remove.
  - destruct (v_removals v !! k) as [[]|] eqn:Hk; try done.
    + intros [= <- <-]. by apply step_stop.
    + destruct (v_monitors v !! task) eqn:Ht; [done|]. intros [= <- <-]. by eapply step_joined.
    + intros [= <- <-]. by apply step_drop.
Qed.

Fixpoint schedule (acts : list Action) (v : Viewer) : option (list Label * Viewer) :=
  match acts with
  | [] => Some ([], v)
  | a :: acts =>
      '(l, v') ← perform a v;
      '(tr, v'') ← schedule acts v';
      Some (l :: tr, v'')
  end.

Lemma schedule_is_run acts v tr v' : schedule acts v = Some (tr, v') -> run v tr v'.
Proof.
  revert v tr. induction acts as [|a acts IH]; intros v tr; cbn [schedule]; unfold base.mbind, option_bind; [intros [= <- <-]; constructor|].
  destruct (perform a v) as [[l v1]|] eqn:E; [|done].
  destruct (schedule acts v1) as [[tr' v2]|] eqn:Es; [|done]. intros [= <- <-].
  apply (viewer_run_app v [l] v1 tr' v2); [|by apply IH]. apply (run_then v [] v); [constructor|by eapply perform_step].
Qed.

End Tasks.

(** ** Witnesses: a viewer with one machine *)

Definition lone_viewer : Viewer :=
  {| v_registry := paired_registry; v_snapshots := [("111", seen_snapshot)]; v_handles := [("111", 0%nat)];
     v_poisoned := false; v_monitors := {[0%nat := fresh_monitor demo_record]}; v_imports := ∅; v_removals := ∅ |}.

Lemma lone_viewer_ok : viewer_ok lone_viewer.
Proof.
  assert (Hm : forall t m, v_monitors lone_viewer !! t = Some m -> m = fresh_monitor demo_record).
  { intros t m Ht. cbn in Ht. by apply lookup_singleton_Some in Ht as [_ <-]. }
  split.
  - exact paired_registry_ok.
  - split; [repeat constructor|repeat constructor; done].
  - split; repeat constructor.
  - intros t m ->%Hm. by split.
  - by intros k i.
  - intros id t Hg m ->%Hm. cbn in Hg. destruct (String.compare id "111") eqn:E; try done.
    by apply String.compare_eq_iff in E as ->.
  - by intros k m t.
Qed.

Lemma lone_viewer_paired : stage_ok Paired (local "111" lone_viewer).
Proof.
  split_and!; try done. exists 0%nat. split; [done|]. split; [done|].
  intros j Hj. cbn [local l_monitor]. unfold monitors_of, part. cbn [v_monitors lone_viewer].
  by rewrite lookup_singleton_ne by done.
Qed.

Definition plan := schedule no_fault unary_text parse_unary (Url := string) Some (fun _ => "error").

(** The machine is removed while its monitor waits. *)
Definition plain_removal := plan
  [ARemove 0 "111"; ARemoval 0; AEnd 0; ARemoval 0; ARemoval 0] lone_viewer.

Lemma machine_is_at_its_stage_witness :
  match plain_removal with
  | Some (tr, v) => stage_ok Unpaired (local "111" v) /\ In (Forgot "111") tr
  | None => False
  end.
Proof.
  destruct plain_removal as [[tr v]|] eqn:E; [|by vm_compute in E].
  assert (Ht : tr = [Removed "111"; Silently; Silently; Silently; Forgot "111"]).
  { change tr with (fst (tr, v)). pose (d := ([] : list Label, lone_viewer)).
    change (fst (tr, v)) with (fst (default d (Some (tr, v)))). rewrite <- E. vm_compute. reflexivity. }
  destruct (machine_is_at_its_stage no_fault unary_text parse_unary (Url := string) Some (fun _ => "error")
    lone_viewer tr v "111" Paired lone_viewer_ok lone_viewer_paired) as [H _].
  - exact (schedule_is_run _ _ _ _ _ _ _ _ _ E).
  - rewrite Ht in *. split; [exact H|vm_compute; tauto].
Defined.

Lemma fleet_operations_are_runs_witness :
  exists tr v', run no_fault unary_text parse_unary (Url := string) Some (fun _ => "error") lone_viewer tr v' /\
    shares v' (fst (remove_machine no_fault "111" paired_fleet)) /\ In (Forgot "111") tr.
Proof.
  destruct (fleet_operations_are_runs no_fault unary_text parse_unary (Url := string) Some (fun _ => "error")
    lone_viewer paired_fleet) as [H _]; [by split_and!|].
  destruct (H "111") as (tr & v' & H1 & H2 & H3). exists tr, v'. split; [exact H1|]. split; [exact H2|].
  apply H3. vm_compute. reflexivity.
Defined.

(** ** What overlapping operations leave behind *)

(** A machine is paired again while its removal waits for the old monitor: the removal then takes
    the new monitor and the new snapshot with it. The machine is paired, and neither monitored nor
    shown; the import had reported success. *)
Definition repaired_while_removed := plan
  [ARemove 0 "111"; ACheck 0 10 bundle_text; AAsk 0 demo_import; AImport 0 1; AImport 0 1; AImport 0 1; AImport 0 1;
   ARemoval 0; AEnd 0; AEnd 1; ARemoval 0; ARemoval 0] lone_viewer.

Definition outcome (r : option (list Label * Viewer)) :=
  '(tr, v) ← r; Some (tr, bt_mem "111" (records (v_registry v)), bt_mem "111" (v_snapshots v), v_handles v,
                      size (v_monitors v), size (v_imports v), size (v_removals v)).

Lemma removal_takes_new_pairing :
  outcome repaired_while_removed =
    Some ([Removed "111"; Silently; Silently; Recorded "111"; Silently; Silently; Imported "111";
           Silently; Silently; Silently; Silently; Forgot "111"], true, false, [], 0%nat, 0%nat, 0%nat).
Proof. vm_compute. reflexivity. Qed.

(** A removal that comes between the start of a monitor and its registration: the monitor is
    stopped, as intended, but it may have shown the machine again before. *)
Definition removed_while_paired := plan
  [ARemove 0 "111"; ARemoval 0; AEnd 0; ARemoval 0; ARemoval 0;
   ACheck 0 10 bundle_text; AAsk 0 demo_import; AImport 0 1; AImport 0 1; AImport 0 1; AMonitor 1 MDecide;
   ARemove 0 "111"; ARemoval 0; ARemoval 0; AMonitor 1 (MConnect (fun _ => TimedOut)); AMonitor 1 (MFailed 20);
   AImport 0 1; AEnd 1] lone_viewer.

Lemma stopped_monitor_leaves_ghost :
  (fun '(_, paired, shown, handles, monitors, _, _) => (paired, shown, handles, monitors)) <$> outcome removed_while_paired =
    Some (false, true, [], 0%nat).
Proof. vm_compute. reflexivity. Qed.
