(* ===== verification/Link.v ===== *)
(** A client and a server on one connection: [ClientConnection] and [ResponseStream] of
    [crates/rackio-iroh/src/transport.rs], against the stream handling of
    [crates/rackio-iroh/src/server.rs].

    A QUIC stream is a pair of byte channels that either deliver what was written, in order, or
    end. [exchange] is one request over such a pair: the client writes a frame and finishes, the
    server reads it, handles it and writes its responses as frames, the client reads them. The
    server of [Server] is parameterised by which of its writes fail; here that parameter is what
    its send stream really does with the bytes of a frame. *)

From S2P Require Import Prelude BTree Model Storage Wire Framing Transport Persist Pairing Mdns.
From S2P Require Import Messages Server Remote.
Local Open Scope string_scope.
Local Open Scope Z_scope.

(** ** The client's side: [transport.rs] *)

Section ClientSide.
Context {MQ : Message Request} {MP : Message Response}.

(** What [open_bi] and [finish] of the connection do. *)
Record StreamOps := { o_open : result Writer TransportError; o_finish : bool }.

(** [ClientConnection::stream]: what it put on the stream, and whether the caller gets the response
    stream. Whoever gives up on the request has already written a part of it, or all of it. *)
Definition stream (ops : StreamOps) (request : Request) : list Z * result unit TransportError :=
  match o_open ops with
  | Err e => ([], Err e)
  | Ok send =>
      match write_frame request send with
      | (send, Err e) => (written send, Err (Frame e))
      | (send, Ok _) => (written send, if o_finish ops then Ok tt else Err StreamClosed)
      end
  end.

(** [ResponseStream::next]. *)
Definition next (receive : Reader) : Reader * result Response TransportError :=
  let '(receive, r) := read_frame receive in (receive, map_err Frame r).

(** [n] calls of [next]. *)
Fixpoint next_n (n : nat) (receive : Reader) : Reader * list (result Response TransportError) :=
  match n with
  | O => (receive, [])
  | S n => let '(receive, r) := next receive in
           let '(receive, rs) := next_n n receive in (receive, r :: rs)
  end.

End ClientSide.

(** ** The server's side: [server.rs] *)

Section ServerSide.
Context {MQ : Message Request} {MP : Message Response}.

(** [read_frame] under the header timeout; [in_time] says whether it was. *)
Definition read_header (in_time : bool) (receive : Reader) : HeaderRead :=
  if negb in_time then Server.TimedOut
  else match read_frame receive with
  | (_, Ok request) => Got request
  | (_, Err e) => ReadFailed e
  end.

(** The send stream after the responses [sent], and what it does with one more. *)
Definition writer_after (w : Writer) (sent : list ResponseBody) : Writer :=
  fold_left (fun w body => fst (write_frame (Some body : Response) w)) sent w.

Definition write_fails (w : Writer) (sent : list ResponseBody) (body : ResponseBody)
  : option FrameError :=
  match snd (write_frame (Some body : Response) (writer_after w sent)) with
  | Ok _ => None
  | Err e => Some e
  end.

(** A response that fits a frame. *)
Definition fits (body : ResponseBody) : Prop := encoded_len (Some body : Response) <= MAX_FRAME_BYTES.

Definition frames (sent : list ResponseBody) : list Z :=
  concat (map (fun body => frame (Some body : Response)) sent).

Lemma write_fails_fits w sent body : write_fails w sent body = None -> fits body.
Proof.
  unfold write_fails. destruct (write_frame _ _) as [w' [[]|e]] eqn:E; [|done].
  intros _. apply write_frame_Ok in E as [_ E]. exact E.
Qed.

(** The stream holds the frames of what was sent, in order. *)
Lemma writer_after_written w sent :
  (forall pre body post, sent = (pre ++ body :: post)%list -> write_fails w pre body = None) ->
  written (writer_after w sent) = (written w ++ frames sent)%list.
Proof.
  induction sent as [|body sent IH] using rev_ind; intros H.
  { unfold frames. simpl. by rewrite app_nil_r. }
  assert (Hw : writer_after w (sent ++ [body])%list =
               fst (write_frame (Some body : Response) (writer_after w sent)))
    by (unfold writer_after; by rewrite fold_left_app).
  assert (Hf : frames (sent ++ [body])%list = (frames sent ++ frame (Some body : Response))%list)
    by (unfold frames; rewrite map_app, concat_app; simpl; by rewrite app_nil_r).
  rewrite Hw, Hf, app_assoc, <- IH.
  - specialize (H sent body [] eq_refl). unfold write_fails in H.
    destruct (write_frame _ (writer_after w sent)) as [w' [[]|e]] eqn:E; [|done].
    cbn [fst]. by apply write_frame_Ok in E as [-> _].
  - intros pre b post ->. apply (H pre b (post ++ [body])%list). by rewrite <- app_assoc.
Qed.

(** Reading frames gives the responses back in order and then the end of the stream. *)
Lemma next_n_frames sent rest e :
  Forall fits sent ->
  next_n (length sent) {| pending := (frames sent ++ rest)%list; r_end := e |} =
  ({| pending := rest; r_end := e |}, map (fun body => Ok (Some body)) sent).
Proof.
  unfold frames. induction 1 as [|body sent Hb Hs IH]; [done|].
  cbn [map concat length next_n]. rewrite <- app_assoc. unfold next at 1.
  rewrite read_frame_of_frame by exact Hb. cbn [map_err]. by rewrite IH.
Qed.

End ServerSide.

(** ** What a handler has sent *)

Section Sent.
Context {J : Type} {SC : SampleCodec J} (db_fault : nat -> bool).
Context {ET : EndpointText} {B64 : Base64} {RJ : JsonCodec Records anything} (fs_fault : nat -> bool).
Context (uuid_text : Uuid -> string).
Context (send_fails : list ResponseBody -> ResponseBody -> option FrameError).

(** [I] holds of what was sent if it held before and writes that succeed keep it. *)
Definition kept {A} (I : list ResponseBody -> Prop) (m : H (J := J) A) : Prop :=
  forall s, I (sent s) -> I (sent (fst (m s))).

Section Kept.
Context (I : list ResponseBody -> Prop).
Context (Hwrite : forall sent body, I sent -> send_fails sent body = None -> I (sent ++ [body])%list).

Lemma kept_ret {A} (a : A) : kept I (hret a).
Proof. by intros s. Qed.

Lemma kept_err {A} e : kept I (herr (A := A) e).
Proof. by intros s. Qed.

Lemma kept_get : kept I hget.
Proof. by intros s. Qed.

Lemma kept_put n : kept I (hput n).
Proof. by intros s. Qed.

Lemma kept_bind {A B} (m : H A) (k : A -> H B) : kept I m -> (forall a, kept I (k a)) -> kept I (hbind m k).
Proof.
  intros Hm Hk s Hs. unfold hbind. specialize (Hm s Hs). destruct (m s) as [s1 [a|e]]; [|done].
  by apply Hk.
Qed.

Lemma kept_response body : kept I (write_response send_fails body).
Proof.
  intros s Hs. unfold write_response. destruct (send_fails (sent s) body) eqn:E; [done|]. by apply Hwrite.
Qed.

Lemma kept_run_query f from_ms to_ms res : kept I (run_query db_fault f from_ms to_ms res).
Proof. intros s Hs. unfold run_query. by destruct (query_page _ _ _ _ _ _) as [st [page|e]]. Qed.

Create HintDb sent.
#[local] Hint Resolve kept_ret kept_err kept_get kept_put kept_bind kept_response kept_run_query : sent.

Lemma kept_samples l : kept I (write_samples send_fails l).
Proof. induction l as [|x l IH]; cbn [write_samples]; auto with sent. Qed.

Lemma kept_error code message : kept I (write_error send_fails code message).
Proof. apply kept_response. Qed.
#[local] Hint Resolve kept_samples kept_error : sent.

Lemma kept_require ok permission : kept I (require_permission send_fails ok permission).
Proof. unfold require_permission. destruct ok; auto with sent. Qed.

Lemma kept_version v : kept I (version_is_compatible send_fails v).
Proof. unfold version_is_compatible. destruct (compatible v); auto with sent. Qed.
#[local] Hint Resolve kept_require kept_version : sent.

Lemma kept_admitted ok permission v : kept I (admitted send_fails ok permission v).
Proof. unfold admitted. apply kept_bind; [auto with sent|]. intros []; auto with sent. Qed.

Lemma kept_pages fuel others from_ms to_ms res :
  kept I (history_pages db_fault send_fails fuel others from_ms to_ms res).
Proof.
  revert from_ms. induction fuel as [|fuel IH]; intros from_ms; cbn [history_pages]; [auto with sent|].
  apply kept_bind; [auto with sent|]. intros page. destruct (head (rev page)); [|auto with sent].
  apply kept_bind; [auto with sent|]. intros _. destruct (_ <=? _); auto with sent.
Qed.
#[local] Hint Resolve kept_admitted kept_pages : sent.

Lemma kept_history others p q : kept I (handle_history db_fault send_fails others p q).
Proof.
  unfold handle_history. apply kept_bind; [auto with sent|]. intros []; cbn [negb]; [|auto with sent].
  destruct (q_protocol q); [|auto with sent]. apply kept_bind; [auto with sent|].
  intros []; cbn [negb]; [|auto with sent]. destruct (_ <? _); [auto with sent|].
  destruct (resolution_of _); [|auto with sent]. apply kept_bind; [auto with sent|].
  intros []; auto with sent.
Qed.

Lemma kept_watch_loop events : kept I (watch_loop send_fails events).
Proof.
  induction events as [|[[x|]| |now x] events IH]; cbn [watch_loop]; auto with sent.
Qed.

Lemma kept_watch events : kept I (watch_metrics send_fails events).
Proof.
  unfold watch_metrics. apply kept_bind; [auto with sent|]. intros n.
  apply kept_bind; [destruct (latest n); auto with sent|]. intros _. apply kept_watch_loop.
Qed.

Lemma kept_pair t1 t2 remote local p : kept I (handle_pair fs_fault uuid_text send_fails t1 t2 remote local p).
Proof.
  unfold handle_pair. destruct (negb _); [auto with sent|]. apply kept_bind; [auto with sent|]. intros n.
  destruct (pairing_poisoned n); [auto with sent|]. destruct (verify_and_consume_at _ _ _ _) as [w [[]|e]];
    (apply kept_bind; [auto with sent|]; intros _); [|auto with sent].
  apply kept_bind; [auto with sent|]. intros n'.
  destruct (authorize_preserving _ _ _ _) as [p' [[]|e]]; auto with sent.
Qed.
#[local] Hint Resolve kept_history kept_watch kept_pair : sent.

Lemma kept_authorized env local body p :
  kept I (handle_authorized db_fault uuid_text send_fails env local body p).
Proof.
  destruct body; cbn [handle_authorized]; auto with sent;
    (apply kept_bind; [auto with sent|]; intros []; auto with sent).
Qed.

Lemma kept_request env remote local request :
  kept I (handle_request db_fault fs_fault uuid_text send_fails env remote local request).
Proof.
  destruct request as [body|]; cbn [handle_request]; [|auto with sent].
  assert (Hb : kept I (hbind hget (fun n =>
    match permissions remote (peers n) with
    | Err e => herr (SPairing e)
    | Ok None => hbind (write_error send_fails "auth_error" "peer is not authorized") (fun _ => hret (Some tt))
    | Ok (Some p) => handle_authorized db_fault uuid_text send_fails env local body p
    end))).
  { apply kept_bind; [auto with sent|]. intros n.
    destruct (permissions remote (peers n)) as [[p|]|e]; auto using kept_authorized with sent. }
  destruct body; first [exact Hb|auto with sent].
Qed.

End Kept.

End Sent.

(** ** One exchange *)

(** The two halves of a stream: what opening and finishing it does, how much of a request its
    sender gave up on still reaches the server, whether the request arrives in time, the server's
    send stream, what a write that failed halfway left on it, and how much of all that reaches the
    client before the stream ends, and how. *)
Record Channel := {
  ch_ops : StreamOps;
  ch_reached : nat;
  ch_in_time : bool;
  ch_send : Writer;
  ch_tail : list Z;
  ch_delivered : nat;
  ch_end : IoKind;
}.

Section Exchange.
Context {J : Type} {SC : SampleCodec J} (db_fault : nat -> bool).
Context {ET : EndpointText} {B64 : Base64} {RJ : JsonCodec Records anything} (fs_fault : nat -> bool).
Context (uuid_text : Uuid -> string) {MQ : Message Request} {MP : Message Response}.

(** The server's answer to the bytes of a request: the stream task of [handle_connection]. *)
Definition serve_bytes (c : Channel) (env : Env (J := J)) (remote local : EndpointId) (bytes : list Z)
    (n : NodeRuntime) : St (J := J) * result (option unit) ServerError :=
  serve_stream db_fault fs_fault uuid_text (write_fails (ch_send c)) env remote local
    (read_header (ch_in_time c) {| pending := bytes; r_end := UnexpectedEof |}) {| rt := n; sent := [] |}.

(** What the server sees of a request: a finished one whole, and of one that failed on the
    sender's side what had been written and still arrived. *)
Definition reaching (c : Channel) (request : Request) : list Z :=
  match stream (ch_ops c) request with
  | (bytes, Ok _) => bytes
  | (bytes, Err _) => take (ch_reached c) bytes
  end.

(** Everything the client can read of the answer. The server answers what reached it also when the
    client has given up. *)
Definition exchange (c : Channel) (env : Env (J := J)) (remote local : EndpointId) (request : Request)
    (n : NodeRuntime) : NodeRuntime * result (list Response * FrameError) TransportError :=
  let s := fst (serve_bytes c env remote local (reaching c request) n) in
  let received := take (ch_delivered c) (frames (sent s) ++ ch_tail c)%list in
  (rt s, let? _ := snd (stream (ch_ops c) request) in
         ok_or (read_all (S (length received)) {| pending := received; r_end := ch_end c |}) StreamClosed).

(** The whole request reached the server in time. *)
Definition reached_whole (c : Channel) (request : Request) : bool :=
  ch_in_time c && (length (frame request) <=? length (reaching c request))%nat.

(** [ClientConnection::request]: the first response. *)
Definition client_request (c : Channel) (env : Env (J := J)) (remote local : EndpointId) (request : Request)
    (n : NodeRuntime) : NodeRuntime * result Response TransportError :=
  let '(n, r) := exchange c env remote local request n in
  (n, let? answer := r in
      match answer with
      | (response :: _, _) => Ok response
      | ([], e) => Err (Frame e)
      end).

(** A stream that is new, and whose interrupted write, if any, was of one response. *)
Definition channel_ok (c : Channel) : Prop :=
  (forall w, o_open (ch_ops c) = Ok w -> written w = []) /\
  (ch_tail c = [] \/
   exists body k, fits body /\ (k < length (frame (Some body : Response)))%nat /\
                  ch_tail c = take k (frame (Some body : Response))).

(** What is read of a server's responses is a first part of them. *)
Lemma received_prefix c responses :
  channel_ok c -> Forall fits responses ->
  let received := take (ch_delivered c) (frames responses ++ ch_tail c)%list in
  exists k e, read_all (S (length received)) {| pending := received; r_end := ch_end c |} =
              Some (map Some (take k responses) : list Response, e) /\
    ((length (frames responses) <= ch_delivered c)%nat -> take k responses = responses).
Proof.
  intros [_ [Et|(body & j & Hb & Hj & ->)]] Hr received.
  { unfold received. rewrite Et, app_nil_r. set (l := map Some responses : list Response).
    assert (Hl : Forall (fun m : Response => encoded_len m <= MAX_FRAME_BYTES) l) by (by apply Forall_map).
    assert (Hf : frames responses = concat (map frame l)) by (unfold l, frames; by rewrite map_map).
    rewrite Hf. destruct (read_all_prefix l (ch_delivered c) (ch_end c) (S (length (take (ch_delivered c) (concat (map frame l)))))
      Hl) as (k & e & E & _ & Hmax); [lia|]. exists k, e. rewrite E. split; [by rewrite <- firstn_map|].
    intros Hd. apply take_ge. rewrite <- (length_map Some responses). apply Hmax; [apply le_n|].
    unfold frames_len. change (map Some responses) with l. rewrite take_ge by apply le_n. done. }
  set (l := map Some (responses ++ [body])%list : list Response).
  assert (Hl : Forall (fun m : Response => encoded_len m <= MAX_FRAME_BYTES) l).
  { apply Forall_map, Forall_app. split; [exact Hr|]. by constructor. }
  assert (Hf : concat (map frame l) = (frames responses ++ frame (Some body : Response))%list).
  { unfold l, frames. rewrite map_map, map_app, concat_app. simpl. by rewrite app_nil_r. }
  set (len := length (frames responses)) in *.
  assert (Hrec : received = take (Nat.min (ch_delivered c) (len + j)) (concat (map frame l))).
  { unfold received. rewrite Hf, <- take_take. f_equal. rewrite take_app_ge by lia.
    do 2 f_equal. fold len. lia. }
  destruct (read_all_prefix l (Nat.min (ch_delivered c) (len + j)) (ch_end c) (S (length received)) Hl)
    as (k & e & E & Hk & Hmax); [rewrite <- Hrec; lia|].
  rewrite <- Hrec in E. rewrite E.
  assert (Hlen : length l = S (length responses)) by (unfold l; rewrite length_map, length_app; simpl; lia).
  assert (Hall : frames_len (length responses) l = len).
  { unfold frames_len, l. rewrite map_app, take_app_le, take_ge by (rewrite length_map; lia). unfold len, frames.
    by rewrite map_map. }
  assert (Hkr : (k <= length responses)%nat).
  { destruct (Nat.leb_spec k (length responses)) as [|Hgt]; [done|].
    unfold frames_len in Hk. rewrite take_ge, Hf, length_app in Hk by lia. fold len in Hk. lia. }
  exists k, e. split.
  - do 2 f_equal. unfold l. rewrite map_app, take_app_le by (rewrite length_map; lia). by rewrite firstn_map.
  - intros Hd. apply take_ge. apply Hmax; [lia|]. rewrite Hall. lia.
Qed.

Lemma frame_nonempty (request : Request) : (0 < length (frame request))%nat.
Proof. pose proof (frame_length request). pose proof (encoded_len_nonneg request). lia. Qed.

(** What reaches the server is a first part of the frame, nothing of a request over the limit, and
    all of it when the client gets a response stream. *)
Lemma reaching_prefix c request :
  channel_ok c ->
  (exists k, reaching c request = take k (frame request)) /\
  (MAX_FRAME_BYTES < encoded_len request -> reaching c request = []) /\
  (snd (stream (ch_ops c) request) = Ok tt -> reaching c request = frame request).
Proof.
  intros [Hnew _]. unfold reaching, stream. destruct (o_open (ch_ops c)) as [w|e].
  2: { rewrite take_nil. split; [by exists 0%nat|done]. }
  specialize (Hnew w eq_refl). destruct (write_frame_written request w) as (k & Hk & Hbig).
  destruct (write_frame request w) as [w' r] eqn:E. cbn [fst] in Hk. rewrite Hnew, app_nil_l in Hk.
  destruct r as [[]|e].
  - apply write_frame_Ok in E as [Hw Hl]. rewrite Hnew, app_nil_l in Hw. rewrite Hw.
    destruct (o_finish (ch_ops c)); cbn [snd]; (split; [|split; [lia|done]]).
    + exists (length (frame request)). by rewrite take_ge.
    + by exists (ch_reached c).
  - rewrite Hk. split; [eexists; apply take_take|]. cbn [snd]. split; [|done].
    intros Hm. rewrite (Hbig Hm). apply take_nil.
Qed.

Lemma header_of_frame request :
  encoded_len request <= MAX_FRAME_BYTES ->
  read_header true {| pending := frame request; r_end := UnexpectedEof |} = Got request.
Proof.
  intros Hl. unfold read_header. cbn [negb]. rewrite <- (app_nil_r (frame request)).
  by rewrite read_frame_of_frame.
Qed.

(** Every response a handler wrote fits a frame. *)
Lemma handled_fits w env remote local request n :
  Forall fits (sent (fst (handle_request db_fault fs_fault uuid_text (write_fails w) env remote local request
                            {| rt := n; sent := [] |}))).
Proof.
  apply (kept_request db_fault fs_fault uuid_text (write_fails w) (Forall fits)); [|constructor].
  intros l body Hl Hw. apply Forall_app. split; [done|]. constructor; [|done]. by eapply write_fails_fits.
Qed.

(** The server handles a request that reached it whole, and no other. *)
Lemma served_when_whole c env remote local request n :
  channel_ok c ->
  fst (serve_bytes c env remote local (reaching c request) n) =
  if reached_whole c request then
    fst (handle_request db_fault fs_fault uuid_text (write_fails (ch_send c)) env remote local request
           {| rt := n; sent := [] |})
  else {| rt := n; sent := [] |}.
Proof.
  intros Hc. destruct (reaching_prefix c request Hc) as ((k & Hk) & Hl & _).
  unfold serve_bytes, reached_whole. destruct (ch_in_time c); [|done]. cbn [andb].
  destruct (Nat.leb_spec (length (frame request)) (length (reaching c request))) as [Hw|Hw].
  - destruct (Z.leb_spec (encoded_len request) MAX_FRAME_BYTES) as [Hm|Hm].
    + rewrite Hk in Hw |- *. rewrite length_take in Hw. rewrite take_ge by lia. by rewrite header_of_frame.
    + rewrite (Hl Hm) in Hw. pose proof (frame_nonempty request). simpl in Hw. lia.
  - unfold read_header. cbn [negb]. destruct (Z.leb_spec (encoded_len request) MAX_FRAME_BYTES) as [Hm|Hm].
    + rewrite Hk in Hw |- *. rewrite length_take in Hw.
      destruct (read_frame_cut request k UnexpectedEof Hm) as (r & e & ->); [lia|]. done.
    + by rewrite (Hl Hm).
Qed.

(** C13: Whatever part of the answer is delivered and however the stream ends, the client reads the
    responses the server wrote to this very request, in order and from the first on, and then an
    error: nothing is invented, reordered or skipped. If everything was delivered it reads all of
    them. When the client's side of the request fails, the server has handled it if all of it had
    been written and still arrived, and is unchanged otherwise. *)
Theorem client_reads_the_servers_answer (c : Channel) (env : Env (J := J)) (remote local : EndpointId)
    (request : Request) (n : NodeRuntime) :
  channel_ok c ->
  let '(s, _) := handle_request db_fault fs_fault uuid_text (write_fails (ch_send c)) env remote local
                   request {| rt := n; sent := [] |} in
  match exchange c env remote local request n with
  | (n', Err _) => n' = (if reached_whole c request then rt s else n)
  | (n', Ok (got, _)) =>
      if ch_in_time c then
        n' = rt s /\
        exists k, got = map Some (take k (sent s)) /\
          ((length (frames (sent s)) <= ch_delivered c)%nat -> got = map Some (sent s))
      else n' = n /\ got = []
  end.
Proof.
  intros Hc. unfold exchange. rewrite (served_when_whole c env remote local request n Hc).
  pose proof (handled_fits (ch_send c) env remote local request n) as Hf.
  destruct (handle_request _ _ _ _ env remote local request _) as [s r]. cbn [fst] in *.
  destruct (snd (stream (ch_ops c) request)) as [[]|e] eqn:Es; cbn [result_bind].
  - unfold reached_whole. destruct (reaching_prefix c request Hc) as (_ & _ & ->); [|done].
    rewrite Nat.leb_refl, andb_true_r. destruct (ch_in_time c).
    + destruct (received_prefix c (sent s) Hc Hf) as (k & e & -> & Hall). cbn [ok_or].
      split; [done|]. exists k. split; [done|]. intros Hd. by rewrite Hall.
    + cbn [sent rt]. destruct (received_prefix c [] Hc (Forall_nil _)) as (k & e & -> & _). cbn [ok_or].
      by rewrite take_nil.
  - by destruct (reached_whole c request).
Qed.

(** If everything is delivered, the client reads all of the answer. *)
Lemma full_exchange c env remote local request n :
  channel_ok c -> ch_in_time c = true -> snd (stream (ch_ops c) request) = Ok tt ->
  let s := fst (handle_request db_fault fs_fault uuid_text (write_fails (ch_send c)) env remote local
                  request {| rt := n; sent := [] |}) in
  (length (frames (sent s)) <= ch_delivered c)%nat ->
  exists e, exchange c env remote local request n = (rt s, Ok (map Some (sent s), e)).
Proof.
  intros Hc Ht Hs s Hd. unfold exchange. rewrite (served_when_whole c env remote local request n Hc).
  unfold reached_whole. destruct (reaching_prefix c request Hc) as (_ & _ & ->); [|done].
  rewrite Hs, Ht, Nat.leb_refl. cbn [andb result_bind]. fold s.
  pose proof (handled_fits (ch_send c) env remote local request n) as Hf. fold s in Hf.
  destruct (received_prefix c (sent s) Hc Hf) as (k & e & -> & Hall). cbn [ok_or].
  exists e. by rewrite Hall.
Qed.

(** Then a request gets the first response of the handler. *)
Lemma sound_request c env remote local request n :
  channel_ok c -> ch_in_time c = true -> snd (stream (ch_ops c) request) = Ok tt ->
  let s := fst (handle_request db_fault fs_fault uuid_text (write_fails (ch_send c)) env remote local
                  request {| rt := n; sent := [] |}) in
  (length (frames (sent s)) <= ch_delivered c)%nat ->
  forall body rest, sent s = body :: rest ->
  client_request c env remote local request n = (rt s, Ok (Some body)).
Proof.
  intros Hc Ht Hs s Hd body rest Hsent. unfold client_request.
  destruct (full_exchange c env remote local request n Hc Ht Hs Hd) as [e ->]. fold s. by rewrite Hsent.
Qed.

(** A stream nothing happens to. *)
Record sound (c : Channel) : Prop := {
  so_ok : channel_ok c;
  so_time : ch_in_time c = true;
  so_open : exists w, o_open (ch_ops c) = Ok w /\ forall n, w_fault w n = None;
  so_finish : o_finish (ch_ops c) = true;
  so_send : forall n, w_fault (ch_send c) n = None;
  so_delivered : 4 + MAX_FRAME_BYTES <= Z.of_nat (ch_delivered c);
}.

Lemma sound_stream c request :
  sound c -> encoded_len request <= MAX_FRAME_BYTES -> snd (stream (ch_ops c) request) = Ok tt.
Proof.
  intros [_ _ (w & Ho & Hw) Hf _ _] Hl. unfold stream. rewrite Ho.
  destruct (faultless_write request w Hw Hl) as (w' & E & _). by rewrite E, Hf.
Qed.

Lemma sound_write c h body : sound c -> fits body -> write_fails (ch_send c) h body = None.
Proof.
  intros Hs Hb. assert (Hw : forall n, w_fault (writer_after (ch_send c) h) n = None).
  { induction h as [|b h IH] using rev_ind; [by apply so_send|]. unfold writer_after in *.
    rewrite fold_left_app. cbn [fold_left]. by rewrite write_frame_fault. }
  unfold write_fails. by destruct (faultless_write (Some body : Response) _ Hw Hb) as (w' & -> & _).
Qed.

(** An answer of one response over such a stream is received. *)
Lemma sound_answer c env remote local request n body :
  sound c -> encoded_len request <= MAX_FRAME_BYTES -> fits body ->
  sent (fst (handle_request db_fault fs_fault uuid_text (write_fails (ch_send c)) env remote local
               request {| rt := n; sent := [] |})) = [body] ->
  client_request c env remote local request n =
    (rt (fst (handle_request db_fault fs_fault uuid_text (write_fails (ch_send c)) env remote local
                request {| rt := n; sent := [] |})), Ok (Some body)).
Proof.
  intros Hs Hl Hb Hsent. apply (sound_request c env remote local request n) with (rest := []);
    [by apply so_ok|by apply so_time|by apply sound_stream| |done].
  rewrite Hsent. unfold frames. cbn [map concat]. rewrite app_nil_r.
  pose proof (so_delivered c Hs). pose proof (frame_length (Some body : Response)). unfold fits in Hb. lia.
Qed.

End Exchange.

(** ** Witnesses *)

(** A stream to which nothing happens, except that [delivered] bytes of the answer arrive. *)
Definition quiet_channel (delivered : nat) : Channel :=
  {| ch_ops := {| o_open := Ok {| written := []; w_ops := 0; w_fault := fun _ => None |}; o_finish := true |};
     ch_reached := 0; ch_in_time := true; ch_send := {| written := []; w_ops := 0; w_fault := fun _ => None |};
     ch_tail := []; ch_delivered := delivered; ch_end := UnexpectedEof |}.

Lemma quiet_channel_ok delivered : channel_ok (quiet_channel delivered).
Proof. split; [by intros w [= <-]|by left]. Qed.

Lemma quiet_channel_sound delivered :
  4 + MAX_FRAME_BYTES <= Z.of_nat delivered -> sound (quiet_channel delivered).
Proof. intros H. split; try done; [apply quiet_channel_ok|by eexists]. Qed.

(** A health answer of which all but the last byte arrives is not read, and one that arrives is. *)
Lemma client_reads_the_servers_answer_witness :
  let answer := RHealth (ToWire.health (health paired_runtime)) in
  let len := length (frame (Some answer : Response)) in
  (exists k, match exchange never never unary_text (quiet_channel (len - 1)) demo_env 3 8 (Some (GetHealth V1))
                     paired_runtime with
             | (n', Ok (got, _)) => n' = paired_runtime /\ got = map Some (take k [answer])
             | _ => False
             end) /\
  match exchange never never unary_text (quiet_channel len) demo_env 3 8 (Some (GetHealth V1)) paired_runtime with
  | (n', Ok (got, _)) => got = [Some answer]
  | _ => False
  end.
Proof.
  pose (answer := RHealth (ToWire.health (health paired_runtime))).
  pose (len := length (frame (Some answer : Response))).
  split.
  - pose proof (client_reads_the_servers_answer never never unary_text (quiet_channel (len - 1)) demo_env 3 8
      (Some (GetHealth V1)) paired_runtime (quiet_channel_ok _)) as H.
    vm_compute in H. destruct H as (_ & k & H & _). exists k. vm_compute. by split.
  - pose proof (client_reads_the_servers_answer never never unary_text (quiet_channel len) demo_env 3 8
      (Some (GetHealth V1)) paired_runtime (quiet_channel_ok _)) as H.
    vm_compute in H. destruct H as (_ & k & _ & H). vm_compute. apply H. vm_compute. lia.
Defined.

(** A client whose stream fails at its end may have been paired all the same: its request was written
    and arrived, and the server cannot know that nobody reads its answer. One byte less and nothing
    happened. *)
Definition unfinished_channel (reached : nat) : Channel :=
  {| ch_ops := {| o_open := o_open (ch_ops (quiet_channel 0)); o_finish := false |};
     ch_reached := reached; ch_in_time := true; ch_send := ch_send (quiet_channel 0); ch_tail := [];
     ch_delivered := 0; ch_end := UnexpectedEof |}.

Example failed_finish_may_still_pair :
  let request := Some (Pair demo_pair) : Request in
  let n := rt pairing_st in
  let attempt reached := exchange never never unary_text (unfinished_channel reached) demo_env 3 8 request n in
  let len := length (frame request) in
  snd (attempt len) = Err StreamClosed /\
  permissions 3 (peers (fst (attempt len))) = Ok (Some default_permissions) /\
  snd (attempt (len - 1)%nat) = Err StreamClosed /\ fst (attempt (len - 1)%nat) = n.
Proof. vm_compute. repeat split. Qed.
