(* ===== verification/Concurrent.v ===== *)
(** The remote server's tasks, interleaved: [crates/rackio-iroh/src/server.rs].

    [Server] models a request as one computation. Here the accept loop of every connection, every
    stream and every revocation is a task of its own, and a step is what one task does between two
    points where another may run: a critical section of one lock, or the write of one response.
    The pieces are the definitions of [Server] and [Pairing]; what a handler reads while it
    streams is left open, so every interleaving with the sampler and the other streams is
    included. Steps carry labels; the properties are about the labels of every run. *)

From stdpp Require Import gmap.
From S2P Require Import Prelude BTree Model Storage Wire Framing Transport Persist Pairing Mdns.
From S2P Require Import Server.
Local Open Scope string_scope.
Local Open Scope Z_scope.

#[export] Instance Connection_eq_dec : EqDecision Connection.
Proof. solve_decision. Defined.

(** ** The tasks *)

(** A stream: waiting for its request, about to look the peer up or to take the pairing lock,
    after the pairing lock (was the secret accepted, did the window close), about to enter the
    peer into the registry, or with these responses left to write. *)
Inductive Phase :=
  | Reading
  | Handling (body : RequestBody)
  | Verified (accepted window_closed : bool)
  | Authorizing
  | Writing (rest : list ResponseBody).

Record Stream := { s_conn : nat; s_peer : EndpointId; s_phase : Phase }.

(** A connection whose accept loop has not ended. *)
Record Conn := { c_conn : Connection; c_alive : bool }.

(** A revocation that has removed the peer's record: before it takes the peer's connections out
    of the table, and while it closes them. *)
Inductive RevokeTask :=
  | Taking (id : string)
  | Closing (id : string) (rest : list Connection).

Definition task_id (t : RevokeTask) : string := match t with Taking i | Closing i _ => i end.

Inductive Label :=
  | Silently
  | Opened (w : PairingWindow)
  | Accepted (peer : EndpointId) (now : Z) (supplied : string)
  | Authorized (peer : EndpointId)
  | Granted (peer : EndpointId) (p : PeerPermissions) (body : RequestBody)
  | Wrote (peer : EndpointId) (body : ResponseBody)
  | Removed (id : string)
  | Revoked (id : string).

Section Tasks.
Context {J : Type} {SC : SampleCodec J} (db_fault : nat -> bool).
Context {ET : EndpointText} {B64 : Base64} {RJ : JsonCodec Records anything} (fs_fault : nat -> bool).
Context (uuid_text : Uuid -> string) (local : EndpointId).

Record Net := {
  node : NodeRuntime (J := J);
  conns : gmap nat Conn;
  streams : gmap nat Stream;
  revokes : gmap nat RevokeTask;
}.

Definition set_node n s := {| node := n; conns := conns s; streams := streams s; revokes := revokes s |}.
Definition set_conns c s := {| node := node s; conns := c; streams := streams s; revokes := revokes s |}.
Definition set_streams t s := {| node := node s; conns := conns s; streams := t; revokes := revokes s |}.
Definition set_revokes r s := {| node := node s; conns := conns s; streams := streams s; revokes := r |}.

(** ** One stream *)

(** What lets a stream go on. For a request that is answered, [seen] is the runtime its handler
    reads, at whatever moment it does, and [env] what it waits for. *)
Inductive StreamEvent :=
  | EvHeader (h : HeaderRead)
  | EvCheck (env : Env (J := J)) (seen : NodeRuntime (J := J))
      (send_fails : list ResponseBody -> ResponseBody -> option FrameError)
  | EvVerify (now : Z)
  | EvMdns
  | EvAuthorize (now : Z).

(** Everything the handler of a permitted request writes. *)
Definition answer (env : Env (J := J)) (seen : NodeRuntime (J := J))
    (send_fails : list ResponseBody -> ResponseBody -> option FrameError) (body : RequestBody)
    (p : PeerPermissions) : list ResponseBody :=
  sent (fst (handle_authorized db_fault uuid_text send_fails env local body p {| rt := seen; sent := [] |})).

(** The next phase, or the end of the task. *)
Definition advance (ev : StreamEvent) (remote : EndpointId) (ph : Phase) (n : NodeRuntime (J := J))
  : option (NodeRuntime (J := J) * option Phase * Label) :=
  match ph, ev with
  | Reading, EvHeader h =>
      Some (n, match h with
               | Got (Some body) => Some (Handling body)
               | Got None => Some (Writing [RError "invalid_request" "request body is required"])
               | _ => None
               end, Silently)
  | Handling (Pair pr), EvVerify now =>
      if negb (String.eqb (viewer_endpoint_id pr) (id_text remote)) then
        Some (n, Some (Writing [RError "identity_mismatch"
                                  "claimed viewer identity does not match the QUIC peer"]), Silently)
      else if pairing_poisoned n then Some (n, None, Silently)
      else
        let '(window, verified) := verify_and_consume_at now remote (one_time_secret pr) (pairing n) in
        Some (with_pairing window (pairing_mdns n) n,
              Some (Verified (is_ok verified) (negb (is_open window))),
              if is_ok verified then Accepted remote now (one_time_secret pr) else Silently)
  | Handling (Pair _), _ => None
  | Handling body, EvCheck env seen send_fails =>
      match permissions remote (peers n) with
      | Err _ => Some (n, None, Silently)
      | Ok None => Some (n, Some (Writing [RError "auth_error" "peer is not authorized"]), Silently)
      | Ok (Some p) => Some (n, Some (Writing (answer env seen send_fails body p)), Granted remote p body)
      end
  | Verified accepted window_closed, EvMdns =>
      Some (if window_closed then with_pairing (pairing n) (mdns_close (pairing_mdns n)) n else n,
            Some (if accepted then Authorizing
                  else Writing [RError "pairing_rejected" "pairing request was rejected"]), Silently)
  | Authorizing, EvAuthorize now =>
      match authorize_preserving fs_fault remote now (peers n) with
      | (p, Err _) => Some (with_peers p n, None, Silently)
      | (p, Ok _) =>
          Some (with_peers p n,
                Some (Writing [RPair {| accepted := true; p_node_id := uuid_text (node_id (info n));
                                        p_endpoint_id := id_text local |}]), Authorized remote)
      end
  | _, _ => None
  end.

Definition with_phase (ph : option Phase) (k : nat) (t : Stream) (m : gmap nat Stream) : gmap nat Stream :=
  match ph with
  | Some ph => <[k := {| s_conn := s_conn t; s_peer := s_peer t; s_phase := ph |}]> m
  | None => delete k m
  end.

(** ** The other tasks *)

Definition alive (k : nat) (s : Net) : bool :=
  match conns s !! k with Some c => c_alive c | None => false end.

(** [Connection::close]: every stream of it fails from now on. *)
Definition kill (c : Connection) (m : gmap nat Conn) : gmap nat Conn :=
  (fun x => if decide (c_conn x = c) then {| c_conn := c; c_alive := false |} else x) <$> m.

Definition was_removed (r : result bool PairingError) : bool :=
  match r with Ok true => true | _ => false end.

(** The table is locked once, the connections are closed after that. *)
Definition take_connections (id : string) (n : NodeRuntime (J := J))
  : NodeRuntime (J := J) * result (list Connection) ServerError :=
  if active_poisoned n then (n, Err ActiveConnectionStateUnavailable)
  else (with_connections (bt_remove id (active_connections n)) (closed n) n,
        Ok (bt_values (default [] (bt_get id (active_connections n))))).

Definition note_closed (c : Connection) (n : NodeRuntime (J := J)) : NodeRuntime (J := J) :=
  with_connections (active_connections n) (closed n ++ [c])%list n.

(** Everything but what decides about access. *)
Definition same_access (n n' : NodeRuntime (J := J)) : Prop :=
  peers n' = peers n /\ pairing n' = pairing n /\ pairing_poisoned n' = pairing_poisoned n /\
  same_connections n n'.

#[local] Instance same_access_preorder : PreOrder same_access.
Proof.
  split; [done|]. intros a b c (A1 & A2 & A3 & A4 & A5 & A6) (B1 & B2 & B3 & B4 & B5 & B6).
  unfold same_access, same_connections. by rewrite B1, B2, B3, B4, B5, B6.
Qed.

(** ** Steps *)

Inductive step (s : Net) : Label -> Net -> Prop :=
  (* A connection is accepted: its handle is at an address no other handle has. *)
  | step_accept k c n :
      conns s !! k = None -> map_Forall (fun _ t => s_conn t <> k) (streams s) ->
      map_Forall (fun _ x => stable_id (c_conn x) <> stable_id c) (conns s) ->
      register_connection c (node s) = (n, Ok tt) ->
      step s Silently (set_conns (<[k := {| c_conn := c; c_alive := true |}]> (conns s)) (set_node n s))
  (* It ends, by the peer or the network. *)
  | step_lose k x :
      conns s !! k = Some x ->
      step s Silently (set_conns (<[k := {| c_conn := c_conn x; c_alive := false |}]> (conns s)) s)
  (* Its accept loop sees that and forgets it. *)
  | step_unregister k x :
      conns s !! k = Some x -> c_alive x = false ->
      step s Silently (set_conns (delete k (conns s)) (set_node (unregister_connection (c_conn x) (node s)) s))
  (* The peer opens a stream. *)
  | step_open k x j :
      conns s !! k = Some x -> c_alive x = true -> streams s !! j = None ->
      step s Silently (set_streams
        (<[j := {| s_conn := k; s_peer := remote_id (c_conn x); s_phase := Reading |}]> (streams s)) s)
  | step_stream j t ev n ph l :
      streams s !! j = Some t -> advance ev (s_peer t) (s_phase t) (node s) = Some (n, ph, l) ->
      step s l (set_streams (with_phase ph j t (streams s)) (set_node n s))
  | step_write j t b rest :
      streams s !! j = Some t -> s_phase t = Writing (b :: rest) -> alive (s_conn t) s = true ->
      step s (Wrote (s_peer t) b) (set_streams (with_phase (Some (Writing rest)) j t (streams s)) s)
  (* A stream's task ends: it is done, or its connection failed it. *)
  | step_end j :
      step s Silently (set_streams (delete j (streams s)) s)
  (* A revocation: the registry, the table, each connection. *)
  | step_remove k id p r :
      revokes s !! k = None -> revoke fs_fault id (peers (node s)) = (p, r) ->
      step s (if was_removed r then Removed id else Silently)
        (set_revokes (if was_removed r then <[k := Taking id]> (revokes s) else revokes s)
           (set_node (with_peers p (node s)) s))
  | step_take k id n r :
      revokes s !! k = Some (Taking id) -> take_connections id (node s) = (n, r) ->
      step s Silently
        (set_revokes (match r with
                      | Ok l => <[k := Closing id l]> (revokes s)
                      | Err _ => delete k (revokes s)
                      end) (set_node n s))
  | step_close k id c rest :
      revokes s !! k = Some (Closing id (c :: rest)) ->
      step s Silently
        (set_revokes (<[k := Closing id rest]> (revokes s))
           (set_conns (kill c (conns s)) (set_node (note_closed c (node s)) s)))
  | step_revoked k id :
      revokes s !! k = Some (Closing id []) ->
      step s (Revoked id) (set_revokes (delete k (revokes s)) s)
  (* A local command opens a pairing window. *)
  | step_window w m :
      pairing_poisoned (node s) = false -> failures w = [] ->
      step s (Opened w) (set_node (with_pairing (Some w) m (node s)) s)
  (* The sampler, the store and the rest. *)
  | step_other n :
      same_access (node s) n -> step s Silently (set_node n s).

Inductive run (s0 : Net) : list Label -> Net -> Prop :=
  | run_nil : run s0 [] s0
  | run_snoc tr s l s' : run s0 tr s -> step s l s' -> run s0 (tr ++ [l])%list s'.

Lemma run_app s0 tr1 s1 tr2 s2 : run s0 tr1 s1 -> run s1 tr2 s2 -> run s0 (tr1 ++ tr2)%list s2.
Proof.
  intros H1 H2. induction H2 as [|tr s l s' H IH Hs]; [by rewrite app_nil_r|].
  rewrite app_assoc. by econstructor.
Qed.

Lemma run_one s l s' : step s l s' -> run s [l] s'.
Proof. intros H. apply (run_snoc s [] s l s'); [constructor|done]. Qed.

(** ** The shape of a state *)

Definition known (peer : EndpointId) (n : NodeRuntime (J := J)) : Prop :=
  is_Some (bt_get (id_text peer) (records (peers n))).

Lemma permitted_known peer n p : permissions peer (peers n) = Ok (Some p) -> known peer n.
Proof.
  unfold known, permissions. destruct (poisoned _); [done|]. destruct (bt_get (id_text peer) _); [by eauto|done].
Qed.

Definition peer_of (x : Conn) : EndpointId := remote_id (c_conn x).

(** The connection is in the table under its own keys. *)
Definition tracked (n : NodeRuntime (J := J)) (x : Conn) : Prop :=
  connected (id_text (peer_of x)) (stable_id (c_conn x)) n = Some (c_conn x).

(** A revocation is about to close it. *)
Definition doomed (s : Net) (x : Conn) : Prop :=
  exists k l, revokes s !! k = Some (Closing (id_text (peer_of x)) l) /\ In (c_conn x) l.

Definition taking (s : Net) (id : string) : Prop := exists k, revokes s !! k = Some (Taking id).

(** Some stream of the connection has data left to write. *)
Definition serving (m : gmap nat Stream) (k : nat) : Prop :=
  exists j t rest, m !! j = Some t /\ s_conn t = k /\ s_phase t = Writing rest /\ existsb is_data rest = true.

(** A live connection is about to be closed, or is in the table and, when it is serving data, its
    peer is in the registry or a revocation of it is about to take the table. *)
Definition conn_ok (s : Net) (k : nat) (x : Conn) : Prop :=
  doomed s x \/
  (tracked (node s) x /\
   (serving (streams s) k -> known (peer_of x) (node s) \/ taking s (id_text (peer_of x)))).

Record net_ok (s : Net) : Prop := {
  ok_table : table_ok (node s);
  ok_lock : active_poisoned (node s) = false;
  ok_records : bt_sorted (records (peers (node s)));
  ok_handles : forall k x k' x', conns s !! k = Some x -> conns s !! k' = Some x' -> k <> k' ->
                 stable_id (c_conn x) <> stable_id (c_conn x');
  ok_peers : forall j t x, streams s !! j = Some t -> conns s !! s_conn t = Some x ->
               s_peer t = peer_of x;
  ok_conns : forall k x, conns s !! k = Some x -> c_alive x = true -> conn_ok s k x;
}.

(** ** What a stream's step does *)

Lemma authorize_preserving_records peer now r :
  let '(r', res) := authorize_preserving fs_fault peer now r in
  if is_ok res then exists v, records r' = bt_insert (id_text peer) v (records r)
  else records r' = records r.
Proof.
  unfold authorize_preserving. destruct (poisoned r); [done|].
  match goal with |- context [publish_records fs_fault ?m ?a r] =>
    pose proof (publish_records_cases fs_fault m a r) as P; destruct (publish_records fs_fault m a r) as [q [b|e]] end;
    simpl in *; [|by destruct P]. destruct P as (_ & -> & _). by eexists.
Qed.

(** How a stream's step changes the runtime. *)
Definition registry_grows (l : Label) (n n' : NodeRuntime (J := J)) : Prop :=
  (forall p, known p n -> known p n') /\ (forall p, known p n' -> known p n \/ l = Authorized p) /\
  (bt_sorted (records (peers n)) -> bt_sorted (records (peers n'))).

Lemma registry_same l n n' : records (peers n') = records (peers n) -> registry_grows l n n'.
Proof. intros E. unfold registry_grows, known. rewrite E. repeat split; auto. Qed.

Lemma registry_insert peer v n n' :
  records (peers n') = bt_insert (id_text peer) v (records (peers n)) ->
  registry_grows (Authorized peer) n n'.
Proof.
  intros E. unfold registry_grows, known. rewrite E. split; [|split; [|apply bt_insert_sorted]];
    intros p; (destruct (decide (id_text peer = id_text p)) as [<-%id_text_inj|Hne];
    [by rewrite bt_get_insert_eq; eauto|rewrite bt_get_insert_ne by done; auto]).
Qed.

(** What a new phase lets a stream write. *)
Definition grants (remote : EndpointId) (ph : option Phase) (l : Label) (n : NodeRuntime (J := J)) : Prop :=
  forall rest, ph = Some (Writing rest) -> existsb is_data rest = true ->
  exists p body, l = Granted remote p body /\ permissions remote (peers n) = Ok (Some p) /\
    allowed p body = true /\ version_ok body = true.

Lemma answer_data env seen sf body p :
  existsb is_data (answer env seen sf body p) = true -> allowed p body = true /\ version_ok body = true.
Proof.
  unfold answer. destruct (allowed p body && version_ok body) eqn:A; [by apply andb_true_iff in A|].
  destruct (handle_authorized_writes db_fault uuid_text sf no_data same_access env local body p) with
    (s := {| rt := seen; sent := [] |}) as (new & -> & F & _); [done|done|by intros H1 H2; rewrite H1, H2 in A|].
  intros (b & Hb & D)%existsb_exists. rewrite Forall_forall in F. specialize (F b Hb). unfold no_data in F.
  congruence.
Qed.

Lemma advance_check env seen sf remote n body p :
  permissions remote (peers n) = Ok (Some p) ->
  grants remote (Some (Writing (answer env seen sf body p))) (Granted remote p body) n.
Proof. intros Hp rest [= <-] Hd. exists p, body. by apply answer_data in Hd. Qed.

Lemma grants_none remote l n : grants remote None l n.
Proof. by intros rest. Qed.

Lemma grants_no_data remote ph l n :
  (forall rest, ph = Some (Writing rest) -> existsb is_data rest = false) -> grants remote ph l n.
Proof. intros H rest E D. specialize (H rest E). congruence. Qed.

Lemma advance_facts ev remote ph n n' ph' l :
  advance ev remote ph n = Some (n', ph', l) ->
  same_connections n n' /\ registry_grows l n n' /\ grants remote ph' l n.
Proof.
  assert (Hnd : forall l (m : option Phase), (forall rest, m = Some (Writing rest) -> existsb is_data rest = false) ->
    same_connections n n /\ registry_grows l n n /\ grants remote m l n).
  { intros l' m H. split; [done|]. split; [by apply registry_same|by apply grants_no_data]. }
  destruct ph as [|body|ok wc| |rest]; destruct ev as [h|env seen sf|now| |now]; try done; cbn [advance].
  - intros [= <- <- <-]. apply Hnd. by destruct h as [|e|[body|]]; intros rest [= <-].
  - destruct body; done.
  - assert (Hb : forall b, match permissions remote (peers n) with
      | Err _ => Some (n, None, Silently)
      | Ok None => Some (n, Some (Writing [RError "auth_error" "peer is not authorized"]), Silently)
      | Ok (Some p) => Some (n, Some (Writing (answer env seen sf b p)), Granted remote p b)
      end = Some (n', ph', l) -> same_connections n n' /\ registry_grows l n n' /\ grants remote ph' l n).
    { intros b. destruct (permissions remote (peers n)) as [[p|]|e] eqn:E; intros [= <- <- <-].
      - split; [done|]. split; [by apply registry_same|by apply advance_check].
      - apply Hnd. by intros rest [= <-].
      - by apply Hnd. }
    destruct body; try apply Hb; done.
  - destruct body as [| | | | |pr]; try done. destruct (negb _).
    { intros [= <- <- <-]. apply Hnd. by intros rest [= <-]. }
    destruct (pairing_poisoned n); [by intros [= <- <- <-]; apply Hnd|].
    destruct (verify_and_consume_at _ _ _ _) as [w [[]|e]]; intros [= <- <- <-];
      (split; [done|split; [by apply registry_same|by apply grants_no_data]]).
  - destruct body; done.
  - destruct body; done.
  - intros [= <- <- <-]. split; [by destruct wc|]. split; [by apply registry_same; destruct wc|].
    apply grants_no_data. by destruct ok; intros rest [= <-].
  - pose proof (authorize_preserving_records remote now (peers n)) as P.
    destruct (authorize_preserving _ _ _ _) as [q [p|e]]; intros [= <- <- <-]; (split; [done|]).
    + destruct P as [v P]. split; [by eapply registry_insert|]. apply grants_no_data. by intros rest [= <-].
    + split; [by apply registry_same|apply grants_none].
Qed.

(** ** Every step keeps the shape *)

Lemma same_tracked n n' x : same_connections n n' -> tracked n x -> tracked n' x.
Proof. unfold tracked, connected. by intros (-> & _ & _). Qed.

Lemma same_table_ok n n' : same_connections (J := J) n n' -> table_ok n -> table_ok n'.
Proof. unfold table_ok. by intros (-> & _ & _). Qed.

Lemma serving_insert m j t k :
  serving (<[j := t]> m) k -> serving m k \/ (s_conn t = k /\ exists rest, s_phase t = Writing rest /\
                                              existsb is_data rest = true).
Proof.
  intros (i & u & rest & Hi & Hk & Hp & Hd). destruct (decide (j = i)) as [->|Hne].
  - rewrite lookup_insert_eq in Hi. injection Hi as <-. eauto.
  - rewrite lookup_insert_ne in Hi by done. left. by exists i, u, rest.
Qed.

Lemma serving_delete m j k : serving (delete j m) k -> serving m k.
Proof. intros (i & u & rest & Hi & H). apply lookup_delete_Some in Hi as [_ Hi]. by exists i, u, rest. Qed.

(** A step that leaves connections and revocations alone. *)
Lemma keep_conns s n m :
  same_connections (node s) n -> (forall p, known p (node s) -> known p n) ->
  bt_sorted (records (peers n)) ->
  (forall j t x, m !! j = Some t -> conns s !! s_conn t = Some x -> s_peer t = peer_of x) ->
  (forall k x, conns s !! k = Some x -> serving m k -> serving (streams s) k \/ known (peer_of x) n) ->
  net_ok s -> net_ok (set_streams m (set_node n s)).
Proof.
  intros Hc Hk Hr Hp Hs [T L R U P C]. split; simpl; eauto using same_table_ok.
  - destruct Hc as (_ & -> & _). done.
  - intros k x Hx Ha. destruct (C k x Hx Ha) as [D|[D1 D2]]; [by left|right].
    split; [by eapply same_tracked|]. intros Hv. destruct (Hs k x Hx Hv) as [H|H]; [|by left].
    destruct (D2 H) as [H'|H']; [left; auto|by right].
Qed.

Lemma accept_ok s k c n :
  conns s !! k = None -> map_Forall (fun _ t => s_conn t <> k) (streams s) ->
  map_Forall (fun _ x => stable_id (c_conn x) <> stable_id c) (conns s) ->
  register_connection c (node s) = (n, Ok tt) -> net_ok s ->
  net_ok (set_conns (<[k := {| c_conn := c; c_alive := true |}]> (conns s)) (set_node n s)).
Proof.
  intros Hk Hs Hu Hr [T L R U P C].
  pose proof (register_table_ok c (node s) T) as HT.
  pose proof (fun id sid => register_connected uuid_text c (node s) id sid L) as HC. rewrite Hr in HT, HC. simpl in HT, HC.
  assert (E : peers n = peers (node s) /\ active_poisoned n = false).
  { unfold register_connection in Hr. rewrite L in Hr. by injection Hr as <-. }
  destruct E as [Ep El]. split; simpl; [done|done|by rewrite Ep| | |].
  - intros i x i' x'. rewrite !lookup_insert_Some.
    intros [[<- <-]|[H1 H2]] [[<- <-]|[H3 H4]] Hne; simpl; [done| |by eapply Hu|by eapply U].
    intros E. by apply (Hu i' x').
  - intros j t x Hj. rewrite lookup_insert_ne; [by eauto|]. intros E. by apply (Hs j t).
  - intros i x. rewrite lookup_insert_Some. intros [[<- <-]|[H1 H2]] Ha.
    + right. split; [unfold tracked; simpl; by rewrite HC, bool_decide_eq_true_2|].
      intros (j & t & rest & Hj & Ht & _). by destruct (Hs j t).
    + destruct (C i x H2 Ha) as [D|[D1 D2]]; [by left|]. right. split.
      * unfold tracked. rewrite HC, bool_decide_eq_false_2; [done|].
        intros [_ E]. by apply (Hu i x).
      * unfold known. simpl. by rewrite Ep.
Qed.

Lemma lose_ok s k x :
  conns s !! k = Some x -> net_ok s ->
  net_ok (set_conns (<[k := {| c_conn := c_conn x; c_alive := false |}]> (conns s)) s).
Proof.
  intros Hx [T L R U P C]. split; simpl; auto.
  - intros i y i' y'. rewrite !lookup_insert_Some.
    intros [[<- <-]|[H1 H2]] [[<- <-]|[H3 H4]] Hne; simpl; try done; by eapply U.
  - intros j t y Hj. rewrite lookup_insert_Some. intros [[E <-]|[_ H]]; [|by eapply P].
    apply (P j t x Hj). by rewrite <- E.
  - intros i y. rewrite lookup_insert_Some. intros [[<- <-]|[_ H]] Ha; [done|by apply C].
Qed.

Lemma unregister_ok s k x :
  conns s !! k = Some x -> net_ok s ->
  net_ok (set_conns (delete k (conns s)) (set_node (unregister_connection (c_conn x) (node s)) s)).
Proof.
  intros Hx [T L R U P C].
  assert (E : peers (unregister_connection (c_conn x) (node s)) = peers (node s) /\
              active_poisoned (unregister_connection (c_conn x) (node s)) = active_poisoned (node s)).
  { unfold unregister_connection. rewrite L. by destruct (bt_get _ _); [destruct (bt_remove _ _)|]. }
  destruct E as [Ep El]. split; simpl; [by apply unregister_table_ok|by rewrite El|by rewrite Ep| | |].
  - intros i y i' y'. rewrite !lookup_delete_Some. intros [_ H1] [_ H2]. by eapply U.
  - intros j t y Hj. rewrite lookup_delete_Some. intros [_ H]. by eapply P.
  - intros i y. rewrite lookup_delete_Some. intros [Hne H] Ha.
    destruct (C i y H Ha) as [D|[D1 D2]]; [by left|]. right. split.
    + unfold tracked. cbn [node set_conns set_node]. rewrite (unregister_connected uuid_text), bool_decide_eq_false_2; [done| |done|done].
      intros [_ E]. by apply (U i y k x H Hx).
    + unfold known. simpl. by rewrite Ep.
Qed.

Lemma revoke_sorted id r : bt_sorted (records r) -> bt_sorted (records (fst (revoke fs_fault id r))).
Proof.
  intros R. unfold revoke. destruct (poisoned r); [done|]. destruct (bt_mem id (records r)); [|done].
  pose proof (publish_records_cases fs_fault (bt_remove id (records r)) true r) as Q.
  destruct (publish_records _ _ _ _) as [q [b|e]]; simpl; [destruct Q as (_ & -> & _)|by destruct Q as [_ ->]].
  by apply bt_remove_sorted.
Qed.

Lemma remove_ok s k id p r :
  revokes s !! k = None -> revoke fs_fault id (peers (node s)) = (p, r) -> net_ok s ->
  net_ok (set_revokes (if was_removed r then <[k := Taking id]> (revokes s) else revokes s)
            (set_node (with_peers p (node s)) s)).
Proof.
  intros Hk Hr [T L R U P C]. pose proof (revoke_cases fs_fault id (peers (node s)) R) as V. rewrite Hr in V.
  pose proof (revoke_sorted id (peers (node s)) R) as Hs. rewrite Hr in Hs.
  split; simpl; try done. intros i x Hx Ha.
  assert (Hd : forall j t, revokes s !! j = Some t ->
    (if was_removed r then <[k:=Taking id]> (revokes s) else revokes s) !! j = Some t).
  { intros j t Hj. destruct (was_removed r); [|done]. rewrite lookup_insert_ne; congruence. }
  destruct (C i x Hx Ha) as [(j & l & Hj & Hl)|[D1 D2]]; [left; exists j, l; simpl; auto|].
  right. split; [done|]. intros Hv. destruct (D2 Hv) as [Hkn|[j Hj]]; [|right; exists j; simpl; auto].
  destruct (decide (id = id_text (peer_of x))) as [->|Hne].
  - destruct r as [[]|e]; cbn [was_removed].
    + right. exists k. simpl. by rewrite lookup_insert_eq.
    + destruct V as (Hm & _ & _). unfold bt_mem in Hm. destruct Hkn as [v Hv']. by rewrite Hv' in Hm.
    + left. unfold known. simpl. destruct V as [-> _]. done.
  - left. unfold known in *. simpl. destruct r as [b|e]; [|destruct V as [-> _]; done].
    destruct V as (_ & _ & V). by rewrite V.
Qed.

Lemma bt_get_value {V} k v (l : list (Z * V)) : bt_get k l = Some v -> In v (bt_values l).
Proof.
  intros H. apply (in_map snd l (k, v)). by apply bt_get_In.
Qed.

Lemma take_ok s k id n r :
  revokes s !! k = Some (Taking id) -> take_connections id (node s) = (n, r) -> net_ok s ->
  net_ok (set_revokes (match r with
                       | Ok l => <[k := Closing id l]> (revokes s)
                       | Err _ => delete k (revokes s)
                       end) (set_node n s)).
Proof.
  intros Hk Ht [T L R U P C]. unfold take_connections in Ht. rewrite L in Ht. injection Ht as <- <-.
  split; simpl; try done.
  - destruct T as [T1 T2]. split; simpl; [by apply bt_remove_sorted|]. intros i inner Hi. apply (T2 i).
    destruct (decide (id = i)) as [<-|Hne]; [by rewrite bt_get_remove_eq in Hi|by rewrite bt_get_remove_ne in Hi].
  - intros i x Hx Ha.
    assert (Hd : forall j l, revokes s !! j = Some (Closing (id_text (peer_of x)) l) ->
      <[k := Closing id (bt_values (default [] (bt_get id (active_connections (node s)))))]> (revokes s) !! j =
        Some (Closing (id_text (peer_of x)) l)).
    { intros j l Hj. rewrite lookup_insert_ne; congruence. }
    destruct (C i x Hx Ha) as [(j & l & Hj & Hl)|[D1 D2]]; [left; exists j, l; simpl; auto|].
    destruct (decide (id = id_text (peer_of x))) as [->|Hne].
    + left. eexists k, _. simpl. rewrite lookup_insert_eq. split; [done|].
      unfold tracked, connected in D1. destruct (bt_get _ (active_connections (node s))) as [inner|]; [|done].
      by eapply bt_get_value.
    + right. split.
      * unfold tracked, connected in *. simpl. by rewrite bt_get_remove_ne.
      * intros Hv. destruct (D2 Hv) as [H|[j Hj]]; [by left|]. right. exists j. simpl.
        rewrite lookup_insert_ne; [done|]. intros <-. congruence.
Qed.

Lemma kill_Some c m i y :
  kill c m !! i = Some y ->
  exists x, m !! i = Some x /\ c_conn y = c_conn x /\ (c_alive y = true -> y = x /\ c_conn x <> c).
Proof.
  unfold kill. rewrite lookup_fmap. destruct (m !! i) as [x|] eqn:E; [|done]. simpl. intros [= <-].
  exists x. split; [done|]. by destruct (decide (c_conn x = c)).
Qed.

Lemma close_ok s k id c rest :
  revokes s !! k = Some (Closing id (c :: rest)) -> net_ok s ->
  net_ok (set_revokes (<[k := Closing id rest]> (revokes s))
            (set_conns (kill c (conns s)) (set_node (note_closed c (node s)) s))).
Proof.
  intros Hk [T L R U P C]. split; simpl; try done.
  - intros i y i' y' (x & H1 & E1 & _)%kill_Some (x' & H2 & E2 & _)%kill_Some Hne. rewrite E1, E2. by eapply U.
  - intros j t y Hj (x & H1 & E1 & _)%kill_Some. unfold peer_of. rewrite E1. by eapply P.
  - intros i y (x & Hx & _ & Hy)%kill_Some Ha. destruct (Hy Ha) as [-> Hc].
    destruct (C i x Hx Ha) as [(j & l & Hj & Hl)|[D1 D2]].
    + left. destruct (decide (j = k)) as [->|Hne].
      * rewrite Hk in Hj. injection Hj as -> <-. destruct Hl as [Hl|Hl]; [congruence|].
        exists k, rest. simpl. by rewrite lookup_insert_eq.
      * exists j, l. simpl. by rewrite lookup_insert_ne by congruence.
    + right. split; [done|]. intros Hv. destruct (D2 Hv) as [H|[j Hj]]; [by left|]. right. exists j. simpl.
      rewrite lookup_insert_ne; congruence.
Qed.

Lemma revoked_ok s k id :
  revokes s !! k = Some (Closing id []) -> net_ok s -> net_ok (set_revokes (delete k (revokes s)) s).
Proof.
  intros Hk [T L R U P C]. split; simpl; try done. intros i x Hx Ha.
  destruct (C i x Hx Ha) as [(j & l & Hj & Hl)|[D1 D2]].
  - left. exists j, l. simpl. rewrite lookup_delete_ne; [done|]. intros ->. rewrite Hk in Hj.
    injection Hj as _ <-. done.
  - right. split; [done|]. intros Hv. destruct (D2 Hv) as [H|[j Hj]]; [by left|]. right. exists j. simpl.
    rewrite lookup_delete_ne; [done|]. intros ->. congruence.
Qed.

Lemma set_node_streams n s : set_node n s = set_streams (streams s) (set_node n s).
Proof. by destruct s. Qed.

Lemma set_streams_node m s : set_streams m s = set_streams m (set_node (node s) s).
Proof. by destruct s. Qed.

Lemma with_phase_Some ph j t m i u :
  with_phase ph j t m !! i = Some u ->
  (m !! i = Some u /\ i <> j) \/
  (i = j /\ s_conn u = s_conn t /\ s_peer u = s_peer t /\ ph = Some (s_phase u)).
Proof.
  destruct ph as [ph|]; simpl.
  - rewrite lookup_insert_Some. intros [[<- <-]|[? ?]]; [by right|left; auto].
  - rewrite lookup_delete_Some. intros [? ?]. left; auto.
Qed.

(** A stream's new phase may serve data only to a known peer. *)
Lemma phase_ok s n j t ph l :
  streams s !! j = Some t -> same_connections (node s) n -> registry_grows l (node s) n ->
  grants (s_peer t) ph l (node s) -> net_ok s ->
  net_ok (set_streams (with_phase ph j t (streams s)) (set_node n s)).
Proof.
  intros Hj Hc (Hk & _ & Hr) Hg Hok. pose proof (ok_peers s Hok) as Hp.
  apply keep_conns; auto using ok_records.
  - intros i u x [[Hi _]|(_ & E1 & E2 & _)]%with_phase_Some; [by eapply Hp|]. rewrite E1, E2. by eapply Hp.
  - intros k x Hx (i & u & rest & [[Hi _]|(_ & E1 & _ & E2)]%with_phase_Some & Hu & Hw & Hd).
    { left. by exists i, u, rest. }
    right. rewrite Hw in E2. destruct (Hg rest E2 Hd) as (p & body & _ & Hperm & _). apply Hk.
    rewrite <- (Hp j t x Hj) by congruence. by eapply permitted_known.
Qed.

Lemma write_ok s j t b rest :
  streams s !! j = Some t -> s_phase t = Writing (b :: rest) -> net_ok s ->
  net_ok (set_streams (with_phase (Some (Writing rest)) j t (streams s)) s).
Proof.
  intros Hj Hw Hok. pose proof (ok_peers s Hok) as Hp. rewrite set_streams_node.
  apply keep_conns; auto using ok_records; [done| |].
  - intros i u x [[Hi _]|(_ & E1 & E2 & _)]%with_phase_Some; [by eapply Hp|]. rewrite E1, E2. by eapply Hp.
  - intros k x Hx (i & u & l & [[Hi _]|(_ & E1 & _ & E2)]%with_phase_Some & Hu & Hv & Hd); left.
    { by exists i, u, l. }
    exists j, t, (b :: rest). rewrite Hv in E2. injection E2 as ->. split; [done|]. split; [congruence|].
    split; [done|]. simpl. by rewrite Hd, orb_true_r.
Qed.

Lemma step_keeps_ok s l s' : step s l s' -> net_ok s -> net_ok s'.
Proof.
  intros H Hok. pose proof (ok_peers s Hok) as Hp.
  destruct H as [k c n|k x|k x|k x j|j t ev n ph l|j t b rest|j|k id p r|k id n r|k id c rest|k id|w m|n];
    eauto using accept_ok, lose_ok, unregister_ok, write_ok, remove_ok, take_ok, close_ok, revoked_ok.
  - rewrite set_streams_node. apply keep_conns; auto using ok_records; [done| |].
    + intros i t y. rewrite lookup_insert_Some. intros [[<- <-]|[_ Hi]] Hy; [unfold peer_of; simpl in *; congruence|by eapply Hp].
    + intros i y Hy [Hv|[_ (rest & Hv & _)]]%serving_insert; [by left|done].
  - destruct (advance_facts _ _ _ _ _ _ _ H0) as (F1 & F2 & F3). by eapply phase_ok.
  - rewrite set_streams_node. apply keep_conns; auto using ok_records; [done| |].
    + intros i t x [_ Hi]%lookup_delete_Some. by eapply Hp.
    + intros k x Hx Hv%serving_delete. by left.
  - rewrite set_node_streams. apply keep_conns; simpl; auto using ok_records; done.
  - rewrite set_node_streams. destruct H as (E & _ & _ & Hc). unfold known.
    apply keep_conns; auto; unfold known; rewrite ?E; auto using ok_records.
Qed.

Lemma run_keeps_ok s0 tr s : run s0 tr s -> net_ok s0 -> net_ok s.
Proof. induction 1; eauto using step_keeps_ok. Qed.

(** ** Revocation *)

(** A peer with no record and no revocation under way. *)
Definition cut_off (peer : EndpointId) (s : Net) : Prop :=
  ~ known peer (node s) /\ forall k t, revokes s !! k = Some t -> task_id t <> id_text peer.

Lemma cut_off_not_serving peer s k x :
  net_ok s -> cut_off peer s -> conns s !! k = Some x -> c_alive x = true -> peer_of x = peer ->
  ~ serving (streams s) k.
Proof.
  intros Hok [Hk Ht] Hx Ha <- Hv. destruct (ok_conns s Hok k x Hx Ha) as [(j & l & Hj & _)|[_ D]].
  - by apply (Ht _ _ Hj).
  - destruct (D Hv) as [H|[j Hj]]; [done|]. by apply (Ht _ _ Hj).
Qed.

(** A peer without a record gets one only by pairing. *)
Lemma step_known peer s l s' :
  step s l s' -> net_ok s -> known peer (node s') -> known peer (node s) \/ l = Authorized peer.
Proof.
  intros H Hok Hk.
  destruct H as [k c n H1 H2 H3 H4|k x|k x H1 H2|k x j|j t ev n ph l H1 H2|j t b rest|j|k id p r H1 H2|k id n r H1 H2|
                 k id c rest|k id|w m|n H1]; try (by left).
  - left. unfold register_connection in H4. destruct (active_poisoned _); [done|]. by injection H4 as <-.
  - left. unfold known in *. simpl in Hk. unfold unregister_connection in Hk.
    destruct (active_poisoned _); [done|]. by destruct (bt_get _ (active_connections _)); [destruct (bt_remove _ _)|].
  - by apply (advance_facts _ _ _ _ _ _ _ H2) in Hk.
  - left. unfold known in *. simpl in Hk. pose proof (revoke_cases fs_fault id _ (ok_records s Hok)) as V.
    rewrite H2 in V. destruct r as [b|e]; [|by destruct V as [<- _]]. destruct V as (_ & V1 & V2).
    destruct (decide (id_text peer = id)) as [<-|Hne]; [rewrite V1 in Hk; by destruct Hk|by rewrite V2 in Hk].
  - left. unfold take_connections in H2. by destruct (active_poisoned _); injection H2 as <- <-.
  - left. unfold known in *. simpl in Hk. destruct H1 as (E & _). by rewrite E in Hk.
Qed.

Lemma step_cut_off peer s l s' :
  step s l s' -> net_ok s -> l <> Authorized peer -> cut_off peer s -> cut_off peer s'.
Proof.
  intros H Hok Hl [Hk Ht]. split; [intros Hk'; by destruct (step_known peer s l s' H Hok Hk')|].
  destruct H as [| | | | | | |k id p r H1 H2|k id n r H1 H2|k id c rest H1|k id H1| |]; try done;
    simpl; intros i t Hi.
  - destruct (was_removed r) eqn:E; [|by eapply Ht]. apply lookup_insert_Some in Hi as [[<- <-]|[_ Hi]]; [|by eapply Ht].
    simpl. intros ->. apply Hk. unfold known. pose proof (revoke_cases fs_fault (id_text peer) _ (ok_records s Hok)) as V.
    rewrite H2 in V. destruct r as [[]|]; [|done|done]. destruct V as (V & _). unfold bt_mem in V.
    destruct (bt_get _ _); [by eauto|done].
  - destruct r as [l'|e]; [apply lookup_insert_Some in Hi as [[<- <-]|[_ Hi]]; [|by eapply Ht]|
                           apply lookup_delete_Some in Hi as [_ Hi]; by eapply Ht].
    by apply (Ht k (Taking id)).
  - apply lookup_insert_Some in Hi as [[<- <-]|[_ Hi]]; [|by eapply Ht]. by apply (Ht k (Closing id (c :: rest))).
  - apply lookup_delete_Some in Hi as [_ Hi]. by eapply Ht.
Qed.

Lemma advance_no_write ev remote ph n n' ph' l peer b :
  advance ev remote ph n = Some (n', ph', l) -> l <> Wrote peer b.
Proof.
  intros H ->. destruct ph as [|body|ok wc| |rest], ev; try done; cbn [advance] in H;
    try (by destruct body); repeat (case_match; try done).
Qed.

Lemma step_wrote peer b s l s' :
  step s l s' -> l = Wrote peer b ->
  exists j t rest x, streams s !! j = Some t /\ s_peer t = peer /\ s_phase t = Writing (b :: rest) /\
    conns s !! s_conn t = Some x /\ c_alive x = true.
Proof.
  intros H. destruct H as [| | | |j t ev n ph l H1 H2|j t b' rest H1 H2 H3| |k id p r| | | | |]; try done.
  - intros ->. by destruct (advance_no_write _ _ _ _ _ _ _ peer b H2).
  - intros [= Hp ->]. unfold alive in H3. destruct (conns s !! s_conn t) as [x|] eqn:Hx; [|done].
    by exists j, t, rest, x.
  - by destruct (was_removed r).
Qed.

(** C5: Revocation holds under concurrency: take any state of the running server in which a peer has
    no record and every revocation of it has returned, whatever its connections, streams and
    other tasks are doing. From then on, in whatever order the tasks go on, that peer is written
    no data until it is authorized again, although streams that were granted data before the
    revocation may still be running. *)
Theorem revoked_peer_gets_no_more_data (s0 s1 s2 : Net) tr0 tr peer :
  net_ok s0 -> run s0 tr0 s1 -> cut_off peer s1 -> run s1 tr s2 -> ~ In (Authorized peer) tr ->
  forall b, In (Wrote peer b) tr -> is_data b = false.
Proof.
  intros H0 Hr0 Hc Hr Hna b. pose proof (run_keeps_ok _ _ _ Hr0 H0) as H1. clear H0 Hr0.
  assert (Hinv : net_ok s2 /\ cut_off peer s2 /\ (In (Wrote peer b) tr -> is_data b = false)); [|tauto].
  induction Hr as [|tr s l s' Hr IH Hs]; [done|].
  destruct IH as (IH1 & IH2 & IH3); [intros Hin; apply Hna, in_or_app; by left|].
  split; [by eapply step_keeps_ok|]. split.
  { eapply step_cut_off; [done|done| |done]. intros ->. apply Hna, in_or_app. right. by left. }
  intros [Hin|[E|[]]]%in_app_or; [auto|]. destruct (is_data b) eqn:D; [exfalso|done].
  destruct (step_wrote peer b s l s' Hs E) as (j & t & rest & x & Hj & Hp & Hw & Hx & Ha).
  apply (cut_off_not_serving peer s (s_conn t) x IH1 IH2 Hx Ha).
  - by rewrite <- (ok_peers s IH1 j t x Hj Hx).
  - exists j, t, (b :: rest). simpl. by rewrite D.
Qed.

(** ** Permission *)

(** A stream that may serve data was granted it in this step or could before. *)
Lemma step_serving s l s' j t' rest' :
  step s l s' -> streams s' !! j = Some t' -> s_phase t' = Writing rest' -> existsb is_data rest' = true ->
  (exists t rest, streams s !! j = Some t /\ s_peer t = s_peer t' /\ s_phase t = Writing rest /\
     existsb is_data rest = true) \/
  (exists p body, permissions (s_peer t') (peers (node s)) = Ok (Some p) /\
     allowed p body = true /\ version_ok body = true).
Proof.
  intros H Hj Hw Hd.
  destruct H as [| | |k x i H1 H2 H3|i t ev n ph l H1 H2|i t b rest H1 H2| i | | | | | |];
    cbn [streams set_streams set_node set_conns set_revokes] in Hj; try (left; by exists t', rest').
  - apply lookup_insert_Some in Hj as [[<- <-]|[_ Hj]]; [done|]. left. by exists t', rest'.
  - apply with_phase_Some in Hj as [[Hj _]|(-> & _ & E & ->)]; [left; by exists t', rest'|]. right.
    apply advance_facts in H2 as (_ & _ & G). rewrite Hw in G.
    destruct (G rest' eq_refl Hd) as (p & body & _ & G'). rewrite E. by exists p, body.
  - apply with_phase_Some in Hj as [[Hj _]|(-> & _ & E & Ew)]; left; [by exists t', rest'|].
    exists t, (b :: rest). rewrite Hw in Ew. injection Ew as ->. simpl. rewrite Hd, orb_true_r. by rewrite E.
  - apply lookup_delete_Some in Hj as [_ Hj]. left. by exists t', rest'.
Qed.

(** A moment of the run at which the peer was permitted this kind of request. *)
Definition permitted (s0 : Net) (tr : list Label) (s : Net) (peer : EndpointId) (past : list Label) : Prop :=
  exists s1 tr2 p body, tr = (past ++ tr2)%list /\ run s0 past s1 /\ run s1 tr2 s /\
    permissions peer (peers (node s1)) = Ok (Some p) /\ allowed p body = true /\ version_ok body = true.

Lemma permitted_later s0 tr s l s' peer past :
  step s l s' -> permitted s0 tr s peer past -> permitted s0 (tr ++ [l])%list s' peer past.
Proof.
  intros Hs (s1 & tr2 & p & body & -> & H1 & H2 & H3). exists s1, (tr2 ++ [l])%list, p, body.
  rewrite app_assoc. split; [done|]. split; [done|]. split; [by econstructor|done].
Qed.

Lemma serving_permitted s0 tr s :
  streams s0 = ∅ -> run s0 tr s ->
  forall j t rest, streams s !! j = Some t -> s_phase t = Writing rest -> existsb is_data rest = true ->
  exists past, permitted s0 tr s (s_peer t) past.
Proof.
  intros H0 Hr. induction Hr as [|tr s l s' Hr IH Hs]; intros j t rest Hj Hw Hd; [by rewrite H0 in Hj|].
  destruct (step_serving s l s' j t rest Hs Hj Hw Hd) as [(u & rest' & Hu & E & Hw' & Hd')|(p & body & Hp)].
  - destruct (IH j u rest' Hu Hw' Hd') as [past P]. exists past. rewrite <- E. by eapply permitted_later.
  - exists tr, s, [l], p, body. split; [done|]. split; [done|]. split; [by apply run_one|done].
Qed.

(** No data without permission, under every interleaving: whenever data is written to a peer,
    there was an earlier moment of the same run at which the registry held that peer with a
    permission that covers the request, in a compatible protocol version. *)
Theorem data_follows_permission (s0 s : Net) tr peer b :
  streams s0 = ∅ -> run s0 tr s -> In (Wrote peer b) tr -> is_data b = true ->
  exists past s1 rest p body, tr = (past ++ rest)%list /\ run s0 past s1 /\ In (Wrote peer b) rest /\
    permissions peer (peers (node s1)) = Ok (Some p) /\ allowed p body = true /\ version_ok body = true.
Proof.
  intros H0 Hr Hin Hd. induction Hr as [|tr s l s' Hr IH Hs]; [done|].
  apply in_app_or in Hin as [Hin|[E|[]]].
  - destruct (IH Hin) as (past & s1 & rest & p & body & -> & H1 & H2 & H3).
    exists past, s1, (rest ++ [l])%list, p, body. rewrite <- app_assoc. split; [done|]. split; [done|].
    split; [apply in_or_app; by left|done].
  - destruct (step_wrote peer b s l s' Hs E) as (j & t & rest & x & Hj & Hp & Hw & _).
    destruct (serving_permitted s0 tr s H0 Hr j t (b :: rest) Hj Hw) as (past & s1 & tr2 & p & body & -> & H1 & H2 & H3).
    { simpl. by rewrite Hd. }
    exists past, s1, (tr2 ++ [l])%list, p, body. rewrite <- app_assoc, <- Hp. split; [done|]. split; [done|].
    split; [|done]. apply in_or_app. right. left. by rewrite Hp.
Qed.

(** ** Where authorizations come from *)

(** The stream's secret was accepted and its peer is not yet in the registry. *)
Definition accepted_phase (ph : Phase) : bool :=
  match ph with Verified ok _ => ok | Authorizing => true | _ => false end.

Definition waiting (m : gmap nat Stream) : nat :=
  size (filter (fun kt : nat * Stream => accepted_phase (s_phase (snd kt)) = true) m).

Definition b2n (b : bool) : nat := if b then 1%nat else 0%nat.

Lemma waiting_delete m j t :
  m !! j = Some t -> waiting m = (b2n (accepted_phase (s_phase t)) + waiting (delete j m))%nat.
Proof.
  intros Hj. unfold waiting. rewrite map_filter_delete. destruct (accepted_phase (s_phase t)) eqn:E; simpl.
  - set (f := filter _ m). assert (Hf : f !! j = Some t) by (by apply map_lookup_filter_Some_2).
    rewrite <- (insert_delete_id f j t Hf) at 1. by rewrite map_size_insert_None by apply lookup_delete_eq.
  - rewrite delete_id; [done|]. apply map_lookup_filter_None_2. right. intros x Hx. simpl. congruence.
Qed.

Lemma waiting_insert m j t :
  m !! j = None -> waiting (<[j := t]> m) = (b2n (accepted_phase (s_phase t)) + waiting m)%nat.
Proof.
  intros Hj. rewrite (waiting_delete _ j t) by apply lookup_insert_eq. by rewrite delete_insert_id.
Qed.

Lemma waiting_phase m j t ph :
  m !! j = Some t ->
  (waiting (with_phase ph j t m) + b2n (accepted_phase (s_phase t)) =
   waiting m + b2n (default false (accepted_phase <$> ph)))%nat.
Proof.
  intros Hj. rewrite (waiting_delete m j t Hj). destruct ph as [ph|]; simpl; [|lia].
  rewrite <- (insert_delete_eq m j), waiting_insert by apply lookup_delete_eq. simpl. lia.
Qed.

Definition is_opened (l : Label) : bool := match l with Opened _ => true | _ => false end.
Definition is_accepted (l : Label) : bool := match l with Accepted _ _ _ => true | _ => false end.
Definition is_authorized (l : Label) : bool := match l with Authorized _ => true | _ => false end.

Definition count (f : Label -> bool) (tr : list Label) : nat := length (List.filter f tr).

Lemma count_snoc f tr l : count f (tr ++ [l])%list = (count f tr + b2n (f l))%nat.
Proof. unfold count. rewrite filter_app, length_app. simpl. by destruct (f l). Qed.

(** The secret and the expiry of a window do not change while it is open. *)
Definition same_window (w w' : PairingWindow) : Prop :=
  secret w' = secret w /\ expires_at_ms w' = expires_at_ms w.

Definition window_kept (m m' : PairingManager) : Prop :=
  forall w', m' = Some w' -> exists w, m = Some w /\ same_window w w'.

(** The supplied text is the secret of the window that is open, in time. *)
Definition opens (m : PairingManager) (now : Z) (supplied : string) : Prop :=
  exists w, m = Some w /\ b64_decode supplied = Some (secret w) /\ now <= expires_at_ms w.

Lemma verify_window now peer supplied m :
  let '(m', r) := verify_and_consume_at now peer supplied m in
  window_kept m m' /\ (b2n (is_open m') + b2n (is_ok r) <= b2n (is_open m))%nat /\
  (is_ok r = true -> opens m now supplied).
Proof.
  assert (Hnone : forall m, window_kept m None) by (by intros ? ?).
  unfold verify_and_consume_at. destruct m as [w|]; [|simpl; split; [done|]; split; [lia|done]].
  destruct (Z.ltb_spec (expires_at_ms w) now); [simpl; split; [done|]; split; [lia|done]|].
  destruct (is_locked_out _ _); [simpl; split; [intros ? [= <-]; by exists w|]; split; [lia|done]|].
  destruct (secret_matches w supplied) eqn:S; simpl.
  - split; [done|]. split; [lia|]. intros _. exists w. split; [done|]. split; [|done].
    unfold secret_matches in S. destruct (b64_decode supplied) as [l|]; [|done].
    apply andb_true_iff in S as [_ S]. apply bool_decide_eq_true in S. by rewrite S.
  - split; [intros ? [= <-]; by exists w|]. split; [lia|done].
Qed.

(** What a stream's step does about pairing. *)
Record paired_step (remote : EndpointId) (n n' : NodeRuntime (J := J)) (ph : Phase) (ph' : option Phase)
    (l : Label) : Prop := {
  ps_window : window_kept (pairing n) (pairing n');
  ps_once : (b2n (is_open (pairing n')) + b2n (is_accepted l) <= b2n (is_open (pairing n)))%nat;
  ps_accepted : forall p now t, l = Accepted p now t -> p = remote /\ opens (pairing n) now t;
  ps_phase : (b2n (default false (accepted_phase <$> ph')) + b2n (is_authorized l) <=
              b2n (accepted_phase ph) + b2n (is_accepted l))%nat;
  ps_authorized : forall p, l = Authorized p -> p = remote /\ accepted_phase ph = true;
  ps_waits : default false (accepted_phase <$> ph') = true ->
             accepted_phase ph = true \/ exists now t, l = Accepted remote now t;
  ps_opened : is_opened l = false;
}.

Lemma window_kept_refl m : window_kept m m.
Proof. intros w ->. by exists w. Qed.

(** Most steps are not about pairing. *)
Lemma unpaired_step remote n n' ph ph' l :
  pairing n' = pairing n -> is_opened l = false -> is_accepted l = false -> is_authorized l = false ->
  (default false (accepted_phase <$> ph') = true -> accepted_phase ph = true) ->
  paired_step remote n n' ph ph' l.
Proof.
  intros E H1 H2 H3 H4. split; rewrite ?E; auto using window_kept_refl.
  - rewrite H2. simpl. lia.
  - by intros p now t ->.
  - rewrite H2, H3. destruct (default false _); [rewrite H4 by done; simpl; lia|simpl; lia].
  - by intros p ->.
Qed.

Lemma advance_paired ev remote ph n n' ph' l :
  advance ev remote ph n = Some (n', ph', l) -> paired_step remote n n' ph ph' l.
Proof.
  destruct ph as [|body|ok wc| |rest]; destruct ev as [h|env seen sf|now| |now]; try done; cbn [advance].
  - intros [= <- <- <-]. apply unpaired_step; try done. by destruct h as [|e|[body|]].
  - by destruct body.
  - assert (Hb : forall b, match permissions remote (peers n) with
      | Err _ => Some (n, None, Silently)
      | Ok None => Some (n, Some (Writing [RError "auth_error" "peer is not authorized"]), Silently)
      | Ok (Some p) => Some (n, Some (Writing (answer env seen sf b p)), Granted remote p b)
      end = Some (n', ph', l) -> paired_step remote n n' (Handling body) ph' l).
    { intros b. destruct (permissions remote (peers n)) as [[p|]|e]; intros [= <- <- <-]; by apply unpaired_step. }
    destruct body; try apply Hb; done.
  - destruct body as [| | | | |pr]; try done. destruct (negb _); [by intros [= <- <- <-]; apply unpaired_step|].
    destruct (pairing_poisoned n); [by intros [= <- <- <-]; apply unpaired_step|].
    pose proof (verify_window now remote (one_time_secret pr) (pairing n)) as V.
    destruct (verify_and_consume_at _ _ _ _) as [w r]. destruct V as (V1 & V2 & V3). intros [= <- <- <-].
    split; simpl; destruct (is_ok r); simpl in *; try done; try lia; eauto.
    intros p now' t [= <- <- <-]. auto.
  - by destruct body.
  - by destruct body.
  - intros [= <- <- <-]. apply unpaired_step; try done; [by destruct wc|by destruct ok].
  - destruct (authorize_preserving _ _ _ _) as [q [p|e]]; intros [= <- <- <-]; [|by apply unpaired_step].
    split; simpl; try done; try lia; [apply window_kept_refl|by intros p' [= <-]].
Qed.

(** The same for any step. *)
Record pairing_step (s : Net) (l : Label) (s' : Net) : Prop := {
  pg_window : forall w', pairing (node s') = Some w' ->
    (exists w, pairing (node s) = Some w /\ same_window w w') \/ l = Opened w';
  pg_once : (b2n (is_open (pairing (node s'))) + b2n (is_accepted l) <=
             b2n (is_open (pairing (node s))) + b2n (is_opened l))%nat;
  pg_waiting : (waiting (streams s') + b2n (is_authorized l) <= waiting (streams s) + b2n (is_accepted l))%nat;
  pg_accepted : forall p now t, l = Accepted p now t -> opens (pairing (node s)) now t;
  pg_authorized : forall p, l = Authorized p ->
    exists j t, streams s !! j = Some t /\ s_peer t = p /\ accepted_phase (s_phase t) = true;
  pg_streams : forall j t', streams s' !! j = Some t' -> accepted_phase (s_phase t') = true ->
    (exists t, streams s !! j = Some t /\ s_peer t = s_peer t' /\ accepted_phase (s_phase t) = true) \/
    (exists now t, l = Accepted (s_peer t') now t);
}.

Lemma quiet_step s l s' :
  pairing (node s') = pairing (node s) -> is_opened l = false -> is_accepted l = false ->
  is_authorized l = false -> (waiting (streams s') <= waiting (streams s))%nat ->
  (forall j t', streams s' !! j = Some t' -> accepted_phase (s_phase t') = true ->
     exists t, streams s !! j = Some t /\ s_peer t = s_peer t' /\ accepted_phase (s_phase t) = true) ->
  pairing_step s l s'.
Proof.
  intros E H1 H2 H3 H4 H5. split; rewrite ?E; auto.
  - intros w' ->. left. by exists w'.
  - rewrite H1, H2. done.
  - rewrite H2, H3. lia.
  - by intros p now t ->.
  - by intros p ->.
Qed.

Lemma stream_paired s j t ev n ph l :
  streams s !! j = Some t -> advance ev (s_peer t) (s_phase t) (node s) = Some (n, ph, l) ->
  pairing_step s l (set_streams (with_phase ph j t (streams s)) (set_node n s)).
Proof.
  intros Hj [W1 W2 W3 W4 W5 W6 W7]%advance_paired. pose proof (waiting_phase (streams s) j t ph Hj) as Hw.
  split; cbn [node streams set_streams set_node]; auto.
  - rewrite W7. simpl. lia.
  - lia.
  - intros p now' u E. by apply (W3 _ _ _ E).
  - intros p [-> E]%W5. eauto.
  - intros i u Hi Hu. apply with_phase_Some in Hi as [[Hi _]|(-> & _ & E & ->)]; [left; eauto|].
    rewrite E. destruct (W6 Hu) as [H|H]; [left; eauto|by right].
Qed.

Lemma step_paired s l s' : step s l s' -> pairing_step s l s'.
Proof.
  assert (Hreg : forall c n, register_connection c (node s) = (n, Ok tt) -> pairing n = pairing (node s)).
  { intros c n. unfold register_connection. destruct (active_poisoned _); [done|]. by intros [= <-]. }
  assert (Hunreg : forall c, pairing (unregister_connection c (node s)) = pairing (node s)).
  { intros c. unfold unregister_connection. destruct (active_poisoned _); [done|].
    by destruct (bt_get _ _); [destruct (bt_remove _ _)|]. }
  intros H.
  destruct H as [k c n H1 H2 H3 H4|k x|k x|k x j H1 H2 H3|j t ev n ph l|j t b rest H1 H2|j|k id p r|k id n r H1 H2|
                 k id c rest|k id|w m|n H1]; eauto using stream_paired;
    try (apply quiet_step; simpl; eauto; fail).
  - apply quiet_step; simpl; try done.
    + by rewrite waiting_insert.
    + intros i t'. rewrite lookup_insert_Some. intros [[<- <-]|[_ Hi]]; eauto; done.
  - apply quiet_step; try done; cbn [streams set_streams].
    + pose proof (waiting_phase (streams s) j t (Some (Writing rest)) H1) as Hw. simpl in Hw. simpl. lia.
    + intros i u [[Hi _]|(_ & _ & _ & [= E])]%with_phase_Some; [eauto|]. by rewrite <- E.
  - apply quiet_step; try done; simpl.
    + destruct (streams s !! j) as [t|] eqn:E; [rewrite (waiting_delete _ _ _ E); lia|by rewrite delete_id].
    + intros i u [_ Hi]%lookup_delete_Some. eauto.
  - apply quiet_step; simpl; try (by destruct (was_removed r)); eauto.
  - unfold take_connections in H2. apply quiet_step; simpl; eauto.
    by destruct (active_poisoned _); injection H2 as <- _.
  - split; simpl; eauto; try done; try lia. intros w' [= <-]. by right.
  - apply quiet_step; simpl; eauto. apply H1.
Qed.

(** The peer's secret was accepted, in time, by a window a local command had opened. *)
Definition vouched (tr : list Label) (peer : EndpointId) : Prop :=
  exists tr1 tr2 w now supplied, tr = (tr1 ++ Accepted peer now supplied :: tr2)%list /\
    In (Opened w) tr1 /\ b64_decode supplied = Some (secret w) /\ now <= expires_at_ms w.

Lemma vouched_later tr l peer : vouched tr peer -> vouched (tr ++ [l])%list peer.
Proof.
  intros (tr1 & tr2 & w & now & t & -> & H). exists tr1, (tr2 ++ [l])%list, w, now, t.
  by rewrite <- app_assoc.
Qed.

Record provenance (s0 : Net) (tr : list Label) (s : Net) : Prop := {
  pv_known : forall p, known p (node s) -> known p (node s0) \/ In (Authorized p) tr;
  pv_window : forall w, pairing (node s) = Some w -> exists w0, In (Opened w0) tr /\ same_window w0 w;
  pv_streams : forall j t, streams s !! j = Some t -> accepted_phase (s_phase t) = true -> vouched tr (s_peer t);
  pv_auth : forall tr1 p tr2, tr = (tr1 ++ Authorized p :: tr2)%list -> vouched tr1 p;
  pv_accepted : (count is_authorized tr + waiting (streams s) <= count is_accepted tr)%nat;
  pv_opened : (count is_accepted tr + b2n (is_open (pairing (node s))) <= count is_opened tr)%nat;
}.

Lemma snoc_split {A} (tr tr1 tr2 : list A) l x :
  (tr ++ [l])%list = (tr1 ++ x :: tr2)%list -> (tr2 = [] /\ tr1 = tr /\ x = l) \/ exists r, tr = (tr1 ++ x :: r)%list.
Proof.
  destruct tr2 as [|y tr2 _] using rev_ind.
  - intros E. apply app_inj_tail in E as [-> ->]. by left.
  - rewrite app_comm_cons, app_assoc. intros E. apply app_inj_tail in E as [-> ->]. right. by exists tr2.
Qed.

Lemma step_provenance s0 tr s l s' :
  net_ok s -> provenance s0 tr s -> step s l s' -> provenance s0 (tr ++ [l])%list s'.
Proof.
  intros Hok [P1 P2 P3 P4 P5 P6] Hs. pose proof (step_paired s l s' Hs) as [G1 G2 G3 G4 G5 G6].
  split; rewrite ?count_snoc; try lia.
  - intros p Hp. rewrite in_app_iff. destruct (step_known p s l s' Hs Hok Hp) as [H| ->];
      [destruct (P1 p H); auto|]. right. right. by left.
  - intros w' Hw. destruct (G1 w' Hw) as [(w & E & E1 & E2)| ->].
    + destruct (P2 w E) as (w0 & Hin & E3 & E4). exists w0. split; [apply in_or_app; by left|].
      split; congruence.
    + exists w'. split; [apply in_or_app; right; by left|done].
  - intros j t' Hj Ht. destruct (G6 j t' Hj Ht) as [(t & H1 & <- & H2)|(now & u & ->)].
    + apply vouched_later. by eapply P3.
    + destruct (G4 _ _ _ eq_refl) as (w & E & H1 & H2). destruct (P2 w E) as (w0 & Hin & E3 & E4).
      exists tr, [], w0, now, u. split; [done|]. split; [done|]. rewrite <- E3, <- E4. done.
  - intros tr1 p tr2 [(_ & -> & E)|[r E]]%snoc_split; [|by eapply P4].
    destruct (G5 p (eq_sym E)) as (j & t & Hj & <- & Ht). by eapply P3.
Qed.

(** Authorizations come from the machine's own operator: whatever remote peers send, in any
    interleaving, a peer in the registry was there at the start or was authorized since; each
    authorization follows the acceptance, in time, of the secret of a window that a local command
    had opened before; and there are never more authorizations than windows opened, so one
    bundle admits one peer. *)
Theorem authorizations_come_from_local_windows (s0 s : Net) tr :
  net_ok s0 -> streams s0 = ∅ -> pairing (node s0) = None -> run s0 tr s ->
  (forall p, known p (node s) -> known p (node s0) \/ In (Authorized p) tr) /\
  (forall tr1 p tr2, tr = (tr1 ++ Authorized p :: tr2)%list -> vouched tr1 p) /\
  (count is_authorized tr <= count is_opened tr)%nat.
Proof.
  intros Hok H1 H2 Hr.
  assert (P : provenance s0 tr s).
  { induction Hr as [|tr s l s' Hr IH Hs]; [|eauto using step_provenance, run_keeps_ok].
    split; rewrite ?H1, ?H2; try done; [by left|]. by intros [|? ?]. }
  destruct P as [P1 _ _ P4 P5 P6]. split; [done|]. split; [done|]. lia.
Qed.

(** ** The sequential server is one of the interleavings *)

Definition writes (tr : list Label) : list ResponseBody :=
  omap (fun l => match l with Wrote _ b => Some b | _ => None end) tr.

Lemma with_phase_twice ph ph' j t m :
  with_phase ph' j t (with_phase (Some ph) j t m) = with_phase ph' j t m.
Proof. destruct ph' as [ph'|]; simpl; [apply insert_insert_eq|apply delete_insert_eq]. Qed.

Lemma lookup_phase ph j t m :
  with_phase (Some ph) j t m !! j = Some {| s_conn := s_conn t; s_peer := s_peer t; s_phase := ph |}.
Proof. apply lookup_insert_eq. Qed.

(** A stream that has a list of responses left writes them all. *)
Lemma write_all s j t out :
  streams s !! j = Some t -> s_phase t = Writing out -> alive (s_conn t) s = true ->
  exists tr, run s tr (set_streams (with_phase (Some (Writing [])) j t (streams s)) s) /\ writes tr = out.
Proof.
  revert s t. induction out as [|b out IH]; intros s t Hj Hp Ha.
  - exists []. split; [|done]. simpl. rewrite <- Hp.
    replace (set_streams _ s) with s; [constructor|].
    destruct s, t. unfold set_streams. simpl in *. by rewrite insert_id.
  - pose proof (step_write s j t b out Hj Hp Ha) as H1. set (s1 := set_streams _ s) in H1.
    destruct (IH s1 {| s_conn := s_conn t; s_peer := s_peer t; s_phase := Writing out |}) as (tr & H2 & Hw);
      [apply lookup_phase|done|done|].
    exists (Wrote (s_peer t) b :: tr). split; [|simpl; by rewrite Hw].
    change (Wrote (s_peer t) b :: tr) with ([Wrote (s_peer t) b] ++ tr)%list.
    eapply run_app; [by apply run_one|].
    replace (set_streams _ s) with
      (set_streams (with_phase (Some (Writing [])) j
         {| s_conn := s_conn t; s_peer := s_peer t; s_phase := Writing out |} (streams s1)) s1); [done|].
    unfold s1, set_streams. simpl. by rewrite insert_insert_eq.
Qed.

(** The state in which only stream [j] has moved on. *)
Definition moved (s : Net) (j : nat) (t : Stream) (n : NodeRuntime (J := J)) (ph : option Phase) : Net :=
  set_streams (with_phase ph j t (streams s)) (set_node n s).

Definition leads (s : Net) (j : nat) (t : Stream) (n : NodeRuntime (J := J)) (ph : option Phase)
    (out : list ResponseBody) : Prop :=
  exists tr, run s tr (moved s j t n ph) /\ writes tr = out.

Lemma writes_app tr1 tr2 : writes (tr1 ++ tr2)%list = (writes tr1 ++ writes tr2)%list.
Proof. apply omap_app. Qed.

Lemma moved_twice s j t n ph n' ph' :
  set_streams (with_phase ph' j t (streams (moved s j t n (Some ph)))) (set_node n' (moved s j t n (Some ph))) =
  moved s j t n' ph'.
Proof. unfold moved, set_streams, set_node. cbn [streams conns revokes]. by rewrite with_phase_twice. Qed.

Lemma leads_start s j t : streams s !! j = Some t -> leads s j t (node s) (Some (s_phase t)) [].
Proof.
  intros Hj. exists []. split; [|done]. replace (moved _ _ _ _ _) with s; [constructor|].
  destruct s, t. unfold moved, set_streams, set_node. simpl in *. by rewrite insert_id.
Qed.

Lemma leads_advance s j t n ph out ev n' ph' l :
  leads s j t n (Some ph) out -> advance ev (s_peer t) ph n = Some (n', ph', l) -> leads s j t n' ph' out.
Proof.
  intros (tr & Hr & Hw) Ha. set (u := {| s_conn := s_conn t; s_peer := s_peer t; s_phase := ph |}).
  pose proof (step_stream (moved s j t n (Some ph)) j u ev n' ph' l (lookup_phase ph j t _) Ha) as Hs.
  exists (tr ++ [l])%list. split.
  - econstructor; [done|]. rewrite <- (moved_twice s j t n ph n' ph'). destruct ph'; exact Hs.
  - rewrite writes_app, Hw. destruct l; try (by rewrite app_nil_r). exfalso.
    by eapply advance_no_write.
Qed.

Lemma leads_write s j t n l out :
  leads s j t n (Some (Writing l)) out -> alive (s_conn t) s = true ->
  leads s j t n (Some (Writing [])) (out ++ l)%list.
Proof.
  intros (tr & Hr & Hw) Ha.
  destruct (write_all (moved s j t n (Some (Writing l))) j
              {| s_conn := s_conn t; s_peer := s_peer t; s_phase := Writing l |} l) as (tr2 & Hr2 & Hw2);
    [apply lookup_phase|done|done|].
  exists (tr ++ tr2)%list. rewrite writes_app, Hw, Hw2. split; [|done]. eapply run_app; [done|].
  replace (moved s j t n (Some (Writing []))) with
    (set_streams (with_phase (Some (Writing [])) j
       {| s_conn := s_conn t; s_peer := s_peer t; s_phase := Writing l |} (streams (moved s j t n (Some (Writing l)))))
       (moved s j t n (Some (Writing l)))); [done|].
  unfold moved, set_streams, set_node. cbn [streams conns revokes node]. simpl. by rewrite insert_insert_eq.
Qed.

Lemma leads_other s j t n ph out n' : leads s j t n ph out -> same_access n n' -> leads s j t n' ph out.
Proof.
  intros (tr & Hr & Hw) Ha. exists (tr ++ [Silently])%list. rewrite writes_app, Hw, app_nil_r. split; [|done].
  econstructor; [done|]. by apply (step_other (moved s j t n ph) n').
Qed.

Lemma leads_end s j t n ph out : leads s j t n ph out -> leads s j t n None out.
Proof.
  intros (tr & Hr & Hw). exists (tr ++ [Silently])%list. rewrite writes_app, Hw, app_nil_r. split; [|done].
  econstructor; [done|]. pose proof (step_end (moved s j t n ph) j) as H.
  replace (moved s j t n None) with (set_streams (delete j (streams (moved s j t n ph))) (moved s j t n ph)); [done|].
  destruct ph as [ph|]; unfold moved, set_streams, set_node; simpl; [by rewrite delete_insert_eq|by rewrite delete_delete_eq].
Qed.

(** A response that is the whole answer: it is written, or the write fails. *)
Lemma leads_response s j t n b sf st :
  leads s j t n (Some (Writing [b])) [] -> alive (s_conn t) s = true ->
  rt st = n -> sent st = [] ->
  leads s j t (rt (fst (write_response (J := J) sf b st))) None (sent (fst (write_response sf b st))).
Proof.
  intros H Ha E1 E2. unfold write_response. rewrite E2. destruct (sf [] b); simpl; rewrite E1, ?E2.
  - by eapply leads_end.
  - eapply leads_end. by apply (leads_write s j t n [b] []).
Qed.

Lemma pair_is_run s j t pr sf t1 t2 :
  leads s j t (node s) (Some (Handling (Pair pr))) [] -> alive (s_conn t) s = true ->
  let st := fst (handle_pair fs_fault uuid_text sf t1 t2 (s_peer t) local pr {| rt := node s; sent := [] |}) in
  leads s j t (rt st) None (sent st).
Proof.
  intros H Ha. unfold handle_pair, write_error.
  assert (Hadv : forall r, advance (EvVerify t1) (s_peer t) (Handling (Pair pr)) (node s) = Some r ->
    leads s j t (fst (fst r)) (snd (fst r)) []).
  { intros [[n ph] l] Hr. by eapply leads_advance. }
  cbn [advance] in Hadv. destruct (negb _); [eapply leads_response; eauto; by apply (Hadv _ eq_refl)|].
  unfold hbind, hget. cbn [rt]. destruct (pairing_poisoned (node s)); [by apply (Hadv _ eq_refl)|].
  destruct (verify_and_consume_at _ _ _ _) as [w r].
  specialize (Hadv _ eq_refl). cbn [fst snd] in Hadv.
  set (n1 := with_pairing w (pairing_mdns (node s)) (node s)) in Hadv.
  set (n2 := with_pairing w (if is_open w then pairing_mdns (node s) else mdns_close (pairing_mdns (node s))) (node s)).
  assert (Hm : leads s j t n2 (Some (if is_ok r then Authorizing
                else Writing [RError "pairing_rejected" "pairing request was rejected"])) []).
  { eapply leads_advance; [exact Hadv|]. instantiate (2 := EvMdns). cbn [advance]. unfold n1, n2. by destruct (is_open w). }
  unfold hput. cbn [rt sent]. fold n2. destruct r as [[]|e]; cbn [is_ok] in Hm; [|by apply (leads_response _ _ _ n2)].
  destruct (authorize_preserving fs_fault (s_peer t) t2 (peers n2)) as [q [p|e]] eqn:Q; cbn [rt sent fst]; rewrite ?Q.
  - apply (leads_response s j t (with_peers q n2)); [|done|done|done].
    eapply leads_advance; [exact Hm|]. instantiate (2 := EvAuthorize t2). cbn [advance]. by rewrite Q.
  - eapply leads_advance; [exact Hm|]. instantiate (2 := EvAuthorize t2). cbn [advance]. by rewrite Q.
Qed.

Lemma check_is_run s j t body sf env :
  (forall pr, body <> Pair pr) ->
  leads s j t (node s) (Some (Handling body)) [] -> alive (s_conn t) s = true ->
  let st := fst (handle_request db_fault fs_fault uuid_text sf env (s_peer t) local (Some body)
                   {| rt := node s; sent := [] |}) in
  leads s j t (rt st) None (sent st).
Proof.
  intros Hb H Ha. rewrite handle_request_body by done. unfold hbind, hget. cbn [rt].
  assert (Hadv : forall r, match permissions (s_peer t) (peers (node s)) with
      | Err _ => Some (node s, None, Silently)
      | Ok None => Some (node s, Some (Writing [RError "auth_error" "peer is not authorized"]), Silently)
      | Ok (Some p) => Some (node s, Some (Writing (answer env (node s) sf body p)), Granted (s_peer t) p body)
      end = Some r -> leads s j t (fst (fst r)) (snd (fst r)) []).
  { intros [[n ph] l] Hr. apply (leads_advance s j t (node s) (Handling body) [] (EvCheck env (node s) sf) n ph l); [done|].
    rewrite <- Hr. destruct body; try done. by destruct (Hb p). }
  destruct (permissions (s_peer t) (peers (node s))) as [[p|]|e]; specialize (Hadv _ eq_refl); cbn [fst snd] in Hadv.
  - eapply leads_end, leads_other; [by apply (leads_write s j t (node s) (answer env (node s) sf body p) [])|].
    pose proof (handle_authorized_writes db_fault uuid_text sf everything same_access env local body p
      ltac:(done) ltac:(done) ltac:(done) {| rt := node s; sent := [] |}) as (_ & _ & _ & K). exact K.
  - pose proof (leads_response s j t (node s) _ sf {| rt := node s; sent := [] |} Hadv Ha eq_refl eq_refl) as L.
    unfold write_error. by destruct (write_response _ _ _) as [st [[]|e]].
  - done.
Qed.

(** C11: The request-at-a-time server of [Server] is one of the interleavings: from any state, letting
    one stream run alone reaches exactly the runtime, and writes exactly the responses, that
    serving its request as one computation does. *)
Theorem sequential_server_is_a_run (s : Net) j t sf env header :
  streams s !! j = Some t -> s_phase t = Reading -> alive (s_conn t) s = true ->
  let st := fst (serve_stream db_fault fs_fault uuid_text sf env (s_peer t) local header
                   {| rt := node s; sent := [] |}) in
  exists tr, run s tr (set_streams (delete j (streams s)) (set_node (rt st) s)) /\ writes tr = sent st.
Proof.
  intros Hj Hp Ha. pose proof (leads_start s j t Hj) as H. rewrite Hp in H.
  change (let st := fst (serve_stream db_fault fs_fault uuid_text sf env (s_peer t) local header
                   {| rt := node s; sent := [] |}) in leads s j t (rt st) None (sent st)).
  pose proof (fun ph E => leads_advance s j t (node s) Reading [] (EvHeader header) (node s) ph Silently H E) as Hh.
  destruct header as [|e|[body|]]; cbn [serve_stream].
  - by apply Hh.
  - by apply Hh.
  - specialize (Hh _ eq_refl). destruct (pair_or_not body) as [[pr ->]|Hb]; [|by apply check_is_run].
    pose proof (pair_is_run s j t pr sf (now_verify env) (now_paired env) Hh Ha) as L.
    cbn [handle_request]. unfold hbind. by destruct (handle_pair _ _ _ _ _ _ _ _ _) as [st [[]|e]].
  - specialize (Hh _ eq_refl).
    pose proof (leads_response s j t (node s) _ sf {| rt := node s; sent := [] |} Hh Ha eq_refl eq_refl) as L.
    cbn [handle_request]. unfold hbind, write_error. by destruct (write_response _ _ _) as [st [[]|e]].
Qed.

(** Closing the connections a revocation took, one by one. *)
Lemma close_all s k id l :
  revokes s !! k = Some (Closing id l) ->
  exists tr, run s (tr ++ [Revoked id])%list {| node := with_connections (active_connections (node s)) (closed (node s) ++ l)%list (node s);
                         conns := fold_left (fun m c => kill c m) l (conns s); streams := streams s;
                         revokes := delete k (revokes s) |}.
Proof.
  revert s. induction l as [|c l IH]; intros s Hk.
  - exists []. rewrite app_nil_r. pose proof (step_revoked s k id Hk) as H.
    apply run_one. destruct s as [n cs ts rs]. by destruct n.
  - pose proof (step_close s k id c l Hk) as H. set (s1 := set_revokes _ _) in H.
    destruct (IH s1) as (tr & Hr); [apply lookup_insert_eq|]. exists ([Silently] ++ tr)%list. rewrite <- app_assoc.
    eapply run_app; [by apply run_one|]. unfold s1, set_revokes, set_conns, set_node, note_closed in Hr.
    cbn [node conns streams revokes with_connections active_connections closed] in Hr.
    rewrite delete_insert_eq, <- app_assoc in Hr. exact Hr.
Qed.

(** So is the revocation of [Server]: its three steps, one after the other. *)
Lemma sequential_revocation_is_a_run s k id n' :
  revokes s !! k = None -> revoke_peer fs_fault id (node s) = (n', Ok true) ->
  exists tr, run s (tr ++ [Revoked id])%list {| node := n';
    conns := fold_left (fun m c => kill c m) (bt_values (default [] (bt_get id (active_connections (node s)))))
               (conns s);
    streams := streams s; revokes := revokes s |}.
Proof.
  intros Hk. unfold revoke_peer. destruct (revoke fs_fault id (peers (node s))) as [p [[]|e]] eqn:R; [|done|done].
  cbn [active_poisoned with_peers]. destruct (active_poisoned (node s)) eqn:L; [done|]. intros [= <-].
  pose proof (step_remove s k id p (Ok true) Hk R) as H1. cbn [was_removed] in H1. set (s1 := set_revokes _ _) in H1.
  assert (Ht : take_connections id (node s1) =
    (with_connections (bt_remove id (active_connections (node s))) (closed (node s)) (with_peers p (node s)),
     Ok (bt_values (default [] (bt_get id (active_connections (node s))))))).
  { unfold take_connections, s1. simpl. by rewrite L. }
  pose proof (step_take s1 k id _ _ (lookup_insert_eq _ _ _) Ht) as H2. cbn beta match in H2.
  set (s2 := set_revokes _ _) in H2.
  destruct (close_all s2 k id _ (lookup_insert_eq _ _ _)) as (tr & Hr).
  exists ([Removed id] ++ [Silently] ++ tr)%list. rewrite <- !app_assoc.
  eapply run_app; [by apply run_one|]. eapply run_app; [by apply run_one|]. revert Hr. unfold s2, s1.
  unfold set_revokes, set_conns, set_node. cbn [node conns streams revokes with_connections active_connections closed].
  rewrite !delete_insert_eq, delete_id by done. done.
Qed.

(** One stream scheduled alone: [None] lets it write its next response. *)
Fixpoint solo (evs : list (option StreamEvent)) (j : nat) (s : Net) : option (list Label * Net) :=
  match evs with
  | [] => Some ([], s)
  | ev :: evs =>
      t ← streams s !! j;
      '(l, s1) ← match ev with
                 | Some ev =>
                     '(n, ph, l) ← advance ev (s_peer t) (s_phase t) (node s);
                     Some (l, set_streams (with_phase ph j t (streams s)) (set_node n s))
                 | None =>
                     match s_phase t with
                     | Writing (b :: rest) =>
                         if alive (s_conn t) s
                         then Some (Wrote (s_peer t) b, set_streams (with_phase (Some (Writing rest)) j t (streams s)) s)
                         else None
                     | _ => None
                     end
                 end;
      '(tr, s2) ← solo evs j s1;
      Some (l :: tr, s2)
  end.

Lemma solo_is_run evs j s tr s' : solo evs j s = Some (tr, s') -> run s tr s'.
Proof.
  revert s tr. induction evs as [|ev evs IH]; intros s tr; cbn [solo]; [intros [= <- <-]; constructor|].
  destruct (streams s !! j) as [t|] eqn:Hj; [|done]. cbn [base.mbind option_bind].
  assert (Hgo : forall l s1, step s l s1 ->
    ('(tr0, s2) ← solo evs j s1; Some (l :: tr0, s2)) = Some (tr, s') -> run s tr s').
  { intros l s1 Hs. destruct (solo evs j s1) as [[tr1 s2]|] eqn:E; [|done]. cbn. intros [= <- <-].
    apply (run_app s [l] s1); [by apply run_one|by apply IH]. }
  destruct ev as [ev|].
  - destruct (advance ev (s_peer t) (s_phase t) (node s)) as [[[n ph] l]|] eqn:Ha; [|done].
    cbn [base.mbind option_bind]. apply Hgo. by eapply step_stream.
  - destruct (s_phase t) as [| | | |[|b rest]] eqn:Hp; try done.
    destruct (alive (s_conn t) s) eqn:Hl; [|done]. cbn [base.mbind option_bind]. apply Hgo. by eapply step_write.
Qed.

End Tasks.

(** ** Witnesses *)

Definition net (n : NodeRuntime (J := MetricSample)) (c : gmap nat Conn) (t : gmap nat Stream)
  (r : gmap nat RevokeTask) : Net := {| node := n; conns := c; streams := t; revokes := r |}.

Lemma paired_table_ok : table_ok paired_runtime.
Proof.
  split; [vm_compute; repeat constructor|]. intros id inner H. apply bt_get_In in H as [[= <- <-]|[]].
  split; [vm_compute; repeat constructor|done].
Qed.

(** Peer 3 is connected and has been granted a sample that is not yet written. *)
Definition viewer : Connection := {| remote_id := 3; stable_id := 7 |}.

Definition busy : Net :=
  net paired_runtime {[0%nat := {| c_conn := viewer; c_alive := true |}]}
    {[0%nat := {| s_conn := 0; s_peer := 3; s_phase := Writing [RHeartbeat 1 1] |}]} ∅.

Lemma busy_ok : net_ok busy.
Proof.
  split; [exact paired_table_ok|done|vm_compute; repeat constructor|..]; cbn [busy net conns streams].
  - intros k x k' x' [<- _]%lookup_singleton_Some [<- _]%lookup_singleton_Some. done.
  - intros j t x [<- <-]%lookup_singleton_Some [_ <-]%lookup_singleton_Some. done.
  - intros k x [<- <-]%lookup_singleton_Some _. right. split; [vm_compute; reflexivity|].
    intros _. left. vm_compute. eauto.
Qed.

(** The operator revokes it while that stream is still running; then it connects again and asks. *)
Definition asks_again : list Label :=
  [Silently; Silently; Silently; Silently; Wrote 3 (RError "auth_error" "peer is not authorized")].

Lemma revoked_run :
  exists s1 s2, run (J := MetricSample) never never unary_text 8 busy [Removed "111"; Silently; Silently; Revoked "111"] s1 /\
    cut_off 3 s1 /\ run never never unary_text 8 s1 asks_again s2.
Proof.
  pose proof (run_one never never unary_text 8 _ _ _
    (step_remove never never unary_text 8 busy 0 "111" _ _ eq_refl (surjective_pairing _))) as R.
  eapply run_snoc in R; [|refine (step_take never never unary_text 8 _ 0 "111" _ _ _ (surjective_pairing _)); vm_compute; reflexivity].
  eapply run_snoc in R; [|refine (step_close never never unary_text 8 _ 0 "111" viewer [] _); vm_compute; reflexivity].
  eapply run_snoc in R; [|refine (step_revoked never never unary_text 8 _ 0 "111" _); vm_compute; reflexivity].
  match type of R with run _ _ _ _ _ _ ?s => set (s1 := s) in R end.
  exists s1. eexists. split; [exact R|]. split.
  - split; [vm_compute; by intros [? ?]|]. intros k t Hk. vm_compute in Hk. done.
  - assert (D1 : map_Forall (fun _ t => s_conn t <> 1%nat) (streams s1))
      by (refine (bool_decide_unpack _ _); vm_compute; exact I).
    assert (D2 : map_Forall (fun _ x => stable_id (c_conn x) <> 9) (conns s1))
      by (refine (bool_decide_unpack _ _); vm_compute; exact I).
    pose proof (run_one never never unary_text 8 _ _ _
      (step_accept never never unary_text 8 s1 1 {| remote_id := 3; stable_id := 9 |} _ eq_refl D1 D2 eq_refl)) as R2.
    eapply run_snoc in R2; [|refine (step_open never never unary_text 8 _ 1 _ 1 _ _ _); vm_compute; reflexivity].
    eapply run_snoc in R2; [|refine (step_stream never never unary_text 8 _ 1 _ (EvHeader (Got (Some (GetHealth V1)))) _ _ _ _ _);
      vm_compute; reflexivity].
    eapply run_snoc in R2; [|refine (step_stream never never unary_text 8 _ 1 _ (EvCheck demo_env paired_runtime never_fails) _ _ _ _ _);
      vm_compute; reflexivity].
    eapply run_snoc in R2; [|refine (step_write never never unary_text 8 _ 1 _ _ _ _ _ _); vm_compute; reflexivity].
    exact R2.
Qed.

Lemma revoked_peer_gets_no_more_data_witness :
  exists b, In (Wrote 3 b) asks_again /\ is_data b = false.
Proof.
  destruct revoked_run as (s1 & s2 & R1 & Hc & R2).
  exists (RError "auth_error" "peer is not authorized"). split; [vm_compute; tauto|].
  apply (revoked_peer_gets_no_more_data never never unary_text 8 busy s1 s2 _ asks_again 3 busy_ok R1 Hc R2).
  - vm_compute. intuition congruence.
  - vm_compute. tauto.
Defined.

(** A viewer connects and opens a stream. *)
Definition connected_net (n : NodeRuntime (J := MetricSample)) : Net :=
  net (fst (register_connection viewer n)) {[0%nat := {| c_conn := viewer; c_alive := true |}]}
    {[0%nat := {| s_conn := 0; s_peer := 3; s_phase := Reading |}]} ∅.

Lemma connect_run n :
  active_poisoned n = false ->
  run never never unary_text 8 (net n ∅ ∅ ∅) [Silently; Silently] (connected_net n).
Proof.
  intros Hp. assert (Hr : register_connection viewer n = (fst (register_connection viewer n), Ok tt))
    by (unfold register_connection; by rewrite Hp).
  pose proof (run_one never never unary_text 8 _ _ _
    (step_accept never never unary_text 8 (net n ∅ ∅ ∅) 0 viewer _ (lookup_empty 0%nat)
       (map_Forall_empty _) (map_Forall_empty _) Hr)) as R.
  eapply run_snoc in R; [|refine (step_open never never unary_text 8 _ 0 {| c_conn := viewer; c_alive := true |} 0 (lookup_insert_eq _ _ _) eq_refl (lookup_empty _))].
  exact R.
Qed.

Definition health_answer : ResponseBody := RHealth (ToWire.health (health paired_runtime)).

Definition asks_health : list (option (StreamEvent (J := MetricSample))) :=
  [Some (EvHeader (Got (Some (GetHealth V1)))); Some (EvCheck demo_env paired_runtime never_fails); None].

Lemma data_follows_permission_witness :
  exists tr s, run never never unary_text 8 (net paired_runtime ∅ ∅ ∅) tr s /\ In (Wrote 3 health_answer) tr /\
    exists past s1 rest, tr = (past ++ rest)%list /\ run never never unary_text 8 (net paired_runtime ∅ ∅ ∅) past s1.
Proof.
  assert (Htr : fst <$> solo never never unary_text 8 asks_health 0 (connected_net paired_runtime) =
    Some [Silently; Granted 3 default_permissions (GetHealth V1); Wrote 3 health_answer]) by (vm_compute; reflexivity).
  destruct (solo never never unary_text 8 asks_health 0 (connected_net paired_runtime)) as [[tr s]|] eqn:E; [|done].
  injection Htr as Htr. apply solo_is_run in E.
  pose proof (run_app never never unary_text 8 _ _ _ _ _ (connect_run paired_runtime eq_refl) E) as R.
  assert (Hin : In (Wrote 3 health_answer) ([Silently; Silently] ++ tr)) by (rewrite Htr; vm_compute; tauto).
  eexists _, s. split; [exact R|]. split; [exact Hin|].
  destruct (data_follows_permission never never unary_text 8 (net paired_runtime ∅ ∅ ∅) _ _ 3 health_answer
              eq_refl R Hin eq_refl) as (past & s1 & rest & p & body & E' & H1 & _).
  by exists past, s1, rest.
Defined.

(** A window is opened and the viewer presents its secret. *)
Definition unpaired_runtime : NodeRuntime (J := MetricSample) :=
  with_connections [] [] (demo_runtime None empty_registry filled).

Lemma idle_ok : net_ok (net unpaired_runtime ∅ ∅ ∅).
Proof. split; try done; [split; [constructor|done]|constructor]. Qed.

Definition pairs : list (option (StreamEvent (J := MetricSample))) :=
  [Some (EvHeader (Got (Some (Pair demo_pair)))); Some (EvVerify 10); Some EvMdns; Some (EvAuthorize 11); None].

Lemma authorizations_come_from_local_windows_witness :
  exists tr s, run never never unary_text 8 (net unpaired_runtime ∅ ∅ ∅) tr s /\ known 3 (node s) /\
    ~ known 3 unpaired_runtime /\ In (Authorized 3) tr /\ (count is_authorized tr <= count is_opened tr)%nat.
Proof.
  pose proof (connect_run unpaired_runtime eq_refl) as R.
  eapply run_snoc in R; [|refine (step_window never never unary_text 8 (connected_net unpaired_runtime) demo_window mdns_default eq_refl eq_refl)].
  match type of R with run _ _ _ _ _ _ ?s => set (s1 := s) in R end.
  assert (Hk : (fun r => bt_mem "111" (records (peers (node (snd r))))) <$> solo never never unary_text 8 pairs 0 s1 =
    Some true) by (vm_compute; reflexivity).
  destruct (solo never never unary_text 8 pairs 0 s1) as [[tr s]|] eqn:E; [|done].
  injection Hk as Hk. apply solo_is_run in E. pose proof (run_app never never unary_text 8 _ _ _ _ _ R E) as R2.
  assert (K : known 3 (node s)).
  { unfold known. unfold bt_mem in Hk. change (id_text 3) with "111". destruct (bt_get _ _); [by eauto|done]. }
  destruct (authorizations_come_from_local_windows never never unary_text 8 (net unpaired_runtime ∅ ∅ ∅) _ _ idle_ok
              eq_refl eq_refl R2) as (H1 & _ & H3).
  assert (Hn : ~ known 3 unpaired_runtime) by (vm_compute; by intros [? ?]).
  eexists _, s. split; [exact R2|]. split; [exact K|]. split; [exact Hn|].
  split; [by destruct (H1 3 K)|exact H3].
Defined.

Lemma sequential_server_is_a_run_witness :
  let s := connected_net paired_runtime in
  exists tr s', run never never unary_text 8 s tr s' /\ writes tr = [health_answer].
Proof.
  destruct (sequential_server_is_a_run never never unary_text 8 (connected_net paired_runtime) 0
    {| s_conn := 0; s_peer := 3; s_phase := Reading |} never_fails demo_env (Got (Some (GetHealth V1)))
    eq_refl eq_refl eq_refl) as (tr & R & W).
  exists tr. eexists. split; [exact R|]. rewrite W. vm_compute. reflexivity.
Defined.
