(* ===== verification/Config.v ===== *)
(** Operator-owned paths and persistent configuration: [apps/agent/src/runtime/config.rs].

    The configuration is one JSON file that commands load, change and replace as a whole, and
    that an operator may edit by hand. [validate] is the check both sides share; [usable]
    says what it accepts. The file system enters as what reading the file gives and which file
    operation fails, as in [Persist]. *)

From Stdlib Require Import Ascii String.
From stdpp Require Import sets countable.
From S2P Require Import Prelude BTree Float Model Alert Framing Transport Net Persist Codecs.
Local Open Scope string_scope.
Local Open Scope Z_scope.

(** ** Paths *)

(** [Path::join] of a relative name. *)
Definition path_join (dir name : string) : string :=
  if String.eqb dir "" || ends_with "/" dir then dir +:+ name else dir +:+ "/" +:+ name.

Record AppPaths := {
  p_config : string;
  p_data : string;
  p_state : string;
  p_log : string;
  p_local_socket : string;
}.

(** [directories::ProjectDirs] of the user the process runs as. *)
Record ProjectDirs := {
  config_dir : string;
  data_local_dir : string;
  state_dir : option string;
}.

Definition is_none {A} (o : option A) : bool := match o with None => true | Some _ => false end.

(** The directory an override names, or else one of the platform's. *)
Definition dir_or (over : option string) (dirs : option ProjectDirs) (pick : ProjectDirs -> string)
    (what : string) : result string string :=
  match over with
  | Some path => Ok path
  | None => let? d := ok_or dirs what in Ok (pick d)
  end.

Definition app_paths (env : string -> option string) (platform : option ProjectDirs)
  : result AppPaths string :=
  let config_override := env "RACKIO_CONFIG_DIR" in
  let data_override := env "RACKIO_DATA_DIR" in
  let state_override := env "RACKIO_STATE_DIR" in
  let? dirs :=
    (if is_none config_override || is_none data_override || is_none state_override
     then let? d := ok_or platform "OS application directories are unavailable" in Ok (Some d)
     else Ok None) in
  let? config := dir_or config_override dirs config_dir "OS config directory is unavailable" in
  let? data := dir_or data_override dirs data_local_dir "OS data directory is unavailable" in
  let? state := dir_or state_override dirs
                  (fun d => default (data_local_dir d) (state_dir d))
                  "OS state directory is unavailable" in
  Ok {| p_config := config; p_data := data; p_state := state;
        p_log := default (path_join state "logs") (env "RACKIO_LOG_DIR");
        p_local_socket := default (path_join state "agent.sock") (env "RACKIO_SOCKET") |}.

Definition config_path (paths : AppPaths) : string := path_join (p_config paths) "config.json".

(** ** The configuration *)

Record AgentConfig := {
  cfg_relay_url : option string;
  cfg_relay_ca_certificate : option string;
  cfg_alerts_enabled : bool;
  cfg_alerts : list AlertRuleConfig;
  cfg_bind_port : option Z;
  cfg_advertise_addresses : list SocketAddr;
}.

Definition config_default : AgentConfig :=
  {| cfg_relay_url := None; cfg_relay_ca_certificate := None; cfg_alerts_enabled := true;
     cfg_alerts := []; cfg_bind_port := None; cfg_advertise_addresses := [] |}.

Definition MAX_ADVERTISE_ADDRESSES : nat := 8.

Definition parse_advertise_address (value : string) : result SocketAddr string :=
  let? address :=
    ok_or (parse_socket_addr value)
      ("`" +:+ value +:+ "` is not an IP address with a port; write it as `198.51.100.7:41641`, "
       +:+ "or `[2001:db8::1]:41641` for IPv6") in
  if sock_port address =? 0
  then Err "port 0 is ephemeral and cannot be advertised; use the UDP port forwarded to this machine"
  else Ok address.

Definition add_advertise_address (addresses : list SocketAddr) (address : SocketAddr)
  : result (list SocketAddr) string :=
  if bool_decide (address ∈ addresses) then Err (socket_text address +:+ " is already advertised")
  else if (MAX_ADVERTISE_ADDRESSES <=? length addresses)%nat then
    Err ("at most " +:+ dec (Z.of_nat MAX_ADVERTISE_ADDRESSES) +:+ " advertised addresses are kept; "
         +:+ "remove one with `rackio advertise-address remove <IP:PORT>` first")
  else Ok (addresses ++ [address])%list.

Definition remove_advertise_address (addresses : list SocketAddr) (address : SocketAddr)
  : result (list SocketAddr) string :=
  let kept := List.filter (fun a => negb (bool_decide (a = address))) addresses in
  if (length kept =? length addresses)%nat
  then Err (socket_text address +:+ " is not advertised")
  else Ok kept.

Definition validate_bind_port (bind_port : option Z) : result unit string :=
  match bind_port with
  | Some 0 => Err "listen port 0 is ephemeral; choose a fixed port or clear the setting"
  | _ => Ok tt
  end.

(** The loop over the addresses of [AgentConfig::validate], with the set of those seen. *)
Fixpoint validate_addresses (seen addresses : list SocketAddr) : result unit string :=
  match addresses with
  | [] => Ok tt
  | a :: rest =>
      if sock_port a =? 0 then
        Err (socket_text a +:+ " cannot be advertised; port 0 is ephemeral and nothing listens on it")
      else if bool_decide (a ∈ seen) then Err (socket_text a +:+ " is advertised more than once")
      else validate_addresses (a :: seen) rest
  end.

Section Validate.
Context {Url Cert : Type} (parse_relay_url : string -> option Url).
Context (read_file : string -> option (list Z)) (pem_sections : list Z -> option (list Cert)).
Context (verifier : list Cert -> bool) (ca_text : RelayCaError -> string).

Definition validate_relay_url (relay_url : option string) : result unit string :=
  match relay_url with
  | Some url => if is_none (parse_relay_url url) then Err "relay URL is invalid" else Ok tt
  | None => Ok tt
  end.

Definition validate_relay_ca (relay_url ca_certificate : option string) : result unit string :=
  match ca_certificate with
  | None => Ok tt
  | Some path =>
      if is_none relay_url then
        Err "a relay CA certificate only applies to a relay; set it together with the relay URL"
      else map_err ca_text (validate_relay_ca_certificate read_file pem_sections verifier path)
  end.

Definition config_validate (c : AgentConfig) : result unit string :=
  let? _ := validate_bind_port (cfg_bind_port c) in
  let? _ := validate_relay_url (cfg_relay_url c) in
  let? _ := validate_relay_ca (cfg_relay_url c) (cfg_relay_ca_certificate c) in
  if (MAX_ADVERTISE_ADDRESSES <? length (cfg_advertise_addresses c))%nat then
    Err ("at most " +:+ dec (Z.of_nat MAX_ADVERTISE_ADDRESSES) +:+ " advertised addresses are kept; "
         +:+ "the file lists " +:+ dec (Z.of_nat (length (cfg_advertise_addresses c))))
  else validate_addresses [] (cfg_advertise_addresses c).

(** ** What a usable configuration is *)

Definition anchored (relay ca : option string) : Prop :=
  (forall url, relay = Some url -> parse_relay_url url <> None) /\
  (forall path, ca = Some path -> relay <> None /\
     exists roots, relay_ca_tls_config read_file pem_sections verifier path = Ok roots).

Definition advertisable (l : list SocketAddr) : Prop :=
  (length l <= MAX_ADVERTISE_ADDRESSES)%nat /\ NoDup l /\ Forall (fun a => sock_port a <> 0) l.

Definition usable (c : AgentConfig) : Prop :=
  cfg_bind_port c <> Some 0 /\ anchored (cfg_relay_url c) (cfg_relay_ca_certificate c) /\
  advertisable (cfg_advertise_addresses c).

Lemma validate_bind_port_Ok p : validate_bind_port p = Ok tt <-> p <> Some 0.
Proof. destruct p as [[]|]; simpl; intuition congruence. Qed.

Lemma validate_relay_Ok relay ca :
  validate_relay_url relay = Ok tt /\ validate_relay_ca relay ca = Ok tt <-> anchored relay ca.
Proof.
  unfold validate_relay_url, validate_relay_ca, validate_relay_ca_certificate, anchored, is_none.
  split.
  - intros [H1 H2]. split.
    + intros url ->. by destruct (parse_relay_url url).
    + intros path ->. destruct relay; [|done]. split; [done|].
      destruct (relay_ca_tls_config _ _ _ path) as [roots|e]; [by exists roots|done].
  - intros [H1 H2]. split.
    + destruct relay as [url|]; [|done]. specialize (H1 url eq_refl). by destruct (parse_relay_url url).
    + destruct ca as [path|]; [|done]. destruct (H2 path eq_refl) as [Hr [roots ->]]. by destruct relay.
Qed.

Lemma validate_addresses_Ok seen l :
  validate_addresses seen l = Ok tt <->
  Forall (fun a => sock_port a <> 0) l /\ NoDup l /\ forall a, a ∈ l -> a ∉ seen.
Proof.
  revert seen. induction l as [|a l IH]; intros seen; simpl.
  { split; [|done]. intros _. split; [constructor|]. split; [constructor|]. set_solver. }
  destruct (Z.eqb_spec (sock_port a) 0) as [E|E].
  { split; [done|]. intros [H _]. by inversion H. }
  destruct (bool_decide_reflect (a ∈ seen)) as [Hin|Hin].
  { split; [done|]. intros (_ & _ & H). exfalso. apply (H a); [by left|done]. }
  rewrite IH. split.
  - intros (H1 & H2 & H3). split; [by constructor|]. split.
    + apply list.NoDup_cons. split; [|done]. intros H. apply (H3 a H). by left.
    + intros b [->|Hb]%elem_of_cons; [done|]. intros Hs. apply (H3 b Hb). by right.
  - intros (H1 & H2 & H3). inversion H1; subst. apply list.NoDup_cons in H2 as [H2 H2'].
    split; [done|]. split; [done|]. intros b Hb [->|Hs]%elem_of_cons; [done|].
    apply (H3 b); [by right|done].
Qed.

Lemma validate_usable (c : AgentConfig) : config_validate c = Ok tt <-> usable c.
Proof.
  unfold config_validate, usable, advertisable.
  pose proof (validate_bind_port_Ok (cfg_bind_port c)) as Hb.
  pose proof (validate_relay_Ok (cfg_relay_url c) (cfg_relay_ca_certificate c)) as Hr.
  pose proof (validate_addresses_Ok [] (cfg_advertise_addresses c)) as Ha.
  destruct (validate_bind_port (cfg_bind_port c)) as [[]|]; simpl; [|intuition congruence].
  destruct (validate_relay_url (cfg_relay_url c)) as [[]|]; simpl; [|intuition congruence].
  destruct (validate_relay_ca _ _) as [[]|]; simpl; [|intuition congruence].
  destruct (Nat.ltb_spec MAX_ADVERTISE_ADDRESSES (length (cfg_advertise_addresses c))) as [Hl|Hl].
  - split; [done|]. intros (_ & _ & Hn & _). lia.
  - rewrite Ha. split.
    + intros (H1 & H2 & _). split; [by apply Hb|]. split; [by apply Hr|]. done.
    + intros (_ & _ & _ & H1 & H2). split; [done|]. split; [done|]. intros a _ H. inversion H.
Qed.

(** C26: Validation accepts exactly the usable configurations: a listen port that is not the
    ephemeral zero, a relay address that parses, a pinned authority only with a relay and only
    one the endpoint can anchor, and at most eight distinct advertised addresses with a port. *)
Theorem validate_accepts_usable (c : AgentConfig) : config_validate c = Ok tt <-> usable c.
Proof. apply validate_usable. Qed.

(** ** Binding the endpoint with it *)

(** The [EndpointConfig] [run_daemon] builds from the configuration. *)
Definition endpoint_config (c : AgentConfig) : EndpointConfig :=
  {| relay_urls := match cfg_relay_url c with Some url => [url] | None => [] end;
     bind_port := cfg_bind_port c; advertise_addresses := cfg_advertise_addresses c;
     relay_ca_certificate := cfg_relay_ca_certificate c |}.

Lemma usable_relay_plan c :
  usable c -> exists plan, relay_plan parse_relay_url read_file pem_sections verifier (endpoint_config c) = Ok plan.
Proof.
  intros (_ & [Hu Hc] & _). unfold relay_plan, endpoint_config. simpl.
  destruct (cfg_relay_url c) as [url|]; [|by eexists]. simpl. specialize (Hu url eq_refl).
  destruct (parse_relay_url url) as [u|]; [|done]. simpl.
  destruct (cfg_relay_ca_certificate c) as [path|]; [|by eexists].
  destruct (Hc path eq_refl) as [_ [roots ->]]. by eexists.
Qed.

(** A validated configuration is never refused by [bind_endpoint] for its contents: what is
    left is the operating system, provided the builder takes every fixed port to listen on. *)
Theorem validated_config_binds accepts bind c e :
  config_validate c = Ok tt ->
  (forall p, p <> 0 -> accepts (SockV4 0 p) = true /\ accepts (SockV6 0 p 0 0) = true) ->
  bind_endpoint parse_relay_url read_file pem_sections verifier accepts bind (endpoint_config c) = Err e ->
  e = Endpoint \/ exists p, cfg_bind_port c = Some p /\ e = BindPortUnavailable p.
Proof.
  intros Hv Hacc. apply validate_usable in Hv. destruct (usable_relay_plan c Hv) as [plan Hp].
  unfold bind_endpoint. rewrite Hp. simpl. destruct Hv as (Hb & _).
  destruct (cfg_bind_port c) as [p|]; [|case_match; [done|intros [= <-]; by left]].
  destruct (Z.eqb_spec p 0) as [->|Hne]; [done|]. destruct (Hacc p Hne) as [-> ->]. simpl.
  case_match; [done|]. intros [= <-]. right. by exists p.
Qed.

End Validate.

(** ** Alert rules of the configuration *)

Definition resolved_alert_rules (c : AgentConfig) : result (list ResolvedAlertRule) string :=
  resolve_alert_rules (cfg_alerts c).

Definition alert_rules (c : AgentConfig) : result (list AlertRule) string :=
  if negb (cfg_alerts_enabled c) then Ok []
  else
    let? rules := resolved_alert_rules c in
    Ok (map r_rule (List.filter r_enabled rules)).

(** ** The file *)

(** The configurations the JSON text carries exactly: the text of an address has no flow
    label, and not every threshold has a decimal text that reads back. *)
Definition entry_carried (float_ok : f64 -> Prop) (a : AlertRuleConfig) : Prop :=
  forall t, c_threshold a = Some t -> float_ok t.

Definition config_carried (float_ok : f64 -> Prop) (c : AgentConfig) : Prop :=
  Forall addr_ok (cfg_advertise_addresses c) /\ Forall (entry_carried float_ok) (cfg_alerts c).

(** The configuration on disk and the number of file operations so far. *)
Record ConfigDisk := { cfg_file : ReadOutcome; cfg_ops : nat }.

Section Disk.
(** [float_ok] are the numbers whose decimal text reads back as they are. *)
Context {float_ok : f64 -> Prop} {CJ : JsonCodec AgentConfig (config_carried float_ok)}.
Context (fault : nat -> bool).

Definition load_config (d : ConfigDisk) : result AgentConfig PersistError :=
  read_file_or config_default (cfg_file d).

Definition save_config (c : AgentConfig) (d : ConfigDisk) : ConfigDisk * result unit PersistError :=
  let '(f, n, r) := replace_file fault c (cfg_file d) (cfg_ops d) in
  ({| cfg_file := f; cfg_ops := n |}, r).

(** One [create_dir_all] for each of the four directories. *)
Definition create_directories (d : ConfigDisk) : ConfigDisk * result unit PersistError :=
  let '(n, done) := io_steps fault 4 (cfg_ops d) in
  ({| cfg_file := cfg_file d; cfg_ops := n |}, if done then Ok tt else Err PersistIo).

Lemma save_config_cases c d :
  match save_config c d with
  | (d', Ok _) => config_carried float_ok c -> load_config d' = Ok c
  | (d', Err _) => cfg_file d' = cfg_file d
  end.
Proof.
  unfold save_config, load_config.
  pose proof (replace_file_cases fault c (cfg_file d) (cfg_ops d) config_default) as P.
  by destruct (replace_file fault c (cfg_file d) (cfg_ops d)) as [[f n] [[]|e]].
Qed.

Lemma save_config_succeeds c d :
  (forall n, fault n = false) -> config_carried float_ok c -> snd (save_config c d) = Ok tt.
Proof.
  intros Hf Hc. unfold save_config. pose proof (replace_file_succeeds fault c (cfg_file d) (cfg_ops d) Hf Hc) as P.
  destruct (replace_file fault c (cfg_file d) (cfg_ops d)) as [[f n] r]. exact P.
Qed.

Lemma same_file_loads d d' : cfg_file d' = cfg_file d -> load_config d' = load_config d.
Proof. unfold load_config. by intros ->. Qed.

End Disk.

(** ** Advertised addresses *)

Lemma parse_advertise_Ok text a :
  parse_advertise_address text = Ok a <->
  parse_socket_addr text = Some a /\ sock_port a <> 0.
Proof.
  unfold parse_advertise_address. destruct (parse_socket_addr text) as [b|]; simpl.
  - destruct (Z.eqb_spec (sock_port b) 0); split; try done.
    + intros [[= <-] ?]. done.
    + by intros [= <-].
    + by intros [[= <-] _].
  - split; [done|]. by intros [? _].
Qed.

Lemma add_advertise_Ok l a l' :
  add_advertise_address l a = Ok l' ->
  (a ∉ l) /\ (length l < MAX_ADVERTISE_ADDRESSES)%nat /\ l' = (l ++ [a])%list.
Proof.
  unfold add_advertise_address. destruct (bool_decide_reflect (a ∈ l)) as [|Hn]; [done|].
  destruct (Nat.leb_spec MAX_ADVERTISE_ADDRESSES (length l)); [done|]. by intros [= <-].
Qed.

Lemma add_advertisable l a l' :
  advertisable l -> sock_port a <> 0 -> add_advertise_address l a = Ok l' -> advertisable l'.
Proof.
  intros (H1 & H2 & H3) Hp (Hn & Hl & ->)%add_advertise_Ok. split; [rewrite length_app; simpl; lia|].
  split.
  - apply list.NoDup_app. split; [done|]. split; [|apply list.NoDup_singleton].
    by intros x Hx ->%list_elem_of_singleton.
  - apply Forall_app. split; [done|]. by constructor.
Qed.

Lemma filter_length_eq {A} (f : A -> bool) l :
  length (List.filter f l) = length l -> List.filter f l = l.
Proof.
  induction l as [|x l IH]; simpl; [done|]. destruct (f x); simpl.
  - intros [= E]. by rewrite IH.
  - intros E. pose proof (filter_length_le f l). lia.
Qed.

Lemma remove_advertise_Ok l a l' :
  remove_advertise_address l a = Ok l' ->
  l' = List.filter (fun b => negb (bool_decide (b = a))) l /\ a ∈ l.
Proof.
  unfold remove_advertise_address.
  destruct (Nat.eqb_spec (length (List.filter (fun b => negb (bool_decide (b = a))) l)) (length l)) as [|Hn]; [done|].
  intros [= <-]. split; [done|]. destruct (decide (a ∈ l)) as [|Hni]; [done|]. exfalso. apply Hn.
  f_equal. induction l as [|b l IH]; simpl; [done|]. apply not_elem_of_cons in Hni as [Hb Hni].
  rewrite bool_decide_eq_false_2 by congruence. simpl. f_equal. apply IH; [|done].
  simpl in Hn. rewrite bool_decide_eq_false_2 in Hn by congruence. simpl in Hn. lia.
Qed.

Lemma remove_advertisable l a l' :
  advertisable l -> remove_advertise_address l a = Ok l' -> advertisable l'.
Proof.
  intros (H1 & H2 & H3) [-> _]%remove_advertise_Ok.
  split; [etransitivity; [apply filter_length_le|done]|]. split.
  - apply NoDup_ListNoDup, List.NoDup_filter. by apply NoDup_ListNoDup.
  - rewrite List.Forall_forall in *. intros x [Hx _]%filter_In. auto.
Qed.

Lemma remove_added l a l' :
  add_advertise_address l a = Ok l' -> remove_advertise_address l' a = Ok l.
Proof.
  intros (Hn & _ & ->)%add_advertise_Ok. unfold remove_advertise_address.
  assert (E : List.filter (fun b => negb (bool_decide (b = a))) (l ++ [a]) = l).
  { rewrite filter_app. simpl. rewrite bool_decide_eq_true_2 by done. simpl. rewrite app_nil_r.
    apply filter_length_eq. clear -Hn. induction l as [|b l IH]; simpl; [done|].
    apply not_elem_of_cons in Hn as [Hb Hn]. rewrite bool_decide_eq_false_2 by congruence.
    simpl. by rewrite IH. }
  rewrite E, length_app. simpl. by rewrite (proj2 (Nat.eqb_neq _ _)) by lia.
Qed.

(** An address the operator may advertise is shown in a form that names the same address, so
    what [advertise-address list] prints can be removed, and removing what was added restores
    the list. *)
Theorem advertised_text_names_address (text : string) (a : SocketAddr) (l l' : list SocketAddr) :
  parse_advertise_address text = Ok a ->
  add_advertise_address l a = Ok l' ->
  parse_advertise_address (socket_text a) = Ok a /\ In a l' /\ remove_advertise_address l' a = Ok l.
Proof.
  intros [Hp Hport]%parse_advertise_Ok Hadd. split.
  - apply parse_advertise_Ok. split; [|done]. apply socket_text_reads_back. by eapply parse_addr_ok.
  - split; [|by apply remove_added]. apply add_advertise_Ok in Hadd as (_ & _ & ->).
    apply in_app_iff. right. by left.
Qed.

Lemma advertised_text_names_address_witness :
  parse_advertise_address (socket_text (SockV6 (2 ^ 96 * 536939960 + 1) 41641 0 3)) =
    Ok (SockV6 (2 ^ 96 * 536939960 + 1) 41641 0 3) /\
  remove_advertise_address [SockV4 16909060 80; SockV6 (2 ^ 96 * 536939960 + 1) 41641 0 3]
    (SockV6 (2 ^ 96 * 536939960 + 1) 41641 0 3) = Ok [SockV4 16909060 80].
Proof.
  destruct (advertised_text_names_address "[2001:0db8:0::1%3]:41641"
    (SockV6 (2 ^ 96 * 536939960 + 1) 41641 0 3) [SockV4 16909060 80]
    [SockV4 16909060 80; SockV6 (2 ^ 96 * 536939960 + 1) 41641 0 3]) as (H1 & _ & H3).
  - vm_compute. reflexivity.
  - vm_compute. reflexivity.
  - split; [exact H1|exact H3].
Defined.

(** ** The node id file *)

Inductive TextFile := TextOk (text : string) | TextAbsent | TextUnreadable.

(** [fs::write] creates or truncates the file and then writes: it may not open it, or stop
    after some bytes. *)
Inductive WriteOutcome := Written | NotOpened | CutAfter (n : nat).

Definition fs_write (w : WriteOutcome) (text : string) (f : TextFile) : TextFile * bool :=
  match w with
  | Written => (TextOk text, true)
  | NotOpened => (f, false)
  | CutAfter n => (TextOk (String.substring 0 n text), false)
  end.

Inductive NodeIdError := NodeIdIo | NodeIdInvalid.

Section NodeId.
Context (parse_uuid : string -> option Uuid) (uuid_text : Uuid -> string).

Definition load_or_create_node_id (fresh : Uuid) (w : WriteOutcome) (f : TextFile)
  : TextFile * result Uuid NodeIdError :=
  match f with
  | TextOk value => (f, ok_or (parse_uuid (trim value)) NodeIdInvalid)
  | TextAbsent =>
      let '(f, written) := fs_write w (uuid_text fresh) f in
      (f, if written then Ok fresh else Err NodeIdIo)
  | TextUnreadable => (f, Err NodeIdIo)
  end.

(** Once a start got an id, every later one gets the same and leaves the file alone, since the
    text of an id (hexadecimal digits and hyphens) reads back. *)
Theorem node_id_is_stable fresh w f f' u fresh' w' :
  parse_uuid (trim (uuid_text fresh)) = Some fresh ->
  load_or_create_node_id fresh w f = (f', Ok u) ->
  load_or_create_node_id fresh' w' f' = (f', Ok u).
Proof.
  intros Hu. unfold load_or_create_node_id. destruct f as [value| |]; [|destruct w|]; simpl; try done.
  - intros [= <- E]. by rewrite E.
  - intros [= <- <-]. by rewrite Hu.
Qed.

(** A start that is cut off while it writes the file leaves one that no later start accepts. *)
Lemma cut_node_id_is_refused fresh fresh' w' :
  parse_uuid (trim "") = None ->
  let '(f, r) := load_or_create_node_id fresh (CutAfter 0) TextAbsent in
  r = Err NodeIdIo /\ load_or_create_node_id fresh' w' f = (f, Err NodeIdInvalid).
Proof.
  intros Hp. simpl. split; [done|]. replace (String.substring 0 0 (uuid_text fresh)) with "".
  - by rewrite Hp.
  - by destruct (uuid_text fresh).
Qed.

End NodeId.

(** A numbering of configurations, which gives a codec for them. *)

#[export] Instance Comparison_eq_dec : EqDecision Comparison.
Proof. solve_decision. Defined.
#[export] Instance Comparison_countable : Countable Comparison.
Proof.
  refine (inj_countable' (fun c => match c with GreaterThanOrEqual => true | LessThanOrEqual => false end)
    (fun b : bool => if b then GreaterThanOrEqual else LessThanOrEqual) _). by intros [].
Defined.

#[export] Instance AlertRuleConfig_eq_dec : EqDecision AlertRuleConfig.
Proof. solve_decision. Defined.
#[export] Instance AlertRuleConfig_countable : Countable AlertRuleConfig.
Proof.
  refine (inj_countable' (fun c => (c_id c, c_metric c, c_comparison c, c_threshold c,
                                    c_consecutive_samples c, c_severity c, c_enabled c))
    (fun '(a, b, c, d, e, f, g) => Build_AlertRuleConfig a b c d e f g) _). by intros [].
Defined.

#[export] Instance AgentConfig_eq_dec : EqDecision AgentConfig.
Proof. solve_decision. Defined.
#[export] Instance AgentConfig_countable : Countable AgentConfig.
Proof.
  refine (inj_countable' (fun c => (cfg_relay_url c, cfg_relay_ca_certificate c, cfg_alerts_enabled c,
                                    cfg_alerts c, cfg_bind_port c, cfg_advertise_addresses c))
    (fun '(a, b, c, d, e, f) => Build_AgentConfig a b c d e f) _). by intros [].
Defined.

#[export] Instance config_json : JsonCodec AgentConfig (config_carried anything) :=
  countable_json AgentConfig _.

Definition demo_config : AgentConfig :=
  {| cfg_relay_url := Some "https://relay.example"; cfg_relay_ca_certificate := Some "/etc/ca.pem";
     cfg_alerts_enabled := true; cfg_alerts := []; cfg_bind_port := Some 41641;
     cfg_advertise_addresses := [SockV4 3325256711 41641] |}.

Lemma validated_config_binds_witness :
  bind_endpoint Some (fun _ => Some [1]) Some (fun _ => true) (fun _ => true) (fun _ => false)
    (endpoint_config demo_config) = Err (BindPortUnavailable 41641) /\
  (BindPortUnavailable 41641 = Endpoint \/
   exists p, cfg_bind_port demo_config = Some p /\ BindPortUnavailable 41641 = BindPortUnavailable p).
Proof.
  split; [vm_compute; reflexivity|].
  apply (validated_config_binds Some (fun _ => Some [1]) Some (fun _ => true) (fun _ => "")
           (fun _ => true) (fun _ => false) demo_config (BindPortUnavailable 41641)).
  - vm_compute. reflexivity.
  - intros p _. split; reflexivity.
  - vm_compute. reflexivity.
Defined.

Lemma node_id_is_stable_witness :
  load_or_create_node_id parse_unary unary_text 9 NotOpened (TextOk (unary_text 5)) =
  (TextOk (unary_text 5), Ok 5).
Proof.
  apply (node_id_is_stable parse_unary unary_text) with (fresh := 5) (w := Written) (f := TextAbsent);
    vm_compute; reflexivity.
Defined.
