(* ===== verification/Json.v ===== *)
(** JSON values and what serde derives: [serde_json::Value] and the [Serialize] of the types the
    daemon sends over its local socket.

    The daemon answers a local request with a JSON value made from its own types, and the
    desktop application reads that value field by field. Both sides are translated against
    this file, so that what the desktop shows can be related to what the daemon measured. *)

From Stdlib Require Import Ascii String.
From S2P Require Import Prelude BTree Float Model Alert Framing Transport Net Persist Codecs.
From S2P Require Import Pairing Storage Remote.
Local Open Scope string_scope.
Local Open Scope Z_scope.

(** An object is a [BTreeMap]: its entries in key order. *)
#[warnings="-register-all"]
Inductive Value :=
  | VNull
  | VBool (b : bool)
  | VInt (z : Z)
  | VFloat (x : f64)
  | VString (s : string)
  | VArray (l : list Value)
  | VObject (fields : list (string * Value)).

(** [json!({ ... })]. *)
Definition obj (fields : list (string * Value)) : Value :=
  VObject (fold_left (fun m f => bt_insert (fst f) (snd f) m) fields []).

(** ** Reading: the methods of [Value] *)

Definition vget (key : string) (v : Value) : option Value :=
  match v with VObject m => bt_get key m | _ => None end.

Definition as_array (v : Value) : option (list Value) :=
  match v with VArray l => Some l | _ => None end.

Definition as_str (v : Value) : option string :=
  match v with VString s => Some s | _ => None end.

Definition as_bool (v : Value) : option bool :=
  match v with VBool b => Some b | _ => None end.

Definition as_u64 (v : Value) : option Z :=
  match v with VInt z => try_from_u u64_max z | _ => None end.

Definition as_i64 (v : Value) : option Z :=
  match v with VInt z => try_from_i64 z | _ => None end.

Definition as_f64 (v : Value) : option f64 :=
  match v with VInt z => Some (f64_of_Z z) | VFloat x => Some x | _ => None end.

Definition is_null (v : Value) : bool := match v with VNull => true | _ => false end.

(** The value a list of fields gives a key: the last one. *)
Fixpoint field (key : string) (fields : list (string * Value)) : option Value :=
  match fields with
  | [] => None
  | (k, v) :: rest =>
      match field key rest with
      | Some v' => Some v'
      | None => if String.eqb k key then Some v else None
      end
  end.

Lemma vget_obj key fields : vget key (obj fields) = field key fields.
Proof.
  assert (H : forall m, bt_get key (fold_left (fun m f => bt_insert (fst f) (snd f) m) fields m) =
                        match field key fields with Some v => Some v | None => bt_get key m end).
  { induction fields as [|[k v] fields IH]; intros m; [done|]. cbn [fold_left field fst snd].
    rewrite IH. destruct (field key fields); [done|]. destruct (String.eqb_spec k key) as [->|Hn].
    - apply bt_get_insert_eq.
    - by apply bt_get_insert_ne. }
  unfold vget, obj. rewrite H. by destruct (field key fields).
Qed.

(** Read the fields of a value serde wrote. *)
Ltac read_fields :=
  rewrite ?vget_obj; cbn [field String.eqb Ascii.eqb Bool.eqb].

Lemma as_u64_int z : in_u u64_max z -> as_u64 (VInt z) = Some z.
Proof.
  intros [H1 H2]. unfold as_u64, try_from_u.
  by rewrite (proj2 (Z.leb_le _ _) H1), (proj2 (Z.leb_le _ _) H2).
Qed.

Lemma as_i64_int z : in_i64 z -> as_i64 (VInt z) = Some z.
Proof.
  intros [H1 H2]. unfold as_i64, try_from_i64.
  by rewrite (proj2 (Z.leb_le _ _) H1), (proj2 (Z.leb_le _ _) H2).
Qed.

(** ** Writing: [Serialize] *)

Class Serialize (A : Type) := to_value : A -> Value.

#[export] Instance ser_value : Serialize Value := fun v => v.
#[export] Instance ser_string : Serialize string := VString.
#[export] Instance ser_bool : Serialize bool := VBool.
#[export] Instance ser_int : Serialize Z := VInt.
#[export] Instance ser_option {A} `{!Serialize A} : Serialize (option A) :=
  fun o => match o with Some a => to_value a | None => VNull end.
#[export] Instance ser_list {A} `{!Serialize A} : Serialize (list A) := fun l => VArray (map to_value l).

(** A float that JSON cannot carry becomes null. *)
Definition float_value (x : f64) : Value := if is_finite x then VFloat x else VNull.
Definition f32_value (x : f32) : Value := float_value (f64_of_f32 x).

#[export] Instance ser_node_state : Serialize NodeState := fun s =>
  VString match s with
          | Healthy => "healthy" | Warning => "warning" | Critical => "critical" | Stale => "stale"
          | Offline => "offline" | AuthError => "auth_error" | Incompatible => "incompatible"
          | Degraded => "degraded"
          end.

#[export] Instance ser_connection_path : Serialize ConnectionPath := fun p =>
  VString match p with
          | LanDirect => "lan_direct" | WanDirect => "wan_direct" | Relayed => "relayed"
          | UnknownPath => "unknown"
          end.

#[export] Instance ser_capability_state : Serialize CapabilityState := fun c =>
  VString match c with
          | Supported => "supported" | Unsupported => "unsupported"
          | PermissionDenied => "permission_denied"
          end.

#[export] Instance ser_comparison : Serialize Comparison := fun c =>
  VString match c with
          | GreaterThanOrEqual => "greater_than_or_equal"
          | LessThanOrEqual => "less_than_or_equal"
          end.

#[export] Instance ser_rule_source : Serialize AlertRuleSource := fun s =>
  VString match s with BuiltIn => "built_in" | Configured => "configured" end.

#[export] Instance ser_capability : Serialize MetricCapability := fun c =>
  obj [("name", to_value (cap_name c)); ("state", to_value (cap_state c));
       ("detail", to_value (cap_detail c))].

#[export] Instance ser_version : Serialize ProtocolVersion := fun v =>
  obj [("major", to_value (major v)); ("minor", to_value (minor v))].

#[export] Instance ser_disk : Serialize DiskMetric := fun d =>
  obj [("mount", to_value (mount d)); ("total_bytes", to_value (total_bytes d));
       ("used_bytes", to_value (used_bytes d))].

#[export] Instance ser_temperature : Serialize TemperatureMetric := fun t =>
  obj [("label", to_value (label t)); ("celsius", f32_value (celsius t));
       ("critical_celsius", to_value (f32_value <$> critical_celsius t));
       ("sensor_count", to_value (sensor_count t))].

#[export] Instance ser_network : Serialize NetworkMetric := fun n =>
  obj [("received_bytes_per_second", to_value (received_bytes_per_second n));
       ("sent_bytes_per_second", to_value (sent_bytes_per_second n))].

#[export] Instance ser_collector_error : Serialize CollectorError := fun e =>
  obj [("source", to_value (err_source e)); ("kind", to_value (err_kind e));
       ("message", to_value (err_message e))].

#[export] Instance ser_sample : Serialize MetricSample := fun s =>
  obj [("timestamp_ms", to_value (timestamp_ms s)); ("sequence", to_value (sequence s));
       ("cpu_percent", to_value (f32_value <$> cpu_percent s));
       ("memory_used_bytes", to_value (memory_used_bytes s));
       ("memory_total_bytes", to_value (memory_total_bytes s));
       ("swap_used_bytes", to_value (swap_used_bytes s));
       ("swap_total_bytes", to_value (swap_total_bytes s));
       ("disks", to_value (disks s)); ("network", to_value (network s));
       ("temperature", to_value (temperature s)); ("uptime_seconds", to_value (uptime_seconds s));
       ("errors", to_value (errors s))].

#[export] Instance ser_trend : Serialize TrendSample := fun s =>
  obj [("timestamp_ms", to_value (t_timestamp_ms s));
       ("cpu_percent", to_value (f32_value <$> t_cpu_percent s));
       ("memory_used_bytes", to_value (t_memory_used_bytes s));
       ("memory_total_bytes", to_value (t_memory_total_bytes s));
       ("swap_used_bytes", to_value (t_swap_used_bytes s));
       ("swap_total_bytes", to_value (t_swap_total_bytes s));
       ("disk_used_bytes", to_value (t_disk_used_bytes s));
       ("disk_total_bytes", to_value (t_disk_total_bytes s));
       ("temperature_celsius", to_value (f32_value <$> t_temperature_celsius s));
       ("network_received_bytes_per_second", to_value (t_network_received_bytes_per_second s));
       ("network_sent_bytes_per_second", to_value (t_network_sent_bytes_per_second s));
       ("rtt_ms", to_value (t_rtt_ms s))].

#[export] Instance ser_health : Serialize HealthSnapshot := fun h =>
  obj [("state", to_value (state h)); ("collector_degraded", to_value (collector_degraded h));
       ("storage_degraded", to_value (storage_degraded h));
       ("remote_listener_degraded", to_value (remote_listener_degraded h));
       ("details", to_value (details h))].

#[export] Instance ser_permissions : Serialize PeerPermissions := fun p =>
  obj [("read_metrics", to_value (read_metrics p)); ("read_history", to_value (read_history p))].

#[export] Instance ser_peer : Serialize PeerRecord := fun r =>
  obj [("endpoint_id", to_value (endpoint_id r)); ("paired_at_ms", to_value (paired_at_ms r));
       ("permissions", to_value (permissions_of r))].

(** An address is its text. *)
#[export] Instance ser_address : Serialize SocketAddr := fun a => VString (socket_text a).

Section Identified.
Context (uuid_text : Uuid -> string).

Definition node_value (n : NodeInfo) : Value :=
  obj [("node_id", to_value (uuid_text (node_id n))); ("display_name", to_value (display_name n));
       ("os", to_value (os n)); ("architecture", to_value (architecture n));
       ("agent_version", to_value (agent_version n)); ("protocol", to_value (protocol n));
       ("capabilities", to_value (capabilities n))].

Definition snapshot_value (s : RemoteMachineSnapshot) : Value :=
  obj [("node", node_value (s_node s)); ("endpoint_id", to_value (s_endpoint_id s));
       ("latest", to_value (s_latest s)); ("state", to_value (s_state s));
       ("path", to_value (s_path s)); ("rtt_ms", to_value (s_rtt_ms s));
       ("last_seen_ms", to_value (s_last_seen_ms s)); ("trend", to_value (s_trend s));
       ("details", to_value (s_details s))].

End Identified.

Example read_field : vget "kind" (to_value {| err_source := "x"; err_kind := Supported; err_message := "" |})
  = Some (VString "supported").
Proof. reflexivity. Qed.
