(* ===== verification/LocalIpc.v ===== *)
(** The local socket: [apps/agent/src/runtime/local_ipc.rs].

    One request line, one response line. [read_local_request] turns what a caller sends into a
    command or a refusal, [handle_local] runs a command on everything the daemon owns
    ([LocalContext]: the configuration file, the node runtime, the fleet and the live alert
    rules), and [accept_loop] is the listener, which hands every connection to a task of its own.
    What a caller sends arrives at instants, and a wait is a value that says when it is over
    ([Future]). [handle_local] is one task alone; [interleaved_updates] is two of them at once,
    and [System] runs any number. *)

From Stdlib Require Import Ascii String.
From stdpp Require Import countable.
From S2P Require Import Prelude BTree Float Model Alert Storage Framing Transport Net Persist.
From S2P Require Import Codecs Pairing Mdns Server Remote Fleet Config Json.
Local Open Scope string_scope.
Local Open Scope Z_scope.

(** ** Commands *)

Inductive AlertCommand :=
  | AlertList
  | AlertSet (id : string) (metric : option string) (comparison : option Comparison)
      (threshold : option f64) (consecutive_samples : option Z) (severity : option NodeState)
  | RuleEnabled (id : string) (enabled : bool)
  | AlertReset (id : option string)
  | AlertsEnabled (enabled : bool).

Inductive LocalCommand :=
  | Status
  | FleetSnapshot
  | PairingCreate
  | PairingImport (bundle : string)
  | MachineRemove (endpoint_id : string)
  | QueryHistory (endpoint_id : string) (from_ms to_ms : Z) (resolution : HistoryResolution)
  | PeerList
  | PeerRevoke (endpoint_id : string)
  | RelaySet (relay_url ca_certificate : option string)
  | BindPortSet (bind_port : option Z)
  | Alerts (alert : AlertCommand)
  | AdvertiseAddressAdd (address : string)
  | AdvertiseAddressRemove (address : string)
  | AdvertiseAddressList
  | Doctor.

#[export] Instance AlertCommand_eq_dec : EqDecision AlertCommand.
Proof. solve_decision. Defined.

(** ** Responses *)

Record LocalResponse := {
  resp_ok : bool;
  resp_data : option Value;
  resp_error : option string;
  resp_warnings : list string;
}.

(** [impl Display]. *)
Class Display (A : Type) := to_text : A -> string.
#[export] Instance display_string : Display string := fun s => s.

Definition success {A} `{!Serialize A} (data : A) : LocalResponse :=
  {| resp_ok := true; resp_data := Some (to_value data); resp_error := None; resp_warnings := [] |}.

Definition success_with_warning {A W} `{!Serialize A} `{!Display W} (data : A) (warning : W)
  : LocalResponse :=
  {| resp_ok := true; resp_data := Some (to_value data); resp_error := None;
     resp_warnings := [to_text warning] |}.

Definition failure {E} `{!Display E} (error : E) : LocalResponse :=
  {| resp_ok := false; resp_data := None; resp_error := Some (to_text error); resp_warnings := [] |}.

(** A fallible step whose error becomes the response. *)
Definition respond {A E} `{!Serialize A} `{!Display E} (r : result A E) : LocalResponse :=
  match r with Ok a => success a | Err e => failure e end.

(** ** Reading one request *)

Definition LOCAL_REQUEST_TIMEOUT : Z := 5 * 1000.
Definition MAX_LOCAL_REQUEST_BYTES : nat := Z.to_nat (64 * 1024).

Definition in_range (lo hi b : Z) : bool := (lo <=? b) && (b <=? hi).

(** [std::str::from_utf8]: the well-formed byte sequences of Unicode. *)
Fixpoint valid_utf8 (fuel : nat) (l : list Z) : bool :=
  match fuel with
  | O => match l with [] => true | _ => false end
  | S fuel =>
      match l with
      | [] => true
      | a :: l1 =>
          if in_range 0 127 a then valid_utf8 fuel l1
          else match l1 with
          | b :: l2 =>
              if in_range 194 223 a then in_range 128 191 b && valid_utf8 fuel l2
              else match l2 with
              | c :: l3 =>
                  if ((a =? 224) && in_range 160 191 b) ||
                     ((in_range 225 236 a || in_range 238 239 a) && in_range 128 191 b) ||
                     ((a =? 237) && in_range 128 159 b)
                  then in_range 128 191 c && valid_utf8 fuel l3
                  else match l3 with
                  | d :: l4 =>
                      (((a =? 240) && in_range 144 191 b) ||
                       (in_range 241 243 a && in_range 128 191 b) ||
                       ((a =? 244) && in_range 128 143 b)) &&
                      in_range 128 191 c && in_range 128 191 d && valid_utf8 fuel l4
                  | [] => false
                  end
              | [] => false
              end
          | [] => false
          end
      end
  end.

(** What a caller sends: bytes with the instants (ms after the task started) at which they
    arrive, and how the connection then ends, if it does; a caller may also keep it open. *)
Inductive StreamEnd := Closed | Broken.
Record Incoming := { in_bytes : list (Z * Z); in_end : option (Z * StreamEnd) }.

(** A wait: the instant at which it is over and its value, or none if it never is. *)
Definition Future (A : Type) : Type := option (Z * A).

(** [tokio::time::timeout]: a value that is there in time wins over the deadline. *)
Definition timeout {A} (limit : Z) (f : Future A) : Future (option A) :=
  match f with
  | Some (at_ms, a) => if at_ms <=? limit then Some (at_ms, Some a) else Some (limit, None)
  | None => Some (limit, None)
  end.

Inductive LineRead := LineError (message : string) | LineOk (line : list Z).

Definition newline : Z := 10.

Fixpoint through_newline (l : list Z) : option (list Z) :=
  match l with
  | [] => None
  | b :: l => if b =? newline then Some [b] else (cons b) <$> through_newline l
  end.

(** The bytes the reader sees: the prefix is there at once. *)
Definition arriving (prefix : list Z) (input : Incoming) : list (Z * Z) :=
  (map (pair 0) prefix ++ in_bytes input)%list.

(** The instant at which all of these have arrived. *)
Definition ready_at (l : list (Z * Z)) : Z := fold_left Z.max (map fst l) 0.

(** [reader.read_line()] over the prefix and the stream, cut at the request limit; [io_text]
    is the error of a connection that breaks. *)
Definition read_line (io_text : string) (prefix : list Z) (input : Incoming) : Future LineRead :=
  let data := arriving prefix input in
  let window := take MAX_LOCAL_REQUEST_BYTES data in
  let utf8 (line : list Z) :=
    if valid_utf8 (length line) line then LineOk line
    else LineError "stream did not contain valid UTF-8" in
  match through_newline (map snd window) with
  | Some line => Some (ready_at (take (length line) window), utf8 line)
  | None =>
      if (MAX_LOCAL_REQUEST_BYTES <=? length data)%nat
      then Some (ready_at window, utf8 (map snd window))
      else match in_end input with
      | Some (at_ms, Closed) => Some (Z.max at_ms (ready_at window), utf8 (map snd window))
      | Some (at_ms, Broken) => Some (Z.max at_ms (ready_at window), LineError io_text)
      | None => None
      end
  end.

Definition ends_with_newline (line : list Z) : bool :=
  match rev line with b :: _ => b =? newline | [] => false end.

(** [str::trim_end]. *)
Definition trim_end (s : string) : string :=
  str_rev (strip_chars (String.length s) (map (fun c => char_of (rev c)) white_space) (str_rev s)).

Section Requests.
(** [serde_json::from_str::<LocalCommand>]. *)
Context (parse_command : string -> result LocalCommand string).

Definition request_of_line (line : option LineRead) : result LocalCommand LocalResponse :=
  match line with
  | None => Err (failure "local request timed out before a complete command")
  | Some (LineError e) => Err (failure e)
  | Some (LineOk []) => Err (failure "empty local request")
  | Some (LineOk line) =>
      if negb (ends_with_newline line) then
        Err (failure ("local request exceeded " +:+ dec (Z.of_nat MAX_LOCAL_REQUEST_BYTES) +:+
                      " bytes without a newline"))
      else map_err failure (parse_command (trim_end (byte_text line)))
  end.

Definition read_local_request (line : Future LineRead) : Future (result LocalCommand LocalResponse) :=
  match timeout LOCAL_REQUEST_TIMEOUT line with
  | Some (at_ms, line) => Some (at_ms, request_of_line line)
  | None => None
  end.

End Requests.

(** ** Lemmas: the first line *)

Lemma through_newline_Some l line :
  through_newline l = Some line ->
  exists body rest, line = (body ++ [newline])%list /\ l = (line ++ rest)%list /\ ~ In newline body.
Proof.
  revert line. induction l as [|b l IH]; intros line; simpl; [done|].
  destruct (Z.eqb_spec b newline) as [->|Hb].
  - intros [= <-]. exists [], l. split; [done|]. split; [done|]. by intros [].
  - destruct (through_newline l) as [t|]; [|done]. intros [= <-].
    destruct (IH t eq_refl) as (body & rest & -> & -> & Hn). exists (b :: body), rest.
    split; [done|]. split; [done|]. intros [E|E]; congruence.
Qed.

Lemma through_newline_None l : through_newline l = None -> ~ In newline l.
Proof.
  induction l as [|b l IH]; simpl; [auto|]. destruct (Z.eqb_spec b newline) as [->|Hb]; [done|].
  destruct (through_newline l); [done|]. intros _ [E|E]; [congruence|by apply IH].
Qed.

Lemma ends_with_newline_In l : ends_with_newline l = true -> In newline l.
Proof.
  unfold ends_with_newline. destruct (rev l) as [|b r] eqn:E; [done|].
  intros ->%Z.eqb_eq. apply in_rev. rewrite E. by left.
Qed.

Lemma request_is_line parse_command line command :
  request_of_line parse_command (Some (if valid_utf8 (length line) line then LineOk line
    else LineError "stream did not contain valid UTF-8")) = Ok command <->
  valid_utf8 (length line) line = true /\ ends_with_newline line = true /\
  parse_command (trim_end (byte_text line)) = Ok command.
Proof.
  destruct (valid_utf8 _ _); [|by split; [|intros [? _]]]. destruct line as [|b line].
  { split; [done|]. by intros (_ & ? & _). }
  cbn [request_of_line]. destruct (ends_with_newline _); cbn [negb]; [|by split; [|intros (_ & ? & _)]].
  destruct (parse_command _) as [c|e]; cbn [map_err].
  - split; [intros [= ->]; done|]. by intros (_ & _ & [= ->]).
  - split; [done|]. by intros (_ & _ & ?).
Qed.

Lemma through_newline_app body rest :
  ~ In newline body -> through_newline (body ++ newline :: rest)%list = Some (body ++ [newline])%list.
Proof.
  induction body as [|b body IH]; intros Hn; simpl; [done|]. destruct (Z.eqb_spec b newline) as [->|].
  - destruct Hn. by left.
  - rewrite IH; [done|]. intros H. apply Hn. by right.
Qed.

Lemma ends_with_newline_snoc body : ends_with_newline (body ++ [newline])%list = true.
Proof. unfold ends_with_newline. by rewrite rev_unit. Qed.

Lemma fold_max_mono l a b : a <= b -> fold_left Z.max l a <= fold_left Z.max l b.
Proof. revert a b. induction l as [|x l IH]; intros a b H; simpl; [done|]. apply IH. lia. Qed.

Lemma fold_max_ge l a : a <= fold_left Z.max l a.
Proof. revert a. induction l as [|x l IH]; intros a; simpl; [lia|]. specialize (IH (Z.max a x)). lia. Qed.

Lemma ready_at_take n l : ready_at (take n l) <= ready_at l.
Proof.
  unfold ready_at. rewrite <- (take_drop n l) at 2. rewrite map_app, fold_left_app. apply fold_max_ge.
Qed.

Lemma ready_at_nonneg l : 0 <= ready_at l.
Proof. apply fold_max_ge. Qed.

(** The caller asks for a command in time: the first line of what it sends is within the limit,
    has arrived by the deadline, is text and parses. *)
Definition requests (parse_command : string -> result LocalCommand string) (prefix : list Z)
    (input : Incoming) (command : LocalCommand) : Prop :=
  exists line rest body, arriving prefix input = (line ++ rest)%list /\
    map snd line = (body ++ [newline])%list /\ ~ In newline body /\
    (length line <= MAX_LOCAL_REQUEST_BYTES)%nat /\ ready_at line <= LOCAL_REQUEST_TIMEOUT /\
    valid_utf8 (length line) (map snd line) = true /\
    parse_command (trim_end (byte_text (map snd line))) = Ok command.

Lemma timely_request parse_command io_text prefix input command :
  requests parse_command prefix input command ->
  exists at_ms, read_local_request parse_command (read_line io_text prefix input) = Some (at_ms, Ok command).
Proof.
  intros (line & rest & body & Hd & Hl & Hn & Hlen & Ht & Hu & Hp). unfold read_local_request, read_line.
  revert Hlen. generalize MAX_LOCAL_REQUEST_BYTES. intros limit Hlen. rewrite Hd, take_app_ge, map_app, Hl by lia.
  rewrite <- app_assoc. cbn [app]. rewrite through_newline_app by done. rewrite <- Hl, length_map, take_app_length.
  cbn [timeout]. rewrite (proj2 (Z.leb_le _ _) Ht). exists (ready_at line). do 2 f_equal.
  rewrite <- (length_map snd line). apply request_is_line. rewrite length_map. split; [done|]. split; [|done].
  rewrite Hl. apply ends_with_newline_snoc.
Qed.

Lemma request_was_timely parse_command io_text prefix input at_ms command :
  read_local_request parse_command (read_line io_text prefix input) = Some (at_ms, Ok command) ->
  requests parse_command prefix input command.
Proof.
  unfold read_local_request, read_line, requests. generalize MAX_LOCAL_REQUEST_BYTES. intros limit.
  set (data := arriving prefix input).
  destruct (through_newline (map snd (take limit data))) as [l|] eqn:E; cbn [timeout].
  - destruct (Z.leb_spec (ready_at (take (length l) (take limit data))) LOCAL_REQUEST_TIMEOUT) as [Ht|]; [|done].
    intros [= _ (Hu & _ & Hp)%request_is_line]. apply through_newline_Some in E as (body & rest & Hb & Hd & Hn).
    assert (Hm : map snd (take (length l) (take limit data)) = l).
    { rewrite <- firstn_map, Hd. by rewrite take_app_length. }
    exists (take (length l) (take limit data)), (drop (length l) (take limit data) ++ drop limit data)%list, body.
    split; [by rewrite app_assoc, !take_drop|]. rewrite Hm. split; [done|]. split; [done|].
    split; [rewrite !length_take; lia|]. split; [done|]. split; [|done].
    by rewrite <- (length_map snd), Hm.
  - apply through_newline_None in E.
    assert (Hno : forall c, request_of_line parse_command (Some (if valid_utf8 (length (map snd (take limit data))) (map snd (take limit data))
      then LineOk (map snd (take limit data)) else LineError "stream did not contain valid UTF-8")) <> Ok c).
    { by intros c (_ & H%ends_with_newline_In & _)%request_is_line. }
    destruct (limit <=? length data)%nat; [|destruct (in_end input) as [[? []]|]]; cbn [timeout];
      try (destruct (_ <=? _)); intros [=]; by apply Hno in H1 || done.
Qed.

(** Reading is over by the deadline, whatever the caller does. *)
Lemma reading_ends parse_command io_text prefix input :
  exists at_ms r, read_local_request parse_command (read_line io_text prefix input) = Some (at_ms, r) /\
    0 <= at_ms <= LOCAL_REQUEST_TIMEOUT /\ (forall response, r = Err response -> resp_ok response = false).
Proof.
  assert (Hf : forall l response, request_of_line parse_command l = Err response -> resp_ok response = false).
  { intros [[e|[|b l]]|] response; cbn [request_of_line]; try (by intros [= <-]).
    destruct (negb _); [by intros [= <-]|]. destruct (parse_command _); by intros [= <-]. }
  unfold read_local_request. assert (Ht : 0 <= LOCAL_REQUEST_TIMEOUT) by done.
  destruct (read_line io_text prefix input) as [[at_ms line]|] eqn:E; cbn [timeout]; [|eauto 10 with lia].
  assert (H0 : 0 <= at_ms).
  { revert E. unfold read_line. generalize MAX_LOCAL_REQUEST_BYTES. intros limit.
    destruct (through_newline _); [intros [= <- _]; apply ready_at_nonneg|].
    destruct (_ <=? _)%nat; [intros [= <- _]; apply ready_at_nonneg|].
    pose proof (ready_at_nonneg (take limit (arriving prefix input))).
    destruct (in_end input) as [[? []]|]; [intros [= <- _]; lia..|done]. }
  destruct (Z.leb_spec at_ms LOCAL_REQUEST_TIMEOUT); eexists _, _; (split; [reflexivity|]); (split; [lia|]); eauto.
Qed.

Lemma arriving_bytes prefix input :
  map snd (arriving prefix input) = (prefix ++ map snd (in_bytes input))%list.
Proof. unfold arriving. rewrite map_app, map_map. by rewrite map_id. Qed.


(** ** Payloads *)

Record AlertRuleView := {
  av_id : string;
  av_metric : string;
  av_comparison : Comparison;
  av_threshold : f64;
  av_consecutive_samples : Z;
  av_severity : NodeState;
  av_enabled : bool;
  av_source : AlertRuleSource;
}.

Definition alert_rule_view (r : ResolvedAlertRule) : AlertRuleView :=
  {| av_id := id (r_rule r); av_metric := metric (r_rule r); av_comparison := comparison_ (r_rule r);
     av_threshold := threshold (r_rule r); av_consecutive_samples := consecutive_samples (r_rule r);
     av_severity := severity (r_rule r); av_enabled := r_enabled r; av_source := r_source r |}.

#[export] Instance ser_rule_view : Serialize AlertRuleView := fun v =>
  obj [("id", to_value (av_id v)); ("metric", to_value (av_metric v));
       ("comparison", to_value (av_comparison v)); ("threshold", float_value (av_threshold v));
       ("consecutive_samples", to_value (av_consecutive_samples v));
       ("severity", to_value (av_severity v)); ("enabled", to_value (av_enabled v));
       ("source", to_value (av_source v))].

Record StatusPayload := {
  st_node : NodeInfo;
  st_endpoint_id : string;
  st_direct_addresses : list string;
  st_relay_url : option string;
  st_bind_port : option Z;
  st_latest : option MetricSample;
  st_health : HealthSnapshot;
  st_trend : TrendWindow;
}.

Record FleetPayload := { fl_local : StatusPayload; fl_remotes : list RemoteMachineSnapshot }.

Section Payloads.
Context (uuid_text : Uuid -> string).

#[export] Instance ser_status : Serialize StatusPayload := fun p =>
  obj [("node", node_value uuid_text (st_node p)); ("endpoint_id", to_value (st_endpoint_id p));
       ("direct_addresses", to_value (st_direct_addresses p));
       ("relay_url", to_value (st_relay_url p)); ("bind_port", to_value (st_bind_port p));
       ("latest", to_value (st_latest p)); ("health", to_value (st_health p));
       ("trend", to_value (st_trend p))].

#[export] Instance ser_fleet : Serialize FleetPayload := fun p =>
  obj [("local", to_value (fl_local p));
       ("remotes", VArray (map (snapshot_value uuid_text) (fl_remotes p)))].
End Payloads.

Definition bundle_direct_addresses (observed advertised : list SocketAddr) : list SocketAddr :=
  fold_left push_new (observed ++ advertised)%list [].

(** ** Changes to the alert entries *)

(** Change the operator's entry for [i], created empty on the first change to it. *)
Fixpoint alert_entry (i : string) (f : AlertRuleConfig -> AlertRuleConfig)
    (alerts : list AlertRuleConfig) : list AlertRuleConfig :=
  match alerts with
  | [] => [f (config_new i)]
  | a :: rest => if String.eqb (c_id a) i then f a :: rest else a :: alert_entry i f rest
  end.

Definition or_else {A} (new old : option A) : option A :=
  match new with Some _ => new | None => old end.

Definition set_entry (metric : option string) (comparison : option Comparison)
    (threshold : option f64) (samples : option Z) (severity : option NodeState)
    (a : AlertRuleConfig) : AlertRuleConfig :=
  {| c_id := c_id a; c_metric := or_else metric (c_metric a);
     c_comparison := or_else comparison (c_comparison a);
     c_threshold := or_else threshold (c_threshold a);
     c_consecutive_samples := or_else samples (c_consecutive_samples a);
     c_severity := or_else severity (c_severity a); c_enabled := c_enabled a |}.

Definition enable_entry (enabled : bool) (a : AlertRuleConfig) : AlertRuleConfig :=
  {| c_id := c_id a; c_metric := c_metric a; c_comparison := c_comparison a;
     c_threshold := c_threshold a; c_consecutive_samples := c_consecutive_samples a;
     c_severity := c_severity a; c_enabled := Some enabled |}.

Definition with_alerts (enabled : bool) (alerts : list AlertRuleConfig) (c : AgentConfig) : AgentConfig :=
  {| cfg_relay_url := cfg_relay_url c; cfg_relay_ca_certificate := cfg_relay_ca_certificate c;
     cfg_alerts_enabled := enabled; cfg_alerts := alerts; cfg_bind_port := cfg_bind_port c;
     cfg_advertise_addresses := cfg_advertise_addresses c |}.

(** The closure each command passes to [update_alerts]. *)
Definition alert_change (command : AlertCommand) (c : AgentConfig) : AgentConfig :=
  let edit f := with_alerts (cfg_alerts_enabled c) (f (cfg_alerts c)) c in
  match command with
  | AlertList => c
  | AlertSet i m cmp t n s => edit (alert_entry i (set_entry m cmp t n s))
  | RuleEnabled i enabled => edit (alert_entry i (enable_entry enabled))
  | AlertReset (Some i) => edit (List.filter (fun a => negb (String.eqb (c_id a) i)))
  | AlertReset None => edit (fun _ => [])
  | AlertsEnabled enabled => with_alerts enabled (cfg_alerts c) c
  end.

Definition with_relay (url ca : option string) (c : AgentConfig) : AgentConfig :=
  {| cfg_relay_url := url; cfg_relay_ca_certificate := ca;
     cfg_alerts_enabled := cfg_alerts_enabled c; cfg_alerts := cfg_alerts c;
     cfg_bind_port := cfg_bind_port c; cfg_advertise_addresses := cfg_advertise_addresses c |}.

Definition with_bind_port (p : option Z) (c : AgentConfig) : AgentConfig :=
  {| cfg_relay_url := cfg_relay_url c; cfg_relay_ca_certificate := cfg_relay_ca_certificate c;
     cfg_alerts_enabled := cfg_alerts_enabled c; cfg_alerts := cfg_alerts c;
     cfg_bind_port := p; cfg_advertise_addresses := cfg_advertise_addresses c |}.

Definition with_addresses (l : list SocketAddr) (c : AgentConfig) : AgentConfig :=
  {| cfg_relay_url := cfg_relay_url c; cfg_relay_ca_certificate := cfg_relay_ca_certificate c;
     cfg_alerts_enabled := cfg_alerts_enabled c; cfg_alerts := cfg_alerts c;
     cfg_bind_port := cfg_bind_port c; cfg_advertise_addresses := l |}.

Definition MAX_LOCAL_HISTORY_RANGE_MS : Z := 7 * 24 * 60 * 60 * 1000.

(** ** The handlers *)

Section Handlers.
Context {J : Type} {SC : SampleCodec J} (db_fault : nat -> bool).
Context {ET : EndpointText} {B64 : Base64} {BJ : JsonCodec PairingBundle anything}.
Context {RJ : JsonCodec Records anything} {MJ : JsonCodec Machines machines_finite}.
Context {float_ok : f64 -> Prop} {CJ : JsonCodec AgentConfig (config_carried float_ok)}.
(** Which file operation fails: of the peer registry, the machine registry, the configuration. *)
Context (peers_fault machines_fault config_fault : nat -> bool).
Context (uuid_text : Uuid -> string) (parse_uuid : string -> option Uuid).
Context {Url Cert : Type} (parse_relay_url : string -> option Url).
Context (read_file : string -> option (list Z)) (pem_sections : list Z -> option (list Cert)).
Context (verifier : list Cert -> bool) (ca_text : RelayCaError -> string).
Context (mdns_spawn : PairingMdnsAdvertisement -> result unit string).
Context {DC : Display PersistError} {DF : Display RemoteFleetError} {DP : Display PairingError}.
Context {DM : Display PairingMdnsError} {DS : Display ServerError} {DQ : Display StoreError}.

(** [LocalContext]: the endpoint's identity and addresses, and what the handles share. A
    sampler that has stopped no longer receives rules. *)
Record LocalContext := {
  lc_paths : AppPaths;
  lc_endpoint_id : EndpointId;
  lc_z32 : string;
  lc_disk : ConfigDisk;
  lc_runtime : NodeRuntime (J := J);
  lc_fleet : RemoteFleet;
  lc_rules : list AlertRule;
  lc_sampler_running : bool;
}.

(** What a request meets: addresses, randomness, clocks, and the machines it reaches. *)
Record LocalEnv := {
  le_observed : list SocketAddr;
  le_mdns_addresses : list SocketAddr;
  le_random : list Z;
  le_now_open : Z;
  le_now_snapshots : Z;
  le_import : ImportEnv (Url := Url);
  le_dial : EndpointId * list (RelayOrIp (Url := Url)) -> Timed ClientConnection;
  le_open_stream : Wire.RequestBody -> Timed FrameStream;
  le_started : Z;
}.

Definition with_config (d : ConfigDisk) (c : LocalContext) : LocalContext :=
  {| lc_paths := lc_paths c; lc_endpoint_id := lc_endpoint_id c; lc_z32 := lc_z32 c;
     lc_disk := d; lc_runtime := lc_runtime c; lc_fleet := lc_fleet c; lc_rules := lc_rules c;
     lc_sampler_running := lc_sampler_running c |}.

Definition with_rules (rules : list AlertRule) (c : LocalContext) : LocalContext :=
  {| lc_paths := lc_paths c; lc_endpoint_id := lc_endpoint_id c; lc_z32 := lc_z32 c;
     lc_disk := lc_disk c; lc_runtime := lc_runtime c; lc_fleet := lc_fleet c; lc_rules := rules;
     lc_sampler_running := lc_sampler_running c |}.

Definition with_runtime (r : NodeRuntime) (c : LocalContext) : LocalContext :=
  {| lc_paths := lc_paths c; lc_endpoint_id := lc_endpoint_id c; lc_z32 := lc_z32 c;
     lc_disk := lc_disk c; lc_runtime := r; lc_fleet := lc_fleet c; lc_rules := lc_rules c;
     lc_sampler_running := lc_sampler_running c |}.

Definition with_fleet (f : RemoteFleet) (c : LocalContext) : LocalContext :=
  {| lc_paths := lc_paths c; lc_endpoint_id := lc_endpoint_id c; lc_z32 := lc_z32 c;
     lc_disk := lc_disk c; lc_runtime := lc_runtime c; lc_fleet := f; lc_rules := lc_rules c;
     lc_sampler_running := lc_sampler_running c |}.

(** Save a configuration and answer [data] for it. *)
Definition save_and (c : AgentConfig) (data : Value) (ctx : LocalContext)
  : LocalContext * LocalResponse :=
  match save_config config_fault c (lc_disk ctx) with
  | (d, Ok _) => (with_config d ctx, success data)
  | (d, Err e) => (with_config d ctx, failure e)
  end.

Definition set_relay (relay_url ca_certificate : option string) (ctx : LocalContext)
  : LocalContext * LocalResponse :=
  match validate_relay_url parse_relay_url relay_url with
  | Err e => (ctx, failure e)
  | Ok _ =>
      match validate_relay_ca read_file pem_sections verifier ca_text relay_url ca_certificate with
      | Err e => (ctx, failure e)
      | Ok _ =>
          match load_config (lc_disk ctx) with
          | Err e => (ctx, failure e)
          | Ok config =>
              save_and (with_relay relay_url ca_certificate config)
                (obj [("saved", VBool true); ("restart_required", VBool true);
                      ("relay_url", to_value relay_url);
                      ("relay_ca_certificate", to_value ca_certificate)]) ctx
          end
      end
  end.

Definition set_bind_port (bind_port : option Z) (ctx : LocalContext) : LocalContext * LocalResponse :=
  match validate_bind_port bind_port with
  | Err e => (ctx, failure e)
  | Ok _ =>
      match load_config (lc_disk ctx) with
      | Err e => (ctx, failure e)
      | Ok config =>
          save_and (with_bind_port bind_port config)
            (obj [("saved", VBool true); ("restart_required", VBool true)]) ctx
      end
  end.

Definition update_advertise_addresses (address : string)
    (update : list SocketAddr -> SocketAddr -> result (list SocketAddr) string) (ctx : LocalContext)
  : LocalContext * LocalResponse :=
  match parse_advertise_address address with
  | Err e => (ctx, failure e)
  | Ok address =>
      match load_config (lc_disk ctx) with
      | Err e => (ctx, failure e)
      | Ok config =>
          match update (cfg_advertise_addresses config) address with
          | Err e => (ctx, failure e)
          | Ok l =>
              save_and (with_addresses l config)
                (obj [("saved", VBool true); ("restart_required", VBool true);
                      ("advertise_addresses", to_value l)]) ctx
          end
      end
  end.

Definition alert_listing (c : AgentConfig) : LocalResponse :=
  match resolved_alert_rules c with
  | Ok rules => success (obj [("alerts_enabled", VBool (cfg_alerts_enabled c));
                              ("rules", to_value (map alert_rule_view rules))])
  | Err e => failure e
  end.

Definition update_alerts (change : AgentConfig -> AgentConfig) (ctx : LocalContext)
  : LocalContext * LocalResponse :=
  match load_config (lc_disk ctx) with
  | Err e => (ctx, failure e)
  | Ok config =>
      let config := change config in
      match alert_rules config with
      | Err e => (ctx, failure e)
      | Ok effective =>
          match save_config config_fault config (lc_disk ctx) with
          | (d, Err e) => (with_config d ctx, failure e)
          | (d, Ok _) =>
              let ctx := with_config d ctx in
              if negb (lc_sampler_running ctx) then
                (ctx, failure "thresholds were saved but the sampler is not running; restart the daemon")
              else (with_rules effective ctx, alert_listing config)
          end
      end
  end.

Definition handle_alerts (command : AlertCommand) (ctx : LocalContext) : LocalContext * LocalResponse :=
  match command with
  | AlertList =>
      (ctx, match load_config (lc_disk ctx) with Ok c => alert_listing c | Err e => failure e end)
  | _ => update_alerts (alert_change command) ctx
  end.

Definition local_status (env : LocalEnv) (ctx : LocalContext) : result StatusPayload PersistError :=
  let? config := load_config (lc_disk ctx) in
  let n := lc_runtime ctx in
  Ok {| st_node := info n; st_endpoint_id := id_text (lc_endpoint_id ctx);
        st_direct_addresses := map socket_text (le_observed env);
        st_relay_url := cfg_relay_url config; st_bind_port := cfg_bind_port config;
        st_latest := Server.latest n; st_health := health n; st_trend := trend n |}.

(** The task that expires the advertisement is [Mdns.close_if_generation] after five minutes. *)
Definition create_pairing_bundle (env : LocalEnv) (ctx : LocalContext) : LocalContext * LocalResponse :=
  match load_config (lc_disk ctx) with
  | Err e => (ctx, failure e)
  | Ok config =>
      match config_validate parse_relay_url read_file pem_sections verifier ca_text config with
      | Err e => (ctx, failure (config_path (lc_paths ctx) +:+ " is not a usable configuration: " +:+ e))
      | Ok _ =>
          let n := lc_runtime ctx in
          let addresses := bundle_direct_addresses (le_observed env) (cfg_advertise_addresses config) in
          let relay_urls := match cfg_relay_url config with Some u => [u] | None => [] end in
          if pairing_poisoned n then (ctx, failure "pairing state lock is unavailable")
          else
            let '(manager, bundle) :=
              Pairing.open (le_random env) (le_now_open env) (node_id (info n)) (lc_endpoint_id ctx)
                addresses relay_urls (pairing n) in
            match bundle_encode bundle with
            | Err e => (with_runtime (with_pairing manager (pairing_mdns n) n) ctx, failure e)
            | Ok encoded =>
                match mdns_open mdns_spawn (lc_z32 ctx) (le_mdns_addresses env) (pairing_mdns n) with
                | (m, Ok _) => (with_runtime (with_pairing manager m n) ctx, success encoded)
                | (m, Err e) =>
                    (with_runtime (with_pairing manager m n) ctx, success_with_warning encoded e)
                end
            end
      end
  end.

Definition handle_local_history (from_ms to_ms : Z) (resolution : HistoryResolution)
    (ctx : LocalContext) : LocalContext * LocalResponse :=
  if (to_ms <? from_ms) || (MAX_LOCAL_HISTORY_RANGE_MS <? i64_sat_sub to_ms from_ms)
  then (ctx, failure "history range is invalid or exceeds seven days")
  else
    let '(s, r) := Storage.query db_fault from_ms to_ms resolution (store (lc_runtime ctx)) in
    (with_runtime (with_store s (lc_runtime ctx)) ctx, respond r).

(** [None] is a history query that does not end. *)
Definition handle_remote_history (env : LocalEnv) (endpoint_id : string) (from_ms to_ms : Z)
    (resolution : HistoryResolution) (ctx : LocalContext) : option LocalResponse :=
  respond <$> query_history parse_uuid parse_relay_url (le_dial env) (le_open_stream env)
    (le_started env) (f_registry (lc_fleet ctx)) endpoint_id from_ms to_ms resolution.

Definition handle_local (env : LocalEnv) (command : LocalCommand) (ctx : LocalContext)
  : LocalContext * option LocalResponse :=
  let answer '(c, r) := (c, Some r) in
  match command with
  | Status | Doctor =>
      (ctx, Some match local_status env ctx with
                 | Ok p => success (Serialize0 := ser_status uuid_text) p
                 | Err e => failure e
                 end)
  | FleetSnapshot =>
      (ctx, Some match local_status env ctx with
                 | Ok p => success (Serialize0 := ser_fleet uuid_text)
                             {| fl_local := p;
                                fl_remotes := snapshots_at (le_now_snapshots env) (lc_fleet ctx) |}
                 | Err e => failure e
                 end)
  | PairingCreate => answer (create_pairing_bundle env ctx)
  | PairingImport bundle =>
      let '(f, r) := import_pairing machines_fault uuid_text parse_uuid parse_relay_url
                       (le_import env) bundle (lc_fleet ctx) in
      (with_fleet f ctx, Some match r with
                              | Ok m => success (snapshot_value uuid_text m)
                              | Err e => failure e
                              end)
  | MachineRemove endpoint_id =>
      let '(f, r) := remove_machine machines_fault endpoint_id (lc_fleet ctx) in
      (with_fleet f ctx, Some match r with
                              | Ok removed => success (obj [("removed", VBool removed)])
                              | Err e => failure e
                              end)
  | QueryHistory endpoint_id from_ms to_ms resolution =>
      if String.eqb endpoint_id (id_text (lc_endpoint_id ctx))
      then answer (handle_local_history from_ms to_ms resolution ctx)
      else (ctx, handle_remote_history env endpoint_id from_ms to_ms resolution ctx)
  | PeerList => (ctx, Some (respond (list_records (peers (lc_runtime ctx)))))
  | PeerRevoke endpoint_id =>
      let '(n, r) := revoke_peer peers_fault endpoint_id (lc_runtime ctx) in
      (with_runtime n ctx, Some match r with
                                | Ok removed => success (obj [("revoked", VBool removed)])
                                | Err e => failure e
                                end)
  | Alerts alert => answer (handle_alerts alert ctx)
  | BindPortSet bind_port => answer (set_bind_port bind_port ctx)
  | AdvertiseAddressAdd address =>
      answer (update_advertise_addresses address add_advertise_address ctx)
  | AdvertiseAddressRemove address =>
      answer (update_advertise_addresses address remove_advertise_address ctx)
  | AdvertiseAddressList =>
      (ctx, Some match load_config (lc_disk ctx) with
                 | Ok c => success (obj [("advertise_addresses", to_value (cfg_advertise_addresses c))])
                 | Err e => failure e
                 end)
  | RelaySet relay_url ca => answer (set_relay relay_url ca ctx)
  end.

(** What the caller does with the answer: it takes all of it, or its connection fails or it
    stops reading after some bytes. *)
Inductive Taker := TakesAll | FailsAfter (n : nat) | StallsAfter (n : nat).
Inductive WriteEnd := WriteDone | WriteFailed | WriteStalled.

(** [write_all]: what was written, and how it ended. *)
Definition write_all (taker : Taker) (bytes : list Z) : list Z * WriteEnd :=
  match taker with
  | TakesAll => (bytes, WriteDone)
  | FailsAfter n => (take n bytes, if (length bytes <=? n)%nat then WriteDone else WriteFailed)
  | StallsAfter n => (take n bytes, if (length bytes <=? n)%nat then WriteDone else WriteStalled)
  end.

(** One connection served: the context afterwards, when the reading was over, the response and
    what of it was written. A connection whose writing stalls stays in this state. *)
Record Conversation := {
  cv_context : LocalContext;
  cv_read_at : Z;
  cv_response : LocalResponse;
  cv_written : list Z;
  cv_end : WriteEnd;
}.

(** [encode] is [serde_json::to_vec] of the response; [None]: it never gets to an answer. *)
Definition serve_local_stream_prefixed (parse_command : string -> result LocalCommand string)
    (encode : LocalResponse -> option (list Z)) (io_text : string) (env : LocalEnv)
    (prefix : list Z) (input : Incoming) (taker : Taker) (ctx : LocalContext) : option Conversation :=
  '(at_ms, request) ← read_local_request parse_command (read_line io_text prefix input);
  let '(ctx, response) := match request with
    | Ok command => handle_local env command ctx
    | Err response => (ctx, Some response)
    end in
  response ← response;
  let '(written, ending) := match encode response with
    | Some bytes => write_all taker (bytes ++ [newline])%list
    | None => ([], WriteDone)
    end in
  Some {| cv_context := ctx; cv_read_at := at_ms; cv_response := response; cv_written := written;
          cv_end := ending |}.

(** ** What the commands mean for the settings *)

(** The abstract configuration store: a command is a partial change of one value. *)
Definition edit (command : LocalCommand) (c : AgentConfig) : option AgentConfig :=
  match command with
  | RelaySet url ca =>
      _ ← result_ok (validate_relay_url parse_relay_url url);
      _ ← result_ok (validate_relay_ca read_file pem_sections verifier ca_text url ca);
      Some (with_relay url ca c)
  | BindPortSet p => _ ← result_ok (validate_bind_port p); Some (with_bind_port p c)
  | AdvertiseAddressAdd text =>
      a ← result_ok (parse_advertise_address text);
      l ← result_ok (add_advertise_address (cfg_advertise_addresses c) a);
      Some (with_addresses l c)
  | AdvertiseAddressRemove text =>
      a ← result_ok (parse_advertise_address text);
      l ← result_ok (remove_advertise_address (cfg_advertise_addresses c) a);
      Some (with_addresses l c)
  | Alerts AlertList => None
  | Alerts a => _ ← result_ok (alert_rules (alert_change a c)); Some (alert_change a c)
  | _ => None
  end.

(** The rules in force after a saved change. *)
Definition published (command : LocalCommand) (c : AgentConfig) (ctx : LocalContext) : list AlertRule :=
  match command with
  | Alerts _ => if lc_sampler_running ctx then default [] (result_ok (alert_rules c)) else lc_rules ctx
  | _ => lc_rules ctx
  end.

Definition kept (ctx ctx' : LocalContext) : Prop :=
  cfg_file (lc_disk ctx') = cfg_file (lc_disk ctx) /\ lc_rules ctx' = lc_rules ctx.

Definition saved (command : LocalCommand) (c c' : AgentConfig) (ctx ctx' : LocalContext) : Prop :=
  edit command c = Some c' /\ (config_carried float_ok c' -> load_config (lc_disk ctx') = Ok c') /\
  lc_rules ctx' = published command c' ctx.

(** A command of which the settings are the subject. *)
Definition is_setting (command : LocalCommand) : bool :=
  match command with
  | RelaySet _ _ | BindPortSet _ | AdvertiseAddressAdd _ | AdvertiseAddressRemove _ => true
  | Alerts AlertList => false
  | Alerts _ => true
  | _ => false
  end.

Definition same_sampler (ctx ctx' : LocalContext) : Prop :=
  lc_sampler_running ctx' = lc_sampler_running ctx.

(** Everything but the settings is as before. *)
Definition same_rest (ctx ctx' : LocalContext) : Prop :=
  lc_runtime ctx' = lc_runtime ctx /\ lc_fleet ctx' = lc_fleet ctx /\ same_sampler ctx ctx' /\
  lc_endpoint_id ctx' = lc_endpoint_id ctx.

Lemma save_and_cases command c c' data ctx :
  edit command c = Some c' -> published command c' ctx = lc_rules ctx ->
  let '(ctx', r) := save_and c' data ctx in
  same_rest ctx ctx' /\
  if resp_ok r then saved command c c' ctx ctx' /\ resp_data r = Some data else kept ctx ctx'.
Proof.
  intros He Hp. unfold save_and. pose proof (save_config_cases config_fault c' (lc_disk ctx)) as P.
  destruct (save_config config_fault c' (lc_disk ctx)) as [d [u|e]]; simpl; by repeat split.
Qed.

Lemma set_relay_cases url ca ctx c :
  load_config (lc_disk ctx) = Ok c ->
  let '(ctx', r) := set_relay url ca ctx in
  same_rest ctx ctx' /\
  if resp_ok r then exists c', saved (RelaySet url ca) c c' ctx ctx' else kept ctx ctx'.
Proof.
  intros Hl. unfold set_relay.
  destruct (validate_relay_url parse_relay_url url) as [[]|] eqn:E1; [|done].
  destruct (validate_relay_ca _ _ _ _ _ _) as [[]|] eqn:E2; [|done]. rewrite Hl.
  pose proof (save_and_cases (RelaySet url ca) c (with_relay url ca c)) as P.
  match goal with |- context [save_and _ ?d ctx] => specialize (P d ctx) end.
  destruct (save_and _ _ ctx) as [ctx' r]. destruct P as [P1 P2]; [simpl; by rewrite E1, E2|done|].
  split; [done|]. destruct (resp_ok r); [|done]. exists (with_relay url ca c). apply P2.
Qed.

Lemma set_bind_port_cases p ctx c :
  load_config (lc_disk ctx) = Ok c ->
  let '(ctx', r) := set_bind_port p ctx in
  same_rest ctx ctx' /\
  if resp_ok r then exists c', saved (BindPortSet p) c c' ctx ctx' else kept ctx ctx'.
Proof.
  intros Hl. unfold set_bind_port. destruct (validate_bind_port p) as [[]|] eqn:E1; [|done]. rewrite Hl.
  pose proof (save_and_cases (BindPortSet p) c (with_bind_port p c)) as P.
  match goal with |- context [save_and _ ?d ctx] => specialize (P d ctx) end.
  destruct (save_and _ _ ctx) as [ctx' r]. destruct P as [P1 P2]; [simpl; by rewrite E1|done|].
  split; [done|]. destruct (resp_ok r); [|done]. exists (with_bind_port p c). apply P2.
Qed.

Lemma update_addresses_cases text update command ctx c :
  load_config (lc_disk ctx) = Ok c ->
  (forall x, published command x ctx = lc_rules ctx) ->
  edit command c = (a ← result_ok (parse_advertise_address text);
                    l ← result_ok (update (cfg_advertise_addresses c) a); Some (with_addresses l c)) ->
  let '(ctx', r) := update_advertise_addresses text update ctx in
  same_rest ctx ctx' /\
  if resp_ok r then exists c', saved command c c' ctx ctx' else kept ctx ctx'.
Proof.
  intros Hl Hp He. unfold update_advertise_addresses.
  destruct (parse_advertise_address text) as [a|] eqn:E1; [|done]. rewrite Hl.
  destruct (update (cfg_advertise_addresses c) a) as [l|] eqn:E2; [|done].
  pose proof (save_and_cases command c (with_addresses l c)) as P.
  match goal with |- context [save_and _ ?d ctx] => specialize (P d ctx) end.
  destruct (save_and _ _ ctx) as [ctx' r].
  destruct P as [P1 P2]; [rewrite He; simpl; by rewrite E2|done|].
  split; [done|]. destruct (resp_ok r); [|done]. exists (with_addresses l c). apply P2.
Qed.

(** The answer to a threshold change is the new listing, which can itself fail. *)
Lemma update_alerts_cases a ctx c :
  a <> AlertList -> load_config (lc_disk ctx) = Ok c ->
  let '(ctx', r) := update_alerts (alert_change a) ctx in
  same_rest ctx ctx' /\
  (kept ctx ctx' /\ resp_ok r = false \/
   exists c', saved (Alerts a) c c' ctx ctx' /\
     resp_ok r = lc_sampler_running ctx && is_ok (resolved_alert_rules c')).
Proof.
  intros Ha Hl. unfold update_alerts. rewrite Hl.
  destruct (alert_rules (alert_change a c)) as [rules|e] eqn:Er; [|split; [done|]; by left].
  pose proof (save_config_cases config_fault (alert_change a c) (lc_disk ctx)) as P.
  assert (He : edit (Alerts a) c = Some (alert_change a c)).
  { destruct a; [done|..]; cbn [edit]; by rewrite Er. }
  destruct (save_config config_fault _ (lc_disk ctx)) as [d [u|e]]; simpl.
  - destruct (lc_sampler_running ctx) eqn:Hs; simpl.
    + split; [done|]. right. exists (alert_change a c). split.
      * split; [done|]. split; [done|]. simpl. by rewrite Hs, Er.
      * unfold alert_listing. by destruct (resolved_alert_rules _).
    + split; [done|]. right. exists (alert_change a c). split; [|done].
      split; [done|]. split; [done|]. simpl. by rewrite Hs.
  - split; [done|]. left. done.
Qed.

(** The other commands leave the settings alone. *)
Lemma other_commands_keep env command ctx :
  is_setting command = false ->
  let ctx' := fst (handle_local env command ctx) in kept ctx ctx' /\ same_sampler ctx ctx'.
Proof.
  intros Hs. destruct command as [| | |b|i|i f t res| |i| | |a| | | |]; try done; cbn [handle_local].
  - unfold create_pairing_bundle. destruct (load_config (lc_disk ctx)) as [c|]; [|done].
    destruct (config_validate _ _ _ _ _ c); [|done]. destruct (pairing_poisoned _); [done|].
    destruct (Pairing.open _ _ _ _ _ _ _) as [m bundle]. destruct (bundle_encode bundle); [|done].
    by destruct (mdns_open _ _ _ _) as [? []].
  - by destruct (import_pairing _ _ _ _ _ _ _).
  - by destruct (remove_machine _ _ _).
  - destruct (String.eqb _ _); [|done]. unfold handle_local_history. destruct (_ || _)%bool; [done|].
    by destruct (Storage.query _ _ _ _ _).
  - by destruct (revoke_peer _ _ _).
  - by destruct a.
Qed.

Lemma settle command c ctx ctx' r :
  is_setting command = true ->
  same_rest ctx ctx' /\
    (if resp_ok r then exists c', saved command c c' ctx ctx' else kept ctx ctx') ->
  same_sampler ctx ctx' /\
  (kept ctx ctx' \/ exists c', is_setting command = true /\ saved command c c' ctx ctx').
Proof.
  intros Hs [(_ & _ & P1 & _) P2]. split; [done|]. destruct (resp_ok r); [right|by left].
  destruct P2 as [c' P2]. eauto.
Qed.

(** The same for every command: the settings are kept, or are the abstract change saved. *)
Lemma handle_local_settings env command ctx c :
  load_config (lc_disk ctx) = Ok c ->
  let '(ctx', r) := handle_local env command ctx in
  same_sampler ctx ctx' /\
  (kept ctx ctx' \/ exists c', is_setting command = true /\ saved command c c' ctx ctx').
Proof.
  intros Hl. destruct (is_setting command) eqn:Hs.
  2: { pose proof (other_commands_keep env command ctx Hs) as [H1 H2].
       destruct (handle_local env command ctx). split; [done|by left]. }
  destruct command as [| | |b|i|i f t res| |i|url ca|p|a|text|text| |]; try done; cbn [handle_local].
  - pose proof (set_relay_cases url ca ctx c Hl) as P. destruct (set_relay url ca ctx) as [ctx' r]. exact (settle _ c ctx ctx' r Hs P).
  - pose proof (set_bind_port_cases p ctx c Hl) as P. destruct (set_bind_port p ctx) as [ctx' r]. exact (settle _ c ctx ctx' r Hs P).
  - assert (Ha : a <> AlertList) by (by intros ->).
    assert (Hh : handle_alerts a ctx = update_alerts (alert_change a) ctx) by (by destruct a).
    pose proof (update_alerts_cases a ctx c Ha Hl) as P. rewrite Hh.
    destruct (update_alerts (alert_change a) ctx) as [ctx' r]. destruct P as [(_ & _ & P1 & _) P2].
    split; [done|]. destruct P2 as [[P2 _]|(c' & P2 & _)]; [by left|right; eauto].
  - pose proof (update_addresses_cases text add_advertise_address (AdvertiseAddressAdd text) ctx c Hl
      (fun _ => eq_refl) eq_refl) as P. destruct (update_advertise_addresses _ _ ctx) as [ctx' r]. exact (settle _ c ctx ctx' r Hs P).
  - pose proof (update_addresses_cases text remove_advertise_address (AdvertiseAddressRemove text) ctx c Hl
      (fun _ => eq_refl) eq_refl) as P. destruct (update_advertise_addresses _ _ ctx) as [ctx' r]. exact (settle _ c ctx ctx' r Hs P).
Qed.

(** A setting that was reported as changed was saved. *)
Lemma success_is_saved env command ctx c :
  load_config (lc_disk ctx) = Ok c ->
  let '(ctx', r) := handle_local env command ctx in
  forall resp, is_setting command = true -> r = Some resp -> resp_ok resp = true ->
    exists c', saved command c c' ctx ctx'.
Proof.
  intros Hl. destruct command as [| | |b|i|i f t res| |i|url ca|p|a|text|text| |]; cbn [handle_local];
    try (by repeat case_match).
  - pose proof (set_relay_cases url ca ctx c Hl) as P. destruct (set_relay url ca ctx) as [ctx' r].
    intros resp _ [= <-] Hok. rewrite Hok in P. apply P.
  - pose proof (set_bind_port_cases p ctx c Hl) as P. destruct (set_bind_port p ctx) as [ctx' r].
    intros resp _ [= <-] Hok. rewrite Hok in P. apply P.
  - destruct (decide (a = AlertList)) as [->|Ha]; [done|].
    assert (Hh : handle_alerts a ctx = update_alerts (alert_change a) ctx) by (by destruct a).
    rewrite Hh. pose proof (update_alerts_cases a ctx c Ha Hl) as P.
    destruct (update_alerts (alert_change a) ctx) as [ctx' r].
    intros resp _ [= <-] Hok. destruct P as [_ [[_ P]|(c' & P & _)]]; [congruence|by exists c'].
  - pose proof (update_addresses_cases text add_advertise_address (AdvertiseAddressAdd text) ctx c Hl
      (fun _ => eq_refl) eq_refl) as P. destruct (update_advertise_addresses _ _ ctx) as [ctx' r].
    intros resp _ [= <-] Hok. rewrite Hok in P. apply P.
  - pose proof (update_addresses_cases text remove_advertise_address (AdvertiseAddressRemove text) ctx c Hl
      (fun _ => eq_refl) eq_refl) as P. destruct (update_advertise_addresses _ _ ctx) as [ctx' r].
    intros resp _ [= <-] Hok. rewrite Hok in P. apply P.
Qed.

(** ** Progress: without file faults a valid change is saved *)

Lemma save_and_saves c data ctx :
  (forall n, config_fault n = false) -> config_carried float_ok c ->
  let '(ctx', r) := save_and c data ctx in resp_ok r = true /\ load_config (lc_disk ctx') = Ok c.
Proof.
  intros Hf Hc. unfold save_and. pose proof (save_config_cases config_fault c (lc_disk ctx)) as P.
  pose proof (save_config_succeeds config_fault c (lc_disk ctx) Hf Hc) as Q.
  destruct (save_config config_fault c (lc_disk ctx)) as [d r]. simpl in Q. subst r. simpl. auto.
Qed.

Lemma edit_alerts a c c' :
  edit (Alerts a) c = Some c' ->
  c' = alert_change a c /\ exists rules, alert_rules (alert_change a c) = Ok rules.
Proof.
  destruct a; cbn [edit]; [done|..]; (destruct (alert_rules _) as [rules|]; [|done]);
    intros [= <-]; by eauto.
Qed.

Lemma handle_local_progress env command ctx c c' :
  (forall n, config_fault n = false) -> load_config (lc_disk ctx) = Ok c ->
  edit command c = Some c' -> config_carried float_ok c' ->
  load_config (lc_disk (fst (handle_local env command ctx))) = Ok c'.
Proof.
  intros Hf Hl He Hc.
  assert (Hsave : forall data, load_config (lc_disk (fst (save_and c' data ctx))) = Ok c').
  { intros data. pose proof (save_and_saves c' data ctx Hf Hc) as P.
    destruct (save_and c' data ctx). apply P. }
  destruct command as [| | |b|i|i f t res| |i|url ca|p|a|text|text| |]; try done;
    cbn [handle_local edit] in *.
  - unfold set_relay. destruct (validate_relay_url _ _); [|done].
    destruct (validate_relay_ca _ _ _ _ _ _); [|done]. injection He as <-. rewrite Hl.
    specialize (Hsave (obj [("saved", VBool true); ("restart_required", VBool true);
      ("relay_url", to_value url); ("relay_ca_certificate", to_value ca)])).
    by destruct (save_and _ _ ctx).
  - unfold set_bind_port. destruct (validate_bind_port p); [|done]. injection He as <-. rewrite Hl.
    specialize (Hsave (obj [("saved", VBool true); ("restart_required", VBool true)])).
    by destruct (save_and _ _ ctx).
  - assert (Hh : handle_alerts a ctx = update_alerts (alert_change a) ctx) by (by destruct a).
    rewrite Hh. unfold update_alerts. rewrite Hl.
    apply edit_alerts in He as [-> [rules ->]]. set (c' := alert_change a c) in *.
    pose proof (save_config_cases config_fault c' (lc_disk ctx)) as P.
    pose proof (save_config_succeeds config_fault c' (lc_disk ctx) Hf Hc) as Q.
    destruct (save_config config_fault c' (lc_disk ctx)) as [d r]. simpl in Q. subst r. simpl.
    destruct (negb _); simpl; auto.
  - unfold update_advertise_addresses. destruct (parse_advertise_address text) as [a|]; [|done].
    cbn [result_ok option_bind base.mbind] in He. rewrite Hl.
    destruct (add_advertise_address _ a) as [l|]; [|done]. injection He as <-.
    specialize (Hsave (obj [("saved", VBool true); ("restart_required", VBool true);
      ("advertise_addresses", to_value l)])). by destruct (save_and _ _ ctx).
  - unfold update_advertise_addresses. destruct (parse_advertise_address text) as [a|]; [|done].
    cbn [result_ok option_bind base.mbind] in He. rewrite Hl.
    destruct (remove_advertise_address _ a) as [l|]; [|done]. injection He as <-.
    specialize (Hsave (obj [("saved", VBool true); ("restart_required", VBool true);
      ("advertise_addresses", to_value l)])). by destruct (save_and _ _ ctx).
Qed.

(** ** Changes stay within what the file carries and what validation accepts *)

(** A threshold that reached the daemon as JSON text. *)
Definition command_carried (command : LocalCommand) : Prop :=
  match command with
  | Alerts (AlertSet _ _ _ (Some t) _ _) => float_ok t
  | _ => True
  end.

Lemma alert_entry_carried i f l :
  Forall (entry_carried float_ok) l -> (forall a, entry_carried float_ok a -> entry_carried float_ok (f a)) ->
  Forall (entry_carried float_ok) (alert_entry i f l).
Proof.
  intros Hl Hf. induction Hl as [|a l Ha Hl IH]; simpl.
  - constructor; [|constructor]. apply Hf. intros t. done.
  - destruct (String.eqb _ _); constructor; auto.
Qed.

Lemma alert_change_carried a c :
  command_carried (Alerts a) -> config_carried float_ok c -> config_carried float_ok (alert_change a c).
Proof.
  intros Ha [H1 H2]. destruct a as [|i m cmp t n sv|i b|[i|]|b]; cbn [alert_change]; split; try done; simpl.
  - apply alert_entry_carried; [done|]. intros e He u. unfold set_entry, or_else. simpl.
    destruct t as [t|]; [intros [= <-]; exact Ha|apply He].
  - by apply alert_entry_carried.
  - rewrite List.Forall_forall in *. intros x [Hx _]%filter_In. auto.
Qed.

Lemma edit_carried command c c' :
  command_carried command -> config_carried float_ok c -> edit command c = Some c' ->
  config_carried float_ok c'.
Proof.
  intros Hcmd [H1 H2] He.
  destruct command as [| | |b|i|i f t res| |i|url ca|p|a|text|text| |]; try done; cbn [edit] in He.
  - destruct (validate_relay_url _ url); [|done]. destruct (validate_relay_ca _ _ _ _ url ca); [|done].
    by injection He as <-.
  - destruct (validate_bind_port p); [|done]. by injection He as <-.
  - apply edit_alerts in He as [-> _]. by apply alert_change_carried.
  - destruct (parse_advertise_address text) as [a|] eqn:Ea; [|done]. cbn [result_ok base.mbind option_bind] in He.
    destruct (add_advertise_address _ a) as [l|] eqn:El; [|done]. injection He as <-.
    apply parse_advertise_Ok in Ea as [Ea _]. apply parse_addr_ok in Ea.
    apply add_advertise_Ok in El as (_ & _ & ->). split; [|done]. simpl. apply Forall_app. split; [done|by constructor].
  - destruct (parse_advertise_address text) as [a|] eqn:Ea; [|done]. cbn [result_ok base.mbind option_bind] in He.
    destruct (remove_advertise_address _ a) as [l|] eqn:El; [|done]. injection He as <-.
    apply remove_advertise_Ok in El as [-> _]. split; [|done]. simpl.
    rewrite List.Forall_forall in *. intros x [Hx _]%filter_In. auto.
Qed.

Definition config_usable : AgentConfig -> Prop := usable parse_relay_url read_file pem_sections verifier.

Lemma edit_usable command c c' : config_usable c -> edit command c = Some c' -> config_usable c'.
Proof.
  intros (H1 & H2 & H3) He.
  destruct command as [| | |b|i|i f t res| |i|url ca|p|a|text|text| |]; try done; cbn [edit] in He.
  - destruct (validate_relay_url _ url) as [[]|] eqn:E1; [|done].
    destruct (validate_relay_ca _ _ _ _ url ca) as [[]|] eqn:E2; [|done]. injection He as <-.
    split; [done|]. split; [|done]. by eapply validate_relay_Ok.
  - destruct (validate_bind_port p) as [[]|] eqn:E; [|done]. injection He as <-.
    apply validate_bind_port_Ok in E. by split.
  - apply edit_alerts in He as [-> _]. destruct a as [|i m cmp t n sv|i b|[i|]|b]; done.
  - destruct (parse_advertise_address text) as [a|] eqn:Ea; [|done]. cbn [result_ok base.mbind option_bind] in He.
    destruct (add_advertise_address _ a) as [l|] eqn:El; [|done]. injection He as <-.
    apply parse_advertise_Ok in Ea as [_ Ea]. split; [done|]. split; [done|]. by eapply add_advertisable.
  - destruct (parse_advertise_address text) as [a|]; [|done]. cbn [result_ok base.mbind option_bind] in He.
    destruct (remove_advertise_address _ a) as [l|] eqn:El; [|done]. injection He as <-.
    split; [done|]. split; [done|]. by eapply remove_advertisable.
Qed.

(** A change that is not about thresholds does not change the rules. *)
Lemma edit_alert_rules command c c' :
  edit command c = Some c' -> (forall a, command <> Alerts a) -> alert_rules c' = alert_rules c.
Proof.
  intros He Ha.
  destruct command as [| | |b|i|i f t res| |i|url ca|p|a|text|text| |]; try done; cbn [edit] in He.
  - destruct (validate_relay_url _ url); [|done]. destruct (validate_relay_ca _ _ _ _ url ca); [|done].
    by injection He as <-.
  - destruct (validate_bind_port p); [|done]. by injection He as <-.
  - by destruct (Ha a).
  - destruct (parse_advertise_address text) as [a|]; [|done]. cbn [result_ok base.mbind option_bind] in He.
    destruct (add_advertise_address _ a); [|done]. by injection He as <-.
  - destruct (parse_advertise_address text) as [a|]; [|done]. cbn [result_ok base.mbind option_bind] in He.
    destruct (remove_advertise_address _ a); [|done]. by injection He as <-.
Qed.

(** The file loads to a usable configuration, and a running sampler evaluates exactly the
    rules a restart would load from it. *)
Definition settings_ok (ctx : LocalContext) : Prop :=
  exists c, load_config (lc_disk ctx) = Ok c /\ config_usable c /\ config_carried float_ok c /\
    (lc_sampler_running ctx = true -> alert_rules c = Ok (lc_rules ctx)).

Lemma handle_local_settings_ok env command ctx :
  command_carried command -> settings_ok ctx -> settings_ok (fst (handle_local env command ctx)).
Proof.
  intros Hcmd (c & Hl & Hu & Hc & Hr). pose proof (handle_local_settings env command ctx c Hl) as P.
  destruct (handle_local env command ctx) as [ctx' r]. destruct P as [Hs P]. simpl.
  unfold settings_ok. rewrite Hs. destruct P as [[P1 P2]|(c' & _ & He & P1 & P2)].
  - exists c. rewrite P2, (same_file_loads _ _ P1). done.
  - assert (Hc' : config_carried float_ok c') by (by eapply edit_carried).
    exists c'. split; [by apply P1|]. split; [by eapply edit_usable|]. split; [done|].
    intros Hrun. rewrite P2. destruct command as [| | |b|i|i f t res| |i|url ca|p|a|text|text| |]; try done;
      cbn [published]; try (rewrite (edit_alert_rules _ _ _ He) by done; by apply Hr).
    rewrite Hrun. apply edit_alerts in He as [-> [rules ->]]. done.
Qed.

(** A run of requests, each with what it meets. *)
Definition run_commands (ctx : LocalContext) (l : list (LocalEnv * LocalCommand)) : LocalContext :=
  fold_left (fun ctx '(env, command) => fst (handle_local env command ctx)) l ctx.

(** Whatever commands are sent and whichever file operations fail, the daemon can start again
    on its own file, and the running rules are those of the file. *)
Theorem commands_keep_settings (l : list (LocalEnv * LocalCommand)) (ctx : LocalContext) :
  Forall (fun r => command_carried (snd r)) l ->
  settings_ok ctx -> settings_ok (run_commands ctx l).
Proof.
  unfold run_commands. revert ctx. induction l as [|[env command] l IH]; intros ctx Hl Hok; [done|].
  inversion Hl; subst. simpl. apply IH; [done|]. by apply handle_local_settings_ok.
Qed.

(** C14: Handling a command refines the abstract change: the file holds the old value or the changed
    one, a success means the changed one, and without file faults a valid change is made. *)
Theorem config_commands_refine_edits env command ctx c :
  load_config (lc_disk ctx) = Ok c -> config_carried float_ok c -> command_carried command ->
  let '(ctx', r) := handle_local env command ctx in
  (load_config (lc_disk ctx') = Ok c \/
   exists c', edit command c = Some c' /\ load_config (lc_disk ctx') = Ok c') /\
  (forall resp, is_setting command = true -> r = Some resp -> resp_ok resp = true ->
     exists c', edit command c = Some c' /\ load_config (lc_disk ctx') = Ok c') /\
  ((forall n, config_fault n = false) ->
   load_config (lc_disk ctx') = Ok (default c (edit command c))).
Proof.
  intros Hl Hc Hcmd. pose proof (handle_local_settings env command ctx c Hl) as P.
  pose proof (handle_local_progress env command ctx c) as Q.
  pose proof (success_is_saved env command ctx c Hl) as R.
  destruct (handle_local env command ctx) as [ctx' r]. destruct P as [_ P].
  assert (Hsaved : forall c', saved command c c' ctx ctx' -> load_config (lc_disk ctx') = Ok c').
  { intros c' (He & H & _). apply H. by eapply edit_carried. }
  split; [|split].
  - destruct P as [[P _]|(c' & _ & P)]; [left; by rewrite (same_file_loads _ _ P)|right].
    exists c'. split; [apply P|by apply Hsaved].
  - intros resp Hs -> Hok. destruct (R resp Hs eq_refl Hok) as [c' R']. exists c'.
    split; [apply R'|by apply Hsaved].
  - intros Hf. destruct (edit command c) as [c'|] eqn:He.
    + apply (Q c'); auto. by eapply edit_carried.
    + destruct P as [[P _]|(c' & _ & P & _)]; [by rewrite (same_file_loads _ _ P)|congruence].
Qed.

(** ** Refused changes *)

(** C28: A setting that is reported as refused is not made, with two exceptions: a sampler that has
    stopped cannot be told, and with thresholds switched off an override that cannot be
    resolved is only noticed when the listing is made. *)
Theorem refused_settings_are_kept env command ctx c ctx' resp :
  load_config (lc_disk ctx) = Ok c -> is_setting command = true ->
  handle_local env command ctx = (ctx', Some resp) -> resp_ok resp = false ->
  kept ctx ctx' \/
  exists a c', command = Alerts a /\ saved command c c' ctx ctx' /\
    (lc_sampler_running ctx = false \/
     cfg_alerts_enabled c' = false /\ exists e, resolved_alert_rules c' = Err e).
Proof.
  intros Hl Hs. destruct command as [| | |b|i|i f t res| |i|url ca|p|a|text|text| |]; try done;
    cbn [handle_local].
  - pose proof (set_relay_cases url ca ctx c Hl) as P. destruct (set_relay url ca ctx) as [ctx1 r].
    intros [= <- <-] Hok. rewrite Hok in P. left. apply P.
  - pose proof (set_bind_port_cases p ctx c Hl) as P. destruct (set_bind_port p ctx) as [ctx1 r].
    intros [= <- <-] Hok. rewrite Hok in P. left. apply P.
  - assert (Ha : a <> AlertList) by (by intros ->).
    assert (Hh : handle_alerts a ctx = update_alerts (alert_change a) ctx) by (by destruct a).
    rewrite Hh. pose proof (update_alerts_cases a ctx c Ha Hl) as P.
    destruct (update_alerts (alert_change a) ctx) as [ctx1 r]. intros [= <- <-] Hok.
    destruct P as [_ [[P _]|(c' & P & E)]]; [by left|right]. exists a, c'. split; [done|]. split; [done|].
    rewrite Hok in E. destruct (lc_sampler_running ctx); [right|by left]. simpl in E.
    destruct (resolved_alert_rules c') as [rules|e] eqn:Er; [done|]. split; [|by eauto].
    destruct P as [P _]. apply edit_alerts in P as [-> [rules P]]. unfold alert_rules in P.
    destruct (cfg_alerts_enabled (alert_change a c)); [|done]. simpl in P. by rewrite Er in P.
  - pose proof (update_addresses_cases text add_advertise_address (AdvertiseAddressAdd text) ctx c Hl
      (fun _ => eq_refl) eq_refl) as P. destruct (update_advertise_addresses _ _ ctx) as [ctx1 r].
    intros [= <- <-] Hok. rewrite Hok in P. left. apply P.
  - pose proof (update_addresses_cases text remove_advertise_address (AdvertiseAddressRemove text) ctx c Hl
      (fun _ => eq_refl) eq_refl) as P. destruct (update_advertise_addresses _ _ ctx) as [ctx1 r].
    intros [= <- <-] Hok. rewrite Hok in P. left. apply P.
Qed.

(** ** Pairing *)

(** What a bundle of this machine holds, and the window [m] it opens. *)
Definition offers (env : LocalEnv) (ctx : LocalContext) (c : AgentConfig) (b : PairingBundle)
    (m : PairingManager) : Prop :=
  b_node_id b = node_id (info (lc_runtime ctx)) /\
  b_endpoint_id b = id_text (lc_endpoint_id ctx) /\
  b_relay_urls b = (match cfg_relay_url c with Some u => [u] | None => [] end) /\
  NoDup (b_direct_addresses b) /\
  (forall a, In a (b_direct_addresses b) <->
             In a (le_observed env) \/ In a (cfg_advertise_addresses c)) /\
  b_expires_at_ms b = le_now_open env + 300000 /\
  forall peer later, later <= b_expires_at_ms b ->
    verify_and_consume_at later peer (b_one_time_secret b) m = (None, Ok tt).

Lemma opened_offers env ctx c m b :
  is_bytes (le_random env) -> length (le_random env) = PAIRING_SECRET_BYTES ->
  Pairing.open (le_random env) (le_now_open env) (node_id (info (lc_runtime ctx))) (lc_endpoint_id ctx)
    (bundle_direct_addresses (le_observed env) (cfg_advertise_addresses c))
    (match cfg_relay_url c with Some u => [u] | None => [] end) (pairing (lc_runtime ctx)) = (m, b) ->
  offers env ctx c b m /\ format_version b = 1.
Proof.
  intros Hb Hlen Ho. split; [|by injection Ho as _ <-].
  pose proof (opened_bundle_pairs (le_random env) (le_now_open env) (node_id (info (lc_runtime ctx)))
    (lc_endpoint_id ctx) (bundle_direct_addresses (le_observed env) (cfg_advertise_addresses c))
    (match cfg_relay_url c with Some u => [u] | None => [] end) (pairing (lc_runtime ctx))) as Hop.
  rewrite Ho in Hop. unfold offers.
  destruct (push_new_spec (le_observed env ++ cfg_advertise_addresses c)%list [] NoDup_nil_2)
    as (Hnd & _ & Hin).
  assert (Hd : b_direct_addresses b =
    fold_left push_new (le_observed env ++ cfg_advertise_addresses c)%list []) by (by injection Ho as _ <-).
  rewrite Hd. split; [by injection Ho as _ <-|]. split; [by injection Ho as _ <-|].
  split; [by injection Ho as _ <-|]. split; [done|].
  split; [intros a; rewrite Hin, in_app_iff; simpl; tauto|].
  split; [apply (Hop 0 0 Hb Hlen)|]. intros peer later Hlate. by apply (Hop peer later Hb Hlen).
Qed.

Lemma created_bundle env ctx ctx' resp :
  is_bytes (le_random env) -> length (le_random env) = PAIRING_SECRET_BYTES ->
  handle_local env PairingCreate ctx = (ctx', Some resp) -> resp_ok resp = true ->
  exists c bundle text m,
    load_config (lc_disk ctx) = Ok c /\ config_usable c /\
    resp_data resp = Some (VString text) /\ bundle_decode text = Ok bundle /\
    offers env ctx c bundle (pairing (lc_runtime ctx')) /\ pairing_poisoned (lc_runtime ctx) = false /\
    lc_runtime ctx' = with_pairing (pairing (lc_runtime ctx')) m (lc_runtime ctx).
Proof.
  intros Hb Hlen. cbn [handle_local]. unfold create_pairing_bundle.
  destruct (load_config (lc_disk ctx)) as [c|e] eqn:Hl; [|by intros [= <- <-]].
  destruct (config_validate _ _ _ _ _ c) as [[]|e] eqn:Hv; [|by intros [= <- <-]].
  apply validate_usable in Hv. destruct (pairing_poisoned _) eqn:Hp; [by intros [= <- <-]|].
  destruct (Pairing.open _ _ _ _ _ _ _) as [m b] eqn:Ho.
  destruct (opened_offers env ctx c m b Hb Hlen Ho) as [Hoff Hver].
  destruct (encoded_bundle_decodes b Hver) as (text & -> & _ & Hdec).
  destruct (mdns_open _ _ _ _) as [md [g|e]]; intros [= <- <-] _; exists c, b, text, md;
    do 4 (split; [done|]); (split; [exact Hoff|done]).
Qed.

(** The bundle [PairingCreate] answers with is made from a usable configuration, names this
    machine, carries each observed and each advertised address once, and opens a window: any
    peer that presents its secret within five minutes is accepted. *)
Theorem created_bundle_is_accepted env ctx ctx' resp :
  is_bytes (le_random env) -> length (le_random env) = PAIRING_SECRET_BYTES ->
  handle_local env PairingCreate ctx = (ctx', Some resp) -> resp_ok resp = true ->
  exists c bundle text,
    load_config (lc_disk ctx) = Ok c /\ config_usable c /\
    resp_data resp = Some (VString text) /\ bundle_decode text = Ok bundle /\
    offers env ctx c bundle (pairing (lc_runtime ctx')).
Proof.
  intros Hb Hlen H Hok. destruct (created_bundle env ctx ctx' resp Hb Hlen H Hok)
    as (c & b & text & m & H1 & H2 & H3 & H4 & H5 & _). by exists c, b, text.
Qed.

(** ** History *)

Lemma query_length s from_ms to_ms res l :
  snd (Storage.query db_fault from_ms to_ms res s) = Ok l -> Z.of_nat (length l) <= MAX_QUERY_ROWS.
Proof.
  unfold Storage.query, query_page, query_raw, query_minute, Storage.mbind, statement.
  destruct res; destruct (db_fault (executed s)); simpl; try done;
    intros H%collect_results_Ok%Forall2_length; rewrite <- H; by apply select_page_length.
Qed.

(** A local history answer covers an ordered range of at most seven days and at most the row
    limit, whatever the store holds; other ranges are refused without touching the store. *)
Theorem local_history_is_bounded from_ms to_ms res ctx :
  in_i64 from_ms -> in_i64 to_ms ->
  let '(ctx', r) := handle_local_history from_ms to_ms res ctx in
  if resp_ok r then
    0 <= to_ms - from_ms <= MAX_LOCAL_HISTORY_RANGE_MS /\
    exists samples, resp_data r = Some (to_value samples) /\
      snd (Storage.query db_fault from_ms to_ms res (store (lc_runtime ctx))) = Ok samples /\
      Z.of_nat (length samples) <= MAX_QUERY_ROWS
  else
    (~ (0 <= to_ms - from_ms <= MAX_LOCAL_HISTORY_RANGE_MS) -> ctx' = ctx).
Proof.
  intros Hf Ht. unfold handle_local_history.
  pose proof (query_length (store (lc_runtime ctx)) from_ms to_ms res) as Hq.
  destruct (Storage.query db_fault from_ms to_ms res (store (lc_runtime ctx))) as [s r].
  assert (Hb : (to_ms <? from_ms) || (MAX_LOCAL_HISTORY_RANGE_MS <? i64_sat_sub to_ms from_ms) = false ->
               0 <= to_ms - from_ms <= MAX_LOCAL_HISTORY_RANGE_MS).
  { clear Hq. rewrite orb_false_iff, !Z.ltb_ge. unfold MAX_LOCAL_HISTORY_RANGE_MS. width_lia. }
  destruct ((to_ms <? from_ms) || _); [cbn [resp_ok failure]; intros _; reflexivity|]. specialize (Hb eq_refl).
  destruct r as [samples|e]; cbn [resp_ok respond success failure]; [|intros H; by destruct (H Hb)].
  split; [exact Hb|]. exists samples. split; [reflexivity|]. split; [reflexivity|]. by apply Hq.
Qed.

(** ** Every request is answered *)

Lemma remote_history_answers env endpoint_id from_ms to_ms res ctx :
  is_Some (handle_remote_history env endpoint_id from_ms to_ms res ctx).
Proof.
  unfold handle_remote_history, query_history. destruct (negb _); [by eexists|].
  destruct (machines_get _ _) as [m|]; [|by eexists].
  destruct (connect_record _ _ _ m); [|by eexists].
  destruct (timed _ _) as [frames|]; [|by eexists].
  destruct (history_loop_spec history_loop_fuel frames 0 (le_started env + HISTORY_RESPONSE_TIMEOUT) [])
    as (r & -> & _); [| |by eexists].
  - unfold history_loop_fuel. cbn [length]. pose proof (eq_refl : MAX_REMOTE_HISTORY_SAMPLES = 43200). lia.
  - cbn [length]. pose proof (eq_refl : MAX_REMOTE_HISTORY_SAMPLES = 43200). lia.
Qed.

Lemma handle_local_answers env command ctx : exists ctx' resp, handle_local env command ctx = (ctx', Some resp).
Proof.
  destruct command as [| | |b|i|i f t res| |i|url ca|p|a|text|text| |]; cbn [handle_local];
    try (by eexists _, _); try (match goal with |- context [let '(_, _) := ?x in _] => destruct x end; by eexists _, _).
  destruct (String.eqb _ _); [by destruct (handle_local_history _ _ _ _); eexists _, _|].
  destruct (remote_history_answers env i f t res ctx) as [r Hr]. rewrite Hr. by eexists _, _.
Qed.

Lemma write_all_prefix taker bytes : exists n, fst (write_all taker bytes) = take n bytes.
Proof.
  destruct taker as [|n|n]; cbn [write_all fst]; [|by exists n..]. exists (length bytes). by rewrite firstn_all.
Qed.

(** The line that answers a response. *)
Definition answer_line (encode : LocalResponse -> option (list Z)) (resp : LocalResponse) : list Z :=
  match encode resp with Some bytes => (bytes ++ [newline])%list | None => [] end.

(** C36: A connection is read for at most five seconds and answered with one response, whatever
    its caller does: one that asks for a command in time has that command handled; one that is silent
    or slow, sends too much, breaks off or sends no command gets a failure and changes
    nothing. Of the line of that response a first part is written, all of it if the caller takes it,
    and nothing else; if it cannot be encoded, nothing is written. (Writing has no deadline: a caller
    that does not read keeps its own connection.) *)
Theorem every_connection_is_answered parse_command encode io_text env prefix input taker ctx :
  exists cv,
    serve_local_stream_prefixed parse_command encode io_text env prefix input taker ctx = Some cv /\
    0 <= cv_read_at cv <= 5000 /\
    (forall command, requests parse_command prefix input command ->
       handle_local env command ctx = (cv_context cv, Some (cv_response cv))) /\
    ((forall command, ~ requests parse_command prefix input command) ->
       cv_context cv = ctx /\ resp_ok (cv_response cv) = false) /\
    (exists n, cv_written cv = take n (answer_line encode (cv_response cv))) /\
    (taker = TakesAll -> cv_written cv = answer_line encode (cv_response cv) /\ cv_end cv = WriteDone).
Proof.
  unfold serve_local_stream_prefixed, answer_line.
  destruct (reading_ends parse_command io_text prefix input) as (at_ms & r & Hr & Ht & Hf).
  rewrite Hr. unfold base.mbind, option_bind.
  assert (Hgo : exists ctx' resp, match r with Ok command => handle_local env command ctx
                                   | Err response => (ctx, Some response) end = (ctx', Some resp)).
  { destruct r as [command|resp]; [apply handle_local_answers|by eexists _, _]. }
  destruct Hgo as (ctx' & resp & Hgo). rewrite Hgo.
  pose proof (fun bytes => write_all_prefix taker bytes) as Hw.
  destruct (match encode resp with Some _ => _ | None => _ end) as [written ending] eqn:Ew.
  eexists. split; [reflexivity|]. cbn [cv_read_at cv_context cv_response cv_written cv_end]. split; [exact Ht|].
  split; [|split; [|split]].
  - intros command Hc. destruct (timely_request _ io_text _ _ _ Hc) as [at2 H2].
    rewrite Hr in H2. injection H2 as -> ->. exact Hgo.
  - intros Hno. destruct r as [command|response]; [by apply request_was_timely, Hno in Hr|].
    injection Hgo as <- <-. split; [done|]. by apply Hf.
  - destruct (encode resp) as [bytes|]; [|injection Ew as <- _; by exists 0%nat].
    destruct (Hw (bytes ++ [newline])%list) as [n Hn]. rewrite Ew in Hn. by exists n.
  - intros ->. destruct (encode resp); by injection Ew as <- <-.
Qed.

(** A caller that stops reading keeps its task for good: only the request has a deadline. *)
Lemma unread_answer_parks_the_task parse_command encode io_text env prefix input ctx cv bytes :
  serve_local_stream_prefixed parse_command encode io_text env prefix input (StallsAfter 0) ctx = Some cv ->
  encode (cv_response cv) = Some bytes -> cv_end cv = WriteStalled.
Proof.
  unfold serve_local_stream_prefixed. destruct (read_local_request _ _) as [[at_ms r]|]; [|done].
  unfold base.mbind, option_bind. destruct (match r with Ok _ => _ | Err _ => _ end) as [ctx' [resp|]]; [|done].
  destruct (encode resp) as [b|] eqn:Ee; cbn [write_all]; intros [= <-]; cbn [cv_response cv_end]; [|congruence].
  intros _. rewrite length_app. cbn [length]. by rewrite Nat.add_comm.
Qed.

(** ** The listener *)

Definition ACCEPT_FAILURE_GRACE : Z := 30000.

(** What [fs::symlink_metadata] says about the socket path. *)
Inductive SocketPath := PathSocket | PathOther | PathMissing | PathError.

(** Replace a stale socket, never another file, and set the mode; the operating system decides
    whether removing, binding and changing the mode succeed. *)
Definition prepare_socket (meta : SocketPath) (remove_ok bind_ok chmod_ok shared : bool)
    (path : string) : result Z string :=
  let? _ := match meta with
            | PathSocket => if remove_ok then Ok tt else Err "remove"
            | PathOther => Err ("refusing to replace non-socket path " +:+ path)
            | PathMissing => Ok tt
            | PathError => Err "metadata"
            end in
  let? _ := if bind_ok then Ok tt else Err "bind" in
  if chmod_ok then Ok (if shared then 432 else 384) else Err "chmod".

(** A connection as its task finds it. *)
Record LocalConnection := {
  cn_env : LocalEnv;
  cn_prefix : list Z;
  cn_input : Incoming;
  cn_taker : Taker;
}.

(** The outcome of one [accept]: a connection whose credentials can be read or not, or a failure
    with the instants at which it is noted and its age is measured. *)
Inductive AcceptEvent :=
  | Accepted (credentials : bool) (connection : LocalConnection)
  | AcceptFailed (noted measured : Z).

(** The loop of [run_local_server]: the connections it hands to tasks of their own, in order,
    and the error it ends with, if it does. *)
Fixpoint accept_loop (failing_since : option Z) (events : list AcceptEvent)
  : list LocalConnection * option string :=
  match events with
  | [] => ([], None)
  | Accepted credentials connection :: rest =>
      let '(spawned, stopped) := accept_loop None rest in
      ((if credentials : bool then connection :: spawned else spawned), stopped)
  | AcceptFailed noted measured :: rest =>
      let since := default noted failing_since in
      if ACCEPT_FAILURE_GRACE <=? measured - since
      then ([], Some ("local IPC listener failed continuously for "
                      +:+ dec (ACCEPT_FAILURE_GRACE / 1000) +:+ " seconds"))
      else accept_loop (Some since) rest
  end.




(** The failures of a stretch of the listener's life. *)
Definition is_failure (e : AcceptEvent) : Prop :=
  match e with AcceptFailed _ _ => True | _ => False end.

(** Conversely the loop ends only at the end of thirty seconds of failures without a single
    accepted connection: one that is accepted starts the count again. *)
Theorem listener_survives_glitches since events msg :
  snd (accept_loop since events) = Some msg ->
  exists pre run noted measured post,
    events = (pre ++ run ++ [AcceptFailed noted measured] ++ post)%list /\ Forall is_failure run /\
    exists start,
      (match run with
       | AcceptFailed first _ :: _ => start = default first (match pre with [] => since | _ => None end)
       | _ => start = default noted (match pre with [] => since | _ => None end)
       end) /\
      ACCEPT_FAILURE_GRACE <= measured - start.
Proof.
  revert since. induction events as [|[creds conn|noted measured] rest IH]; intros since; [done|..];
    cbn [accept_loop].
  - intros H. assert (H' : snd (accept_loop None rest) = Some msg) by (by destruct (accept_loop None rest)).
    clear H. apply IH in H' as (pre & run & n & m & post & -> & Hr & start & H1 & H2).
    exists (Accepted creds conn :: pre), run, n, m, post. split; [done|]. split; [done|].
    exists start. split; [|done]. destruct run as [|[]]; destruct pre; done.
  - destruct (Z.leb_spec ACCEPT_FAILURE_GRACE (measured - default noted since)) as [Hg|Hg].
    + intros _. exists [], [], noted, measured, rest. split; [done|]. split; [constructor|]. eauto.
    + intros H. apply IH in H as (pre & run & n & m & post & -> & Hr & start & H1 & H2).
      destruct pre as [|p pre].
      * exists [], (AcceptFailed noted measured :: run), n, m, post. split; [done|].
        split; [by constructor|]. exists start. split; [|done].
        destruct run as [|[]]; [done| |done]. inversion Hr; subst. done.
      * exists (AcceptFailed noted measured :: p :: pre), run, n, m, post. split; [done|].
        split; [done|]. exists start. split; [|done]. by destruct run as [|[]].
Qed.

End Handlers.

(** ** A request is bounded and never truncated *)

(** C35: A command that reaches the daemon is the whole first line of what was sent, at most 64 KiB
    with its newline; and a caller that sends 64 KiB without one is answered at once, whatever
    it does next. *)
Theorem local_request_is_bounded parse_command io_text prefix input :
  (forall at_ms command,
     read_local_request parse_command (read_line io_text prefix input) = Some (at_ms, Ok command) ->
     exists body rest, (prefix ++ map snd (in_bytes input) = body ++ newline :: rest)%list /\
       ~ In newline body /\ (length body < MAX_LOCAL_REQUEST_BYTES)%nat /\
       parse_command (trim_end (byte_text (body ++ [newline])%list)) = Ok command) /\
  ((MAX_LOCAL_REQUEST_BYTES <= length (prefix ++ map snd (in_bytes input))%list)%nat ->
   forall ending, read_line io_text prefix input =
                  read_line io_text prefix {| in_bytes := in_bytes input; in_end := ending |} /\
                  exists line at_ms, read_line io_text prefix input = Some (at_ms, line) /\
                    at_ms <= ready_at (take MAX_LOCAL_REQUEST_BYTES (arriving prefix input))).
Proof.
  pose proof (arriving_bytes prefix input) as Hdata. unfold read_local_request, read_line.
  generalize MAX_LOCAL_REQUEST_BYTES. intros limit. split.
  - intros at_ms command. rewrite <- Hdata. set (data := arriving prefix input).
    rewrite <- !firstn_map. set (bytes := map snd data).
    destruct (through_newline (take limit bytes)) as [line|] eqn:E; cbn [timeout].
    + destruct (_ <=? _); [|done]. intros [= _ (_ & _ & Hp)%request_is_line].
      apply through_newline_Some in E as (body & rest & -> & Hd & Hn).
      exists body, (rest ++ drop limit bytes)%list. split.
      { rewrite <- (take_drop limit bytes) at 1. by rewrite Hd, <- !app_assoc. }
      split; [done|]. split; [|done].
      apply (f_equal length) in Hd. rewrite length_take, !length_app in Hd. simpl in Hd. lia.
    + apply through_newline_None in E.
      assert (Hno : forall c, request_of_line parse_command (Some (if valid_utf8 (length (take limit bytes)) (take limit bytes)
        then LineOk (take limit bytes) else LineError "stream did not contain valid UTF-8")) <> Ok c).
      { by intros c (_ & H%ends_with_newline_In & _)%request_is_line. }
      destruct (limit <=? length data)%nat; [|destruct (in_end input) as [[? []]|]]; cbn [timeout];
        try (destruct (_ <=? _)); intros [=]; by apply Hno in H1 || done.
  - rewrite <- Hdata, length_map. intros Hlen ending. cbn [in_bytes in_end].
    change (arriving prefix {| in_bytes := in_bytes input; in_end := ending |}) with (arriving prefix input).
    set (data := arriving prefix input) in *. apply Nat.leb_le in Hlen. rewrite Hlen.
    destruct (through_newline _) as [line|]; (split; [done|]); eexists _, _; (split; [reflexivity|]);
      [apply ready_at_take|done].
Qed.

(** A caller that closes after a short line without a newline is told of a limit it did not
    reach. *)
Lemma short_line_reported_as_too_long parse_command io_text :
  read_local_request parse_command
    (read_line io_text [] {| in_bytes := [(1, 123)]; in_end := Some (2, Closed) |}) =
  Some (2, Err (failure ("local request exceeded " +:+ dec (Z.of_nat MAX_LOCAL_REQUEST_BYTES) +:+
                         " bytes without a newline"))).
Proof. vm_compute. reflexivity. Qed.

(** A caller that sends half a line and keeps the connection open, and one whose line is
    complete a millisecond too late, are both refused at the deadline. *)
Example slow_callers_are_refused_at_the_deadline :
  let refused := Some (5000, Err (failure "local request timed out before a complete command")) in
  read_local_request (fun _ => Ok Status) (read_line "" [] {| in_bytes := [(10, 123)]; in_end := None |}) = refused /\
  read_local_request (fun _ => Ok Status) (read_line "" [] {| in_bytes := [(10, 123); (5001, 10)]; in_end := None |}) = refused /\
  read_local_request (fun _ => Ok Status) (read_line "" [] {| in_bytes := [(10, 123); (5000, 10)]; in_end := None |}) =
    Some (5000, Ok Status).
Proof. vm_compute. auto. Qed.

(** ** The client side *)

Inductive UnixOs := Linux | Macos | OtherUnix.

Definition system_socket (os : UnixOs) : list string :=
  match os with
  | Linux => ["/run/rackio/agent.sock"]
  | Macos => ["/Library/Application Support/Rackio/run/agent.sock"]
  | OtherUnix => []
  end.

Definition local_socket_candidates_with_runtime_socket (os : UnixOs) (paths : AppPaths)
    (explicit : bool) (user_runtime_socket : option string) : list string :=
  if explicit then [p_local_socket paths]
  else
    let candidates := system_socket os in
    let candidates := match user_runtime_socket with
                      | Some s => if starts_with "/" s && negb (str_contains candidates s)
                                  then (candidates ++ [s])%list else candidates
                      | None => candidates
                      end in
    if str_contains candidates (p_local_socket paths) then candidates
    else (candidates ++ [p_local_socket paths])%list.

Definition local_socket_candidates (os : UnixOs) (paths : AppPaths) (explicit : bool)
    (xdg_runtime_dir : option string) : list string :=
  local_socket_candidates_with_runtime_socket os paths explicit
    (match os with
     | Linux => (fun dir => path_join dir "rackio/agent.sock") <$> xdg_runtime_dir
     | _ => None
     end).

(** The first candidate that accepts a connection, or the reasons none did. *)
Fixpoint connect_first {S} (connect : string -> result S string) (candidates errors : list string)
  : result S string :=
  match candidates with
  | [] => Err ("daemon is not reachable at any local socket (" +:+ join "; " errors +:+ ")")
  | c :: rest =>
      match connect c with
      | Ok stream => Ok stream
      | Err e => connect_first connect rest (errors ++ [c +:+ ": " +:+ e])%list
      end
  end.

(** Sending the command and reading the one line of the answer. *)
Definition request_local {S} (connect : string -> result S string)
    (encode : LocalCommand -> option string) (send : S -> string -> result unit string)
    (next_line : S -> result (option string) string) (decode : string -> result LocalResponse string)
    (candidates : list string) (command : LocalCommand) : result LocalResponse string :=
  let? stream := connect_first connect candidates [] in
  let? request := ok_or (encode command) "serialization" in
  let? _ := send stream (request +:+ String "010" "") in
  let? line := next_line stream in
  let? line := ok_or line "daemon closed the local connection without a response" in
  decode line.

Lemma str_contains_spec l s : str_contains l s = false -> ~ In s l.
Proof. intros H Hin. apply str_contains_In in Hin. congruence. Qed.

(** No candidate is tried twice, an explicit socket is the only one, and otherwise the state
    socket is always among them, after the machine-wide one. *)
Theorem socket_candidates_are_tried_once os paths explicit xdg :
  let l := local_socket_candidates os paths explicit xdg in
  NoDup l /\ In (p_local_socket paths) l /\
  (explicit = true -> l = [p_local_socket paths]) /\
  (explicit = false -> system_socket os `prefix_of` l).
Proof.
  unfold local_socket_candidates, local_socket_candidates_with_runtime_socket.
  set (runtime := match os with Linux => _ | _ => _ end). clearbody runtime.
  destruct explicit; cbv zeta.
  { split; [apply list.NoDup_singleton|]. split; [by left|done]. }
  set (mid := match runtime with Some s => _ | None => _ end).
  assert (Hmid : NoDup mid /\ system_socket os `prefix_of` mid).
  { assert (Hs : NoDup (system_socket os)) by (destruct os; [apply list.NoDup_singleton..|constructor]).
    unfold mid. destruct runtime as [s|]; [|done]. destruct (starts_with "/" s); [|done]. simpl.
    destruct (str_contains (system_socket os) s) eqn:E; [done|]. simpl.
    split; [|by apply prefix_app_r]. apply list.NoDup_app. split; [done|].
    split; [|apply list.NoDup_singleton]. intros x Hx ->%list_elem_of_singleton.
    apply str_contains_spec in E. by apply list_elem_of_In in Hx. }
  clearbody mid. destruct Hmid as [H1 H2].
  destruct (str_contains mid (p_local_socket paths)) eqn:E.
  - split; [done|]. split; [by apply str_contains_In|done].
  - split; [|split; [apply in_app_iff; right; by left|split; [done|intros _; by apply prefix_app_r]]].
    apply list.NoDup_app. split; [done|]. split; [|apply list.NoDup_singleton].
    intros x Hx ->%list_elem_of_singleton. apply str_contains_spec in E. by apply list_elem_of_In in Hx.
Qed.

(** A reachable daemon is found, and a failure means every candidate was tried. *)
Theorem connect_first_tries_all {S} (connect : string -> result S string) candidates errors :
  match connect_first connect candidates errors with
  | Ok stream => exists pre c post, candidates = (pre ++ c :: post)%list /\ connect c = Ok stream /\
                   Forall (fun p => is_ok (connect p) = false) pre
  | Err _ => Forall (fun p => is_ok (connect p) = false) candidates
  end.
Proof.
  revert errors. induction candidates as [|c rest IH]; intros errors; simpl; [constructor|].
  destruct (connect c) as [s|e] eqn:E; [exists [], c, rest; by split|].
  specialize (IH (errors ++ [c +:+ ": " +:+ e])%list). destruct (connect_first _ _ _).
  - destruct IH as (pre & d & post & -> & Hd & Hpre). exists (c :: pre), d, post.
    split; [done|]. split; [done|]. constructor; [by rewrite E|done].
  - constructor; [by rewrite E|done].
Qed.

(** ** Settings and concurrency *)

(** Two commands that both load before either saves: the second save takes the first back. *)
Lemma interleaved_updates_lose_one {float_ok} {CJ : JsonCodec AgentConfig (config_carried float_ok)}
    fault (d : ConfigDisk) (c : AgentConfig) (p : option Z) (l : list SocketAddr) :
  (forall n, fault n = false) -> load_config d = Ok c -> config_carried float_ok c ->
  Forall addr_ok l ->
  let '(d1, r1) := save_config fault (with_bind_port p c) d in
  let '(d2, r2) := save_config fault (with_addresses l c) d1 in
  r1 = Ok tt /\ r2 = Ok tt /\
  exists c', load_config d2 = Ok c' /\ cfg_bind_port c' = cfg_bind_port c.
Proof.
  intros Hf Hl [H1 H2] Ha.
  pose proof (save_config_succeeds fault (with_bind_port p c) d Hf (conj H1 H2)) as Q1.
  destruct (save_config fault (with_bind_port p c) d) as [d1 r1].
  pose proof (save_config_succeeds fault (with_addresses l c) d1 Hf (conj Ha H2)) as Q2.
  pose proof (save_config_cases fault (with_addresses l c) d1) as P2.
  destruct (save_config fault (with_addresses l c) d1) as [d2 r2]. simpl in Q1, Q2. subst r1 r2.
  split; [done|]. split; [done|]. exists (with_addresses l c). split; [|done]. apply P2. by split.
Qed.

(** A machine with as many interface addresses as a viewer keeps hands over none of the
    addresses its operator advertised. *)
Lemma crowded_bundle_drops_advertised observed advertised a :
  NoDup observed -> (MAX_RECORD_DIRECT_ADDRESSES <= length observed)%nat -> ~ In a observed ->
  ~ In a (merged_direct_addresses [] (bundle_direct_addresses observed advertised)).
Proof.
  intros Hn Hl Ha. unfold merged_direct_addresses, bundle_direct_addresses.
  rewrite app_nil_l, fold_left_app.
  rewrite (push_new_fresh observed []) by done. rewrite app_nil_l.
  destruct (push_new_spec advertised observed Hn) as (H1 & [rest E] & _). rewrite E in *.
  rewrite (push_new_fresh _ []) by done. rewrite app_nil_l, take_app_le by done.
  intros Hin%in_take. done.
Qed.

(** ** Concrete requests *)

#[local] Instance no_text {E} : Display E | 100 := fun _ => "error".

Definition demo_paths : AppPaths :=
  {| p_config := "/etc/rackio"; p_data := "/var/lib/rackio"; p_state := "/run/rackio";
     p_log := "/var/log/rackio"; p_local_socket := "/run/rackio/agent.sock" |}.

Definition disk_with (c : AgentConfig) : ConfigDisk :=
  {| cfg_file := match to_vec c with Some b => ReadOk b | None => ReadError end; cfg_ops := 0 |}.

Definition demo_ctx (c : AgentConfig) : LocalContext (J := MetricSample) :=
  {| lc_paths := demo_paths; lc_endpoint_id := 5; lc_z32 := "z"; lc_disk := disk_with c;
     lc_runtime := demo_runtime None empty_registry filled; lc_fleet := empty_fleet;
     lc_rules := default [] (result_ok (alert_rules c)); lc_sampler_running := true |}.

Definition demo_env : LocalEnv (Url := string) :=
  {| le_observed := [SockV4 167772161 7; SockV4 3325256711 41641];
     le_mdns_addresses := [SockV4 167772161 7]; le_random := demo_secret;
     le_now_open := 1000; le_now_snapshots := 1000; le_import := demo_import;
     le_dial := fun _ => TimedOut; le_open_stream := fun _ => TimedOut; le_started := 0 |}.

Definition demo_handle := handle_local (J := MetricSample) never never no_fault never unary_text parse_unary
  (Url := string) (Cert := Z) Some (fun _ => Some [1]) Some (fun _ => true) (fun _ => "")
  (fun _ => Ok tt) demo_env.

Lemma demo_config_loads c : load_config (disk_with c) = Ok c.
Proof.
  unfold load_config, disk_with. cbn [to_vec config_json countable_json cfg_file read_file_or from_slice].
  by rewrite pos_bits_roundtrip, decode_encode.
Qed.

Lemma demo_settings_ok :
  settings_ok (J := MetricSample) Some (fun _ => Some [1]) Some (fun _ : list Z => true) (demo_ctx demo_config).
Proof.
  exists demo_config. split; [apply demo_config_loads|]. split.
  { apply (validate_usable Some (fun _ => Some [1]) Some (fun _ : list Z => true) (fun _ => "")).
    vm_compute. reflexivity. }
  split; [|by vm_compute]. split; repeat constructor; by vm_compute.
Qed.

(** A change, a refused change and a listing, one after the other. *)
Lemma commands_keep_settings_witness :
  settings_ok (J := MetricSample) Some (fun _ => Some [1]) Some (fun _ : list Z => true)
    (run_commands (J := MetricSample) never never no_fault never unary_text parse_unary
       (Url := string) (Cert := Z) Some (fun _ => Some [1]) Some (fun _ => true) (fun _ => "")
       (fun _ => Ok tt) (demo_ctx demo_config)
       [(demo_env, BindPortSet (Some 7)); (demo_env, AdvertiseAddressAdd "host:80");
        (demo_env, Alerts (AlertSet "cpu-saturation-warning" None None (Some (f64_of_Z 80)) None None));
        (demo_env, AdvertiseAddressList)]).
Proof.
  apply (commands_keep_settings (J := MetricSample) never never no_fault never unary_text parse_unary
    (Url := string) (Cert := Z) Some (fun _ => Some [1]) Some (fun _ => true) (fun _ => "") (fun _ => Ok tt)).
  - repeat constructor.
  - apply demo_settings_ok.
Defined.

Lemma config_commands_refine_edits_witness :
  load_config (lc_disk (fst (demo_handle (BindPortSet (Some 7)) (demo_ctx demo_config)))) =
  Ok (with_bind_port (Some 7) demo_config).
Proof.
  pose proof (config_commands_refine_edits (J := MetricSample) never never no_fault never unary_text parse_unary
    (Url := string) (Cert := Z) Some (fun _ => Some [1]) Some (fun _ => true) (fun _ => "") (fun _ => Ok tt)
    demo_env (BindPortSet (Some 7)) (demo_ctx demo_config) demo_config (demo_config_loads demo_config)) as H.
  specialize (H ltac:(split; repeat constructor; by vm_compute) I).
  fold demo_handle in H. destruct (demo_handle (BindPortSet (Some 7)) (demo_ctx demo_config)) as [ctx' r].
  destruct H as (_ & _ & H). apply H. reflexivity.
Defined.

Lemma refused_settings_are_kept_witness :
  kept (demo_ctx demo_config) (fst (demo_handle (BindPortSet (Some 0)) (demo_ctx demo_config))) \/
  exists (a : AlertCommand) (c' : AgentConfig), BindPortSet (Some 0) = Alerts a.
Proof.
  destruct (refused_settings_are_kept (J := MetricSample) never never no_fault never unary_text parse_unary
    (Url := string) (Cert := Z) Some (fun _ => Some [1]) Some (fun _ => true) (fun _ => "") (fun _ => Ok tt)
    demo_env (BindPortSet (Some 0)) (demo_ctx demo_config) demo_config (demo_ctx demo_config)
    (failure "listen port 0 is ephemeral; choose a fixed port or clear the setting")
    (demo_config_loads demo_config) eq_refl eq_refl eq_refl) as [H|(a & c' & E & _)].
  - left. exact H.
  - right. exists a, c'. exact E.
Defined.

(** With thresholds switched off, a rule that cannot be resolved is stored although the change
    is reported as refused, and from then on switching thresholds on is refused. *)
Definition disabled_config : AgentConfig := with_alerts false [] demo_config.

Definition half_rule : LocalCommand := Alerts (AlertSet "my-rule" None None (Some (f64_of_Z 80)) None None).

Definition after_half_rule := demo_handle half_rule (demo_ctx disabled_config).

Lemma refused_rule_is_stored :
  (resp_ok <$> snd after_half_rule) = Some false /\
  ((fun c => map c_id (cfg_alerts c)) <$> result_ok (load_config (lc_disk (fst after_half_rule)))) =
    Some ["my-rule"] /\
  (resp_ok <$> snd (demo_handle (Alerts (AlertsEnabled true)) (fst after_half_rule))) = Some false.
Proof. split; [|split]; vm_compute; reflexivity. Qed.

Lemma created_bundle_is_accepted_witness :
  let '(ctx', r) := demo_handle PairingCreate (demo_ctx demo_config) in
  exists text bundle, (r ≫= resp_data) = Some (VString text) /\ bundle_decode text = Ok bundle /\
    b_direct_addresses bundle = [SockV4 167772161 7; SockV4 3325256711 41641].
Proof.
  destruct (demo_handle PairingCreate (demo_ctx demo_config)) as [ctx' r] eqn:E.
  assert (Hr : exists resp, r = Some resp /\ resp_ok resp = true).
  { assert (Hs : (resp_ok <$> snd (demo_handle PairingCreate (demo_ctx demo_config))) = Some true)
      by (vm_compute; reflexivity).
    rewrite E in Hs. destruct r as [resp|]; [|done]. exists resp. split; [done|]. by injection Hs. }
  destruct Hr as (resp & -> & Hok).
  assert (Hb : is_bytes demo_secret) by (apply Forall_replicate; split; by vm_compute).
  destruct (created_bundle_is_accepted (J := MetricSample) never never no_fault never unary_text parse_unary
    (Url := string) (Cert := Z) Some (fun _ => Some [1]) Some (fun _ => true) (fun _ => "") (fun _ => Ok tt)
    demo_env (demo_ctx demo_config) ctx' resp Hb eq_refl E Hok)
    as (c & bundle & text & Hc & _ & Hd & Hdec & _).
  exists text, bundle. split; [exact Hd|]. split; [exact Hdec|].
  assert (Ht : Some (VString text) = snd (demo_handle PairingCreate (demo_ctx demo_config)) ≫= resp_data).
  { rewrite E. symmetry. exact Hd. }
  vm_compute in Ht. injection Ht as ->. vm_compute in Hdec. by injection Hdec as <-.
Defined.



