(* ===== verification/Fuzz.v ===== *)
(** The fuzz target of pairing bundles: [fuzz/fuzz_targets/pairing_bundle.rs]. The loop of the other target,
    [metric_frame.rs], is [Framing.read_all]. *)

From Stdlib Require Import Ascii String.
From S2P Require Import Prelude Framing Transport Persist Pairing LocalIpc.
Local Open Scope string_scope.
Local Open Scope Z_scope.

Section Fuzz.
Context {ET : EndpointText} {B64 : Base64} {BJ : JsonCodec PairingBundle anything}.
Context {Url : Type} (parse_relay_url : string -> option Url).

(** Both forms of the input, and what the address parser makes of each one that decodes. *)
Definition pairing_bundle_target (data : list Z)
  : list (result (EndpointId * list (RelayOrIp (Url := Url))) PairingError) :=
  if valid_utf8 (length data) data then
    omap (fun candidate => match bundle_decode candidate with
                           | Ok bundle => Some (bundle_endpoint_addr parse_relay_url bundle)
                           | Err _ => None
                           end) [byte_text data; "rackio-pair:" +:+ byte_text data]
  else [].

Lemma byte_text_of_text s : byte_text (text_bytes s) = s.
Proof.
  unfold byte_text, text_bytes. rewrite map_map. rewrite <- (string_of_list_ascii_of_string s) at 2. f_equal.
  rewrite <- (map_id (list_ascii_of_string s)) at 2. apply map_ext. intros c.
  by rewrite Nat2Z.id, ascii_nat_embedding.
Qed.

(** The target reaches the address parser with every bundle there is, from its text and from its
    payload alone: a corpus of either kind exercises both steps. *)
Theorem seeds_reach_addresses (b : PairingBundle) :
  format_version b = 1 ->
  exists payload, bundle_encode b = Ok (SCHEME +:+ payload) /\
    forall s, s = payload \/ s = SCHEME +:+ payload -> valid_utf8 (length (text_bytes s)) (text_bytes s) = true ->
      In (bundle_endpoint_addr parse_relay_url b) (pairing_bundle_target (text_bytes s)).
Proof.
  intros Hv. destruct (encoded_bundle_decodes b Hv) as (t & E & _ & Ed).
  assert (Hp : exists payload, t = SCHEME +:+ payload).
  { unfold bundle_encode in E. destruct (to_vec b) as [bytes|]; [|done]. injection E as <-. by eexists. }
  destruct Hp as [payload ->]. exists payload. split; [done|]. intros s Hs Hu.
  unfold pairing_bundle_target. rewrite Hu, byte_text_of_text. cbn [omap list_omap].
  change "rackio-pair:" with SCHEME.
  destruct Hs as [-> | ->]; rewrite Ed; [|by left].
  destruct (bundle_decode payload); [right|]; by left.
Qed.

End Fuzz.
