(* ===== verification/EndToEnd.v ===== *)
(** Two machines: what the local socket, the server, the client and the framing promise each other,
    put together.

    A pairing starts with a command on one machine and ends with a command on another; a history
    answer starts in one machine's database and ends in another's response. Here those paths are
    followed through every component they cross, over streams to which nothing happens
    ([Link.sound]); what happens to them otherwise is in the components' own properties. *)

From Stdlib Require Import Ascii String.
From stdpp Require Import countable.
From S2P Require Import Prelude BTree Float Model Alert Storage Wire Framing Transport Net Text Persist.
From S2P Require Import Messages Codecs Pairing Mdns Server Remote Fleet Link Config Json LocalIpc.
Local Open Scope string_scope.
Local Open Scope Z_scope.

Section Sessions.
Context {J : Type} {SC : SampleCodec J} (db_fault : nat -> bool).
Context {ET : EndpointText} {B64 : Base64} {RJ : JsonCodec Records anything} (peers_fault : nat -> bool).
Context (uuid_text : Uuid -> string) {MQ : Message Request} {MP : Message Response}.

(** A session: each request has a stream and an environment of its own. *)
Record Session := {
  ss_channel : nat -> Channel;
  ss_env : nat -> Env (J := J);
  ss_paths : list Path;
}.

(** The machine's runtime after the first requests of a session. *)
Fixpoint replay (s : Session) (viewer machine : EndpointId) (k : nat) (bodies : list RequestBody)
    (n : NodeRuntime (J := J)) : NodeRuntime (J := J) :=
  match bodies with
  | [] => n
  | body :: rest =>
      replay s viewer machine (S k) rest
        (fst (client_request db_fault peers_fault uuid_text (ss_channel s k) (ss_env s k) viewer machine (Some body) n))
  end.

(** The connection a viewer gets to a machine, when it sends [bodies] on it in order. *)
Definition session_client (s : Session) (viewer machine : EndpointId) (bodies : list RequestBody)
    (n : NodeRuntime (J := J)) : ClientConnection :=
  {| c_remote_id := machine; c_local_id := viewer; c_paths := ss_paths s;
     answer := fun k body =>
       Done (snd (client_request db_fault peers_fault uuid_text (ss_channel s k) (ss_env s k) viewer machine
                    (Some body) (replay s viewer machine 0 (take k bodies) n))) |}.

(** ** One request *)

Lemma served_pair c env viewer machine pr n p' perms m :
  sound c -> viewer_endpoint_id pr = id_text viewer -> pairing_poisoned n = false ->
  verify_and_consume_at (now_verify env) viewer (one_time_secret pr) (pairing n) = (None, Ok tt) ->
  authorize_preserving peers_fault viewer (now_paired env) (peers n) = (p', Ok perms) ->
  m = mdns_close (pairing_mdns n) ->
  let body := RPair {| accepted := true; p_node_id := uuid_text (node_id (info n)); p_endpoint_id := id_text machine |} in
  fits body -> encoded_len (Some (Pair pr) : Request) <= MAX_FRAME_BYTES ->
  client_request db_fault peers_fault uuid_text c env viewer machine (Some (Pair pr)) n =
    (with_peers p' (with_pairing None m n), Ok (Some body)).
Proof.
  intros Hs Hv Hp Hw Ha -> body Hb Hl.
  assert (E : fst (handle_request db_fault peers_fault uuid_text (write_fails (ch_send c)) env viewer machine
    (Some (Pair pr)) {| rt := n; sent := [] |}) =
    {| rt := with_peers p' (with_pairing None (mdns_close (pairing_mdns n)) n); sent := [body] |}).
  { cbn [handle_request]. unfold handle_pair. rewrite Hv, String.eqb_refl. cbn [negb].
    unfold hbind, hget, hput. cbn [rt]. rewrite Hp, Hw. cbn [is_open rt sent peers with_pairing].
    rewrite Ha. unfold write_response. cbn [rt sent info with_pairing with_peers]. fold body. rewrite (sound_write c [] body Hs Hb). done. }
  rewrite (sound_answer db_fault peers_fault uuid_text c env viewer machine (Some (Pair pr)) n body Hs Hl Hb);
    rewrite E; done.
Qed.

(** The one response of a request that a permitted peer makes in a compatible version. *)
Definition response_to (env : Env (J := J)) (machine : EndpointId) (body : RequestBody) (n : NodeRuntime (J := J))
  : option ResponseBody :=
  match body with
  | GetNodeInfo _ => Some (RNodeInfo (ToWire.node_info uuid_text id_text (info n) machine))
  | GetHealth _ => Some (RHealth (ToWire.health (health n)))
  | GetConnectionPath _ =>
      let d := Server.settle (looks env) in Some (RConnectionPath (ToWire.connection_details (path d) (rtt_ms d)))
  | _ => None
  end.

Lemma served_get c env viewer machine body n b p :
  sound c -> response_to env machine body n = Some b -> version_ok body = true ->
  permissions viewer (peers n) = Ok (Some p) -> read_metrics p = true ->
  fits b -> encoded_len (Some body : Request) <= MAX_FRAME_BYTES ->
  client_request db_fault peers_fault uuid_text c env viewer machine (Some body) n = (n, Ok (Some b)).
Proof.
  intros Hs Hr Hv Hp Hm Hb Hl.
  assert (E : fst (handle_request db_fault peers_fault uuid_text (write_fails (ch_send c)) env viewer machine
    (Some body) {| rt := n; sent := [] |}) = {| rt := n; sent := [b] |}).
  { destruct body as [v|v|q|v|v|pr]; try done; cbn [response_to version_ok] in *; injection Hr as <-;
      cbn [handle_request]; unfold hbind at 1, hget at 1; cbn [rt]; rewrite Hp; cbn [handle_authorized];
      unfold admitted, require_permission, version_is_compatible; rewrite Hm, Hv;
      unfold hbind, hret, hget, write_response; cbn [rt sent];
      rewrite (sound_write c [] _ Hs Hb); done. }
  rewrite (sound_answer db_fault peers_fault uuid_text c env viewer machine (Some body) n b Hs Hl Hb); rewrite E; done.
Qed.

End Sessions.

(** ** Pairing, from the command on the machine to the command on the viewer *)

Section PairingPath.
Context {J : Type} {SC : SampleCodec J} (db_fault : nat -> bool).
Context {ET : EndpointText} {B64 : Base64} {BJ : JsonCodec PairingBundle anything}.
Context {RJ : JsonCodec Records anything} {MJ : JsonCodec Machines machines_finite}.
Context {float_ok : f64 -> Prop} {CJ : JsonCodec AgentConfig (config_carried float_ok)}.
(** The files of the machine, and the viewer's list of machines. *)
Context (peers_fault machines_fault config_fault viewer_fault : nat -> bool).
Context (uuid_text : Uuid -> string) (parse_uuid : string -> option Uuid).
Context {Url Cert : Type} (parse_relay_url : string -> option Url).
Context (read_file : string -> option (list Z)) (pem_sections : list Z -> option (list Cert)).
Context (verifier : list Cert -> bool) (ca_text : RelayCaError -> string).
Context (mdns_spawn : PairingMdnsAdvertisement -> result unit string).
Context {DC : Display PersistError} {DF : Display RemoteFleetError} {DP : Display PairingError}.
Context {DM : Display PairingMdnsError} {DS : Display ServerError} {DQ : Display StoreError}.
Context {MQ : Message Request} {MP : Message Response}.
Context (viewer : EndpointId) (session : Session (J := J)).

(** What an import sends, in order. *)
Definition pair_bodies (b : PairingBundle) : list RequestBody :=
  [Pair {| one_time_secret := b_one_time_secret b; viewer_endpoint_id := id_text viewer |};
   GetNodeInfo current_version; GetHealth current_version; GetConnectionPath current_version].

(** The requests of an import and the machine's answers fit their frames. *)
Definition import_fits (b : PairingBundle) (machine : EndpointId) (n : NodeRuntime (J := J)) : Prop :=
  Forall (fun body => encoded_len (Some body : Request) <= MAX_FRAME_BYTES) (pair_bodies b) /\
  fits (RPair {| accepted := true; p_node_id := uuid_text (node_id (info n)); p_endpoint_id := id_text machine |}) /\
  forall k body r, response_to uuid_text (ss_env session k) machine body n = Some r -> fits r.

(** The machine's runtime once it has authorized the viewer. *)
Definition admitted_runtime (p : PeerRegistry) (n : NodeRuntime (J := J)) : NodeRuntime (J := J) :=
  with_peers p (with_pairing None (mdns_close (pairing_mdns n)) n).

Lemma exchange_over_session b machine n p' ienv :
  (forall k, (k < 4)%nat -> sound (ss_channel session k)) -> import_fits b machine n ->
  (forall u, parse_uuid (uuid_text u) = Some u) ->
  pairing_poisoned n = false -> b_node_id b = node_id (info n) -> b_endpoint_id b = id_text machine ->
  verify_and_consume_at (now_verify (ss_env session 0)) viewer (b_one_time_secret b) (pairing n) = (None, Ok tt) ->
  authorize_preserving peers_fault viewer (now_paired (ss_env session 0)) (peers n) = (p', Ok default_permissions) ->
  permissions viewer p' = Ok (Some default_permissions) ->
  let client := session_client db_fault peers_fault uuid_text session viewer machine (pair_bodies b) n in
  let n' := admitted_runtime p' n in
  (exists snapshot m, pair_exchange (Url := Url) uuid_text parse_uuid ienv b client = Ok (snapshot, m) /\
    s_node snapshot = info n /\ s_state snapshot = state (health n) /\ s_details snapshot = details (health n) /\
    s_path snapshot = path (Server.settle (looks (ss_env session 3))) /\ node m = info n) /\
  replay db_fault peers_fault uuid_text session viewer machine 0 (pair_bodies b) n = n'.
Proof.
  intros Hs (Hq & Hpf & Hrf) Hu Hp Hn He Hw Ha Hperm client n'.
  assert (R0 : client_request db_fault peers_fault uuid_text (ss_channel session 0) (ss_env session 0) viewer machine
    (Some (Pair {| one_time_secret := b_one_time_secret b; viewer_endpoint_id := id_text viewer |})) n =
    (n', Ok (Some (RPair {| accepted := true; p_node_id := uuid_text (node_id (info n));
                            p_endpoint_id := id_text machine |})))).
  { apply served_pair with (perms := default_permissions); try done; [apply Hs; lia|].
    by inversion Hq. }
  assert (Hget : forall k body r, (k < 4)%nat -> response_to uuid_text (ss_env session k) machine body n = Some r ->
    In body (pair_bodies b) -> version_ok body = true ->
    client_request db_fault peers_fault uuid_text (ss_channel session k) (ss_env session k) viewer machine (Some body) n' =
      (n', Ok (Some r))).
  { intros k body r Hk Hr Hin Hv. apply served_get with (p := default_permissions); try done; [by apply Hs|by eapply Hrf|].
    rewrite List.Forall_forall in Hq. by apply Hq. }
  pose proof (Hget 1%nat (GetNodeInfo current_version) _ ltac:(lia) eq_refl ltac:(simpl; tauto) eq_refl) as R1.
  pose proof (Hget 2%nat (GetHealth current_version) _ ltac:(lia) eq_refl ltac:(simpl; tauto) eq_refl) as R2.
  pose proof (Hget 3%nat (GetConnectionPath current_version) _ ltac:(lia) eq_refl ltac:(simpl; tauto) eq_refl) as R3.
  split; [|cbn [pair_bodies replay]; rewrite R0; cbn [fst]; rewrite R1; cbn [fst]; rewrite R2; cbn [fst]; by rewrite R3].
  unfold pair_exchange, get_node_info, get_health, get_connection_path, request.
  cbn [client session_client answer c_local_id pair_bodies take replay fst]. rewrite R0. cbn [fst snd timed map_err result_bind accepted negb p_node_id p_endpoint_id].
  rewrite Hn, He, !String.eqb_refl. cbn [andb negb]. rewrite R1. cbn [fst snd timed map_err result_bind].
  rewrite node_info_crosses_wire by done. cbn [map_err result_bind]. rewrite Z.eqb_refl. cbn [negb].
  rewrite R2. cbn [fst snd timed map_err result_bind]. rewrite R3. cbn [fst snd timed map_err result_bind].
  eexists _, _. split; [reflexivity|]. cbn [s_node s_state s_details s_path node].
  cbn [w_path w_rtt_ms ToWire.connection_details FromWire.health ToWire.health state details w_state w_details].
  by rewrite connection_path_roundtrip, node_state_roundtrip.
Qed.

Lemma import_completes ienv text f b addr client snapshot m :
  fleet_ok f -> (forall n, viewer_fault n = false) ->
  bundle_decode (trim text) = Ok b -> now_valid ienv <= b_expires_at_ms b ->
  b_direct_addresses b <> [] -> bundle_endpoint_addr parse_relay_url b = Ok addr ->
  bt_mem (b_endpoint_id b) (records (f_registry f)) = false -> import_dial ienv addr = Done (Ok client) ->
  id_text (c_remote_id client) = b_endpoint_id b ->
  pair_exchange uuid_text parse_uuid ienv b client = Ok (snapshot, m) -> last_snapshot m = None ->
  exists r u, machines_insert viewer_fault m (f_registry f) = (r, Ok u) /\
    import_pairing viewer_fault uuid_text parse_uuid parse_relay_url ienv text f =
      (spawn_monitor m (insert_snapshot (r_endpoint_id m) snapshot (with_registry r f)), Ok snapshot).
Proof.
  intros (Ht & Hp & Hs & Hf) Hv Hd Hn Ha He Hm Hdial Hid Hx Hl. unfold import_pairing. rewrite Hd. cbn [map_err result_bind].
  unfold validate_bundle. rewrite (proj2 (Z.ltb_ge _ _) Hn). destruct (b_direct_addresses b) as [|a l]; [done|].
  cbn [is_nil andb]. rewrite He. cbn [map_err result_bind]. unfold machines_contains at 1. rewrite Hp, Hm.
  cbn [map_err result_bind]. rewrite Hdial. cbn [timed map_err result_bind].
  rewrite Hid, String.eqb_refl. cbn [negb]. rewrite Hx. unfold machines_insert. rewrite Hp.
  set (next := bt_insert (r_endpoint_id m) m (records (f_registry f))). unfold publish_machines.
  pose proof (publish_succeeds viewer_fault next tt (f_registry f) Hv) as P.
  destruct (publish viewer_fault next tt (f_registry f)) as [r res]. simpl in P. rewrite P; [by eexists _, _|].
  apply finite_insert; [done|]. intros s. by rewrite Hl.
Qed.

Lemma bundle_dials machine b :
  b_endpoint_id b = id_text machine -> Forall (fun u => is_Some (parse_relay_url u)) (b_relay_urls b) ->
  exists addrs, bundle_endpoint_addr parse_relay_url b = Ok (machine, addrs).
Proof.
  intros He Hr. unfold bundle_endpoint_addr. rewrite He, parse_id_text. cbn [ok_or result_bind].
  assert (E : exists l, collect_results (fun u => ok_or (parse_relay_url u) InvalidBundle) (b_relay_urls b) = Ok l).
  { induction Hr as [|u l [x Hx] Hl [r Hr]]; [by eexists|]. simpl. rewrite Hx. simpl. rewrite Hr. by eexists. }
  destruct E as [l ->]. by eexists.
Qed.

(** C2: Pairing works end to end. An operator runs `rackio pair` on a machine and pastes the text it
    prints, give or take white space, into another machine's viewer within five minutes; nothing
    happens to the files and streams involved. Then the import succeeds: the viewer lists the
    machine with exactly its node information, health and connection path and monitors it, and
    the machine has authorized exactly that viewer, with the default permissions, and closed its
    window. *)
Theorem pairing_works_end_to_end menv ctx ctx' resp pasted ienv f :
  is_bytes (le_random menv) -> length (le_random menv) = PAIRING_SECRET_BYTES -> le_observed menv <> [] ->
  handle_local db_fault peers_fault machines_fault config_fault uuid_text parse_uuid parse_relay_url read_file
    pem_sections verifier ca_text mdns_spawn menv PairingCreate ctx = (ctx', Some resp) -> resp_ok resp = true ->
  resp_data resp = Some (VString (trim pasted)) ->
  now_valid ienv <= le_now_open menv + 300000 -> now_verify (ss_env session 0) <= le_now_open menv + 300000 ->
  (forall n, peers_fault n = false) -> permissions viewer (peers (lc_runtime ctx)) = Ok None ->
  (forall k, (k < 4)%nat -> sound (ss_channel session k)) ->
  (forall b, bundle_decode (trim pasted) = Ok b ->
     import_fits b (lc_endpoint_id ctx) (lc_runtime ctx') /\
     import_dial ienv = fun _ => Done (Ok (session_client db_fault peers_fault uuid_text session viewer
                                              (lc_endpoint_id ctx) (pair_bodies b) (lc_runtime ctx')))) ->
  (forall u, parse_uuid (uuid_text u) = Some u) ->
  fleet_ok f -> (forall n, viewer_fault n = false) ->
  bt_mem (id_text (lc_endpoint_id ctx)) (records (f_registry f)) = false ->
  exists f' snapshot m b,
    import_pairing viewer_fault uuid_text parse_uuid parse_relay_url ienv pasted f = (f', Ok snapshot) /\
    s_node snapshot = info (lc_runtime ctx) /\ s_state snapshot = state (health (lc_runtime ctx)) /\
    s_details snapshot = details (health (lc_runtime ctx)) /\
    s_path snapshot = path (Server.settle (looks (ss_env session 3))) /\
    bt_get (id_text (lc_endpoint_id ctx)) (f_snapshots f') = Some snapshot /\
    bt_get (id_text (lc_endpoint_id ctx)) (records (f_registry f')) = Some m /\ node m = info (lc_runtime ctx) /\
    (exists t, In (t, id_text (lc_endpoint_id ctx)) (f_running f')) /\
    bundle_decode (trim pasted) = Ok b /\
    let n' := replay db_fault peers_fault uuid_text session viewer (lc_endpoint_id ctx) 0 (pair_bodies b) (lc_runtime ctx') in
    permissions viewer (peers n') = Ok (Some default_permissions) /\ pairing n' = None /\
    (forall other, other <> viewer -> permissions other (peers n') = permissions other (peers (lc_runtime ctx))).
Proof.
  intros Hb Hlen Hobs Hh Hok Hdata Hvalid Hverify Hpf Hnone Hsound Hnet Hu Hf Hvf Hmem.
  destruct (created_bundle _ _ _ _ _ _ _ _ _ _ _ _ menv ctx ctx' resp Hb Hlen Hh Hok)
    as (c & b & text & md & _ & Husable & Htext & Hdec & Hoff & Hpois & Hrt).
  rewrite Htext in Hdata. injection Hdata as ->. destruct (Hnet b Hdec) as [Hfits Hdial].
  destruct Hoff as (Hnode & Hend & Hrel & _ & Haddr & Hexp & Hacc).
  assert (Hp' : peers (lc_runtime ctx') = peers (lc_runtime ctx) /\ info (lc_runtime ctx') = info (lc_runtime ctx) /\
                health (lc_runtime ctx') = health (lc_runtime ctx) /\ pairing_poisoned (lc_runtime ctx') = false)
    by (rewrite Hrt; by split_and!).
  destruct Hp' as (Ep & Ei & Eh & Epo).
  pose proof (authorize_preserving_cases peers_fault viewer (now_paired (ss_env session 0)) (peers (lc_runtime ctx'))) as A.
  pose proof (authorize_succeeds peers_fault viewer (now_paired (ss_env session 0)) (peers (lc_runtime ctx')) Hpf) as A2.
  rewrite Ep in A, A2. rewrite Hnone in A2.
  destruct (authorize_preserving peers_fault viewer _ _) as [p' [perms|e]] eqn:Ea; [|done].
  destruct A as (A1 & _ & A3 & A4). rewrite (A3 Hnone) in A1, Ea.
  destruct (exchange_over_session b (lc_endpoint_id ctx) (lc_runtime ctx') p' ienv Hsound Hfits Hu Epo) as
    ((snapshot & m & Hx & X1 & X2 & X3 & X4 & X5) & Hreplay); [congruence|done|apply Hacc; lia|congruence|done|].
  destruct (bundle_dials (lc_endpoint_id ctx) b Hend) as [addrs Hd].
  { rewrite Hrel. destruct Husable as (_ & [Hr _] & _). destruct (cfg_relay_url c) as [u|]; [|constructor].
    constructor; [|constructor]. apply not_eq_None_Some. by apply Hr. }
  assert (Hne : b_direct_addresses b <> []).
  { intros E. destruct (le_observed menv) as [|a l]; [done|].
    assert (Hin : In a (b_direct_addresses b)) by (apply Haddr; left; by left). by rewrite E in Hin. }
  destruct (pair_exchange_pins _ _ _ _ _ _ _ Hx) as (_ & P1 & P2 & P3 & P4 & _).
  match type of Hx with pair_exchange _ _ _ _ ?c = _ => set (client := c) in Hx end.
  destruct (import_completes ienv pasted f b _ client snapshot m Hf Hvf Hdec ltac:(lia) Hne Hd) as (r & u & Hi & Himp);
    [by rewrite Hend|by rewrite Hdial|done|done|done|].
  destruct (recorded_import viewer_fault m snapshot f r u Hf P4 Hi) as (R1 & _ & R3 & _ & R4).
  pose proof (proj2 (own_task_runs viewer_fault (r_endpoint_id m) f (f_spawned f) (proj1 Hf)) eq_refl) as R5. rewrite <- R4 in R5.
  apply (f_equal (bt_get (r_endpoint_id m))) in R1, R3. rewrite bt_get_insert_eq in R1. rewrite bt_get_insert_eq in R3.
  rewrite P3, Hend in R1, R3, R5, Himp.
  eexists _, snapshot, m, b. split; [exact Himp|]. rewrite Hreplay, <- Ei, <- Eh. split_and!; try done; first [by eexists|exact A4].
Qed.

End PairingPath.

(** ** History, from one machine's database to another machine's query *)

Section HistoryPath.
Context {J : Type} {SC : SampleCodec J} (db_fault : nat -> bool).
Context {ET : EndpointText} {B64 : Base64} {RJ : JsonCodec Records anything} (peers_fault : nat -> bool).
Context (uuid_text : Uuid -> string) (parse_uuid : string -> option Uuid).
Context {Url : Type} (parse_relay_url : string -> option Url).
Context {MQ : Message Request} {MP : Message Response}.

(** What the viewer reads of an answer, and when. *)
Definition received_stream (instants : nat -> Z) (r : result (list Response * FrameError) TransportError)
  : Timed FrameStream :=
  Done (let? answer := r in
        let '(got, e) := answer in
        Ok (fun k => (instants k, Done (ok_or (got !! k) (Frame e))))).

Lemma history_loop_answer fuel (frames : FrameStream) deadline (ws : list WireSample) n (l : list MetricSample) :
  (length ws < fuel)%nat -> Z.of_nat (length l + length ws) <= MAX_REMOTE_HISTORY_SAMPLES ->
  (forall k, fst (frames k) < deadline) ->
  (forall k w, ws !! k = Some w -> snd (frames (n + k)%nat) = Done (Ok (Some (RMetricSample w)))) ->
  snd (frames (n + length ws)%nat) = Done (Ok (Some RStreamComplete)) ->
  history_loop fuel frames n deadline l = Some (Ok (l ++ (FromWire.metric_sample <$> ws))%list).
Proof.
  revert fuel n l. induction ws as [|w ws IH]; intros fuel n l Hf Hm Hd Hw He; (destruct fuel as [|fuel]; [simpl in Hf; lia|]);
    cbn [history_loop]; pose proof (Hd n) as Hn.
  - simpl in He. rewrite Nat.add_0_r in He. destruct (frames n) as [instant read]. simpl in *. subst read.
    rewrite (proj2 (Z.leb_gt _ _) Hn). simpl. by rewrite app_nil_r.
  - pose proof (Hw 0%nat w eq_refl) as H0. rewrite Nat.add_0_r in H0. destruct (frames n) as [instant read] eqn:En.
    simpl in H0, Hn. subst read. rewrite (proj2 (Z.leb_gt _ _) Hn). cbn [timed map_err]. cbn [length] in Hm.
    rewrite (proj2 (Z.leb_gt _ _)) by lia.
    rewrite (IH fuel (S n) (l ++ [FromWire.metric_sample w])%list).
    + rewrite <- app_assoc. done.
    + simpl in Hf. lia.
    + rewrite length_app. simpl. lia.
    + done.
    + intros k w' Hk. rewrite <- (Hw (S k) w' Hk). f_equal. f_equal. lia.
    + rewrite <- He. f_equal. f_equal. simpl. lia.
Qed.

Lemma sorted_distinct (l : list MetricSample) : StronglySorted Z.lt (timestamp_ms <$> l) -> List.NoDup l.
Proof.
  induction l as [|x l IH]; cbn [fmap list_fmap]; intros H; [constructor|].
  apply StronglySorted_inv in H as [Hl Hx]. constructor; [|by apply IH].
  intros Hin. rewrite List.Forall_forall in Hx. apply (Z.lt_irrefl (timestamp_ms x)), Hx. by apply in_map.
Qed.

Lemma wire_answer (l : list MetricSample) :
  Forall (fun x => sample_finite x = true) l -> FromWire.metric_sample <$> (ToWire.metric_sample <$> l) = l.
Proof. induction 1 as [|x l Hx Hl IH]; [done|]. cbn [fmap list_fmap]. by rewrite finite_sample_crosses, IH. Qed.

Lemma answer_frames (l : list MetricSample) :
  map Some (as_responses l ++ [RStreamComplete])%list =
    (((fun w => Some (RMetricSample w)) <$> (ToWire.metric_sample <$> l)) ++ [Some RStreamComplete])%list.
Proof. unfold as_responses. rewrite map_app. f_equal. induction l as [|x l IH]; [done|]. simpl. by f_equal. Qed.

(** C4: A history query gives the viewer exactly what the machine logged: over a store that holds a log
    of finite samples, a permitted viewer's raw query, when it is answered in time and nothing
    happens to the stream, returns every logged sample of the inclusive range exactly once, in
    time order and bit for bit, however many pages and frames it took. *)
Theorem history_crosses_machines log c env p n registry id m client dial started instants from_ms to_ms :
  (forall k, db_fault k = false) -> consistent log (tables (store n)) ->
  Forall (fun x => sample_finite x = true) log ->
  permissions (c_local_id client) (peers n) = Ok (Some p) -> read_history p = true -> (others env = fun _ st => st) ->
  0 <= to_ms - from_ms <= MAX_HISTORY_RANGE_MS -> i64_min <= from_ms -> to_ms < i64_max ->
  Z.of_nat (length (List.filter (fun x => between from_ms to_ms (timestamp_ms x)) log)) <= MAX_REMOTE_HISTORY_SAMPLES ->
  machines_get id registry = Ok m -> connect_record parse_uuid parse_relay_url dial m = Ok client ->
  sound c -> Forall (fun x => fits (RMetricSample (ToWire.metric_sample x))) log -> fits RStreamComplete ->
  encoded_len (Some (history_request from_ms to_ms Raw) : Request) <= MAX_FRAME_BYTES ->
  (length (frames (sent (fst (handle_request db_fault peers_fault uuid_text (write_fails (ch_send c)) env (c_local_id client) (c_remote_id client)
     (Some (history_request from_ms to_ms Raw)) {| rt := n; sent := [] |})))) <= ch_delivered c)%nat ->
  (forall k, instants k < started + HISTORY_RESPONSE_TIMEOUT) ->
  let open_stream body := received_stream instants
    (snd (exchange db_fault peers_fault uuid_text c env (c_local_id client) (c_remote_id client) (Some body) n)) in
  exists answer,
    query_history parse_uuid parse_relay_url dial open_stream started registry id from_ms to_ms Raw = Some (Ok answer) /\
    StronglySorted Z.lt (timestamp_ms <$> answer) /\
    (forall x, In x answer <-> In x log /\ from_ms <= timestamp_ms x <= to_ms).
Proof.
  intros Hdb Hlog Hfin Hperm Hp Hothers Hrange Hmin Hmax Hcount Hreg Hconn Hs Hfits Hdone Hlen Hdel Hin open_stream.
  set (q := {| q_from_ms := from_ms; q_to_ms := to_ms; q_resolution := 1; q_protocol := Some current_version |}).
  destruct (history_answered db_fault (write_fails (ch_send c)) log p q {| rt := n; sent := [] |})
    as (answer & s' & Hh & Hsent & Hsorted & Hans); try done; [|by intros h; apply sound_write|simpl; lia|].
  { rewrite List.Forall_forall in *. intros x Hx h. by apply sound_write, Hfits. }
  assert (Eh : fst (handle_request db_fault peers_fault uuid_text (write_fails (ch_send c)) env (c_local_id client) (c_remote_id client)
     (Some (history_request from_ms to_ms Raw)) {| rt := n; sent := [] |}) = s').
  { cbn [handle_request history_request]. unfold hbind, hget. cbn [rt]. rewrite Hperm.
    change (history_request from_ms to_ms Raw) with (Wire.QueryHistory q). cbn [handle_authorized].
    by rewrite Hothers, Hh. }
  rewrite Eh, Hsent in Hdel. cbn [sent app] in Hsent. exists answer. split; [|by split].
  unfold query_history. replace (history_range_ok from_ms to_ms) with true.
  2: { symmetry. unfold history_range_ok, MAX_HISTORY_RANGE_MS in *. rewrite andb_true_iff, !negb_true_iff, !Z.ltb_ge.
       width_lia. }
  cbn [negb]. rewrite Hreg, Hconn. unfold open_stream, received_stream.
  destruct (full_exchange db_fault peers_fault uuid_text c env (c_local_id client) (c_remote_id client) (Some (history_request from_ms to_ms Raw)) n)
    as [e ->]; [by apply so_ok|by apply so_time|by apply sound_stream|by rewrite Eh, Hsent|].
  cbn [snd result_bind timed map_err]. rewrite Eh, Hsent.
  assert (Hl : Z.of_nat (length answer) <= MAX_REMOTE_HISTORY_SAMPLES).
  { etransitivity; [|exact Hcount]. apply inj_le. apply NoDup_incl_length.
    - by apply sorted_distinct.
    - intros x Hx. apply Hans in Hx as [H1 H2]. apply filter_In. split; [done|]. subst q. simpl in H2. unfold between. lia. }
  rewrite (history_loop_answer history_loop_fuel _ _ (ToWire.metric_sample <$> answer) 0 []).
  - do 2 f_equal. rewrite app_nil_l. apply wire_answer. apply List.Forall_forall. intros x Hx.
    apply Hans in Hx as [Hx _]. rewrite List.Forall_forall in Hfin. auto.
  - rewrite length_fmap. unfold history_loop_fuel. lia.
  - rewrite length_fmap. simpl. lia.
  - done.
  - intros k w Hk. cbn [snd Nat.add]. rewrite answer_frames, lookup_app_l by (rewrite length_fmap; eauto using lookup_lt_Some).
    by rewrite list_lookup_fmap, Hk.
  - cbn [snd Nat.add]. rewrite answer_frames, list_lookup_middle; [done|]. by rewrite !length_fmap.
Qed.

End HistoryPath.

(** ** Witnesses *)

#[local] Existing Instance no_text | 100.

Definition demo_session : Session (J := MetricSample) :=
  {| ss_channel := fun _ => quiet_channel (Z.to_nat (4 + MAX_FRAME_BYTES)); ss_env := fun _ => Server.demo_env;
     ss_paths := [] |}.

Lemma demo_session_sound k : sound (ss_channel demo_session k).
Proof. apply quiet_channel_sound. rewrite Z2Nat.id; [done|]. by vm_compute. Qed.

(** The machine after `rackio pair`, and what it printed. *)
Definition paired_machine := demo_handle PairingCreate (demo_ctx demo_config).

Definition printed_text : string :=
  match snd paired_machine ≫= resp_data with Some (VString text) => text | _ => "" end.

Definition printed_bundle : PairingBundle :=
  match bundle_decode printed_text with Ok b => b | Err _ => demo_bundle end.

(** A viewer on another machine imports it with a trailing blank. *)
Definition session_import : ImportEnv (Url := string) :=
  {| now_valid := 10; now_seen := 11; now_recorded := 12;
     import_dial := fun _ => Done (Ok (session_client never never unary_text demo_session 3
       (lc_endpoint_id (demo_ctx demo_config)) (pair_bodies 3 printed_bundle) (lc_runtime (fst paired_machine)))) |}.

Lemma demo_import_fits :
  import_fits unary_text 3 demo_session printed_bundle (lc_endpoint_id (demo_ctx demo_config))
    (lc_runtime (fst paired_machine)).
Proof.
  split; [repeat constructor; by vm_compute|]. split; [by vm_compute|].
  intros k [v|v|q|v|v|pr] r; cbn [response_to]; intros [= <-]; by vm_compute.
Qed.

Lemma pairing_works_end_to_end_witness :
  exists f' snapshot, import_pairing no_fault unary_text parse_unary Some session_import (printed_text ++ " ") empty_fleet =
    (f', Ok snapshot) /\ s_node snapshot = demo_info.
Proof.
  assert (Hd : bundle_decode (trim (printed_text ++ " ")) = Ok printed_bundle) by (vm_compute; reflexivity).
  destruct paired_machine as [ctx' [resp|]] eqn:E; [|by vm_compute in E].
  assert (Hresp : resp_ok resp = true /\ resp_data resp = Some (VString (trim (printed_text ++ " ")))).
  { change resp with (default resp (snd (ctx', Some resp))). rewrite <- E. split; vm_compute; reflexivity. }
  destruct (pairing_works_end_to_end (J := MetricSample) never never no_fault never no_fault unary_text parse_unary
    (Url := string) (Cert := Z) Some (fun _ => Some [1]) Some (fun _ => true) (fun _ => "") (fun _ => Ok tt)
    3 demo_session LocalIpc.demo_env (demo_ctx demo_config) ctx' resp (printed_text ++ " ") session_import empty_fleet)
    as (f' & snapshot & _ & _ & H1 & H2 & _).
  - apply Forall_replicate; split; by vm_compute.
  - reflexivity.
  - discriminate.
  - exact E.
  - apply Hresp.
  - apply Hresp.
  - by vm_compute.
  - by vm_compute.
  - reflexivity.
  - vm_compute. reflexivity.
  - intros k _. apply demo_session_sound.
  - intros b Hb. rewrite Hd in Hb. injection Hb as <-. replace ctx' with (fst paired_machine) by (by rewrite E).
    split; [apply demo_import_fits|reflexivity].
  - exact parse_unary_text.
  - exact empty_fleet_ok.
  - reflexivity.
  - vm_compute. reflexivity.
  - exists f', snapshot. split; [exact H1|exact H2].
Defined.

Definition history_stream (body : RequestBody) : Timed FrameStream :=
  received_stream (fun _ => 0) (snd (exchange never never unary_text (ss_channel demo_session 0) Server.demo_env 3 3
    (Some body) paired_runtime)).

Definition history_client : ClientConnection :=
  {| c_remote_id := 3; c_local_id := 3; c_paths := []; answer := answer demo_client |}.

Lemma history_crosses_machines_witness :
  exists answer, query_history parse_unary (fun u : string => Some u) (fun _ => Done (Ok history_client)) history_stream
    0 paired_registry "111" 0 100000 Raw = Some (Ok answer) /\
    (forall x, In x answer <-> In x two_samples /\ 0 <= timestamp_ms x <= 100000).
Proof.
  destruct (history_crosses_machines never never unary_text parse_unary (fun u : string => Some u) two_samples
    (ss_channel demo_session 0) Server.demo_env default_permissions paired_runtime paired_registry "111" demo_record history_client
    (fun _ => Done (Ok history_client)) 0 (fun _ => 0) 0 100000) as (answer & H1 & _ & H2).
  - reflexivity.
  - exact two_samples_consistent.
  - repeat constructor.
  - vm_compute. reflexivity.
  - reflexivity.
  - reflexivity.
  - by vm_compute.
  - by vm_compute.
  - by vm_compute.
  - by vm_compute.
  - vm_compute. reflexivity.
  - vm_compute. reflexivity.
  - apply demo_session_sound.
  - repeat constructor; by vm_compute.
  - by vm_compute.
  - by vm_compute.
  - change (ch_delivered _) with (Z.to_nat (4 + MAX_FRAME_BYTES)). apply Nat2Z.inj_le.
    rewrite Z2Nat.id; by vm_compute.
  - intros k. by vm_compute.
  - exists answer. split; [exact H1|exact H2].
Defined.
