(* ===== verification/WindowsIpc.v ===== *)
(** The Windows named pipe: [crates/rackio-windows-ipc/src/lib.rs], and the Windows halves of
    [apps/agent/src/runtime/local_ipc.rs] and [apps/desktop/src-tauri/src/daemon.rs].

    Windows itself is behind [Win32]: account lookup, SID and descriptor conversion, pipe
    creation, and the thread's token. What matters about the token is modelled as state: a thread
    runs as the daemon or, between impersonating and reverting, as the client; a membership check
    is made with whatever token the thread has at that moment. *)

From Stdlib Require Import Ascii String.
From S2P Require Import Prelude Text BTree Float Model Alert Storage Framing Transport Net Persist.
From S2P Require Import Codecs Pairing Mdns Server Remote Fleet Config Json LocalIpc.
Local Open Scope string_scope.
Local Open Scope Z_scope.

(** ** Text *)

Module Wide.

Ltac div_lia := Z.to_euclidean_division_equations; width_lia.

(** The characters a Rust string can hold. *)
Definition scalar (c : Z) : bool :=
  (0 <=? c) && (c <? 1114112) && negb ((55296 <=? c) && (c <=? 57343)).

Definition utf8_char (c : Z) : list Z :=
  if c <? 128 then [c]
  else if c <? 2048 then [192 + c / 64; 128 + c mod 64]
  else if c <? 65536 then [224 + c / 4096; 128 + (c / 64) mod 64; 128 + c mod 64]
  else [240 + c / 262144; 128 + (c / 4096) mod 64; 128 + (c / 64) mod 64; 128 + c mod 64].

Definition utf8 (s : list Z) : string := byte_text (concat (map utf8_char s)).

(** The characters of a string's bytes; those of a Rust string are always well formed. *)
Fixpoint chars_of (fuel : nat) (l : list Z) : list Z :=
  match fuel with
  | O => []
  | S fuel =>
      match l with
      | [] => []
      | a :: l1 =>
          if a <? 128 then a :: chars_of fuel l1
          else match l1 with
          | [] => []
          | b :: l2 =>
              if a <? 224 then (a - 192) * 64 + (b - 128) :: chars_of fuel l2
              else match l2 with
              | [] => []
              | c :: l3 =>
                  if a <? 240 then (a - 224) * 4096 + (b - 128) * 64 + (c - 128) :: chars_of fuel l3
                  else match l3 with
                  | [] => []
                  | d :: l4 =>
                      (a - 240) * 262144 + (b - 128) * 4096 + (c - 128) * 64 + (d - 128) :: chars_of fuel l4
                  end
              end
          end
      end
  end.

Definition chars (s : string) : list Z := let b := text_bytes s in chars_of (length b) b.

(** [encode_wide]. *)
Definition utf16_char (c : Z) : list Z :=
  if c <? 65536 then [c] else [55296 + (c - 65536) / 1024; 56320 + (c - 65536) mod 1024].

Definition wide (value : string) : list Z := (concat (map utf16_char (chars value)) ++ [0])%list.

(** [String::from_utf16]: an unpaired surrogate is an error. *)
Fixpoint from_utf16 (l : list Z) : option (list Z) :=
  match l with
  | [] => Some []
  | u :: rest =>
      if (55296 <=? u) && (u <=? 56319) then
        match rest with
        | v :: rest =>
            if (56320 <=? v) && (v <=? 57343)
            then cons (65536 + (u - 55296) * 1024 + (v - 56320)) <$> from_utf16 rest
            else None
        | [] => None
        end
      else if (56320 <=? u) && (u <=? 57343) then None
      else cons u <$> from_utf16 rest
  end.

Fixpoint until_nul (l : list Z) : list Z :=
  match l with [] => [] | u :: rest => if u =? 0 then [] else u :: until_nul rest end.

Inductive IoError := NullString | BadUtf16 | LastOsError (code : option Z) | InvalidName (text : string)
  | PipeTimedOut | NotAMember.

(** A null pointer is [None]. *)
Definition wide_ptr_to_string (value : option (list Z)) : result string IoError :=
  match value with
  | None => Err NullString
  | Some units => let? l := ok_or (from_utf16 (until_nul units)) BadUtf16 in Ok (utf8 l)
  end.

Lemma scalar_spec c : scalar c = true <-> 0 <= c < 1114112 /\ ~ (55296 <= c <= 57343).
Proof. unfold scalar. rewrite !andb_true_iff, negb_true_iff, andb_false_iff. lia. Qed.

Lemma utf8_char_bytes c : scalar c = true -> is_bytes (utf8_char c).
Proof.
  intros H%scalar_spec. unfold utf8_char, is_bytes.
  destruct (Z.ltb_spec c 128), (Z.ltb_spec c 2048), (Z.ltb_spec c 65536); repeat apply List.Forall_cons;
    try apply List.Forall_nil; div_lia.
Qed.

Lemma chars_of_char c fuel rest :
  scalar c = true -> chars_of (S fuel) (utf8_char c ++ rest)%list = c :: chars_of fuel rest.
Proof.
  intros H%scalar_spec. unfold utf8_char.
  destruct (Z.ltb_spec c 128); [cbn [app chars_of]; by rewrite (proj2 (Z.ltb_lt c 128))|].
  destruct (Z.ltb_spec c 2048).
  { cbn [app chars_of]. rewrite (proj2 (Z.ltb_ge (192 + c / 64) 128)), (proj2 (Z.ltb_lt (192 + c / 64) 224)) by div_lia.
    f_equal. div_lia. }
  destruct (Z.ltb_spec c 65536).
  { cbn [app chars_of]. rewrite (proj2 (Z.ltb_ge (224 + c / 4096) 128)), (proj2 (Z.ltb_ge (224 + c / 4096) 224)),
      (proj2 (Z.ltb_lt (224 + c / 4096) 240)) by div_lia. f_equal. div_lia. }
  cbn [app chars_of]. rewrite (proj2 (Z.ltb_ge (240 + c / 262144) 128)), (proj2 (Z.ltb_ge (240 + c / 262144) 224)),
    (proj2 (Z.ltb_ge (240 + c / 262144) 240)) by div_lia. f_equal. div_lia.
Qed.

Lemma chars_of_utf8 s fuel :
  Forall (fun c => scalar c = true) s -> (length s <= fuel)%nat -> chars_of fuel (concat (map utf8_char s)) = s.
Proof.
  intros H. revert fuel. induction H as [|c s Hc Hs IH]; intros fuel Hf; [by destruct fuel|].
  destruct fuel as [|fuel]; simpl in Hf; [lia|]. cbn [map concat]. rewrite chars_of_char by done.
  f_equal. apply IH. lia.
Qed.

Lemma utf8_length s : (length s <= length (concat (map utf8_char s)))%nat.
Proof.
  induction s as [|c s IH]; simpl; [lia|]. rewrite length_app.
  assert (1 <= length (utf8_char c))%nat by (unfold utf8_char; repeat case_match; simpl; lia). lia.
Qed.

Lemma chars_utf8 s : Forall (fun c => scalar c = true) s -> chars (utf8 s) = s.
Proof.
  intros H. unfold chars, utf8. rewrite text_bytes_roundtrip.
  - apply chars_of_utf8; [done|apply utf8_length].
  - clear -H. induction H as [|c s Hc Hs IH]; simpl; [constructor|]. apply Forall_app.
    split; [by apply utf8_char_bytes|done].
Qed.

Lemma from_utf16_char c rest :
  scalar c = true -> from_utf16 (utf16_char c ++ rest)%list = cons c <$> from_utf16 rest.
Proof.
  intros H%scalar_spec. unfold utf16_char. destruct (Z.ltb_spec c 65536); cbn [app from_utf16].
  - destruct (Z.leb_spec 55296 c), (Z.leb_spec c 56319), (Z.leb_spec 56320 c), (Z.leb_spec c 57343); done || div_lia.
  - rewrite (proj2 (Z.leb_le 55296 _)), (proj2 (Z.leb_le (55296 + _) 56319)), (proj2 (Z.leb_le 56320 _)),
      (proj2 (Z.leb_le (56320 + _) 57343)) by div_lia. cbn [andb].
    replace (65536 + (55296 + (c - 65536) / 1024 - 55296) * 1024 + (56320 + (c - 65536) mod 1024 - 56320)) with c by div_lia.
    done.
Qed.

Lemma until_nul_wide s :
  Forall (fun c => scalar c = true /\ c <> 0) s ->
  until_nul (concat (map utf16_char s) ++ [0])%list = concat (map utf16_char s).
Proof.
  induction 1 as [|c s [Hc Hz] Hs IH]; [done|]. apply scalar_spec in Hc. cbn [map concat]. unfold utf16_char at 1 3.
  destruct (Z.ltb_spec c 65536); cbn [app until_nul].
  - rewrite (proj2 (Z.eqb_neq c 0)) by done. by rewrite IH.
  - rewrite !(proj2 (Z.eqb_neq _ 0)) by div_lia. by rewrite IH.
Qed.

(** A text without a NUL survives the conversion to and from Windows's strings; what follows a
    NUL does not. *)
Theorem wide_roundtrip (s : list Z) :
  Forall (fun c => scalar c = true /\ c <> 0) s ->
  wide_ptr_to_string (Some (wide (utf8 s))) = Ok (utf8 s).
Proof.
  intros H. unfold wide_ptr_to_string, wide.
  assert (Hs : Forall (fun c => scalar c = true) s) by (revert H; apply List.Forall_impl; by intros ? []).
  rewrite chars_utf8, until_nul_wide by done.
  assert (E : from_utf16 (concat (map utf16_char s)) = Some s); [|by rewrite E].
  clear H. induction Hs as [|c s Hc Hs IH]; [done|]. cbn [map concat]. by rewrite from_utf16_char, IH.
Qed.

End Wide.

Import Wide.

(** ** The pipe's name *)

Definition PIPE_SDDL_PREFIX : string := "D:P(A;;GA;;;SY)(A;;GA;;;BA)(A;;0x100183;;;".
Definition PIPE_ROOT : string := "\\.\pipe\".
Definition DEFAULT_PIPE_NAME : string := "\\.\pipe\rackio-agent".
Definition VIEWER_GROUP_NAME : string := "Rackio Viewers".

(** [rackio_pipe] is the variable's value if it is set and is Unicode. *)
Definition configured_pipe_name (rackio_pipe : option string) : result string IoError :=
  let name := default DEFAULT_PIPE_NAME rackio_pipe in
  let? suffix := ok_or (strip_prefix PIPE_ROOT name) (InvalidName "RACKIO_PIPE must start with \\.\pipe\") in
  if String.eqb suffix "" || has_char "\" suffix || has_char "/" suffix
  then Err (InvalidName "RACKIO_PIPE must contain one non-empty local pipe name")
  else Ok name.

(** ** The client *)

Definition ERROR_FILE_NOT_FOUND : Z := 2.
Definition ERROR_PIPE_BUSY : Z := 231.
Definition ERROR_INSUFFICIENT_BUFFER : Z := 122.
Definition FILE_READ_DATA : Z := 1.
Definition FILE_WRITE_DATA : Z := 2.
Definition FILE_CREATE_PIPE_INSTANCE : Z := 4.
Definition FILE_READ_ATTRIBUTES : Z := 128.
Definition FILE_WRITE_ATTRIBUTES : Z := 256.
Definition SYNCHRONIZE : Z := 1048576.

Definition desired_access : Z :=
  Z.lor (Z.lor (Z.lor (Z.lor FILE_READ_DATA FILE_WRITE_DATA) FILE_READ_ATTRIBUTES) FILE_WRITE_ATTRIBUTES)
    SYNCHRONIZE.

Definition CONNECT_ATTEMPTS : nat := 20.
Definition RETRY_DELAY_MS : Z := 50.

Definition retryable (code : option Z) : bool :=
  match code with Some c => (c =? ERROR_PIPE_BUSY) || (c =? ERROR_FILE_NOT_FOUND) | None => false end.

(** [open n] is what opening the pipe does the [n]-th time: a client or the error's code. The
    second result is how long was slept. *)
Fixpoint connect_from {C} (open : nat -> result C (option Z)) (tries attempt : nat) (slept : Z)
  : result C IoError * Z :=
  match tries with
  | O => (Err PipeTimedOut, slept)
  | S tries =>
      match open attempt with
      | Ok client => (Ok client, slept)
      | Err code =>
          if (attempt <? 19)%nat && retryable code
          then connect_from open tries (S attempt) (slept + RETRY_DELAY_MS)
          else (Err (LastOsError code), slept)
      end
  end.

Definition connect_client {C} (open : nat -> result C (option Z)) : result C IoError * Z :=
  connect_from open CONNECT_ATTEMPTS 0 0.

Lemma strip_prefix_Some pre s rest : strip_prefix pre s = Some rest <-> s = pre +:+ rest.
Proof.
  split; [|intros ->; apply strip_prefix_append]. intros E.
  assert (Hp : starts_with pre s = true) by (unfold strip_prefix in E; by destruct (starts_with pre s)).
  destruct (prefix_exists pre s Hp) as [t ->]. rewrite strip_prefix_append in E. by injection E as ->.
Qed.

(** A pipe's name is accepted exactly when it is one non-empty component directly under the local
    machine's pipe root: not another machine's, not a path. *)
Theorem pipe_name_is_local (rackio_pipe : option string) (name : string) :
  configured_pipe_name rackio_pipe = Ok name <->
  name = default DEFAULT_PIPE_NAME rackio_pipe /\
  exists suffix, name = PIPE_ROOT +:+ suffix /\ suffix <> "" /\
    has_char "\" suffix = false /\ has_char "/" suffix = false.
Proof.
  unfold configured_pipe_name. set (n := default DEFAULT_PIPE_NAME rackio_pipe). split.
  - destruct (strip_prefix PIPE_ROOT n) as [suffix|] eqn:E; [|done]. cbn [ok_or result_bind].
    apply strip_prefix_Some in E. destruct (String.eqb_spec suffix ""); [done|].
    destruct (has_char "\" suffix) eqn:H1; [done|]. destruct (has_char "/" suffix) eqn:H2; [done|].
    intros [= <-]. split; [done|]. by exists suffix.
  - intros [-> (suffix & E & H1 & H2 & H3)]. apply strip_prefix_Some in E. rewrite E. cbn [ok_or result_bind].
    rewrite H2, H3. by destruct (String.eqb_spec suffix "").
Qed.

Lemma connect_from_spec {C} (open : nat -> result C (option Z)) tries attempt slept :
  (attempt + tries = 20)%nat -> (1 <= tries)%nat ->
  exists k, (attempt <= k < 20)%nat /\
    (forall i, (attempt <= i < k)%nat -> exists code, open i = Err code /\ retryable code = true) /\
    connect_from open tries attempt slept =
      (map_err LastOsError (open k), slept + RETRY_DELAY_MS * Z.of_nat (k - attempt)) /\
    (forall code, open k = Err code -> k = 19%nat \/ retryable code = false).
Proof.
  revert attempt slept. induction tries as [|tries IH]; intros attempt slept Ha Ht; [lia|]. cbn [connect_from].
  assert (Hhere : forall r, open attempt = r -> (forall code, r = Err code -> attempt = 19%nat \/ retryable code = false) ->
    exists k, (attempt <= k < 20)%nat /\
    (forall i, (attempt <= i < k)%nat -> exists code, open i = Err code /\ retryable code = true) /\
    (map_err LastOsError r, slept) = (map_err LastOsError (open k), slept + RETRY_DELAY_MS * Z.of_nat (k - attempt)) /\
    (forall code, open k = Err code -> k = 19%nat \/ retryable code = false)).
  { intros r Hr Hc. exists attempt. rewrite Hr. split; [lia|]. split; [lia|]. split; [f_equal; lia|done]. }
  destruct (open attempt) as [client|code] eqn:Ho; [by apply (Hhere _ eq_refl)|].
  destruct (Nat.ltb_spec attempt 19), (retryable code) eqn:Hr; cbn [andb];
    try (apply (Hhere _ eq_refl); intros ? [= <-]; (by right) || (left; lia)).
  destruct (IH (S attempt) (slept + RETRY_DELAY_MS)) as (k & H1 & H2 & H3 & H4); [lia|lia|].
  exists k. split; [lia|]. split.
  - intros i Hi. destruct (decide (i = attempt)) as [->|]; [eauto|apply H2; lia].
  - split; [|done]. rewrite H3. f_equal. unfold RETRY_DELAY_MS. lia.
Qed.

(** Connecting tries at most twenty times and sleeps less than a second in all, less than a
    request's own timeout: it returns the first client that opens, or the error of the attempt it
    stopped at, which is the last one or one that retrying does not help. *)
Theorem client_connects_within_a_second {C} (open : nat -> result C (option Z)) :
  exists k, (k < 20)%nat /\
    (forall i, (i < k)%nat -> exists code, open i = Err code /\ retryable code = true) /\
    connect_client open = (map_err LastOsError (open k), 50 * Z.of_nat k) /\
    (forall code, open k = Err code -> k = 19%nat \/ retryable code = false).
Proof.
  destruct (connect_from_spec open 20 0 0) as (k & H1 & H2 & H3 & H4); [lia|lia|].
  exists k. split; [lia|]. split; [intros i Hi; apply H2; lia|]. split; [|done].
  unfold connect_client, CONNECT_ATTEMPTS. rewrite H3. by rewrite Nat.sub_0_r.
Qed.

(** Lower-case hexadecimal. *)
Fixpoint hex_digits (fuel : nat) (z : Z) (acc : string) : string :=
  match fuel with
  | O => acc
  | S fuel =>
      let d := z mod 16 in
      let acc := String (ascii_of_nat (Z.to_nat (if d <? 10 then 48 + d else 87 + d))) acc in
      if z <? 16 then acc else hex_digits fuel (z / 16) acc
  end.

(** The viewers' entry of the pipe's access list is exactly what a client asks for, and does not
    include creating another instance of the pipe, with which one could pose as the daemon. *)
Lemma viewers_get_what_clients_ask :
  PIPE_SDDL_PREFIX = "D:P(A;;GA;;;SY)(A;;GA;;;BA)(A;;0x" +:+ hex_digits 8 desired_access "" +:+ ";;;" /\
  Z.land desired_access FILE_CREATE_PIPE_INSTANCE = 0.
Proof. split; vm_compute; reflexivity. Qed.

(** ** The server's security *)

(** A SID is its bytes. *)
Definition Sid : Type := list Z.

(** Who a thread or a client is. *)
Record Token := { groups : list Sid }.

Section Security.
Context {Descriptor Pipe : Type}.

(** What Windows provides. [lookup_sizes] is the first call of [LookupAccountNameW] with its last
    error and the sizes it asks for, [lookup_fill] the second, with the buffer it fills. A call that
    fails leaves an error code. *)
Record Win32 := {
  lookup_sizes : list Z -> Z * Z * Z;
  lookup_fill : list Z -> Z -> Z -> result Sid Z;
  convert_sid : Sid -> result (option (list Z)) Z;
  convert_sddl : list Z -> result Descriptor Z;
  administrators : result (Sid * Z) Z;
  create_pipe : Descriptor -> bool -> bool -> string -> result Pipe Z;
}.
Context (win : Win32).

Definition os_error (code : Z) : IoError := LastOsError (Some code).

Definition lookup_account_sid (name : string) : result Sid IoError :=
  let '(error, sid_size, domain_size) := lookup_sizes win (wide name) in
  if negb (error =? ERROR_INSUFFICIENT_BUFFER) then Err (os_error error)
  else map_err os_error (lookup_fill win (wide name) sid_size domain_size).

Definition sid_to_string (sid : Sid) : result string IoError :=
  let? value := map_err os_error (convert_sid win sid) in wide_ptr_to_string value.

Definition security_descriptor (sddl : string) : result Descriptor IoError :=
  map_err os_error (convert_sddl win (wide sddl)).

(** The buffer is of the largest size and cut to what was written. *)
Definition administrators_well_known_sid : result Sid IoError :=
  let? r := map_err os_error (administrators win) in
  let '(sid, size) := r in Ok (take (Z.to_nat size) sid).

Record PipeSecurity := {
  descriptor : Descriptor;
  viewer_group_sid : Sid;
  administrators_sid : Sid;
}.

Definition pipe_sddl (sid : string) : string := PIPE_SDDL_PREFIX +:+ sid +:+ ")".

Definition for_local_group (group_name : string) : result PipeSecurity IoError :=
  let? viewers := lookup_account_sid group_name in
  let? sid := sid_to_string viewers in
  let? d := security_descriptor (pipe_sddl sid) in
  let? admins := administrators_well_known_sid in
  Ok {| descriptor := d; viewer_group_sid := viewers; administrators_sid := admins |}.

(** [first]: refuse if another process has the name. Remote clients are always rejected. *)
Definition create_server (security : PipeSecurity) (first : bool) (pipe_name : string) : result Pipe IoError :=
  map_err os_error (create_pipe win (descriptor security) first true pipe_name).

(** ** Verifying the caller *)

(** The worker thread: as whom it runs while it impersonates someone. *)
Definition Thread : Type := option Token.

(** What the three token calls do for this caller: their error codes, if they fail. *)
Record TokenCalls := {
  impersonate_fails : option Z;
  membership_fails : Sid -> option Z;
  revert_fails : option Z;
}.

(** [CheckTokenMembership] with a null token: the thread's own. *)
Definition token_is_member (calls : TokenCalls) (self : Token) (thread : Thread) (sid : Sid) : result bool IoError :=
  match membership_fails calls sid with
  | Some code => Err (os_error code)
  | None => Ok (bool_decide (sid ∈ groups (default self thread)))
  end.

(** [None] is the process aborting. [self] is the daemon's own token. *)
Definition verify_client_after_read (security : PipeSecurity) (calls : TokenCalls) (self client : Token)
    (thread : Thread) : option (Thread * result unit IoError) :=
  match impersonate_fails calls with
  | Some code => Some (thread, Err (os_error code))
  | None =>
      let thread : Thread := Some client in
      let authorized :=
        let? viewer := token_is_member calls self thread (viewer_group_sid security) in
        if viewer then Ok true else token_is_member calls self thread (administrators_sid security) in
      match revert_fails calls with
      | Some _ => None
      | None =>
          Some (None, let? ok := authorized in if ok : bool then Ok tt else Err NotAMember)
      end
  end.

(** Verifying is about the caller and leaves no trace on the thread: unless the process aborts,
    a thread that was the daemon's is the daemon's again, and the caller is accepted exactly
    when its own token, not the daemon's, is a member of the viewers or the administrators. *)
Lemma verify_spec security calls self client thread' r :
  verify_client_after_read security calls self client None = Some (thread', r) ->
  thread' = None /\
  (r = Ok tt <->
   impersonate_fails calls = None /\ membership_fails calls (viewer_group_sid security) = None /\
   (viewer_group_sid security ∈ groups client \/
    membership_fails calls (administrators_sid security) = None /\ administrators_sid security ∈ groups client)).
Proof.
  unfold verify_client_after_read. destruct (impersonate_fails calls); [by intros [= <- <-]; split; [|intuition congruence]|].
  destruct (revert_fails calls); [done|]. intros [= <- <-]. split; [done|]. unfold token_is_member. cbn [default].
  destruct (membership_fails calls (viewer_group_sid security)); [cbn; intuition congruence|]. cbn [result_bind].
  case_bool_decide as Hv; [cbn; intuition congruence|].
  destruct (membership_fails calls (administrators_sid security)); [cbn; intuition congruence|]. cbn [result_bind].
  case_bool_decide as Ha; intuition congruence.
Qed.

End Security.

(** ** The listener *)

Section Listener.
Context {J : Type} {SC : SampleCodec J} (db_fault : nat -> bool).
Context {ET : EndpointText} {B64 : Base64} {BJ : JsonCodec PairingBundle anything}.
Context {RJ : JsonCodec Records anything} {MJ : JsonCodec Machines machines_finite}.
Context {float_ok : f64 -> Prop} {CJ : JsonCodec AgentConfig (config_carried float_ok)}.
Context (peers_fault machines_fault config_fault : nat -> bool).
Context (uuid_text : Uuid -> string) (parse_uuid : string -> option Uuid).
Context {Url Cert : Type} (parse_relay_url : string -> option Url).
Context (read_file : string -> option (list Z)) (pem_sections : list Z -> option (list Cert)).
Context (verifier : list Cert -> bool) (ca_text : RelayCaError -> string).
Context (mdns_spawn : PairingMdnsAdvertisement -> result unit string).
Context {DC : Display PersistError} {DF : Display RemoteFleetError} {DP : Display PairingError}.
Context {DM : Display PairingMdnsError} {DS : Display ServerError} {DQ : Display StoreError}.
Context (parse_command : string -> result LocalCommand string) (encode : LocalResponse -> option (list Z)) (io_text : string).
Context {Descriptor : Type} (security : PipeSecurity (Descriptor := Descriptor)) (self : Token).


(** What is read as the first byte, within two seconds. *)
Inductive FirstByte := FirstGot (b : Z) | FirstClosed | FirstTimedOut.

(** One turn of the loop: whether a caller connects and the next instance of the pipe can be
    created, the caller's first byte, its token and the calls on it, and the rest it sends. *)
Record PipeCall := {
  pc_connect : result unit Z;
  pc_next : result unit Z;
  pc_first : FirstByte;
  pc_client : Token;
  pc_calls : TokenCalls;
  pc_env : LocalEnv (Url := Url);
  pc_input : Incoming;
  pc_taker : Taker;
}.

(** The connection a turn hands to a task: the first byte, read before the check, goes with it. *)
Definition serve_pipe (b : Z) (c : PipeCall) : LocalConnection (Url := Url) :=
  {| cn_env := pc_env c; cn_prefix := [b]; cn_input := pc_input c; cn_taker := pc_taker c |}.

Inductive Listening := Waiting (thread : Thread) | Stopped (e : IoError) | Aborted.

(** The loop: the connections it hands to tasks, in order, and how it goes on. *)
Fixpoint pipe_loop (calls : list PipeCall) (thread : Thread) : list (LocalConnection (Url := Url)) * Listening :=
  match calls with
  | [] => ([], Waiting thread)
  | c :: rest =>
      match pc_connect c, pc_next c with
      | Err e, _ => ([], Stopped (os_error e))
      | _, Err e => ([], Stopped (os_error e))
      | Ok _, Ok _ =>
          match pc_first c with
          | FirstClosed | FirstTimedOut => pipe_loop rest thread
          | FirstGot b =>
              match verify_client_after_read security (pc_calls c) self (pc_client c) thread with
              | None => ([], Aborted)
              | Some (thread, Err _) => pipe_loop rest thread
              | Some (thread, Ok _) =>
                  let '(spawned, l) := pipe_loop rest thread in (serve_pipe b c :: spawned, l)
              end
          end
      end
  end.


(** The turn did not end the listener. *)
Definition survives (c : PipeCall) : bool :=
  match pc_connect c, pc_next c, pc_first c with
  | Ok _, Ok _, FirstGot _ =>
      bool_decide (is_Some (verify_client_after_read security (pc_calls c) self (pc_client c) None))
  | Ok _, Ok _, _ => true
  | _, _, _ => false
  end.



Lemma verified_thread c thread' r :
  verify_client_after_read security (pc_calls c) self (pc_client c) None = Some (thread', r) -> thread' = None.
Proof. intros H. by apply verify_spec in H as [-> _]. Qed.



(** One failed connect, or one pipe instance that cannot be created, ends the listener, and with it
    the daemon: there is no grace period as on the socket. *)
Theorem pipe_listener_ends_on_first_failure (pre : list PipeCall) (c : PipeCall) (post : list PipeCall)
    (e : Z) :
  Forall (fun c => survives c = true) pre -> pc_connect c = Err e \/ pc_connect c = Ok tt /\ pc_next c = Err e ->
  snd (pipe_loop (pre ++ c :: post)%list None) = Stopped (os_error e).
Proof.
  intros Hp Hc. induction Hp as [|x pre Hx Hpre IH]; cbn [app pipe_loop].
  - by destruct Hc as [->|[-> ->]].
  - unfold survives in Hx. destruct (pc_connect x) as [[]|]; [|done]. destruct (pc_next x) as [[]|]; [|done].
    destruct (pc_first x) as [b| |]; [|apply IH..]. apply bool_decide_eq_true in Hx as [[th r] Ev]. rewrite Ev.
    rewrite (verified_thread _ _ _ Ev). destruct r as [[]|e']; [|apply IH].
    by destruct (pipe_loop (pre ++ c :: post)%list None).
Qed.

End Listener.

(** [run_local_server] on Windows, up to its loop. *)
Definition prepare_pipe {Descriptor Pipe} (win : Win32 (Descriptor := Descriptor) (Pipe := Pipe))
    (rackio_pipe : option string) : result (PipeSecurity * Pipe) IoError :=
  let? security := for_local_group win VIEWER_GROUP_NAME in
  let? name := configured_pipe_name rackio_pipe in
  let? server := create_server win security true name in
  Ok (security, server).

(** [request_local] on Windows: [connect_client] in the place of the socket's candidates. *)
Definition request_local_windows {C} (rackio_pipe : option string)
    (open : string -> nat -> result C (option Z)) (io_message : IoError -> string)
    (encode : LocalCommand -> option string) (send : C -> string -> result unit string)
    (next_line : C -> result (option string) string) (decode : string -> result LocalResponse string)
    (command : LocalCommand) : result LocalResponse string :=
  let? name := map_err io_message (configured_pipe_name rackio_pipe) in
  let? stream := map_err io_message (fst (connect_client (open name))) in
  let? request := ok_or (encode command) "serialization" in
  let? _ := send stream (request +:+ String "010" "") in
  let? line := next_line stream in
  let? line := ok_or line "daemon closed the local connection without a response" in
  decode line.

(** ** Witnesses *)

#[local] Instance error_text {E} : Display E | 100 := fun _ => "error".









(** The name of the viewers' group is what Windows is asked for. *)
Lemma viewer_group_name_roundtrip : wide_ptr_to_string (Some (wide VIEWER_GROUP_NAME)) = Ok VIEWER_GROUP_NAME.
Proof. vm_compute. reflexivity. Qed.

(** A text with a NUL is cut at it. *)
Lemma wide_cuts_at_nul :
  wide_ptr_to_string (Some (wide (utf8 [97; 0; 98]))) = Ok "a".
Proof. vm_compute. reflexivity. Qed.
