(* ===== verification/Daemon.v ===== *)
(** The daemon's lifecycle: [apps/agent/src/runtime.rs].

    [start_daemon] is the part of [run_daemon] before the tasks are spawned, as one function from
    what is on disk to the context the tasks share or the first error; [supervise] is the rest:
    which task's end stops the daemon and what is done before the process exits. *)

From Stdlib Require Import Ascii String.
From S2P Require Import Prelude BTree Float Model Alert Collector Storage Framing Transport Net.
From S2P Require Import Persist Codecs Pairing Mdns Identity Server Remote Fleet Config Json.
From S2P Require Import LocalIpc.
Local Open Scope string_scope.
Local Open Scope Z_scope.

Definition SHUTDOWN_FLUSH_TIMEOUT_SECS : Z := 5.
Definition LOCAL_TREND_SEED_MS : Z := 15 * 60 * 1000.

Inductive DaemonError :=
  | DaemonIo
  | DaemonLogging
  | DaemonConfig (e : PersistError)
  | DaemonMessage (text : string)
  | DaemonIdentity (e : IdentityError)
  | DaemonTransport (e : TransportError)
  | DaemonNodeId (e : NodeIdError)
  | DaemonStore (e : StoreError)
  | DaemonPeers (e : PairingError)
  | DaemonFleet (e : RemoteFleetError).

Definition listen_port_label (bind_port : option Z) : string :=
  match bind_port with Some p => dec p | None => "ephemeral" end.

(** [host_name], [OS], [ARCH] and the version are of the machine and the build. *)
Definition node_info (host_name : option string) (os_name arch version : string) (id : Uuid)
    (caps : list MetricCapability) : NodeInfo :=
  {| node_id := id; display_name := default "Unnamed node" host_name; os := os_name;
     architecture := arch; agent_version := version; protocol := V1; capabilities := caps |}.

Definition healthy : HealthSnapshot :=
  {| state := Healthy; collector_degraded := false; storage_degraded := false;
     remote_listener_degraded := false; details := [] |}.

Definition load_alert_rules (c : AgentConfig) : result (list AlertRule) DaemonError :=
  map_err (fun e => DaemonMessage ("local health thresholds are unusable: " +:+ e)) (alert_rules c).

Section Daemon.
Context {J : Type} {SC : SampleCodec J} (db_fault : nat -> bool).
Context {ET : EndpointText} {B64 : Base64}.
Context {RJ : JsonCodec Records anything} {MJ : JsonCodec Machines machines_finite}.
Context {float_ok : f64 -> Prop} {CJ : JsonCodec AgentConfig (config_carried float_ok)}.
Context (config_fault key_fault : nat -> bool).
Context (uuid_text : Uuid -> string) (parse_uuid : string -> option Uuid).
Context {Url Cert : Type} (parse_relay_url : string -> option Url).
Context (read_file : string -> option (list Z)) (pem_sections : list Z -> option (list Cert)).
Context (verifier : list Cert -> bool) (ca_text : RelayCaError -> string).
(** The endpoint: whether it accepts an address, whether binding succeeds, and its identity. *)
Context (accepts : SocketAddr -> bool) (bind : Plan (Url := Url) (Cert := Cert) -> bool).
Context (public_key : SecretKey -> EndpointId) (z32_text : EndpointId -> string).

Definition resume_local_trend (now_ms : Z) (s : MetricStore (J := J)) : MetricStore * TrendWindow :=
  match Storage.query db_fault (i64_sat_sub now_ms LOCAL_TREND_SEED_MS) now_ms Raw s with
  | (s, Ok samples) => (s, from_samples samples)
  | (s, Err _) => (s, [])
  end.

Definition load_validated_config (paths : AppPaths) (d : ConfigDisk) : result AgentConfig DaemonError :=
  let? config := map_err DaemonConfig (load_config d) in
  let? _ := map_err (fun e => DaemonMessage (config_path paths +:+ " is not a usable configuration: " +:+ e))
              (config_validate parse_relay_url read_file pem_sections verifier ca_text config) in
  Ok config.

(** What the daemon finds and leaves on disk. *)
Record Installation := {
  i_config : ConfigDisk;
  i_key : KeyFile;
  i_node_id : TextFile;
  i_peers : ReadOutcome;
  i_machines : ReadOutcome;
}.

(** What a start meets besides its files. *)
Record StartEnv := {
  se_logging_ok : bool;
  se_fresh_key : SecretKey;
  se_rival : KeyFile -> KeyFile;
  se_data_dir_exists : bool;
  se_fresh_id : Uuid;
  se_node_id_write : WriteOutcome;
  se_store : result (MetricStore (J := J)) StoreError;
  se_now_ms : Z;
  se_host : option string * string * string * string;
  se_capabilities : list MetricCapability;
}.

Definition with_files (d : ConfigDisk) (k : KeyFile) (n : TextFile) (i : Installation) : Installation :=
  {| i_config := d; i_key := k; i_node_id := n; i_peers := i_peers i; i_machines := i_machines i |}.

(** The context, once every file is read and the endpoint is bound. *)
Definition assemble (env : StartEnv) (paths : AppPaths) (d : ConfigDisk) (config : AgentConfig)
    (secret : SecretKey) (node : Uuid) (i : Installation) : result (LocalContext (J := J)) DaemonError :=
  let '(host, os_name, arch, version) := se_host env in
  let info := node_info host os_name arch version node (se_capabilities env) in
  let? store := map_err DaemonStore (se_store env) in
  let '(store, trend) := resume_local_trend (se_now_ms env) store in
  let? recs := map_err DaemonPeers (registry_load (i_peers i)) in
  let runtime := {| info := info; health := healthy; latest := None; trend := trend; store := store;
                    pairing := None; pairing_poisoned := false; pairing_mdns := mdns_default;
                    peers := {| records := recs; poisoned := false; file := i_peers i; disk_ops := 0 |};
                    active_connections := []; active_poisoned := false; closed := [] |} in
  let? fleet := map_err DaemonFleet (fleet_load (i_machines i)) in
  let? fleet := map_err DaemonFleet (fleet_start fleet) in
  let? rules := load_alert_rules config in
  Ok {| lc_paths := paths; lc_endpoint_id := public_key secret; lc_z32 := z32_text (public_key secret);
        lc_disk := d; lc_runtime := runtime; lc_fleet := fleet; lc_rules := rules;
        lc_sampler_running := true |}.

Definition start_daemon (env : StartEnv) (paths : AppPaths) (i : Installation)
  : Installation * result (LocalContext (J := J)) DaemonError :=
  match create_directories config_fault (i_config i) with
  | (d, Err _) => (with_files d (i_key i) (i_node_id i) i, Err DaemonIo)
  | (d, Ok _) =>
      let i := with_files d (i_key i) (i_node_id i) i in
      if negb (se_logging_ok env) then (i, Err DaemonLogging)
      else match load_validated_config paths d with
      | Err e => (i, Err e)
      | Ok config =>
          let '(key, secret) := load_or_create_secret_key key_fault (se_fresh_key env) (se_rival env)
                                  (se_data_dir_exists env) (i_key i) in
          let i := with_files d key (i_node_id i) i in
          match secret with
          | Err e => (i, Err (DaemonIdentity e))
          | Ok secret =>
              match bind_endpoint parse_relay_url read_file pem_sections verifier accepts bind
                      (endpoint_config config) with
              | Err e => (i, Err (DaemonTransport e))
              | Ok _ =>
                  let '(node, id) := load_or_create_node_id parse_uuid uuid_text (se_fresh_id env)
                                       (se_node_id_write env) (i_node_id i) in
                  let i := with_files d key node i in
                  match id with
                  | Err e => (i, Err (DaemonNodeId e))
                  | Ok id => (i, assemble env paths d config secret id i)
                  end
              end
          end
      end
  end.

(** ** What a start establishes *)

(** No connection, no window, nothing degraded, and the registry as its file has it. *)
Definition fresh_runtime (i : Installation) (n : NodeRuntime (J := J)) : Prop :=
  load (i_peers i) = Ok (records (peers n)) /\ file (peers n) = i_peers i /\ poisoned (peers n) = false /\
  (length (trend n) <= CAPACITY)%nat /\ pairing n = None /\ active_connections n = [] /\
  active_poisoned n = false /\ health n = healthy.

Lemma load_validated_Ok paths d c :
  load_validated_config paths d = Ok c ->
  load_config d = Ok c /\ usable parse_relay_url read_file pem_sections verifier c.
Proof.
  unfold load_validated_config. destruct (load_config d) as [c'|]; [|done]. cbn [map_err result_bind].
  destruct (config_validate _ _ _ _ _ c') as [[]|] eqn:E; [|done]. intros [= <-].
  split; [done|]. by eapply validate_usable.
Qed.

Lemma resumed_trend_is_bounded now s : (length (snd (resume_local_trend now s)) <= CAPACITY)%nat.
Proof.
  unfold resume_local_trend. destruct (Storage.query _ _ _ _ s) as [s' [samples|e]]; simpl; [|lia].
  rewrite from_samples_spec, length_map, length_drop. lia.
Qed.

Lemma assemble_Ok env paths d config secret node i ctx :
  assemble env paths d config secret node i = Ok ctx ->
  lc_disk ctx = d /\ lc_sampler_running ctx = true /\ alert_rules config = Ok (lc_rules ctx) /\
  lc_endpoint_id ctx = public_key secret /\ node_id (info (lc_runtime ctx)) = node /\
  fresh_runtime i (lc_runtime ctx).
Proof.
  unfold assemble, fresh_runtime. destruct (se_host env) as [[[host os_name] arch] version].
  destruct (se_store env) as [s|]; [|done]. cbn [map_err result_bind].
  pose proof (resumed_trend_is_bounded (se_now_ms env) s) as Ht.
  destruct (resume_local_trend (se_now_ms env) s) as [s' tr].
  unfold registry_load. destruct (load (i_peers i)) as [recs|]; [|done]. cbn [map_err result_bind].
  destruct (fleet_load (i_machines i)) as [fl|]; [|done]. cbn [map_err result_bind].
  destruct (fleet_start fl) as [fl'|]; [|done]. cbn [map_err result_bind].
  unfold load_alert_rules. destruct (alert_rules config) as [rules|]; [|done]. cbn [map_err result_bind].
  intros [= <-]. by repeat split.
Qed.

Lemma assembled_fleet env paths d config secret node i ctx :
  assemble env paths d config secret node i = Ok ctx ->
  exists fl, fleet_load (i_machines i) = Ok fl /\ fleet_start fl = Ok (lc_fleet ctx).
Proof.
  unfold assemble. destruct (se_host env) as [[[host os_name] arch] version].
  destruct (se_store env) as [s|]; [|done]. cbn [map_err result_bind].
  destruct (resume_local_trend (se_now_ms env) s) as [s' tr].
  destruct (registry_load (i_peers i)) as [recs|]; [|done]. cbn [map_err result_bind].
  destruct (fleet_load (i_machines i)) as [fl|]; [|done]. cbn [map_err result_bind].
  destruct (fleet_start fl) as [fl'|] eqn:E; [|done]. cbn [map_err result_bind].
  destruct (load_alert_rules config) as [rules|]; [|done]. intros [= <-]. by exists fl.
Qed.

Lemma create_directories_file d : cfg_file (fst (create_directories config_fault d)) = cfg_file d.
Proof. unfold create_directories. by destruct (io_steps config_fault 4 (cfg_ops d)). Qed.

Lemma started_fleet env paths i i' ctx :
  start_daemon env paths i = (i', Ok ctx) ->
  exists fl, fleet_load (i_machines i) = Ok fl /\ fleet_start fl = Ok (lc_fleet ctx).
Proof.
  unfold start_daemon. destruct (create_directories config_fault (i_config i)) as [d [u|e]]; [|done].
  destruct (negb _); [done|]. destruct (load_validated_config paths d) as [config|]; [|done].
  destruct (load_or_create_secret_key _ _ _ _ _) as [key [secret|]]; [|done].
  destruct (bind_endpoint _ _ _ _ _ _ _) as [plan|]; [|done].
  destruct (load_or_create_node_id _ _ _ _ _) as [node [id|]]; [|done].
  intros [= <- Ha]. by apply assembled_fleet in Ha.
Qed.

(** A daemon that starts runs on a usable configuration, evaluates exactly the rules of its
    file, shows the peers of its registry file and has no pairing window open; so it starts in
    the state that every local command preserves (see LocalIpc). *)
Theorem started_daemon_is_consistent env paths i i' ctx :
  (forall c, load_config (i_config i) = Ok c -> config_carried float_ok c) ->
  start_daemon env paths i = (i', Ok ctx) ->
  settings_ok (float_ok := float_ok) parse_relay_url read_file pem_sections verifier ctx /\
  fresh_runtime i (lc_runtime ctx) /\ lc_sampler_running ctx = true.
Proof.
  intros Hc. unfold start_daemon. pose proof (create_directories_file (i_config i)) as Hf.
  destruct (create_directories config_fault (i_config i)) as [d [u|e]]; [|done]. simpl in Hf.
  destruct (negb _); [done|].
  destruct (load_validated_config paths d) as [config|] eqn:Hl; [|done].
  destruct (load_or_create_secret_key _ _ _ _ _) as [key [secret|]]; [|done].
  destruct (bind_endpoint _ _ _ _ _ _ _) as [plan|]; [|done].
  destruct (load_or_create_node_id _ _ _ _ _) as [node [id|]]; [|done].
  intros [= <- Ha]. apply assemble_Ok in Ha as (H1 & H2 & H3 & _ & _ & H4).
  apply load_validated_Ok in Hl as [Hl Hu]. split; [|by split].
  exists config. rewrite H1. split; [done|]. split; [done|]. split; [|done].
  apply Hc. by rewrite <- (same_file_loads _ _ Hf).
Qed.

(** C29: A file that no command would have written, or thresholds that cannot be resolved, stop the
    start: there is no daemon that runs on them. *)
Theorem unusable_configuration_refuses_start env paths i c :
  load_config (i_config i) = Ok c ->
  (~ usable parse_relay_url read_file pem_sections verifier c \/ exists e, alert_rules c = Err e) ->
  exists e, snd (start_daemon env paths i) = Err e.
Proof.
  intros Hl Hbad. unfold start_daemon. pose proof (create_directories_file (i_config i)) as Hf.
  destruct (create_directories config_fault (i_config i)) as [d [u|e]]; [|by eexists]. simpl in Hf.
  destruct (negb _); [by eexists|].
  destruct (load_validated_config paths d) as [config|e] eqn:Hv; [|by eexists].
  apply load_validated_Ok in Hv as [Hv Hu]. rewrite (same_file_loads _ _ Hf), Hl in Hv. injection Hv as <-.
  destruct (load_or_create_secret_key _ _ _ _ _) as [key [secret|]]; [|by eexists].
  destruct (bind_endpoint _ _ _ _ _ _ _) as [plan|]; [|by eexists].
  destruct (load_or_create_node_id _ _ _ _ _) as [node [id|]]; [|by eexists]. simpl.
  destruct (assemble _ _ _ _ _ _ _) as [ctx|e] eqn:Ha; [|by eexists].
  apply assemble_Ok in Ha as (_ & _ & Ha & _). destruct Hbad as [Hbad|[e Hbad]]; [done|congruence].
Qed.

End Daemon.

(** ** Supervision *)

(** The branch of [select!] that ends first. *)
Inductive Stop :=
  | StopSignal (delivered : bool)
  | StopSampler
  | StopRemote
  | StopLocal (r : result (result unit string) string).

(** What is done after it, in order. *)
Inductive Shutdown :=
  | SendShutdown
  | AwaitSampler (secs : Z)
  | AbortSampler
  | CloseEndpoint
  | AbortRemote
  | AbortLocal.

Definition stop_result (s : Stop) : result unit string :=
  match s with
  | StopSignal true => Ok tt
  | StopSignal false => Err "signal"
  | StopSampler => Err "metric sampler stopped unexpectedly"
  | StopRemote => Err "remote listener stopped unexpectedly"
  | StopLocal (Ok (Ok _)) => Err "local IPC listener stopped unexpectedly"
  | StopLocal (Ok (Err e)) => Err ("local IPC listener failed: " +:+ e)
  | StopLocal (Err e) => Err e
  end.

(** [flushed] says whether the sampler ended within the timeout. *)
Definition supervise (s : Stop) (flushed : bool) : list Shutdown * result unit string :=
  let await := match s with
               | StopSampler => []
               | _ => AwaitSampler SHUTDOWN_FLUSH_TIMEOUT_SECS :: (if flushed then [] else [AbortSampler])
               end in
  ((SendShutdown :: await ++ [CloseEndpoint; AbortRemote; AbortLocal])%list, stop_result s).

(** Whatever stops the daemon, the sampler is told first and, unless it is what stopped, given
    time to write its batch before the endpoint closes; only an operator's stop is a success. *)
Theorem shutdown_lets_sampler_flush (s : Stop) (flushed : bool) :
  let '(actions, r) := supervise s flushed in
  head actions = Some SendShutdown /\
  (s <> StopSampler -> exists rest, actions = (SendShutdown :: AwaitSampler 5 :: rest)%list) /\
  (In AbortSampler actions <-> s <> StopSampler /\ flushed = false) /\
  (r = Ok tt <-> s = StopSignal true).
Proof.
  destruct s as [[]| | |[[[]|e]|e]], flushed; simpl; repeat split; try done; try (by eexists);
    intuition congruence.
Qed.

(** ** Witnesses *)

Definition demo_installation (c : AgentConfig) : Installation :=
  {| i_config := disk_with c; i_key := Bytes (replicate 32 1); i_node_id := TextAbsent;
     i_peers := NotFound; i_machines := NotFound |}.

Definition demo_start : StartEnv (J := MetricSample) :=
  {| se_logging_ok := true; se_fresh_key := replicate 32 2; se_rival := fun f => f;
     se_data_dir_exists := true; se_fresh_id := 4; se_node_id_write := Written; se_store := Ok filled;
     se_now_ms := 61000; se_host := (Some "box", "linux", "x86_64", "1"); se_capabilities := [] |}.

Definition demo_started := start_daemon (J := MetricSample) never never never unary_text parse_unary
  (Url := string) (Cert := Z) Some (fun _ => Some [1]) Some (fun _ => true) (fun _ => "")
  (fun _ => true) (fun _ => true) (fun _ => 5) (fun _ => "z") demo_start demo_paths
  (demo_installation demo_config).

Lemma started_daemon_is_consistent_witness :
  match demo_started with
  | (_, Ok ctx) => settings_ok (J := MetricSample) Some (fun _ => Some [1]) Some (fun _ : list Z => true) ctx
  | _ => False
  end.
Proof.
  destruct demo_started as [i' r] eqn:E.
  assert (Hr : is_ok r = true).
  { assert (Hs : is_ok (snd demo_started) = true) by (vm_compute; reflexivity). by rewrite E in Hs. }
  destruct r as [ctx|e]; [|done].
  destruct (started_daemon_is_consistent (J := MetricSample) never never never unary_text parse_unary
    (Url := string) (Cert := Z) Some (fun _ => Some [1]) Some (fun _ => true) (fun _ => "")
    (fun _ => true) (fun _ => true) (fun _ => 5) (fun _ => "z") demo_start demo_paths
    (demo_installation demo_config) i' ctx) as [H _]; [|exact E|exact H].
  intros c Hc. cbn [i_config demo_installation] in Hc. rewrite demo_config_loads in Hc. injection Hc as <-.
  split; repeat constructor; by vm_compute.
Defined.

Lemma unusable_configuration_refuses_start_witness :
  exists e, snd (start_daemon (J := MetricSample) never never never unary_text parse_unary
    (Url := string) (Cert := Z) Some (fun _ => Some [1]) Some (fun _ => true) (fun _ => "")
    (fun _ => true) (fun _ => true) (fun _ => 5) (fun _ => "z") demo_start demo_paths
    (demo_installation (with_bind_port (Some 0) demo_config))) = Err e.
Proof.
  apply (unusable_configuration_refuses_start (J := MetricSample) never never never unary_text parse_unary
    (Url := string) (Cert := Z) Some (fun _ => Some [1]) Some (fun _ => true) (fun _ => "")
    (fun _ => true) (fun _ => true) (fun _ => 5) (fun _ => "z") demo_start demo_paths
    (demo_installation (with_bind_port (Some 0) demo_config)) (with_bind_port (Some 0) demo_config)).
  - apply demo_config_loads.
  - left. intros [H _]. by apply H.
Defined.
