(* ===== verification/System.v ===== *)
(** The running daemon: the tasks of [apps/agent/src/runtime.rs] on one shared context.

    [Daemon] says what a start sets up and what stops it; this file is what happens in between.
    The sampler, the local connections, the tasks of the remote server and those of the viewer
    take steps in any order on the state they share: the node runtime, the live alert rules, the
    configuration file and the fleet. A local command that changes something is a task of its
    own, one step for each thing it does to that state (read the file, replace it, publish the
    rules; open the window, advertise it), because nothing locks the file between them; the
    steps of imports, removals and monitors are those of [Viewer], the steps of a revocation
    those of [Concurrent]. A run of the daemon is a run of the server's tasks of [Concurrent], with
    the pairing command in the place of what opens windows there and the rest in the place of the other
    changes: that is [daemon_step_refines], and what holds of all runs there holds here. *)

From stdpp Require Import gmap.
From S2P Require Import Viewer.
From S2P Require Import Prelude BTree Float Model Alert Collector Storage Wire Framing Transport Net Persist.
From S2P Require Import Codecs Pairing Mdns Identity Sampling Server Remote Fleet Concurrent Config Json LocalIpc.
From S2P Require Import Daemon.
Local Open Scope string_scope.
Local Open Scope Z_scope.

Section System.
Context {J : Type} {SC : SampleCodec J} (db_fault : nat -> bool).
Context (page_count page_size freelist_count : nat -> Tables (J := J) -> Z) (clock : Clock).
Context {ET : EndpointText} {B64 : Base64} {BJ : JsonCodec PairingBundle anything}.
Context {RJ : JsonCodec Records anything} {MJ : JsonCodec Machines machines_finite}.
Context {float_ok : f64 -> Prop} {CJ : JsonCodec AgentConfig (config_carried float_ok)}.
Context (peers_fault machines_fault config_fault key_fault : nat -> bool).
Context (uuid_text : Uuid -> string) (parse_uuid : string -> option Uuid).
Context {Url Cert : Type} (parse_relay_url : string -> option Url).
Context (read_file : string -> option (list Z)) (pem_sections : list Z -> option (list Cert)).
Context (verifier : list Cert -> bool) (ca_text : RelayCaError -> string).
Context (mdns_spawn : PairingMdnsAdvertisement -> result unit string).
Context (accepts : SocketAddr -> bool) (bind : Plan (Url := Url) (Cert := Cert) -> bool).
Context (public_key : SecretKey -> EndpointId) (z32_text : EndpointId -> string).
Context {DC : Display PersistError} {DF : Display RemoteFleetError} {DP : Display PairingError}.
Context {DM : Display PairingMdnsError} {DS : Display ServerError} {DQ : Display StoreError}.

(** What the sampling task keeps to itself. *)
Record SamplerTask := {
  sp_collector : SystemCollector;
  sp_alerts : AlertEvaluator;
  sp_pending : list MetricSample;
  sp_prune : Z;
}.

(** A local command under way: about to replace the configuration file, and then to publish
    the rules it found effective, if it is about them; about to publish; about to open the
    pairing window with the addresses and the relay of this configuration; about to advertise it. *)
Inductive LocalTask :=
  | Saving (next : AgentConfig) (effective : option (list AlertRule))
  | Publishing (effective : list AlertRule)
  | OpeningWindow (config : AgentConfig)
  | Advertising.

Record System := {
  ctx : LocalContext (J := J);
  sampler : SamplerTask;
  sys_conns : gmap nat Conn;
  sys_streams : gmap nat Stream;
  sys_revokes : gmap nat RevokeTask;
  sys_locals : gmap nat LocalTask;
  sys_monitors : gmap nat Monitor;
  sys_imports : gmap nat Import;
  sys_removals : gmap nat Removal;
}.

(** The remote server's part. *)
Definition net_of (d : System) : Net :=
  {| node := lc_runtime (ctx d); conns := sys_conns d; streams := sys_streams d; revokes := sys_revokes d |}.

Definition with_net (s : Net) (d : System) : System :=
  {| ctx := with_runtime (node s) (ctx d); sampler := sampler d; sys_conns := conns s;
     sys_streams := streams s; sys_revokes := revokes s; sys_locals := sys_locals d;
     sys_monitors := sys_monitors d; sys_imports := sys_imports d; sys_removals := sys_removals d |}.

Definition with_ctx (c : LocalContext) (d : System) : System :=
  {| ctx := c; sampler := sampler d; sys_conns := sys_conns d; sys_streams := sys_streams d;
     sys_revokes := sys_revokes d; sys_locals := sys_locals d;
     sys_monitors := sys_monitors d; sys_imports := sys_imports d; sys_removals := sys_removals d |}.

Definition with_locals (l : gmap nat LocalTask) (d : System) : System :=
  {| ctx := ctx d; sampler := sampler d; sys_conns := sys_conns d; sys_streams := sys_streams d;
     sys_revokes := sys_revokes d; sys_locals := l;
     sys_monitors := sys_monitors d; sys_imports := sys_imports d; sys_removals := sys_removals d |}.

(** The viewer's part: the shared fleet and the tasks that work on it. *)
Definition viewer_of (d : System) : Viewer :=
  let f := lc_fleet (ctx d) in
  {| v_registry := f_registry f; v_snapshots := f_snapshots f; v_handles := f_monitors f;
     v_poisoned := f_monitors_poisoned f; v_monitors := sys_monitors d; v_imports := sys_imports d;
     v_removals := sys_removals d |}.

Definition fleet_of (v : Viewer) (f : RemoteFleet) : RemoteFleet :=
  {| f_registry := v_registry v; f_snapshots := v_snapshots v; f_monitors := v_handles v;
     f_monitors_poisoned := v_poisoned v; f_spawned := f_spawned f; f_running := f_running f |}.

Definition with_viewer (v : Viewer) (d : System) : System :=
  {| ctx := with_fleet (fleet_of v (lc_fleet (ctx d))) (ctx d); sampler := sampler d;
     sys_conns := sys_conns d; sys_streams := sys_streams d; sys_revokes := sys_revokes d;
     sys_locals := sys_locals d; sys_monitors := v_monitors v; sys_imports := v_imports v;
     sys_removals := v_removals v |}.

(** ** The sampler's step *)

(** The sampler's own state and its part of the shared runtime. *)
Definition sampler_view (n : NodeRuntime (J := J)) (t : SamplerTask) : Sampler (J := J) :=
  {| Sampling.health := Server.health n; Sampling.latest := Server.latest n; Sampling.trend := Server.trend n;
     Sampling.store := Server.store n; Sampling.collector := sp_collector t; Sampling.alerts := sp_alerts t;
     Sampling.pending := sp_pending t; Sampling.prune_counter := sp_prune t |}.

Definition published_sample (s : Sampler (J := J)) (n : NodeRuntime (J := J)) : NodeRuntime (J := J) :=
  {| info := info n; health := Sampling.health s; latest := Sampling.latest s; trend := Sampling.trend s;
     store := Sampling.store s; pairing := pairing n; pairing_poisoned := pairing_poisoned n;
     pairing_mdns := pairing_mdns n; peers := peers n; active_connections := active_connections n;
     active_poisoned := active_poisoned n; closed := closed n |}.

Definition sampler_task (s : Sampler (J := J)) : SamplerTask :=
  {| sp_collector := Sampling.collector s; sp_alerts := Sampling.alerts s;
     sp_pending := Sampling.pending s; sp_prune := Sampling.prune_counter s |}.

(** One tick, on the rules the last command published. *)
Definition sample_tick (host : Host) (now : Z) (d : System) : System :=
  let n := lc_runtime (ctx d) in
  let s := tick db_fault page_count page_size freelist_count clock (sampler_view n (sampler d))
             {| tick_host := host; tick_rules := lc_rules (ctx d); tick_now := now |} in
  {| ctx := with_runtime (published_sample s n) (ctx d); sampler := sampler_task s;
     sys_conns := sys_conns d; sys_streams := sys_streams d; sys_revokes := sys_revokes d;
     sys_locals := sys_locals d; sys_monitors := sys_monitors d; sys_imports := sys_imports d;
     sys_removals := sys_removals d |}.

(** ** The local socket's steps *)

Definition handle (env : LocalEnv (Url := Url)) (command : LocalCommand) (c : LocalContext (J := J)) :=
  handle_local db_fault peers_fault machines_fault config_fault uuid_text parse_uuid parse_relay_url
    read_file pem_sections verifier ca_text mdns_spawn env command c.

(** A command that changes nothing but the statement count of the database. *)
Definition is_reading (command : LocalCommand) : bool :=
  match command with
  | Status | FleetSnapshot | Doctor | QueryHistory _ _ _ _ | PeerList | AdvertiseAddressList
  | Alerts AlertList => true
  | _ => false
  end.

(** The first step of a command that changes the configuration or opens a window: it reads the
    file, and goes on from the value it read. *)
Definition begin_local (command : LocalCommand) (c : LocalContext (J := J)) : option LocalTask :=
  config ← result_ok (load_config (lc_disk c));
  match command with
  | PairingCreate =>
      if is_ok (config_validate parse_relay_url read_file pem_sections verifier ca_text config)
      then Some (OpeningWindow config) else None
  | _ =>
      next ← edit parse_relay_url read_file pem_sections verifier ca_text command config;
      Some (Saving next match command with Alerts _ => result_ok (alert_rules next) | _ => None end)
  end.

(** One further step: the context, what is left to do and what it means for access. *)
Definition local_step (env : LocalEnv (Url := Url)) (t : LocalTask) (c : LocalContext (J := J))
  : LocalContext (J := J) * option LocalTask * Label :=
  let n := lc_runtime c in
  match t with
  | Saving next effective =>
      match save_config config_fault next (lc_disk c) with
      | (d, Ok _) => (with_config d c, Publishing <$> effective, Silently)
      | (d, Err _) => (with_config d c, None, Silently)
      end
  | Publishing effective => (if lc_sampler_running c then with_rules effective c else c, None, Silently)
  | OpeningWindow config =>
      if pairing_poisoned n then (c, None, Silently)
      else
        let addresses := bundle_direct_addresses (le_observed env) (cfg_advertise_addresses config) in
        let relay_urls := match cfg_relay_url config with Some u => [u] | None => [] end in
        let '(manager, bundle) :=
          Pairing.open (le_random env) (le_now_open env) (node_id (info n)) (lc_endpoint_id c)
            addresses relay_urls (pairing n) in
        (with_runtime (with_pairing manager (pairing_mdns n) n) c,
         if is_ok (bundle_encode bundle) then Some Advertising else None,
         match manager with Some w => Opened w | None => Silently end)
  | Advertising =>
      (with_runtime (with_pairing (pairing n)
         (fst (mdns_open mdns_spawn (lc_z32 c) (le_mdns_addresses env) (pairing_mdns n))) n) c,
       None, Silently)
  end.

Definition with_task (t : option LocalTask) (k : nat) (m : gmap nat LocalTask) : gmap nat LocalTask :=
  match t with Some t => <[k := t]> m | None => delete k m end.

(** A task that nothing interferes with. *)
Fixpoint finish (fuel : nat) (env : LocalEnv (Url := Url)) (t : LocalTask) (c : LocalContext (J := J))
  : option (LocalContext (J := J)) :=
  match fuel with
  | O => None
  | S fuel =>
      match local_step env t c with
      | (c, None, _) => Some c
      | (c, Some t, _) => finish fuel env t c
      end
  end.

(** ** Steps *)

(** What the server's tasks leave to the sampler. *)
Definition sampler_part_kept (n n' : NodeRuntime (J := J)) : Prop :=
  info n' = info n /\ health n' = health n /\ latest n' = latest n /\ trend n' = trend n /\
  tables (store n') = tables (store n).

(** A revocation is the steps of its task in [Concurrent], an import, a removal and a monitor
    those of their tasks in [Viewer]. *)
Inductive daemon_step (d : System) : Label -> System -> Prop :=
  | daemon_tick host now :
      lc_sampler_running (ctx d) = true -> daemon_step d Silently (sample_tick host now d)
  | daemon_read env command :
      is_reading command = true ->
      daemon_step d Silently (with_ctx (fst (handle env command (ctx d))) d)
  | daemon_begin k command t :
      sys_locals d !! k = None -> command_carried (float_ok := float_ok) command ->
      begin_local command (ctx d) = Some t ->
      daemon_step d Silently (with_locals (<[k := t]> (sys_locals d)) d)
  | daemon_local k env t c t' l :
      sys_locals d !! k = Some t -> local_step env t (ctx d) = (c, t', l) ->
      daemon_step d l (with_locals (with_task t' k (sys_locals d)) (with_ctx c d))
  | daemon_viewer l v :
      Viewer.step machines_fault uuid_text parse_uuid parse_relay_url to_text (viewer_of d) l v ->
      daemon_step d Silently (with_viewer v d)
  | daemon_remote l s :
      step db_fault peers_fault uuid_text (lc_endpoint_id (ctx d)) (net_of d) l s ->
      is_opened l = false -> sampler_part_kept (lc_runtime (ctx d)) (node s) ->
      daemon_step d l (with_net s d).

Inductive daemon_run (d0 : System) : list Label -> System -> Prop :=
  | daemon_nil : daemon_run d0 [] d0
  | daemon_snoc tr d l d' : daemon_run d0 tr d -> daemon_step d l d' -> daemon_run d0 (tr ++ [l])%list d'.

(** The monitors a start has spawned. *)
Definition spawned_monitors (f : RemoteFleet) : gmap nat Monitor :=
  list_to_map (omap (fun '(task, id) => m ← bt_get id (records (f_registry f)); Some (task, fresh_monitor m))
                 (f_running f)).

(** The daemon as its tasks are spawned. *)
Definition spawned (c : LocalContext (J := J)) (collector : SystemCollector) : System :=
  {| ctx := c; sampler := {| sp_collector := collector; sp_alerts := evaluator_default; sp_pending := []; sp_prune := 0 |};
     sys_conns := ∅; sys_streams := ∅; sys_revokes := ∅; sys_locals := ∅;
     sys_monitors := spawned_monitors (lc_fleet c); sys_imports := ∅; sys_removals := ∅ |}.

(** ** A command alone is its steps *)

Lemma finish_save env next effective c :
  finish 3 env (Saving next effective) c =
  Some match save_config config_fault next (lc_disk c) with
       | (d, Ok _) =>
           match effective with
           | Some rules => if lc_sampler_running c then with_rules rules (with_config d c) else with_config d c
           | None => with_config d c
           end
       | (d, Err _) => with_config d c
       end.
Proof.
  cbn [finish local_step]. destruct (save_config config_fault next (lc_disk c)) as [d [u|e]]; [|done].
  by destruct effective.
Qed.

(** The steps of a command that nothing interrupts do to the daemon what [handle_local] does. *)
Lemma command_alone_is_its_steps env command c :
  is_setting command = true \/ command = PairingCreate ->
  match begin_local command c with
  | Some t => finish 3 env t c = Some (fst (handle env command c))
  | None => fst (handle env command c) = c
  end.
Proof.
  intros Hc. unfold begin_local, handle.
  destruct command as [| | |b|i|i f t res| |i|url ca|p|a|text|text| |]; try (by destruct Hc); cbn [handle_local edit];
    unfold base.mbind, option_bind.
  - unfold create_pairing_bundle. destruct (load_config (lc_disk c)) as [config|]; [|done]. cbn [result_ok].
    destruct (config_validate _ _ _ _ _ config); [|done]. cbn [is_ok finish local_step].
    destruct (pairing_poisoned (lc_runtime c)); [done|]. unfold Pairing.open.
    destruct (bundle_encode _); cbn [is_ok fst finish local_step]; [|done].
    cbn [with_runtime lc_runtime lc_z32 with_pairing pairing_mdns pairing].
    by destruct (mdns_open _ _ _ _) as [m [g|e]].
  - unfold set_relay. destruct (validate_relay_url _ _); [|by destruct (result_ok _)].
    destruct (validate_relay_ca _ _ _ _ _ _); [|by destruct (result_ok _)].
    destruct (load_config (lc_disk c)) as [config|]; [|done]. cbn [result_ok]. rewrite finish_save. unfold save_and.
    by destruct (save_config _ _ _) as [d [u|e]].
  - unfold set_bind_port. destruct (validate_bind_port _); [|by destruct (result_ok _)].
    destruct (load_config (lc_disk c)) as [config|]; [|done]. cbn [result_ok]. rewrite finish_save. unfold save_and.
    by destruct (save_config _ _ _) as [d [u|e]].
  - assert (Ha : a <> AlertList) by (intros ->; by destruct Hc).
    assert (Hh : handle_alerts config_fault a c = update_alerts config_fault (alert_change a) c) by (by destruct a).
    rewrite Hh. unfold update_alerts. destruct (load_config (lc_disk c)) as [config|]; [|done]. cbn [result_ok].
    assert (He : (match a with AlertList => None | _ =>
        match result_ok (alert_rules (alert_change a config)) with
        | Some _ => Some (alert_change a config) | None => None end end) =
      match result_ok (alert_rules (alert_change a config)) with
      | Some _ => Some (alert_change a config) | None => None end) by (by destruct a).
    destruct (alert_rules (alert_change a config)) as [rules|] eqn:Er; cbn [result_ok] in He |- *.
    + rewrite He, Er. cbn [result_ok]. rewrite finish_save. destruct (save_config _ _ _) as [d [u|e]]; [|done].
      cbn [lc_sampler_running with_config]. by destruct (lc_sampler_running c).
    + by rewrite He.
  - unfold update_advertise_addresses. destruct (parse_advertise_address text) as [x|]; [|by destruct (result_ok _)].
    destruct (load_config (lc_disk c)) as [config|]; [|done]. cbn [result_ok].
    destruct (add_advertise_address _ x) as [l|]; [|done]. cbn [result_ok]. rewrite finish_save. unfold save_and.
    by destruct (save_config _ _ _) as [d [u|e]].
  - unfold update_advertise_addresses. destruct (parse_advertise_address text) as [x|]; [|by destruct (result_ok _)].
    destruct (load_config (lc_disk c)) as [config|]; [|done]. cbn [result_ok].
    destruct (remove_advertise_address _ x) as [l|]; [|done]. cbn [result_ok]. rewrite finish_save. unfold save_and.
    by destruct (save_config _ _ _) as [d [u|e]].
Qed.

(** ** The daemon refines the server's tasks *)

Lemma query_tables from to res (s : MetricStore (J := J)) :
  tables (fst (Storage.query db_fault from to res s)) = tables s.
Proof.
  unfold Storage.query, query_page, query_raw, query_minute, Storage.mbind, statement.
  destruct res; by destruct (db_fault _).
Qed.

(** A command that only reads leaves the settings, the fleet, what decides about access and what
    the sampler publishes alone. *)
Lemma reading_keeps env command c :
  is_reading command = true ->
  let c' := fst (handle env command c) in
  same_access (lc_runtime c) (lc_runtime c') /\ sampler_part_kept (lc_runtime c) (lc_runtime c') /\
  lc_disk c' = lc_disk c /\ lc_rules c' = lc_rules c /\ lc_fleet c' = lc_fleet c /\
  lc_endpoint_id c' = lc_endpoint_id c /\ lc_sampler_running c' = lc_sampler_running c.
Proof.
  intros Hr. unfold handle.
  destruct command as [| | |b|i|i f t res| |i|url ca|p|[]|text|text| |]; try done; cbn [handle_local]; cbv zeta.
  destruct (String.eqb _ _); [|done]. unfold handle_local_history. destruct (_ || _)%bool; [done|].
  pose proof (query_tables f t res (store (lc_runtime c))) as Q. by destruct (Storage.query _ _ _ _ _).
Qed.

(** A step of a local task: what it does to the rest of the context, and what its label says. *)
Lemma local_step_keeps env t c c' t' l :
  local_step env t c = (c', t', l) ->
  sampler_part_kept (lc_runtime c) (lc_runtime c') /\ peers (lc_runtime c') = peers (lc_runtime c) /\
  lc_fleet c' = lc_fleet c /\
  lc_endpoint_id c' = lc_endpoint_id c /\ lc_sampler_running c' = lc_sampler_running c.
Proof.
  destruct t as [next effective|rules|config|]; cbn [local_step].
  - destruct (save_config _ _ _) as [d [u|e]]; by intros [= <- _ _].
  - intros [= <- _ _]. by destruct (lc_sampler_running c) eqn:E.
  - destruct (pairing_poisoned _); [by intros [= <- _ _]|]. unfold Pairing.open. by intros [= <- _ _].
  - by intros [= <- _ _].
Qed.

Lemma local_step_net env t c c' t' l :
  local_step env t c = (c', t', l) ->
  l = Silently /\ same_access (lc_runtime c) (lc_runtime c') \/
  exists w m, l = Opened w /\ pairing_poisoned (lc_runtime c) = false /\ failures w = [] /\
    lc_runtime c' = with_pairing (Some w) m (lc_runtime c).
Proof.
  destruct t as [next effective|rules|config|]; cbn [local_step].
  - destruct (save_config _ _ _) as [d [u|e]]; intros [= <- _ <-]; by left.
  - intros [= <- _ <-]. left. by destruct (lc_sampler_running c).
  - destruct (pairing_poisoned _) eqn:Hp; [intros [= <- _ <-]; by left|]. unfold Pairing.open.
    intros [= <- _ <-]. right. by eexists _, _.
  - intros [= <- _ <-]. by left.
Qed.

Lemma daemon_step_endpoint d l d' :
  daemon_step d l d' -> lc_endpoint_id (ctx d') = lc_endpoint_id (ctx d).
Proof.
  intros [host now H|env command H|k command t H1 H2 H3|k env t c t' l' H1 H2|l' v H|l' s H1 H2 H3]; try done.
  - by destruct (reading_keeps env command (ctx d) H) as (_ & _ & _ & _ & _ & E & _).
  - by apply local_step_keeps in H2 as (_ & _ & _ & E & _).
Qed.

Lemma daemon_step_refines d l d' :
  daemon_step d l d' -> step db_fault peers_fault uuid_text (lc_endpoint_id (ctx d)) (net_of d) l (net_of d').
Proof.
  pose proof (step_other db_fault peers_fault uuid_text (lc_endpoint_id (ctx d)) (net_of d)) as Ho.
  intros [host now H|env command H|k command t H1 H2 H3|k env t c t' l' H1 H2|l' v H|l' s H1 H2 H3].
  - by apply (Ho (lc_runtime (ctx (sample_tick host now d)))).
  - apply Ho. by destruct (reading_keeps env command (ctx d) H) as (A & _).
  - by apply (Ho (lc_runtime (ctx d))).
  - destruct (local_step_net _ _ _ _ _ _ H2) as [[-> Hs]|(w & m & -> & Hp & Hf & E)]; [by apply Ho|].
    pose proof (step_window db_fault peers_fault uuid_text (lc_endpoint_id (ctx d)) (net_of d) w m Hp Hf) as S.
    unfold net_of, with_ctx, with_locals. cbn [ctx sys_conns sys_streams sys_revokes]. rewrite E. exact S.
  - by apply (Ho (lc_runtime (ctx d))).
  - unfold net_of, with_net. cbn [ctx sys_conns sys_streams sys_revokes with_runtime lc_runtime].
    by destruct s.
Qed.

Lemma daemon_run_refines d0 tr d :
  daemon_run d0 tr d ->
  run db_fault peers_fault uuid_text (lc_endpoint_id (ctx d0)) (net_of d0) tr (net_of d) /\ lc_endpoint_id (ctx d) = lc_endpoint_id (ctx d0).
Proof.
  induction 1 as [|tr d l d' Hr [IH1 IH2] Hs]; [by split; [constructor|]|].
  split; [|by rewrite (daemon_step_endpoint _ _ _ Hs)].
  econstructor; [done|]. rewrite <- IH2. by apply daemon_step_refines.
Qed.

(** ** The daemon's invariant *)

Lemma task_step_synced local s l s' :
  step db_fault peers_fault uuid_text local s l s' -> synced (peers (node s)) -> synced (peers (node s')).
Proof.
  intros H Hs.
  destruct H as [k c n H1 H2 H3 H4|k x|k x H1 H2|k x j|j t ev n ph l H1 H2|j t b rest|j|k id p r H1 H2|k id n r H1 H2|
                 k id c rest|k id|w m|n H1]; try done; simpl.
  - unfold register_connection in H4. destruct (active_poisoned _); [done|]. by injection H4 as <-.
  - unfold unregister_connection. destruct (active_poisoned _); [done|].
    by destruct (bt_get _ _); [destruct (bt_remove _ _)|].
  - pose proof (fun now => step_synced peers_fault (peers (node s)) (AuthorizePreserving (s_peer t) now) Hs) as A.
    destruct (s_phase t) as [|body|ok wc| |rest], ev as [h|env seen sf|now| |now]; try done; cbn [advance] in H2;
      try (by destruct body); try (injection H2 as <- <- <-; by try destruct wc).
    + destruct body; try done; (case_match; [case_match|]; by injection H2 as <- <- <-).
    + destruct body; try done. destruct (negb _); [by injection H2 as <- <- <-|].
      destruct (pairing_poisoned _); [by injection H2 as <- <- <-|].
      destruct (verify_and_consume_at _ _ _ _). by injection H2 as <- <- <-.
    + specialize (A now). simpl in A. destruct (authorize_preserving _ _ _ _) as [q [p|e]]; by injection H2 as <- <- <-.
  - pose proof (step_synced peers_fault (peers (node s)) (Revoke id) Hs) as A. simpl in A. by rewrite H2 in A.
  - unfold take_connections in H2. by destruct (active_poisoned _); injection H2 as <- <-.
  - destruct H1 as (E & _). by rewrite E.
Qed.

(** What a task under way may write to the file or publish. *)
Definition task_ok (t : LocalTask) : Prop :=
  match t with
  | Saving next effective =>
      config_usable parse_relay_url read_file pem_sections verifier next /\ config_carried float_ok next /\
      (forall rules, effective = Some rules -> alert_rules next = Ok rules)
  | _ => True
  end.

(** The file is one the daemon could start on. *)
Definition file_usable (c : LocalContext (J := J)) : Prop :=
  exists config, load_config (lc_disk c) = Ok config /\
    config_usable parse_relay_url read_file pem_sections verifier config /\ config_carried float_ok config.

(** Everything that holds in every state of a running daemon. *)
Record daemon_ok (d0 d : System) : Prop := {
  dk_file : file_usable (ctx d);
  dk_locals : map_Forall (fun _ => task_ok) (sys_locals d);
  dk_peers : synced (peers (lc_runtime (ctx d)));
  dk_net : net_ok (net_of d);
  dk_info : info (lc_runtime (ctx d)) = info (lc_runtime (ctx d0));
  dk_endpoint : lc_endpoint_id (ctx d) = lc_endpoint_id (ctx d0);
  dk_health : projected (sp_alerts (sampler d)) (health (lc_runtime (ctx d)));
  dk_trend : (length (trend (lc_runtime (ctx d))) <= CAPACITY)%nat;
  dk_pending : (length (sp_pending (sampler d)) < 5)%nat;
  dk_prune : 0 <= sp_prune (sampler d) < 300;
}.

(** What a command goes on from is usable if what it read was. *)
Lemma begin_ok command c t :
  command_carried (float_ok := float_ok) command -> file_usable c -> begin_local command c = Some t -> task_ok t.
Proof.
  intros Hcmd (config & Hl & Hu & Hc). unfold begin_local. rewrite Hl. unfold base.mbind, option_bind. cbn [result_ok].
  assert (Hgo : forall next, edit parse_relay_url read_file pem_sections verifier ca_text command config = Some next ->
    task_ok (Saving next match command with Alerts _ => result_ok (alert_rules next) | _ => None end)).
  { intros next He. split; [by eapply edit_usable|]. split; [by eapply edit_carried|].
    intros rules. destruct command; try done. destruct (alert_rules next); [|done]. by intros [= <-]. }
  destruct command; try (destruct (edit _ _ _ _ _ _ _) as [next|]; [|done]; intros [= <-]; by apply Hgo).
  destruct (is_ok _); [|done]. by intros [= <-].
Qed.

Lemma local_step_ok env t c c' t' l :
  local_step env t c = (c', t', l) -> task_ok t -> file_usable c ->
  file_usable c' /\ (forall u, t' = Some u -> task_ok u).
Proof.
  intros H Ht Hf. destruct t as [next effective|rules|config|]; cbn [local_step] in H.
  - destruct Ht as (Hu & Hc & _). pose proof (save_config_cases config_fault next (lc_disk c)) as P.
    destruct (save_config config_fault next (lc_disk c)) as [d [u|e]]; injection H as <- <- <-.
    + split; [exists next; by split; [apply P|]|]. destruct effective; [|done]. by intros u' [= <-].
    + split; [|done]. destruct Hf as (x & Hl & Hx). exists x. by rewrite <- (same_file_loads _ _ P) in Hl.
  - injection H as <- <- <-. split; [|done]. by destruct (lc_sampler_running c).
  - destruct (pairing_poisoned _); [injection H as <- <- <-; done|]. unfold Pairing.open in H.
    injection H as <- <- <-. split; [done|]. destruct (is_ok _); [|done]. by intros u [= <-].
  - injection H as <- <- <-. done.
Qed.

Lemma with_task_ok t' k l :
  map_Forall (fun _ => task_ok) l -> (forall u, t' = Some u -> task_ok u) ->
  map_Forall (fun _ => task_ok) (with_task t' k l).
Proof.
  intros Hl Ht. destruct t' as [u|]; cbn [with_task]; [apply map_Forall_insert_2; auto|by apply map_Forall_delete].
Qed.

Lemma daemon_step_ok d0 d l d' : daemon_step d l d' -> daemon_ok d0 d -> daemon_ok d0 d'.
Proof.
  intros Hs [F L P N I E H T B C]. pose proof (daemon_step_refines _ _ _ Hs) as Hr.
  pose proof (step_keeps_ok _ _ _ _ _ _ _ Hr N) as N'.
  destruct Hs as [host now H1|env command H1|k command t H1 H2 H3|k env t c t' l' H1 H2|l' v H1|
                  l' s H1 H2 (K1 & K2 & K3 & K4 & K5)].
  - pose proof (run_ticks_bounds db_fault page_count page_size freelist_count clock
      [{| tick_host := host; tick_rules := lc_rules (ctx d); tick_now := now |}]
      (sampler_view (lc_runtime (ctx d)) (sampler d)) B C T) as (B1 & B2 & B3).
    split; try done. apply tick_projected.
  - destruct (reading_keeps env command (ctx d) H1) as ((A & _) & (K1 & K2 & K3 & K4 & K5) & E1 & E2 & E3 & E4 & E5).
    unfold file_usable in F. split; simpl; unfold file_usable; try done; by rewrite ?E1, ?A, ?K1, ?E4, ?K2, ?K4.
  - split; simpl; try done. apply map_Forall_insert_2; [|done]. by eapply begin_ok.
  - destruct (local_step_keeps _ _ _ _ _ _ H2) as ((K1 & K2 & K3 & K4 & K5) & A & E3 & E4 & E5).
    destruct (local_step_ok _ _ _ _ _ _ H2 (L _ _ H1) F) as [F' L'].
    split; simpl; try done; [by apply with_task_ok|by rewrite ?A, ?K1, ?E4, ?K2, ?K4..].
  - by split.
  - split; simpl; try done.
    + by eapply task_step_synced in H1.
    + by rewrite K1.
    + by rewrite K2.
    + by rewrite K4.
Qed.

(** ** A daemon that was started *)

(** The registry's file holds a map, which a map type reads in key order. *)
Definition peers_file_ok (i : Installation) : Prop := forall recs : Records, load (i_peers i) = Ok recs -> bt_sorted recs.

Definition config_file_ok (i : Installation) : Prop :=
  forall c, load_config (i_config i) = Ok c -> config_carried float_ok c.

Definition starts (env : StartEnv (J := J)) (paths : AppPaths) (i i' : Installation) (c : LocalContext (J := J)) : Prop :=
  start_daemon db_fault config_fault key_fault uuid_text parse_uuid parse_relay_url read_file pem_sections
    verifier ca_text accepts bind public_key z32_text env paths i = (i', Ok c).

Lemma spawned_ok env paths i i' c col :
  peers_file_ok i -> config_file_ok i -> starts env paths i i' c -> daemon_ok (spawned c col) (spawned c col).
Proof.
  intros Hp Hc Hs. destruct (started_daemon_is_consistent _ _ _ _ _ _ _ _ _ _ _ _ _ _ _ _ _ _ _ Hc Hs)
    as (S & (F1 & F2 & F3 & F4 & F5 & F6 & F7 & F8) & _).
  assert (Hsort : bt_sorted (records (peers (lc_runtime c)))) by (by apply Hp).
  split; simpl; try done; try lia.
  - destruct S as (config & H1 & H2 & H3 & _). by exists config.
  - split; [by rewrite F2|done].
  - split; simpl; try done. split; simpl; rewrite F6; [constructor|]. by intros id inner.
  - by rewrite F8.
Qed.

Lemma run_daemon_ok d0 tr d : daemon_run d0 tr d -> daemon_ok d0 d0 -> daemon_ok d0 d.
Proof. induction 1; eauto using daemon_step_ok. Qed.

(** ** What the running rules have to do with the file *)

(** What a step does to the file, the rules and the local tasks: nothing, unless it is a step of a
    local task. *)
Definition same_settings (d d' : System) : Prop :=
  lc_disk (ctx d') = lc_disk (ctx d) /\ lc_rules (ctx d') = lc_rules (ctx d) /\
  lc_sampler_running (ctx d') = lc_sampler_running (ctx d) /\ sys_locals d' = sys_locals d.

Lemma step_settings d l d' :
  daemon_step d l d' ->
  same_settings d d' \/
  (exists k command t, sys_locals d !! k = None /\ begin_local command (ctx d) = Some t /\
     d' = with_locals (<[k := t]> (sys_locals d)) d) \/
  (exists k env t c t', sys_locals d !! k = Some t /\ local_step env t (ctx d) = (c, t', l) /\
     d' = with_locals (with_task t' k (sys_locals d)) (with_ctx c d)).
Proof.
  intros [host now H|env command H|k command t H1 H2 H3|k env t c t' l' H1 H2|l' v H|l' s H1 H2 H3]; try (by left).
  - left. destruct (reading_keeps env command (ctx d) H) as (_ & _ & E1 & E2 & _ & _ & E3). by split_and!.
  - right. left. by exists k, command, t.
  - right. right. by exists k, env, t, c, t'.
Qed.

(** A value with these rules was in the file at some moment of the run. *)
Definition held (d0 : System) (tr : list Label) (rules : list AlertRule) : Prop :=
  exists before after d1 config, tr = (before ++ after)%list /\ daemon_run d0 before d1 /\
    load_config (lc_disk (ctx d1)) = Ok config /\ alert_rules config = Ok rules.

Record rules_held (d0 : System) (tr : list Label) (d : System) : Prop := {
  rh_running : lc_sampler_running (ctx d) = true -> held d0 tr (lc_rules (ctx d));
  rh_publishing k rules : sys_locals d !! k = Some (Publishing rules) -> held d0 tr rules;
}.

Lemma held_more d0 tr l rules : held d0 tr rules -> held d0 (tr ++ [l]) rules.
Proof.
  intros (before & after & d1 & c & -> & H). exists before, (after ++ [l])%list, d1, c. by rewrite <- app_assoc.
Qed.

Lemma begun_not_publishing command c rules : begin_local command c <> Some (Publishing rules).
Proof.
  unfold begin_local. destruct (load_config (lc_disk c)) as [config|]; [|done]. unfold base.mbind, option_bind.
  cbn [result_ok]. destruct command; try (by destruct (edit _ _ _ _ _ _ _)). by destruct (is_ok _).
Qed.

Lemma rules_step d0 tr d l d' :
  daemon_run d0 tr d -> daemon_ok d0 d -> daemon_step d l d' -> rules_held d0 tr d -> rules_held d0 (tr ++ [l]) d'.
Proof.
  intros Hr Hok Hs [R P]. destruct (step_settings _ _ _ Hs) as [(E1 & E2 & E3 & E4)|[(k & command & t & H1 & H2 & ->)|
    (k & env & t & c & t' & H1 & H2 & Ed)]].
  - split; [rewrite E2, E3|intros j r; rewrite E4]; eauto using held_more.
  - split; simpl; [eauto using held_more|]. intros j r [[-> ->]|[_ Hj]]%lookup_insert_Some; [|eauto using held_more].
    by apply begun_not_publishing in H2.
  - destruct (local_step_keeps _ _ _ _ _ _ H2) as (_ & _ & _ & _ & E3).
    assert (Hnew : t' = None \/ t' = Some Advertising \/ exists next rules,
      t = Saving next (Some rules) /\ t' = Some (Publishing rules) /\ load_config (lc_disk c) = Ok next).
    { destruct t as [next effective|rules|config|]; cbn [local_step] in H2.
      - pose proof (save_config_cases config_fault next (lc_disk (ctx d))) as S.
        destruct (dk_locals _ _ Hok _ _ H1) as (_ & Hc & _).
        destruct (save_config _ _ _) as [dk [u|e]]; injection H2 as <- <- <-; [|by left].
        destruct effective as [rules|]; [right; right|by left]. exists next, rules. split_and!; [done..|by apply S].
      - injection H2 as _ <- _. by left.
      - destruct (pairing_poisoned _); [injection H2 as _ <- _; by left|]. unfold Pairing.open in H2.
        injection H2 as _ <- _. destruct (is_ok _); auto.
      - injection H2 as _ <- _. by left. }
    subst d'. split; cbn [ctx with_locals with_ctx sys_locals].
    + rewrite E3. intros Hrun. destruct t as [next effective|rules|config|]; cbn [local_step] in H2.
      * destruct (save_config _ _ _) as [dk [u|e]]; injection H2 as <- _ _; eauto using held_more.
      * rewrite Hrun in H2. injection H2 as <- _ _. eauto using held_more.
      * destruct (pairing_poisoned _); injection H2 as <- _ _; eauto using held_more.
      * injection H2 as <- _ _. eauto using held_more.
    + intros j r Hj. destruct Hnew as [->|[->|(next & rules & -> & -> & Hl)]]; cbn [with_task] in Hj.
      * apply lookup_delete_Some in Hj as [_ Hj]. eauto using held_more.
      * apply lookup_insert_Some in Hj as [[_ [=]]|[_ Hj]]. eauto using held_more.
      * apply lookup_insert_Some in Hj as [[_ [= <-]]|[_ Hj]]; [|eauto using held_more].
        destruct (dk_locals _ _ Hok _ _ H1) as (_ & _ & Hrules).
        eexists (tr ++ [l])%list, [], _, next. rewrite app_nil_r. split; [done|].
        split; [by econstructor|]. split; [done|]. by apply Hrules.
Qed.

Lemma run_rules_held d0 tr d :
  daemon_run d0 tr d -> daemon_ok d0 d0 -> rules_held d0 [] d0 -> rules_held d0 tr d.
Proof.
  intros H Hok H0. induction H as [|tr d l d' Hr IH Hs]; [done|]. eapply rules_step; eauto using run_daemon_ok.
Qed.

(** *** One change at a time *)

Definition is_edit (t : LocalTask) : bool :=
  match t with Saving _ _ | Publishing _ => true | _ => false end.

Definition no_edit (d : System) : Prop := forall k t, sys_locals d !! k = Some t -> is_edit t = false.

Definition one_edit (d : System) : Prop :=
  forall j k x y, sys_locals d !! j = Some x -> sys_locals d !! k = Some y ->
    is_edit x = true -> is_edit y = true -> j = k.

(** A run in which no command changes the configuration while another does. *)
Inductive serial_run (d0 : System) : list Label -> System -> Prop :=
  | serial_nil : one_edit d0 -> serial_run d0 [] d0
  | serial_snoc tr d l d' :
      serial_run d0 tr d -> daemon_step d l d' -> one_edit d' -> serial_run d0 (tr ++ [l])%list d'.

Definition in_force (config : AgentConfig) (c : LocalContext (J := J)) : Prop :=
  lc_sampler_running c = true -> alert_rules config = Ok (lc_rules c).

(** What the file, the rules and the change under way have to do with each other. *)
Definition agree (d : System) : Prop :=
  exists config, load_config (lc_disk (ctx d)) = Ok config /\
    (no_edit d -> in_force config (ctx d)) /\
    (forall k next effective, sys_locals d !! k = Some (Saving next effective) ->
       in_force config (ctx d) /\
       alert_rules next = match effective with Some rules => Ok rules | None => alert_rules config end) /\
    (forall k rules, sys_locals d !! k = Some (Publishing rules) -> alert_rules config = Ok rules).

(** A change is the only one while it is under way. *)
Lemma only_edit d k t : one_edit d -> sys_locals d !! k = Some t -> is_edit t = true ->
  forall j x, sys_locals d !! j = Some x -> j <> k -> is_edit x = false.
Proof.
  intros H1 Hk Ht j x Hj Hne. destruct (is_edit x) eqn:E; [|done]. destruct Hne. by eapply H1.
Qed.

Lemma begin_agrees d k command t :
  one_edit (with_locals (<[k := t]> (sys_locals d)) d) -> sys_locals d !! k = None ->
  begin_local command (ctx d) = Some t -> agree d -> agree (with_locals (<[k := t]> (sys_locals d)) d).
Proof.
  intros Ho Hk Hb (config & Hl & Hf & Hs & Hp). exists config. split; [done|]. cbn [ctx with_locals sys_locals] in *.
  assert (Hold : forall j x, <[k := t]> (sys_locals d) !! j = Some x -> j <> k -> sys_locals d !! j = Some x).
  { intros j x Hj Hne. by rewrite lookup_insert_ne in Hj. }
  split; [|split].
  - intros Hn. apply Hf. intros j x Hj. apply (Hn j). cbn [sys_locals with_locals].
    rewrite lookup_insert_ne; [done|]. intros ->. congruence.
  - intros j next effective Hj. destruct (decide (j = k)) as [->|Hne]; [|eauto].
    rewrite lookup_insert_eq in Hj. injection Hj as ->. split.
    { apply Hf. intros i x Hi. assert (i <> k) by (intros ->; congruence).
      eapply (only_edit _ k (Saving next effective) Ho (lookup_insert_eq _ _ _) eq_refl i); [|done]. cbn [sys_locals with_locals].
      by rewrite lookup_insert_ne. }
    revert Hb. unfold begin_local. rewrite Hl. unfold base.mbind, option_bind. cbn [result_ok].
    destruct command as [| | |b|i|i f u res| |i|url ca|p|a|text|text| |]; try (by destruct (is_ok _));
      (destruct (edit _ _ _ _ _ _ _) as [x|] eqn:He; [|done]); intros [= <- <-];
      try (by eapply edit_alert_rules).
    apply edit_alerts in He as [-> [rules ->]]. done.
  - intros j rules Hj. destruct (decide (j = k)) as [->|Hne]; [|eauto].
    rewrite lookup_insert_eq in Hj. injection Hj as ->. by apply begun_not_publishing in Hb.
Qed.

(** A step of a task that is no change. *)
Lemma window_agrees d k env t c t' l :
  sys_locals d !! k = Some t -> is_edit t = false -> local_step env t (ctx d) = (c, t', l) -> agree d ->
  agree (with_locals (with_task t' k (sys_locals d)) (with_ctx c d)).
Proof.
  intros Hk He Hs (config & Hl & Hf & Hsv & Hp).
  assert (Hc : lc_disk c = lc_disk (ctx d) /\ lc_rules c = lc_rules (ctx d) /\
               lc_sampler_running c = lc_sampler_running (ctx d) /\ (forall u, t' = Some u -> is_edit u = false)).
  { destruct t as [| |config'|]; try done; cbn [local_step] in Hs.
    - destruct (pairing_poisoned _); [injection Hs as <- <- _; done|]. unfold Pairing.open in Hs.
      injection Hs as <- <- _. split_and!; try done. destruct (is_ok _); [|done]. by intros u [= <-].
    - injection Hs as <- <- _. done. }
  destruct Hc as (E1 & E2 & E3 & Ht).
  assert (Hold : forall j x, with_task t' k (sys_locals d) !! j = Some x -> is_edit x = true -> sys_locals d !! j = Some x).
  { intros j x Hj Hx. destruct t' as [u|]; cbn [with_task] in Hj; [|by apply lookup_delete_Some in Hj as [_ ?]].
    apply lookup_insert_Some in Hj as [[_ <-]|[_ Hj]]; [|done]. rewrite Ht in Hx; done. }
  exists config. unfold in_force in *. cbn [ctx with_locals with_ctx sys_locals]. rewrite E1, E2, E3. split; [done|].
  split; [|split; [intros j next effective Hj; by eapply Hsv, Hold|intros j rules Hj; by eapply Hp, Hold]].
  intros Hn. apply Hf. intros j x Hj. destruct (decide (j = k)) as [->|Hne]; [congruence|]. apply (Hn j). cbn [sys_locals with_locals].
  destruct t' as [u|]; cbn [with_task]; [by rewrite lookup_insert_ne|by rewrite lookup_delete_ne].
Qed.

(** A step of the only change under way. *)
Lemma edit_agrees d0 d k env t c t' l :
  daemon_ok d0 d -> one_edit d -> sys_locals d !! k = Some t -> is_edit t = true ->
  local_step env t (ctx d) = (c, t', l) -> agree d ->
  agree (with_locals (with_task t' k (sys_locals d)) (with_ctx c d)).
Proof.
  intros Hok Ho Hk He Hs (config & Hl & Hf & Hsv & Hp). pose proof (only_edit d k t Ho Hk He) as Halone.
  assert (Hnone : forall x j, delete k (sys_locals d) !! j = Some x -> is_edit x = false).
  { intros x j [Hne Hj]%lookup_delete_Some. by eapply Halone. }
  assert (Hdone : forall config' c', load_config (lc_disk c') = Ok config' -> in_force config' c' ->
    agree (with_locals (delete k (sys_locals d)) (with_ctx c' d))).
  { intros config' c' Hl' Hf'. exists config'. split; [done|]. split; [done|].
    split; [intros j next eff Hj|intros j rules Hj]; by apply Hnone in Hj. }
  destruct t as [next effective|rules| |]; try done; cbn [local_step] in Hs.
  - destruct (Hsv k next effective Hk) as [Hin Hrules]. destruct (dk_locals _ _ Hok _ _ Hk) as (_ & Hc & _).
    pose proof (save_config_cases config_fault next (lc_disk (ctx d))) as S.
    destruct (save_config config_fault next (lc_disk (ctx d))) as [dk [u|e]]; injection Hs as <- <- <-; cbn [with_task].
    + destruct effective as [rules|]; cbn [with_task fmap option_fmap option_map].
      * exists next. cbn [ctx with_locals with_ctx with_config lc_disk sys_locals]. split; [by apply S|].
        split; [|split].
        -- intros Hn. specialize (Hn k (Publishing rules)). cbn [sys_locals with_locals] in Hn.
           rewrite lookup_insert_eq in Hn. by specialize (Hn eq_refl).
        -- intros j nx eff [[_ [=]]|[Hne Hj]]%lookup_insert_Some. by specialize (Halone j _ Hj (not_eq_sym Hne)).
        -- intros j r [[_ [= <-]]|[Hne Hj]]%lookup_insert_Some; [done|]. by specialize (Halone j _ Hj (not_eq_sym Hne)).
      * apply (Hdone next); [by apply S|]. unfold in_force in *. cbn [with_config lc_sampler_running lc_rules].
        by rewrite Hrules.
    + apply (Hdone config); [|exact Hin]. cbn [with_config lc_disk]. by rewrite (same_file_loads _ _ S).
  - injection Hs as <- <- <-. apply (Hdone config); [by destruct (lc_sampler_running (ctx d))|].
    unfold in_force. destruct (lc_sampler_running (ctx d)) eqn:E; [|congruence]. intros _. by eapply Hp.
Qed.

Lemma agree_step d0 d l d' :
  daemon_ok d0 d -> one_edit d -> one_edit d' -> daemon_step d l d' -> agree d -> agree d'.
Proof.
  intros Hok Ho Ho' Hs Ha. destruct (step_settings _ _ _ Hs) as [(E1 & E2 & E3 & E4)|[(k & command & t & H1 & H2 & ->)|
    (k & env & t & c & t' & H1 & H2 & ->)]].
  - unfold agree, no_edit, in_force in *. by rewrite E1, E2, E3, E4.
  - by eapply begin_agrees.
  - destruct (is_edit t) eqn:E; [by eapply edit_agrees|by eapply window_agrees].
Qed.

Lemma serial_is_run d0 tr d : serial_run d0 tr d -> daemon_run d0 tr d /\ one_edit d.
Proof. induction 1 as [|tr d l d' H [IH _] Hs Ho]; split; try done; [constructor|by econstructor]. Qed.

Lemma serial_agrees d0 tr d : serial_run d0 tr d -> daemon_ok d0 d0 -> agree d0 -> agree d.
Proof.
  intros H Hok H0. induction H as [|tr d l d' H IH Hs Ho]; [done|].
  destruct (serial_is_run _ _ _ H) as [Hr Ho1]. by apply (agree_step d0 d l d'); [by eapply run_daemon_ok|..].
Qed.

(** *** The viewer's part *)

Definition machines_file_ok (i : Installation) : Prop :=
  forall recs : Machines, machines_load (i_machines i) = Ok recs -> bt_sorted recs /\ keyed recs /\ machines_finite recs.

Lemma fleet_start_keeps fl fl' :
  fleet_start fl = Ok fl' -> Fleet.tracked fl ->
  f_registry fl' = f_registry fl /\ f_snapshots fl' = f_snapshots fl /\ Fleet.tracked fl'.
Proof.
  unfold fleet_start. destruct (machines_list (f_registry fl)) as [l|]; [|done]. cbn [result_bind]. intros [= <-].
  revert fl. induction l as [|m l IH]; intros fl Ht; [done|]. cbn [fold_left].
  destruct (IH (spawn_monitor m fl)) as (E1 & E2 & E3); [by apply spawn_tracked|]. rewrite E1, E2.
  split_and!; try done; unfold spawn_monitor; by destruct (f_monitors_poisoned fl).
Qed.

Lemma spawned_lookup f task m :
  spawned_monitors f !! task = Some m ->
  exists id rec, In (task, id) (f_running f) /\ bt_get id (records (f_registry f)) = Some rec /\ m = fresh_monitor rec.
Proof.
  unfold spawned_monitors. intros H%elem_of_list_to_map_2. apply list_elem_of_omap in H as ([t id] & Hin & He).
  destruct (bt_get id (records (f_registry f))) as [rec|] eqn:E; [|done]. injection He as <- <-.
  exists id, rec. split; [by apply list_elem_of_In|done].
Qed.

Lemma spawned_viewer_ok env paths i i' c col :
  machines_file_ok i -> starts env paths i i' c -> viewer_ok (viewer_of (spawned c col)).
Proof.
  intros Hm Hs. destruct (started_fleet _ _ _ _ _ _ _ _ _ _ _ _ _ _ _ _ _ _ _ Hs) as (fl & Hload & Hstart).
  unfold fleet_load in Hload. destruct (machines_load (i_machines i)) as [recs|] eqn:El; [|done].
  cbn [result_bind] in Hload. injection Hload as <-. destruct (Hm recs El) as (Hsort & Hkey & Hfin).
  destruct (fleet_start_keeps _ _ Hstart) as (E1 & E2 & (T1 & T2 & T3 & T4 & T5)).
  { split; [done|]. split; [done|]. split; [constructor|by split]. }
  assert (Hr : registry_ok {| records := recs; poisoned := false; file := i_machines i; disk_ops := 0 |}).
  { split; [split; [|done]|by split]. unfold machines_load in El. cbn [file records].
    destruct (load (i_machines i)) as [x|]; [by injection El as ->|done]. }
  pose proof (started_viewer_ok (i_machines i) recs Hr) as V. cbn [f_registry f_snapshots] in E1, E2.
  assert (Hmon : forall task m, spawned_monitors (lc_fleet c) !! task = Some m ->
    exists id, bt_get id (f_monitors (lc_fleet c)) = Some task /\ r_endpoint_id (mo_record m) = id /\
      record_finite (mo_record m) /\ Viewer.phase_ok (mo_phase m)).
  { intros task m (id & rec & Hin & Hg & ->)%spawned_lookup. rewrite E1 in Hg. cbn [records] in Hg. exists id.
    split; [by apply T2|]. split; [by apply Hkey|]. split; [|done].
    apply bt_get_In in Hg. unfold machines_finite in Hfin. rewrite List.Forall_forall in Hfin. by apply Hfin in Hg. }
  split; cbn [viewer_of spawned ctx v_registry v_snapshots v_handles v_poisoned v_monitors v_imports]; try done.
  - by rewrite E1.
  - rewrite E2. apply (vo_shown _ V).
  - intros task m Ht. apply Hmon in Ht as (id & _ & _ & H). done.
  - intros id task Hg m Ht. apply Hmon in Ht as (id' & Hg' & <- & _). by eapply T5.
Qed.

Lemma run_viewer_ok d0 tr d : daemon_run d0 tr d -> viewer_ok (viewer_of d0) -> viewer_ok (viewer_of d).
Proof.
  induction 1 as [|tr d l d' Hr IH Hs]; [done|]. intros H0. specialize (IH H0).
  destruct Hs as [host now H|env command H|k command t H1 H2 H3|k env t c t' l' H1 H2|l' v H|l' s H1 H2 H3]; try done.
  - unfold viewer_of, with_ctx. cbn [ctx sys_monitors sys_imports sys_removals].
    destruct (reading_keeps env command (ctx d) H) as (_ & _ & _ & _ & E & _). by rewrite E.
  - unfold viewer_of, with_ctx, with_locals. cbn [ctx sys_monitors sys_imports sys_removals].
    destruct (local_step_keeps _ _ _ _ _ _ H2) as (_ & _ & E & _). by rewrite E.
  - apply viewer_step_ok in H; [|done]. by destruct v.
Qed.

(** C9: Whatever its tasks do in whatever order, and whichever file, database and network operations
    fail, a daemon that started stays sound: the configuration file is one it could start on, and
    so is every value a command is about to write to it; memory and the registry's file hold the
    same peers; its identity does not change; the published health is what its flags and the
    active alerts call for; the trend, the pending batch and the prune counter stay within
    bounds; and the fleet keeps its own invariant (its registry reads back from its file, its
    handles are on monitors of their machines). The rules it evaluates are always those of a value the
    file held at some moment of the run; and as long as no two commands change the configuration
    at the same time, they are those of the file whenever none is doing so. (Nothing keeps two
    commands apart: [racing_commands_leave_other_rules].) *)
Theorem running_daemon_stays_sound env paths i i' c col tr d :
  peers_file_ok i -> config_file_ok i -> starts env paths i i' c -> daemon_run (spawned c col) tr d ->
  daemon_ok (spawned c col) d /\ held (spawned c col) tr (lc_rules (ctx d)) /\
  (serial_run (spawned c col) tr d -> no_edit d ->
   settings_ok (float_ok := float_ok) parse_relay_url read_file pem_sections verifier (ctx d)) /\
  (machines_file_ok i -> viewer_ok (viewer_of d)).
Proof.
  intros Hp Hc Hs Hr. pose proof (spawned_ok _ _ _ _ _ col Hp Hc Hs) as H0. pose proof (run_daemon_ok _ _ _ Hr H0) as Hok.
  destruct (started_daemon_is_consistent _ _ _ _ _ _ _ _ _ _ _ _ _ _ _ _ _ _ _ Hc Hs)
    as ((config & Hl & Hu & Hcar & Hrules) & _ & Hrun).
  split; [done|]. split; [|split].
  - destruct (run_rules_held _ _ _ Hr H0) as [R _].
    + split; [intros _|by intros k r]. exists [], [], (spawned c col), config. split; [done|]. split; [constructor|].
      split; [done|]. by apply Hrules.
    + apply R. clear - Hr Hrun. induction Hr as [|tr d l d' _ IH Hs]; [done|].
      destruct (step_settings _ _ _ Hs) as [(_ & _ & E & _)|[(k & cm & t & _ & _ & ->)|(k & e & t & x & t' & _ & H2 & ->)]];
        [by rewrite E|done|]. apply local_step_keeps in H2 as (_ & _ & _ & _ & E). cbn. by rewrite E.
  - intros Hser Hn. assert (Ha : agree (spawned c col)).
    { exists config. split; [done|]. split; [by intros _ _; apply Hrules|]. by split; intros. }
    destruct (serial_agrees _ _ _ Hser H0 Ha) as (config' & Hl' & Hf & _).
    destruct (dk_file _ _ Hok) as (x & Hx & Hx1 & Hx2). rewrite Hl' in Hx. injection Hx as <-.
    exists config'. split_and!; try done. by apply Hf.
  - intros Hm. eapply run_viewer_ok; [done|]. by eapply spawned_viewer_ok.
Qed.

(** The peer was in the registry's file at the start, or a local command opened a window since and
    the peer presented its secret in time. *)
Definition invited (i : Installation) (tr : list Label) (peer : EndpointId) : Prop :=
  (exists recs : Records, load (i_peers i) = Ok recs /\ is_Some (bt_get (id_text peer) recs)) \/
  exists before after, tr = (before ++ Authorized peer :: after)%list /\ vouched before peer.

Lemma daemon_prefix d0 tr1 tr2 d : daemon_run d0 (tr1 ++ tr2)%list d -> exists d1, daemon_run d0 tr1 d1.
Proof.
  revert d. induction tr2 as [|l tr2 IH] using rev_ind; intros d H; [rewrite app_nil_r in H; eauto|].
  rewrite app_assoc in H. inversion H as [E|tr d1 l' d' H1 H2 E]; [by destruct (tr1 ++ tr2)%list|].
  apply app_inj_tail in E as [-> _]. eauto.
Qed.

Lemma invited_more i tr more peer : invited i tr peer -> invited i (tr ++ more) peer.
Proof.
  intros [H|(before & after & -> & H)]; [by left|right]. exists before, (after ++ more)%list.
  by rewrite <- app_assoc.
Qed.

(** What is written was permitted earlier in the run, by a permission that came from the registry's
    file or a local window. *)
Lemma written_to_invited i c col tr d peer b :
  daemon_ok (spawned c col) (spawned c col) -> fresh_runtime i (lc_runtime c) -> daemon_run (spawned c col) tr d ->
  In (Wrote peer b) tr -> is_data b = true ->
  exists past rest, tr = (past ++ rest)%list /\ In (Wrote peer b) rest /\ invited i past peer.
Proof.
  intros Hok (F1 & F2 & F3 & F4 & F5 & _) Hr Hin Hd. destruct (daemon_run_refines _ _ _ Hr) as [R _].
  destruct (data_follows_permission _ _ _ _ (net_of (spawned c col)) _ _ peer b eq_refl R Hin Hd)
    as (past & s1 & rest & p & body & -> & R1 & Hw & Hperm & _).
  exists past, rest. split; [done|]. split; [done|].
  pose proof (permitted_known _ _ _ Hperm) as K.
  destruct (authorizations_come_from_local_windows _ _ _ _ _ _ _ (dk_net _ _ Hok) eq_refl F5 R1) as (H1 & H2 & _).
  destruct (H1 peer K) as [H|H]; [left; eauto|right].
  apply in_split in H as (before & after & ->). exists before, after. split; [done|]. by eapply H2.
Qed.

(** C1: Data leaves the machine only for peers its operator let in: in every run of a daemon that was
    started, whatever is sent to it and however its tasks interleave, each time data is written to
    a peer, the registry's file listed that peer at the start, or a local command had by then
    opened a pairing window and the peer had been authorized for presenting its secret in time.
    And one window lets in one peer. *)
Theorem data_reaches_only_invited_peers env paths i i' c col past peer b rest d :
  peers_file_ok i -> config_file_ok i -> starts env paths i i' c ->
  daemon_run (spawned c col) (past ++ Wrote peer b :: rest) d -> is_data b = true ->
  invited i past peer /\
  (count is_authorized (past ++ Wrote peer b :: rest) <= count is_opened (past ++ Wrote peer b :: rest))%nat.
Proof.
  intros Hp Hc Hs Hr Hd. pose proof (spawned_ok env paths i i' c col Hp Hc Hs) as Hok.
  destruct (started_daemon_is_consistent _ _ _ _ _ _ _ _ _ _ _ _ _ _ _ _ _ _ _ Hc Hs) as (_ & F & _). split.
  - change (past ++ Wrote peer b :: rest)%list with (past ++ [Wrote peer b] ++ rest)%list in Hr.
    rewrite app_assoc in Hr. destruct (daemon_prefix _ _ _ _ Hr) as [d1 H1].
    destruct (written_to_invited i c col _ d1 peer b Hok F H1) as (first & more & E & Hin & Hi);
      [apply in_or_app; right; by left|done|].
    destruct more as [|l more _] using rev_ind; [done|]. rewrite app_assoc in E. apply app_inj_tail in E as [-> _].
    by apply invited_more.
  - destruct (daemon_run_refines _ _ _ Hr) as [R _]. destruct F as (_ & _ & _ & _ & F5 & _).
    by apply (authorizations_come_from_local_windows _ _ _ _ _ _ _ (dk_net _ _ Hok) eq_refl F5 R).
Qed.

(** ** Streams as steps of the daemon *)

Lemma advance_sampler_part local ev remote ph n n' ph' l :
  advance db_fault peers_fault uuid_text local ev remote ph n = Some (n', ph', l) ->
  is_opened l = false /\ sampler_part_kept n n'.
Proof.
  intros H. destruct ph as [|body|ok wc| |rest], ev as [h|env seen sf|now| |now]; try done; cbn [advance] in H;
    try (by destruct body); try (injection H as <- <- <-; by try destruct wc).
  - destruct body; try done; (case_match; [case_match|]; by injection H as <- <- <-).
  - destruct body; try done. destruct (negb _); [by injection H as <- <- <-|].
    destruct (pairing_poisoned _); [by injection H as <- <- <-|].
    destruct (verify_and_consume_at _ _ _ _) as [w [[]|e]]; by injection H as <- <- <-.
  - destruct (authorize_preserving _ _ _ _) as [q [p|e]]; by injection H as <- <- <-.
Qed.

Lemma with_net_id d : with_net (net_of d) d = d.
Proof. by destruct d as [[] ? ? ? ?]. Qed.

Lemma daemon_one d l d' : daemon_step d l d' -> daemon_run d [l] d'.
Proof. intros H. apply (daemon_snoc d [] d l d'); [constructor|done]. Qed.

Lemma daemon_app d0 tr1 d1 tr2 d2 : daemon_run d0 tr1 d1 -> daemon_run d1 tr2 d2 -> daemon_run d0 (tr1 ++ tr2)%list d2.
Proof.
  intros H1 H2. induction H2 as [|tr d l d' H IH Hs]; [by rewrite app_nil_r|].
  rewrite app_assoc. by econstructor.
Qed.

Lemma solo_is_daemon_run evs j d tr s :
  solo db_fault peers_fault uuid_text (lc_endpoint_id (ctx d)) evs j (net_of d) = Some (tr, s) ->
  daemon_run d tr (with_net s d).
Proof.
  revert d tr. induction evs as [|ev evs IH]; intros d tr; cbn [solo].
  { intros [= <- <-]. rewrite with_net_id. constructor. }
  destruct (streams (net_of d) !! j) as [t|] eqn:Hj; [|done]. cbn [base.mbind option_bind].
  assert (Hgo : forall l s1, daemon_step d l (with_net s1 d) ->
    ('(tr0, s2) ← solo db_fault peers_fault uuid_text (lc_endpoint_id (ctx d)) evs j s1; Some (l :: tr0, s2)) = Some (tr, s) ->
    daemon_run d tr (with_net s d)).
  { intros l s1 Hs. destruct (solo _ _ _ _ evs j s1) as [[tr1 s2]|] eqn:E; [|done]. cbn. intros [= <- <-].
    apply (daemon_app d [l] (with_net s1 d)); [by apply daemon_one|]. specialize (IH (with_net s1 d) tr1).
    destruct s1. by apply IH in E. }
  destruct ev as [ev|].
  - destruct (advance _ _ _ _ ev (s_peer t) (s_phase t) _) as [[[n ph] l]|] eqn:Ha; [|done].
    cbn [base.mbind option_bind]. apply Hgo. apply advance_sampler_part in Ha as Hk. destruct Hk.
    apply daemon_remote; [by eapply step_stream|done|done].
  - destruct (s_phase t) as [| | | |[|b rest]] eqn:Hp; try done.
    destruct (alive (s_conn t) _) eqn:Hl; [|done]. cbn [base.mbind option_bind]. apply Hgo.
    apply daemon_remote; [by eapply step_write|done|done].
Qed.

(** A peer connects and opens a stream. *)
Definition connected_daemon (c : Connection) (d : System) : System :=
  with_net {| node := fst (register_connection c (lc_runtime (ctx d)));
              conns := {[0%nat := {| c_conn := c; c_alive := true |}]};
              streams := {[0%nat := {| s_conn := 0; s_peer := remote_id c; s_phase := Reading |}]};
              revokes := sys_revokes d |} d.

Lemma daemon_connects c d :
  sys_conns d = ∅ -> sys_streams d = ∅ -> active_poisoned (lc_runtime (ctx d)) = false ->
  daemon_run d [Silently; Silently] (connected_daemon c d).
Proof.
  intros Hc Hs Hp. set (n := fst (register_connection c (lc_runtime (ctx d)))).
  assert (Hr : register_connection c (lc_runtime (ctx d)) = (n, Ok tt)).
  { unfold n, register_connection. by rewrite Hp. }
  assert (K : sampler_part_kept (lc_runtime (ctx d)) n).
  { unfold n, register_connection. by rewrite Hp. }
  set (s1 := {| node := n; conns := {[0%nat := {| c_conn := c; c_alive := true |}]};
                streams := ∅; revokes := sys_revokes d |}).
  assert (H1 : daemon_step d Silently (with_net s1 d)).
  { apply daemon_remote; [|done|done]. pose proof (step_accept db_fault peers_fault uuid_text (lc_endpoint_id (ctx d))
      (net_of d) 0 c n) as S. unfold net_of in *. simpl in S. rewrite Hc, Hs in *. unfold s1.
    apply S; [apply lookup_empty|apply map_Forall_empty|apply map_Forall_empty|done]. }
  apply (daemon_app d [Silently] (with_net s1 d) [Silently]); [by apply daemon_one|]. apply daemon_one.
  apply (daemon_remote (with_net s1 d) Silently); [|done|done].
  exact (step_open db_fault peers_fault uuid_text (lc_endpoint_id (ctx d)) s1 0 {| c_conn := c; c_alive := true |} 0
           (lookup_singleton_eq _ _) eq_refl (lookup_empty _)).
Qed.

(** ** Local tasks under a schedule *)

Inductive LocalAction :=
  | Begin (k : nat) (command : LocalCommand)
  | Go (k : nat) (env : LocalEnv (Url := Url)).

Definition action_key (a : LocalAction) : nat := match a with Begin k _ | Go k _ => k end.

Definition act (a : LocalAction) (d : System) : option (Label * System) :=
  match a with
  | Begin k command =>
      match sys_locals d !! k with
      | Some _ => None
      | None =>
          t ← begin_local command (ctx d);
          Some (Silently, with_locals (<[k := t]> (sys_locals d)) d)
      end
  | Go k env =>
      t ← sys_locals d !! k;
      let '(c, t', l) := local_step env t (ctx d) in
      Some (l, with_locals (with_task t' k (sys_locals d)) (with_ctx c d))
  end.

Fixpoint acts (l : list LocalAction) (d : System) : option (list Label * System) :=
  match l with
  | [] => Some ([], d)
  | a :: rest =>
      '(label, d1) ← act a d;
      '(tr, d2) ← acts rest d1;
      Some (label :: tr, d2)
  end.

Definition action_carried (a : LocalAction) : Prop :=
  match a with Begin _ command => command_carried (float_ok := float_ok) command | Go _ _ => True end.

Lemma act_step a d l d' : action_carried a -> act a d = Some (l, d') -> daemon_step d l d'.
Proof.
  intros Hc. destruct a as [k command|k env]; cbn [act].
  - destruct (sys_locals d !! k) eqn:Hk; [done|]. destruct (begin_local command (ctx d)) as [t|] eqn:Hb; [|done].
    cbn [base.mbind option_bind]. intros [= <- <-]. by eapply daemon_begin.
  - destruct (sys_locals d !! k) as [t|] eqn:Hk; [|done]. cbn [base.mbind option_bind].
    destruct (local_step env t (ctx d)) as [[c t'] l'] eqn:Hs. intros [= <- <-]. by eapply daemon_local.
Qed.

Lemma acts_run l d tr d' : Forall action_carried l -> acts l d = Some (tr, d') -> daemon_run d tr d'.
Proof.
  revert d tr. induction l as [|a l IH]; intros d tr Hc; cbn [acts]; [intros [= <- <-]; constructor|].
  inversion Hc as [|? ? H1 H2]; subst. destruct (act a d) as [[label d1]|] eqn:Ha; [|done]. cbn [base.mbind option_bind].
  destruct (acts l d1) as [[tr1 d2]|] eqn:Hl; [|done]. cbn [base.mbind option_bind]. intros [= <- <-].
  apply (daemon_app d [label] d1); [apply daemon_one; by eapply act_step|by apply IH].
Qed.

(** One command after the other: all of them in the same place. *)
Lemma acts_serial k l d0 tr0 d tr d' :
  Forall action_carried l -> Forall (fun a => action_key a = k) l -> serial_run d0 tr0 d ->
  (forall j, j <> k -> sys_locals d !! j = None) -> acts l d = Some (tr, d') -> serial_run d0 (tr0 ++ tr) d'.
Proof.
  revert tr0 d tr. induction l as [|a l IH]; intros tr0 d tr Hc Hk Hs Hj; cbn [acts].
  { intros [= <- <-]. by rewrite app_nil_r. }
  inversion Hc as [|? ? H1 H2]; subst. inversion Hk as [|? ? H3 H4]; subst.
  destruct (act a d) as [[label d1]|] eqn:Ha; [|done]. cbn [base.mbind option_bind].
  destruct (acts l d1) as [[tr1 d2]|] eqn:Hl; [|done]. cbn [base.mbind option_bind]. intros [= <- <-].
  assert (Hj1 : forall j, j <> action_key a -> sys_locals d1 !! j = None).
  { intros j Hne. destruct a as [k command|k env]; cbn [act action_key] in *.
    - destruct (sys_locals d !! k); [done|]. destruct (begin_local _ _); [|done]. injection Ha as <- <-. cbn [with_locals sys_locals].
      rewrite lookup_insert_ne by done. auto.
    - destruct (sys_locals d !! k) as [t|]; [|done]. cbn [base.mbind option_bind] in Ha.
      destruct (local_step env t (ctx d)) as [[c t'] l']. injection Ha as <- <-. cbn [with_locals sys_locals].
      destruct t' as [u|]; cbn [with_task]; [rewrite lookup_insert_ne by done|rewrite lookup_delete_ne by done]; auto. }
  change (label :: tr1) with ([label] ++ tr1)%list. rewrite app_assoc. apply (IH _ d1); try done.
  apply (serial_snoc d0 tr0 d); [done|by eapply act_step|]. intros i j x y Hi Hy _ _.
  destruct (decide (i = action_key a)) as [->|Hi']; [|by rewrite Hj1 in Hi].
  destruct (decide (j = action_key a)) as [->|Hj']; [done|by rewrite Hj1 in Hy].
Qed.

End System.

(** ** Witnesses *)

#[local] Instance plain_text {E} : Display E | 100 := fun _ => "error".

(** An installation whose registry lists peer 3. *)
Definition listing_three : Installation :=
  {| i_config := disk_with demo_config; i_key := Bytes (replicate 32 1); i_node_id := TextAbsent;
     i_peers := match to_vec (records (peers paired_runtime)) with Some b => ReadOk b | None => ReadError end;
     i_machines := NotFound |}.

Definition three_started := start_daemon (J := MetricSample) never never never unary_text parse_unary
  (Url := string) (Cert := Z) Some (fun _ => Some [1]) Some (fun _ => true) (fun _ => "")
  (fun _ => true) (fun _ => true) (fun _ => 5) (fun _ => "z") demo_start demo_paths listing_three.

Definition three_ctx : LocalContext (J := MetricSample) :=
  match snd three_started with Ok c => c | Err _ => demo_ctx demo_config end.

Lemma three_starts :
  starts (J := MetricSample) never never never unary_text parse_unary (Url := string) (Cert := Z) Some
    (fun _ => Some [1]) Some (fun _ => true) (fun _ => "") (fun _ => true) (fun _ => true) (fun _ => 5)
    (fun _ => "z") demo_start demo_paths listing_three (fst three_started) three_ctx.
Proof.
  unfold starts, three_ctx. fold three_started.
  assert (H : is_ok (snd three_started) = true) by (vm_compute; reflexivity).
  destruct three_started as [i [c|e]]; [reflexivity|discriminate H].
Qed.

Lemma listing_peers_ok : peers_file_ok listing_three.
Proof.
  intros recs. unfold load. cbn [i_peers listing_three to_vec records_json countable_json read_file_or from_slice].
  rewrite pos_bits_roundtrip, decode_encode. intros [= <-]. vm_compute. repeat constructor.
Qed.

Lemma listing_config_ok : config_file_ok (float_ok := anything) listing_three.
Proof.
  intros c Hc. cbn [i_config listing_three] in Hc. rewrite demo_config_loads in Hc. injection Hc as <-.
  split; repeat constructor; by vm_compute.
Qed.

Definition demo_daemon : System (J := MetricSample) := spawned three_ctx (collector_new (quiet_host 0)).

Definition demo_run := daemon_run (J := MetricSample) never no_pages no_pages no_pages (clock_new 0 0)
  (float_ok := anything) never never never unary_text parse_unary (Url := string) (Cert := Z) Some
  (fun _ => Some [1]) Some (fun _ => true) (fun _ => "") (fun _ => Ok tt).

Definition demo_acts := acts (J := MetricSample) (float_ok := anything) never (Url := string) (Cert := Z) Some
  (fun _ => Some [1]) Some (fun _ => true) (fun _ => "") (fun _ => Ok tt).

Definition rules_on_file (d : System (J := MetricSample)) : option (list AlertRule) :=
  config ← result_ok (load_config (lc_disk (ctx d))); result_ok (alert_rules config).

(** Alerts are switched off and on again, one after the other, and a window is opened. *)
Definition in_turn : list LocalAction :=
  [Begin 0 (Alerts (AlertsEnabled false)); Go 0 demo_env; Go 0 demo_env;
   Begin 0 (Alerts (AlertsEnabled true)); Go 0 demo_env; Go 0 demo_env;
   Begin 0 PairingCreate; Go 0 demo_env; Go 0 demo_env].

(** The same two commands at the same time: both have read the file before either writes it, the
    second writes last and publishes first. *)
Definition at_once : list LocalAction :=
  [Begin 0 (Alerts (AlertsEnabled false)); Begin 1 (Alerts (AlertsEnabled true)); Go 0 demo_env; Go 1 demo_env;
   Go 1 demo_env; Go 0 demo_env].

Definition demo_outcome (l : list LocalAction) : option (nat * option nat * nat) :=
  '(_, d) ← demo_acts l demo_daemon;
  Some (size (sys_locals d), length <$> rules_on_file d, length (lc_rules (ctx d))).

(** Nothing keeps commands that change the configuration apart: after these two have returned, the
    file has alerts switched on and the daemon evaluates no rule, until it is restarted. *)
Lemma racing_commands_leave_other_rules :
  exists n, (0 < n)%nat /\ demo_outcome in_turn = Some (0%nat, Some n, n) /\
    demo_outcome at_once = Some (0%nat, Some n, 0%nat).
Proof.
  destruct (demo_outcome in_turn) as [[[a [n|]] m]|] eqn:E; vm_compute in E; try discriminate E.
  injection E as <- <- <-. eexists. split; [|split; [reflexivity|vm_compute; reflexivity]]. lia.
Qed.

Lemma listing_machines_ok : machines_file_ok listing_three.
Proof. intros recs. cbv. intros [= <-]. repeat split; done || constructor. Qed.

Lemma running_daemon_stays_sound_witness :
  exists tr d, demo_acts in_turn demo_daemon = Some (tr, d) /\ no_edit d /\
    settings_ok (float_ok := anything) Some (fun _ => Some [1]) Some (fun _ : list Z => true) (ctx d) /\
    viewer_ok (viewer_of d) /\ synced (peers (lc_runtime (ctx d))).
Proof.
  assert (Hn : (fun r => map_to_list (sys_locals (snd r))) <$> demo_acts in_turn demo_daemon = Some [])
    by (vm_compute; reflexivity).
  destruct (demo_acts in_turn demo_daemon) as [[tr d]|] eqn:E; [|discriminate Hn]. exists tr, d. split; [reflexivity|].
  injection Hn as Hn. apply map_to_list_empty_iff in Hn. cbn [snd] in Hn.
  assert (Hq : no_edit d) by (intros k t; rewrite Hn; discriminate).
  assert (Hc : Forall (action_carried (float_ok := anything)) in_turn) by (repeat constructor).
  assert (R : demo_run demo_daemon tr d) by (eapply acts_run; [exact Hc|exact E]).
  assert (S : serial_run (J := MetricSample) never no_pages no_pages no_pages (clock_new 0 0)
    (float_ok := anything) never never never unary_text parse_unary (Url := string) (Cert := Z) Some
    (fun _ => Some [1]) Some (fun _ => true) (fun _ => "") (fun _ => Ok tt) demo_daemon tr d).
  { apply (acts_serial (J := MetricSample) never no_pages no_pages no_pages (clock_new 0 0)
    (float_ok := anything) never never never unary_text parse_unary (Url := string) (Cert := Z) Some
    (fun _ => Some [1]) Some (fun _ => true) (fun _ => "") (fun _ => Ok tt) 0 in_turn demo_daemon [] demo_daemon tr d Hc).
    - repeat constructor.
    - constructor. intros j k x y Hj. discriminate Hj.
    - reflexivity.
    - exact E. }
  destruct (running_daemon_stays_sound never no_pages no_pages no_pages (clock_new 0 0) never never never never
    unary_text parse_unary Some (fun _ => Some [1]) Some (fun _ => true) (fun _ => "") (fun _ => Ok tt)
    (fun _ => true) (fun _ => true) (fun _ => 5) (fun _ => "z") demo_start demo_paths listing_three
    (fst three_started) three_ctx (collector_new (quiet_host 0)) tr d listing_peers_ok listing_config_ok three_starts R)
    as (Hok & _ & Hser & Hv).
  split; [exact Hq|]. split; [exact (Hser S Hq)|]. split; [exact (Hv listing_machines_ok)|].
  destruct Hok as [_ _ Hp _ _ _ _ _ _ _]. exact Hp.
Defined.

Definition first_health : ResponseBody := RHealth (ToWire.health healthy).

Lemma data_reaches_only_invited_peers_witness :
  exists past d, demo_run demo_daemon (past ++ [Wrote 3 first_health])%list d /\ invited listing_three past 3.
Proof.
  assert (R1 : demo_run demo_daemon [Silently; Silently] (connected_daemon viewer demo_daemon)).
  { unfold demo_run. apply daemon_connects; vm_compute; reflexivity. }
  set (d1 := connected_daemon viewer demo_daemon) in *.
  set (evs := [Some (EvHeader (Got (Some (GetHealth V1)))); Some (EvCheck Server.demo_env (lc_runtime (ctx d1)) never_fails);
               None] : list (option (StreamEvent (J := MetricSample)))).
  assert (Htr : fst <$> solo never never unary_text (lc_endpoint_id (ctx d1)) evs 0 (net_of d1) =
    Some [Silently; Granted 3 default_permissions (GetHealth V1); Wrote 3 first_health]) by (vm_compute; reflexivity).
  destruct (solo never never unary_text (lc_endpoint_id (ctx d1)) evs 0 (net_of d1)) as [[tr s]|] eqn:E; [|done].
  injection Htr as Htr.
  pose proof (solo_is_daemon_run (J := MetricSample) never no_pages no_pages no_pages (clock_new 0 0)
    (float_ok := anything) never never never unary_text parse_unary (Url := string) (Cert := Z) Some
    (fun _ => Some [1]) Some (fun _ => true) (fun _ => "") (fun _ => Ok tt) evs 0 d1 tr s E) as R2.
  pose proof (daemon_app _ _ _ _ _ _ _ _ _ _ _ _ _ _ _ _ _ _ _ _ _ R1 R2) as R.
  rewrite Htr in R. exists [Silently; Silently; Silently; Granted 3 default_permissions (GetHealth V1)], (with_net s d1).
  split; [exact R|].
  apply (data_reaches_only_invited_peers never no_pages no_pages no_pages (clock_new 0 0) never never never never
    unary_text parse_unary Some (fun _ => Some [1]) Some (fun _ => true) (fun _ => "") (fun _ => Ok tt)
    (fun _ => true) (fun _ => true) (fun _ => 5) (fun _ => "z") demo_start demo_paths listing_three
    (fst three_started) three_ctx (collector_new (quiet_host 0))
    [Silently; Silently; Silently; Granted 3 default_permissions (GetHealth V1)] 3 first_health [] _
    listing_peers_ok listing_config_ok three_starts R eq_refl).
Defined.
