(* ===== verification/Cli.v ===== *)
(** The command line: [apps/agent/src/main.rs].

    Arguments that [clap] has parsed are turned into one request of the local socket, and the
    response into what the process prints and its exit. Every request the command line can
    make is one the daemon can carry out: in particular its history ranges are accepted. *)

From Stdlib Require Import Ascii String.
From S2P Require Import Prelude BTree Float Model Alert Storage Framing Transport Net Persist.
From S2P Require Import Codecs Pairing Mdns Server Remote Fleet Config Json LocalIpc.
Local Open Scope string_scope.
Local Open Scope Z_scope.

(** ** Parsed arguments *)

Inductive CliAlert :=
  | CliAlertList
  | CliAlertSet (id : string) (threshold : option f64) (samples : option Z)
      (severity metric comparison : option string)
  | CliAlertDisable (id : string)
  | CliAlertEnable (id : string)
  | CliAlertReset (id : option string)
  | CliAlertsOff
  | CliAlertsOn.

Inductive CliAddress :=
  | CliAddressAdd (address : string)
  | CliAddressRemove (address : string)
  | CliAddressList.

Inductive Command :=
  | CliDaemon
  | CliStatus
  | CliFleet
  | CliHistory (endpoint_id : string) (hours : Z) (resolution : string)
  | CliPairingCreate
  | CliPairingImport (bundle : string)
  | CliMachineRemove (endpoint_id : string)
  | CliPeerList
  | CliPeerRevoke (endpoint_id : string)
  | CliRelaySet (url : string) (ca_certificate : option string)
  | CliListenPortSet (port : string)
  | CliAlerts (command : CliAlert)
  | CliAdvertise (command : CliAddress)
  | CliDoctor.

(** What [clap]'s value parsers let through. *)
Definition clap_accepts (c : Command) : Prop :=
  match c with
  | CliHistory _ hours resolution => 1 <= hours <= 168 /\ In resolution ["minute"; "raw"]
  | CliAlerts (CliAlertSet _ t samples sev m cmp) =>
      (forall x, t = Some x -> is_finite x = true) /\
      (forall n, samples = Some n -> 1 <= n <= u32_max) /\
      (forall s, sev = Some s -> In s ["warning"; "critical"]) /\
      (forall s, m = Some s -> In s ALERT_METRICS) /\
      (forall s, cmp = Some s -> In s ["at-or-above"; "at-or-below"])
  | _ => True
  end.

(** ** Translation *)

Definition history_request (now_ms : Z) (endpoint_id : string) (hours : Z) (resolution : string)
  : LocalCommand :=
  QueryHistory endpoint_id (i64_sat_sub now_ms (hours * 60 * 60 * 1000)) now_ms
    (if String.eqb resolution "raw" then Raw else Minute).

Definition comparison_from (value : string) : Comparison :=
  if String.eqb value "at-or-below" then LessThanOrEqual else GreaterThanOrEqual.

Definition severity_from (value : string) : NodeState :=
  if String.eqb value "critical" then Critical else Warning.

Definition alert_request (c : CliAlert) : AlertCommand :=
  match c with
  | CliAlertList => AlertList
  | CliAlertSet id threshold samples sev m cmp =>
      AlertSet id m (comparison_from <$> cmp) threshold samples (severity_from <$> sev)
  | CliAlertDisable id => RuleEnabled id false
  | CliAlertEnable id => RuleEnabled id true
  | CliAlertReset id => AlertReset id
  | CliAlertsOff => AlertsEnabled false
  | CliAlertsOn => AlertsEnabled true
  end.

(** The value parser of [--threshold]; [parse] is [str::parse::<f64>]. *)
Definition finite_threshold (parse : string -> option f64) (value : string) : result f64 string :=
  let? parsed := ok_or (parse value) ("`" +:+ value +:+ "` is not a number") in
  if is_finite parsed then Ok parsed else Err ("`" +:+ value +:+ "` is not a finite threshold").

(** [str::parse::<u16>]: an optional plus sign, then digits, within the width. *)
Definition parse_u16 (s : string) : option Z :=
  let digits := match s with String "+" rest => rest | _ => s end in
  match read_number 10 None true u16_max digits with
  | Some (v, EmptyString) => Some v
  | _ => None
  end.

(** The request a command makes; [None] runs the daemon itself. *)
Definition cli_request (now_ms : Z) (c : Command) : result (option LocalCommand) string :=
  let request r := Ok (Some r) in
  match c with
  | CliDaemon => Ok None
  | CliStatus => request Status
  | CliFleet => request FleetSnapshot
  | CliHistory id hours resolution => request (history_request now_ms id hours resolution)
  | CliPairingCreate => request PairingCreate
  | CliPairingImport bundle => request (PairingImport bundle)
  | CliMachineRemove id => request (MachineRemove id)
  | CliPeerList => request PeerList
  | CliPeerRevoke id => request (PeerRevoke id)
  | CliRelaySet url ca =>
      request (RelaySet (if String.eqb url "direct-only" then None else Some url) ca)
  | CliListenPortSet port =>
      if String.eqb port "ephemeral" then request (BindPortSet None)
      else
        let? p := ok_or (parse_u16 port)
                    "listen port must be a number from 1 to 65535, or `ephemeral`" in
        request (BindPortSet (Some p))
  | CliAlerts command => request (Alerts (alert_request command))
  | CliAdvertise (CliAddressAdd a) => request (AdvertiseAddressAdd a)
  | CliAdvertise (CliAddressRemove a) => request (AdvertiseAddressRemove a)
  | CliAdvertise CliAddressList => request AdvertiseAddressList
  | CliDoctor => request Doctor
  end.

(** [print_response]: the printed text and the exit; [pretty] is the JSON text. *)
Definition print_response (pretty : LocalResponse -> option string) (r : LocalResponse)
  : result string string :=
  let? text := ok_or (pretty r) "serialization" in
  if resp_ok r then Ok text else Err (default "daemon request failed" (resp_error r)).

(** ** Properties *)

(** Every history range the command line offers, up to the whole week, is one both the local
    store and a remote query accept, whatever the clock says. *)
Theorem cli_history_is_accepted now_ms id hours resolution :
  in_i64 now_ms -> clap_accepts (CliHistory id hours resolution) ->
  exists from_ms to_ms res,
    cli_request now_ms (CliHistory id hours resolution) = Ok (Some (QueryHistory id from_ms to_ms res)) /\
    (res = Raw <-> resolution = "raw") /\ in_i64 from_ms /\ to_ms = now_ms /\
    history_range_ok from_ms to_ms = true /\
    (to_ms <? from_ms) || (MAX_LOCAL_HISTORY_RANGE_MS <? i64_sat_sub to_ms from_ms) = false.
Proof.
  intros Hn [Hh Hr]. cbn [cli_request]. unfold history_request.
  exists (i64_sat_sub now_ms (hours * 60 * 60 * 1000)), now_ms, (if String.eqb resolution "raw" then Raw else Minute).
  split; [done|]. split.
  { destruct (String.eqb_spec resolution "raw"); by split. }
  split; [apply i64_clamp_bounds|]. split; [done|].
  assert (H : 0 <= now_ms - i64_sat_sub now_ms (hours * 60 * 60 * 1000) <= 7 * 24 * 60 * 60 * 1000) by width_lia.
  assert (H2 : i64_sat_sub now_ms (i64_sat_sub now_ms (hours * 60 * 60 * 1000)) <= 7 * 24 * 60 * 60 * 1000).
  { set (f := i64_sat_sub now_ms (hours * 60 * 60 * 1000)) in *. clearbody f. width_lia. }
  split.
  - unfold history_range_ok, MAX_HISTORY_RANGE_MS.
    by rewrite (proj2 (Z.ltb_ge now_ms _)), (proj2 (Z.ltb_ge _ _) H2) by lia.
  - unfold MAX_LOCAL_HISTORY_RANGE_MS. by rewrite (proj2 (Z.ltb_ge now_ms _)), (proj2 (Z.ltb_ge _ _) H2) by lia.
Qed.

Lemma cli_history_is_accepted_witness :
  history_range_ok (1000000000000 - 604800000) 1000000000000 = true.
Proof.
  destruct (cli_history_is_accepted 1000000000000 "111" 168 "raw") as (f & t & r & E & _ & _ & _ & H & _).
  - by vm_compute.
  - split; [lia|right; by left].
  - injection E as <- <- <-. exact H.
Defined.

(** A listen port is sent on exactly as it was written, and what is not a port is not sent. *)
Theorem listen_port_text (now_ms p : Z) (text : string) :
  in_u u16_max p ->
  cli_request now_ms (CliListenPortSet (decimal p)) = Ok (Some (BindPortSet (Some p))) /\
  (forall c, cli_request now_ms (CliListenPortSet text) = Ok (Some c) ->
     text = "ephemeral" /\ c = BindPortSet None \/
     exists q, c = BindPortSet (Some q) /\ in_u u16_max q).
Proof.
  intros Hp. assert (Hd : exists d rest, 0 <= d < 10 /\ decimal p = String (digit_char d) rest).
  { unfold decimal. change 20%nat with (S 19).
    enough (G : forall fuel n acc, exists d rest, 0 <= d < 10 /\ radix_digits (S fuel) 10 n acc = String (digit_char d) rest)
      by apply G.
    clear. induction fuel as [|fuel IH]; intros n acc; rewrite radix_digits_S;
      pose proof (Z.mod_pos_bound n 10 ltac:(lia)); destruct (_ =? 0); eauto. }
  assert (Hread : read_number 10 None true u16_max (decimal p) = Some (p, "")).
  { unfold decimal. apply read_number_text; try done; try lia. width_lia. }
  split.
  - cbn [cli_request]. destruct Hd as (d & rest & Hd & E).
    assert (Hc : Ascii.eqb (digit_char d) "e" = false /\ Ascii.eqb (digit_char d) "+" = false).
    { assert (H : forallb (fun d => negb (Ascii.eqb (digit_char (Z.of_nat d)) "e") &&
        negb (Ascii.eqb (digit_char (Z.of_nat d)) "+")) (seq 0 10) = true) by (vm_compute; done).
      rewrite forallb_forall in H. specialize (H (Z.to_nat d)). rewrite Z2Nat.id in H by lia.
      apply andb_true_iff in H as [H1 H2]; [|apply in_seq; lia].
      by apply negb_true_iff in H1, H2. }
    destruct Hc as [Hc1 Hc2].
    replace (String.eqb (decimal p) "ephemeral") with false by (rewrite E; simpl; by rewrite Hc1).
    unfold parse_u16. replace (match decimal p with String "+" r => r | _ => decimal p end) with (decimal p).
    + by rewrite Hread.
    + rewrite E. destruct (digit_char d) as [[] [] [] [] [] [] [] []]; try done.
  - intros c. cbn [cli_request]. destruct (String.eqb_spec text "ephemeral") as [->|].
    + intros [= <-]. by left.
    + unfold parse_u16. set (digits := match text with String "+" r => r | _ => text end).
      destruct (read_number 10 None true u16_max digits) as [[q r]|] eqn:Eq; [|done].
      destruct r; [|done]. simpl. intros [= <-]. right. exists q. split; [done|]. by eapply read_number_range.
Qed.

(** A threshold from the command line is one JSON can carry, so it is never lost on the way. *)
Theorem cli_threshold_is_carried parse value t :
  finite_threshold parse value = Ok t -> is_finite t = true /\ float_value t = VFloat t.
Proof.
  unfold finite_threshold. destruct (parse value) as [x|]; [|done]. simpl.
  destruct (is_finite x) eqn:E; [|done]. intros [= <-]. split; [done|]. unfold float_value. by rewrite E.
Qed.
