(* ===== verification/Commands.v ===== *)
(** The JSON of local commands: what serde derives for [LocalCommand] and [AlertCommand] of
    [apps/agent/src/runtime/local_ipc.rs].

    The command line sends [command_value]; the desktop builds its own objects; the daemon reads
    both with [command_of_value]. [answer] is the daemon's side of one exchange. *)

From Stdlib Require Import Ascii String.
From S2P Require Import Prelude BTree Float Model Alert Storage Framing Transport Net Persist.
From S2P Require Import Codecs Pairing Mdns Server Remote Fleet Config Json LocalIpc.
Local Open Scope string_scope.
Local Open Scope Z_scope.

(** ** Writing *)

#[export] Instance ser_resolution : Serialize HistoryResolution := fun r =>
  VString match r with Raw => "raw" | Minute => "minute" end.

(** A field left out when it is none. *)
Definition some_field {A} `{!Serialize A} (key : string) (o : option A) : list (string * Value) :=
  match o with Some a => [(key, to_value a)] | None => [] end.

Definition alert_fields (c : AlertCommand) : list (string * Value) :=
  match c with
  | AlertList => [("alerts", VString "list")]
  | AlertSet i m cmp t n s =>
      ([("alerts", VString "set"); ("id", VString i)] ++ some_field "metric" m ++
       some_field "comparison" cmp ++ some_field "threshold" (float_value <$> t) ++
       some_field "consecutive_samples" n ++ some_field "severity" s)%list
  | RuleEnabled i e => [("alerts", VString "rule_enabled"); ("id", VString i); ("enabled", VBool e)]
  | AlertReset i => ([("alerts", VString "reset")] ++ some_field "id" i)%list
  | AlertsEnabled e => [("alerts", VString "enabled"); ("enabled", VBool e)]
  end.

Definition command_fields (c : LocalCommand) : list (string * Value) :=
  let tag name fields := ("command", VString name) :: fields in
  match c with
  | Status => tag "status" []
  | FleetSnapshot => tag "fleet_snapshot" []
  | PairingCreate => tag "pairing_create" []
  | PairingImport b => tag "pairing_import" [("bundle", VString b)]
  | MachineRemove e => tag "machine_remove" [("endpoint_id", VString e)]
  | QueryHistory e from_ms to_ms r =>
      tag "query_history" [("endpoint_id", VString e); ("from_ms", VInt from_ms); ("to_ms", VInt to_ms);
                           ("resolution", to_value r)]
  | PeerList => tag "peer_list" []
  | PeerRevoke e => tag "peer_revoke" [("endpoint_id", VString e)]
  | RelaySet u ca => tag "relay_set" [("relay_url", to_value u); ("ca_certificate", to_value ca)]
  | BindPortSet p => tag "bind_port_set" [("bind_port", to_value p)]
  | Alerts a => tag "alerts" (alert_fields a)
  | AdvertiseAddressAdd a => tag "advertise_address_add" [("address", VString a)]
  | AdvertiseAddressRemove a => tag "advertise_address_remove" [("address", VString a)]
  | AdvertiseAddressList => tag "advertise_address_list" []
  | Doctor => tag "doctor" []
  end.

Definition command_value (c : LocalCommand) : Value := obj (command_fields c).

(** ** Reading *)

Definition resolution_of_value (v : Value) : option HistoryResolution :=
  s ← as_str v;
  if String.eqb s "raw" then Some Raw else if String.eqb s "minute" then Some Minute else None.

Definition comparison_of_value (v : Value) : option Comparison :=
  s ← as_str v;
  if String.eqb s "greater_than_or_equal" then Some GreaterThanOrEqual
  else if String.eqb s "less_than_or_equal" then Some LessThanOrEqual else None.

Definition state_of_value (v : Value) : option NodeState :=
  s ← as_str v;
  snd <$> find (fun e => String.eqb (fst e) s)
    [("healthy", Healthy); ("warning", Warning); ("critical", Critical); ("stale", Stale);
     ("offline", Offline); ("auth_error", AuthError); ("incompatible", Incompatible);
     ("degraded", Degraded)].

Definition as_u16 (v : Value) : option Z := z ← as_u64 v; try_from_u u16_max z.
Definition as_u32 (v : Value) : option Z := z ← as_u64 v; try_from_u u32_max z.

(** A required field, and an optional one, for which null is none. *)
Definition need {A} (key : string) (read : Value -> option A) (v : Value) : option A :=
  vget key v ≫= read.

Definition may {A} (key : string) (read : Value -> option A) (v : Value) : option (option A) :=
  match vget key v with
  | None | Some VNull => Some None
  | Some x => Some <$> read x
  end.

Definition alert_of_value (v : Value) : option AlertCommand :=
  tag ← need "alerts" as_str v;
  if String.eqb tag "list" then Some AlertList
  else if String.eqb tag "set" then
    i ← need "id" as_str v;
    m ← may "metric" as_str v;
    cmp ← may "comparison" comparison_of_value v;
    t ← may "threshold" as_f64 v;
    n ← may "consecutive_samples" as_u32 v;
    s ← may "severity" state_of_value v;
    Some (AlertSet i m cmp t n s)
  else if String.eqb tag "rule_enabled" then
    i ← need "id" as_str v; e ← need "enabled" as_bool v; Some (RuleEnabled i e)
  else if String.eqb tag "reset" then i ← may "id" as_str v; Some (AlertReset i)
  else if String.eqb tag "enabled" then e ← need "enabled" as_bool v; Some (AlertsEnabled e)
  else None.

Definition command_of_value (v : Value) : option LocalCommand :=
  tag ← need "command" as_str v;
  if String.eqb tag "status" then Some Status
  else if String.eqb tag "fleet_snapshot" then Some FleetSnapshot
  else if String.eqb tag "pairing_create" then Some PairingCreate
  else if String.eqb tag "pairing_import" then b ← need "bundle" as_str v; Some (PairingImport b)
  else if String.eqb tag "machine_remove" then
    e ← need "endpoint_id" as_str v; Some (MachineRemove e)
  else if String.eqb tag "query_history" then
    e ← need "endpoint_id" as_str v; from_ms ← need "from_ms" as_i64 v; to_ms ← need "to_ms" as_i64 v;
    r ← need "resolution" resolution_of_value v; Some (QueryHistory e from_ms to_ms r)
  else if String.eqb tag "peer_list" then Some PeerList
  else if String.eqb tag "peer_revoke" then e ← need "endpoint_id" as_str v; Some (PeerRevoke e)
  else if String.eqb tag "relay_set" then
    u ← may "relay_url" as_str v; ca ← may "ca_certificate" as_str v; Some (RelaySet u ca)
  else if String.eqb tag "bind_port_set" then p ← may "bind_port" as_u16 v; Some (BindPortSet p)
  else if String.eqb tag "alerts" then Alerts <$> alert_of_value v
  else if String.eqb tag "advertise_address_add" then
    a ← need "address" as_str v; Some (AdvertiseAddressAdd a)
  else if String.eqb tag "advertise_address_remove" then
    a ← need "address" as_str v; Some (AdvertiseAddressRemove a)
  else if String.eqb tag "advertise_address_list" then Some AdvertiseAddressList
  else if String.eqb tag "doctor" then Some Doctor
  else None.

(** ** Round trip *)

(** Every number of the command is in the range of its type; a threshold is one JSON carries. *)
Definition sendable (c : LocalCommand) : Prop :=
  match c with
  | QueryHistory _ from_ms to_ms _ => in_i64 from_ms /\ in_i64 to_ms
  | BindPortSet p => opt_wf u16_max p
  | Alerts (AlertSet _ _ _ t n _) =>
      (forall x, t = Some x -> is_finite x = true) /\ opt_wf u32_max n
  | _ => True
  end.

Lemma as_narrow_int m z : in_u m z -> m <= u64_max -> (z' ← as_u64 (VInt z); try_from_u m z') = Some z.
Proof.
  intros [H1 H2] Hm. rewrite as_u64_int by (split; lia). cbn [base.mbind option_bind]. unfold try_from_u.
  by rewrite (proj2 (Z.leb_le _ _) H1), (proj2 (Z.leb_le _ _) H2).
Qed.

Lemma comparison_reads_back c : comparison_of_value (to_value c) = Some c.
Proof. by destruct c. Qed.

Lemma state_reads_back s : state_of_value (to_value s) = Some s.
Proof. by destruct s. Qed.

(** Read an optional field that was left out or written. *)
Lemma may_field {A} `{!Serialize A} (key : string) (read : Value -> option A) (o : option A) v :
  vget key v = to_value <$> o -> (forall a, o = Some a -> to_value a <> VNull /\ read (to_value a) = Some a) ->
  may key read v = Some o.
Proof.
  intros E H. unfold may. rewrite E. destruct o as [a|]; [|done]. cbn [fmap option_fmap option_map].
  destruct (H a eq_refl) as [Hn Hr]. rewrite Hr. by destruct (to_value a).
Qed.

(** The fields of an edit, read one by one. *)
Lemma set_reads_back i m cmp t n s v :
  vget "alerts" v = Some (VString "set") -> vget "id" v = Some (VString i) ->
  vget "metric" v = to_value <$> m -> vget "comparison" v = to_value <$> cmp ->
  vget "threshold" v = VFloat <$> t -> vget "consecutive_samples" v = to_value <$> n ->
  vget "severity" v = to_value <$> s -> opt_wf u32_max n ->
  alert_of_value v = Some (AlertSet i m cmp t n s).
Proof.
  intros H1 H2 H3 H4 H5 H6 H7 Hn. unfold alert_of_value, need. rewrite H1, H2.
  cbn [base.mbind option_bind as_str String.eqb Ascii.eqb Bool.eqb].
  rewrite (may_field "metric" as_str m v H3) by (intros a _; done). cbn [base.mbind option_bind].
  rewrite (may_field "comparison" comparison_of_value cmp v H4)
    by (intros a _; split; [by destruct a|apply comparison_reads_back]). cbn [base.mbind option_bind].
  replace (may "threshold" as_f64 v) with (Some t)
    by (unfold may; rewrite H5; by destruct t). cbn [base.mbind option_bind].
  rewrite (may_field "consecutive_samples" as_u32 n v H6).
  2:{ intros a Ha. split; [done|]. apply as_narrow_int; [by apply Hn|by vm_compute]. }
  cbn [base.mbind option_bind].
  rewrite (may_field "severity" state_of_value s v H7)
    by (intros a _; split; [by destruct a|apply state_reads_back]). done.
Qed.

Lemma alert_reads_back a :
  sendable (Alerts a) -> alert_of_value (command_value (Alerts a)) = Some a.
Proof.
  intros Hs. destruct a as [|i m cmp t n s|i e|i|e]; unfold command_value, command_fields, alert_fields.
  - unfold alert_of_value, need. by read_fields.
  - destruct Hs as [Ht Hn]. apply set_reads_back; [..|done]; rewrite vget_obj; try reflexivity.
    all: destruct m, cmp, n, s; destruct t as [x|]; cbn [fmap option_fmap option_map]; try reflexivity.
    all: unfold float_value; rewrite (Ht x eq_refl); reflexivity.
  - unfold alert_of_value, need. by read_fields.
  - unfold alert_of_value, need, may. destruct i; by read_fields.
  - unfold alert_of_value, need. by read_fields.
Qed.

Lemma alerts_tag a : vget "command" (command_value (Alerts a)) = Some (VString "alerts").
Proof.
  unfold command_value. rewrite vget_obj. unfold command_fields, alert_fields, some_field.
  destruct a as [|i m cmp t n s|i e|[i|]|e]; try reflexivity. by destruct m, cmp, t, n, s.
Qed.

(** C30: A command the daemon is sent is the command it runs: reading the JSON of any command whose
    numbers fit their types gives that command back, whichever fields it leaves out. *)
Theorem local_command_roundtrip (c : LocalCommand) :
  sendable c -> command_of_value (command_value c) = Some c.
Proof.
  intros Hs. unfold command_of_value, need.
  destruct c as [| | |b|e|e f t r| |e|u ca|p|a|a|a| |];
    try (unfold command_value, command_fields; read_fields; reflexivity).
  - destruct Hs as [H1 H2]. unfold command_value, command_fields. read_fields.
    cbn [base.mbind option_bind]. rewrite !as_i64_int by done. by destruct r.
  - unfold command_value, command_fields, may. read_fields. by destruct u, ca.
  - unfold command_value, command_fields, may. read_fields. destruct p as [p|]; [|done].
    cbn [base.mbind option_bind]. unfold to_value, ser_option, ser_int, to_value, as_u16.
    rewrite as_narrow_int; [done|by apply Hs|by vm_compute].
  - rewrite alerts_tag. cbn [base.mbind option_bind as_str String.eqb Ascii.eqb Bool.eqb].
    by rewrite alert_reads_back.
Qed.

Lemma local_command_roundtrip_witness :
  let c := Alerts (AlertSet "cpu" None (Some LessThanOrEqual) (Some (f64_of_Z 90)) (Some 3) None) in
  command_of_value (command_value c) = Some c.
Proof.
  intros c. apply (local_command_roundtrip c). split; [|by intros z [= <-]].
  intros x [= <-]. vm_compute. reflexivity.
Defined.
