(* ===== verification/Preferences.v ===== *)
(** Desktop preferences: [apps/desktop/src-tauri/src/preferences.rs].

    Choices about the desktop application itself, in one JSON file. [Loaded] is what the process
    shows, [set] and [migrate_legacy] change it through the file. Each call of [migrate_legacy]
    takes the lock three times; [migration_check], [migration_next] and [set] are its steps, for
    what a change in between does to it. *)

From Stdlib Require Import Ascii String.
From stdpp Require Import countable.
From S2P Require Import Prelude Persist Config.
Local Open Scope string_scope.
Local Open Scope Z_scope.

Module Preferences.

Definition PREFERENCES_FILE : string := "desktop-preferences.json".
Definition CURRENT_VERSION : Z := 1.

Inductive NotificationThreshold := ThWarning | ThDegraded | ThCritical | ThOffline.
Inductive Appearance := AppSystem | AppLight | AppDark.

Record Preferences := {
  version : Z;
  notifications_enabled : bool;
  notification_threshold : NotificationThreshold;
  appearance : Appearance;
}.

Definition preferences_default : Preferences :=
  {| version := CURRENT_VERSION; notifications_enabled := false;
     notification_threshold := ThCritical; appearance := AppSystem |}.

(** The messages, by their cause. *)
Inductive PreferencesError :=
  | NoConfigDirectory
  | NoDirectoryToSaveIn
  | Unreadable
  | NotValid
  | FileVersion (v : Z)
  | UnsupportedVersion (v : Z)
  | Unavailable
  | NoParent
  | NotSaved (e : PersistError).

Record Loaded := {
  preferences : Preferences;
  load_error : option PreferencesError;
  persisted : bool;
}.

(** The view is the state, copied: [PreferencesView] has the fields of [Loaded]. *)
Definition PreferencesView := Loaded.

(** [path] and the mutex, with the file [path] names. *)
Record DesktopPreferences := {
  path : option string;
  state : Loaded;
  lock_poisoned : bool;
  pref_file : ReadOutcome;
  pref_ops : nat;
}.

(** Whether [Path::parent] is some: all but the empty path and the root. *)
Definition has_parent (p : string) : bool :=
  existsb (fun c => negb (Ascii.eqb c "/")) (list_ascii_of_string p).

Section Store.
Context {PJ : JsonCodec Preferences anything} (fault : nat -> bool).

Definition read (f : ReadOutcome) : result (option Preferences) PreferencesError :=
  match f with
  | NotFound => Ok None
  | ReadError => Err Unreadable
  | ReadOk bytes =>
      let? p := ok_or (from_slice bytes) NotValid in
      if negb (version p =? CURRENT_VERSION) then Err (FileVersion (version p)) else Ok (Some p)
  end.

Definition loaded (p : option string) (f : ReadOutcome) : Loaded :=
  match p with
  | None => {| preferences := preferences_default; load_error := Some NoConfigDirectory;
               persisted := false |}
  | Some _ =>
      match read f with
      | Ok (Some p) => {| preferences := p; load_error := None; persisted := true |}
      | Ok None => {| preferences := preferences_default; load_error := None; persisted := false |}
      | Err e => {| preferences := preferences_default; load_error := Some e; persisted := false |}
      end
  end.

Definition load (config_dir : option string) (f : ReadOutcome) (n : nat) : DesktopPreferences :=
  let p := (fun dir => path_join dir PREFERENCES_FILE) <$> config_dir in
  {| path := p; state := loaded p f; lock_poisoned := false; pref_file := f; pref_ops := n |}.

Definition lock (s : DesktopPreferences) : result Loaded PreferencesError :=
  if lock_poisoned s then Err Unavailable else Ok (state s).

Definition view (s : DesktopPreferences) : result PreferencesView PreferencesError := lock s.

(** Create the directory; encode; then the temporary file, its contents, the sync, the rename. *)
Definition write (p : string) (next : Preferences) (s : DesktopPreferences)
  : DesktopPreferences * result unit PreferencesError :=
  if negb (has_parent p) then (s, Err NoParent)
  else
    let '(f, n, r) := replace_steps fault 1 4 next (pref_file s) (pref_ops s) in
    ({| path := path s; state := state s; lock_poisoned := lock_poisoned s; pref_file := f;
        pref_ops := n |}, map_err NotSaved r).

Definition show (l : Loaded) (s : DesktopPreferences) : DesktopPreferences :=
  {| path := path s; state := l; lock_poisoned := lock_poisoned s; pref_file := pref_file s;
     pref_ops := pref_ops s |}.

Definition set (next : Preferences) (s : DesktopPreferences)
  : DesktopPreferences * result PreferencesView PreferencesError :=
  if negb (version next =? CURRENT_VERSION) then (s, Err (UnsupportedVersion (version next)))
  else match path s with
  | None => (s, Err NoDirectoryToSaveIn)
  | Some p =>
      match lock s with
      | Err e => (s, Err e)
      | Ok _ =>
          match write p next s with
          | (s, Err e) => (s, Err e)
          | (s, Ok _) =>
              let s := show {| preferences := next; load_error := None; persisted := true |} s in
              (s, view s)
          end
      end
  end.

(** [if self.lock()?.persisted]. *)
Definition migration_check (s : DesktopPreferences) : result bool PreferencesError :=
  let? l := lock s in Ok (persisted l).

(** [self.lock()?.preferences.clone()] with the two legacy values. *)
Definition migration_next (enabled : bool) (threshold : NotificationThreshold)
    (s : DesktopPreferences) : result Preferences PreferencesError :=
  let? l := lock s in
  Ok {| version := version (preferences l); notifications_enabled := enabled;
        notification_threshold := threshold; appearance := appearance (preferences l) |}.

Definition migrate_legacy (enabled : bool) (threshold : NotificationThreshold)
    (s : DesktopPreferences) : DesktopPreferences * result PreferencesView PreferencesError :=
  match migration_check s with
  | Err e => (s, Err e)
  | Ok true => (s, view s)
  | Ok false =>
      match migration_next enabled threshold s with
      | Err e => (s, Err e)
      | Ok next => set next s
      end
  end.

(** What the window may ask for. *)
Inductive Request :=
  | Set_ (next : Preferences)
  | Migrate (enabled : bool) (threshold : NotificationThreshold).

Definition handle (r : Request) (s : DesktopPreferences)
  : DesktopPreferences * result PreferencesView PreferencesError :=
  match r with
  | Set_ next => set next s
  | Migrate enabled threshold => migrate_legacy enabled threshold s
  end.

Definition run (l : list Request) (s : DesktopPreferences) : DesktopPreferences :=
  fold_left (fun s r => fst (handle r s)) l s.

(** ** Memory and file agree *)

(** The process shows what a restart would load. *)
Definition durable (s : DesktopPreferences) : Prop := state s = loaded (path s) (pref_file s).

Lemma set_cases next s :
  match set next s with
  | (s', Ok v) =>
      v = {| preferences := next; load_error := None; persisted := true |} /\ state s' = v /\
      version next = CURRENT_VERSION /\ path s' = path s /\ path s <> None /\
      read (pref_file s') = Ok (Some next)
  | (s', Err _) => state s' = state s /\ path s' = path s /\ pref_file s' = pref_file s
  end.
Proof.
  unfold set. destruct (Z.eqb_spec (version next) CURRENT_VERSION) as [Hv|Hv]; [simpl|done].
  destruct (path s) as [p|] eqn:Hp; [|done]. unfold lock. destruct (lock_poisoned s) eqn:Hl; [done|].
  unfold write. destruct (has_parent p); simpl; [|done].
  destruct (replace_steps fault 1 4 next _ _) as [[f n] [[]|e]] eqn:E; simpl.
  - unfold view, lock, show. simpl. rewrite Hl. repeat split; [done..|].
    destruct (replace_steps_Ok _ _ _ _ _ _ _ _ _ E I) as (bytes & -> & Hb). simpl. rewrite Hb. simpl.
    by rewrite Hv.
  - by apply replace_steps_Err in E.
Qed.

Lemma handle_durable r s : durable s -> durable (fst (handle r s)).
Proof.
  assert (Hset : forall next s, durable s -> durable (fst (set next s))).
  { intros next s0 Hd. pose proof (set_cases next s0) as C. unfold durable in *.
    destruct (set next s0) as [s' [v|e]]; simpl.
    - destruct C as (-> & -> & _ & -> & Hp & Hr). unfold loaded. destruct (path s0); [|done].
      by rewrite Hr.
    - destruct C as (-> & -> & ->). done. }
  intros Hd. destruct r as [next|en th]; simpl; [by apply Hset|].
  unfold migrate_legacy. destruct (migration_check s) as [[]|]; [done| |done].
  destruct (migration_next en th s); [by apply Hset|done].
Qed.

Lemma run_durable l s : durable s -> durable (run l s).
Proof. revert s. induction l as [|r l IH]; intros s Hd; simpl; [done|]. by apply IH, handle_durable. Qed.

Lemma handle_path r s : path (fst (handle r s)) = path s.
Proof.
  assert (Hset : forall next s, path (fst (set next s)) = path s).
  { intros next s0. pose proof (set_cases next s0) as C.
    destruct (set next s0) as [s' [v|e]]; simpl; tauto. }
  destruct r as [next|en th]; simpl; [by apply Hset|].
  unfold migrate_legacy. destruct (migration_check s) as [[]|]; [done| |done].
  destruct (migration_next en th s); [by apply Hset|done].
Qed.

Lemma run_path l s : path (run l s) = path s.
Proof. revert s. induction l as [|r l IH]; intros s; [done|]. cbn [run fold_left]. unfold run in IH. by rewrite IH, handle_path. Qed.

(** Whatever the window asked for and whichever file operations failed, the preferences the
    process shows are the ones a restart would load from the file, and notifications are on
    only if a valid version-1 file says so: a damaged or missing file never opts the user in. *)
Theorem preferences_survive_restart (config_dir : option string) (f : ReadOutcome) (n : nat)
    (l : list Request) :
  let s := run l (load config_dir f n) in
  state s = state (load config_dir (pref_file s) 0) /\
  (notifications_enabled (preferences (state s)) = true ->
   read (pref_file s) = Ok (Some (preferences (state s))) /\ config_dir <> None).
Proof.
  simpl. set (s := run l (load config_dir f n)).
  assert (Hd : durable s) by (apply run_durable; done).
  unfold durable in Hd. unfold s in Hd at 2. rewrite run_path in Hd. fold s in Hd.
  split; [done|]. rewrite Hd. unfold loaded. simpl. destruct config_dir; simpl; [|done].
  destruct (read (pref_file s)) as [[p|]|e]; simpl; done.
Qed.

(** Once a change was saved, a migration that starts after it writes nothing and shows that
    change: the legacy values never replace a saved choice. *)
Theorem migration_happens_once (enabled : bool) (threshold : NotificationThreshold)
    (s s' : DesktopPreferences) (next : Preferences) (l : Loaded) :
  set next s = (s', Ok l) ->
  migrate_legacy enabled threshold s' = (s', Ok l) /\ preferences l = next.
Proof.
  intros E. pose proof (set_cases next s) as C. rewrite E in C.
  destruct C as (-> & Hs & _). split; [|done].
  assert (Hl : lock_poisoned s' = false).
  { revert E. unfold set. destruct (negb _); [done|]. destruct (path s) as [p|]; [|done]. unfold lock.
    destruct (lock_poisoned s) eqn:Hl; [done|]. destruct (write p next s) as [s1 [[]|]]; [|done].
    unfold view, lock, show. simpl. destruct (lock_poisoned s1) eqn:Hl1; [done|]. by intros [= <-]. }
  unfold migrate_legacy, migration_check, view, lock. rewrite Hl, Hs. done.
Qed.

End Store.

(** ** A change during a migration *)

#[export] Instance NotificationThreshold_eq_dec : EqDecision NotificationThreshold.
Proof. solve_decision. Defined.
#[export] Instance Appearance_eq_dec : EqDecision Appearance.
Proof. solve_decision. Defined.
#[export] Instance Preferences_eq_dec : EqDecision Preferences.
Proof. solve_decision. Defined.

Definition threshold_code (t : NotificationThreshold) : Z :=
  match t with ThWarning => 0 | ThDegraded => 1 | ThCritical => 2 | ThOffline => 3 end.
Definition threshold_of (z : Z) : NotificationThreshold :=
  match z with 0 => ThWarning | 1 => ThDegraded | 2 => ThCritical | _ => ThOffline end.
Definition appearance_code (a : Appearance) : Z :=
  match a with AppSystem => 0 | AppLight => 1 | AppDark => 2 end.
Definition appearance_of (z : Z) : Appearance :=
  match z with 0 => AppSystem | 1 => AppLight | _ => AppDark end.

#[export] Instance Preferences_countable : Countable Preferences.
Proof.
  refine (inj_countable'
    (fun p => (version p, notifications_enabled p, threshold_code (notification_threshold p),
               appearance_code (appearance p)))
    (fun '(v, n, t, a) => {| version := v; notifications_enabled := n;
                             notification_threshold := threshold_of t; appearance := appearance_of a |}) _).
  by intros [v n [] []].
Defined.

Definition preferences_json : JsonCodec Preferences anything := countable_json Preferences anything.

(** The migration found nothing saved; the user then switched notifications off; the rest of the
    migration switches them back on. *)
Definition chosen : Preferences :=
  {| version := 1; notifications_enabled := false; notification_threshold := ThOffline;
     appearance := AppDark |}.
Definition first_run : DesktopPreferences :=
  load (PJ := preferences_json) (Some "/home/u/.config/rackio") NotFound 0.
Definition after_choice : DesktopPreferences :=
  fst (set (PJ := preferences_json) (fun _ => false) chosen first_run).

(** A change that lands between the first and the second lock of a migration is undone by it. *)
Lemma racing_migration_undoes_change :
  migration_check first_run = Ok false /\
  preferences (state after_choice) = chosen /\
  match migration_next true ThWarning after_choice with
  | Ok next => preferences (state (fst (set (PJ := preferences_json) (fun _ => false) next after_choice)))
               = {| version := 1; notifications_enabled := true; notification_threshold := ThWarning;
                    appearance := AppDark |}
  | Err _ => False
  end.
Proof. split; [done|]. split; reflexivity. Qed.

Lemma migration_happens_once_witness :
  migrate_legacy (PJ := preferences_json) (fun _ => false) true ThWarning after_choice
    = (after_choice, Ok (state after_choice)) /\ preferences (state after_choice) = chosen.
Proof.
  refine (migration_happens_once (PJ := preferences_json) (fun _ => false) true ThWarning first_run
            after_choice chosen (state after_choice) _).
  vm_compute. reflexivity.
Defined.

End Preferences.
