(* ===== verification/Badges.v ===== *)
(** Menu-bar badges: [apps/desktop/src-tauri/src/tray_badges.rs].

    A machine's tray item shows one glyph: the icon chosen for it, or the initial of its name.
    Which byte strings are one glyph is the [Graphemes] interface (the unicode-segmentation
    crate). [icons] is the map in memory, kept with its JSON file as in [Persist]. *)

From Stdlib Require Import Ascii String.
From stdpp Require Import countable.
From S2P Require Import Prelude BTree Float Model Framing Transport Net Text Persist Codecs Pairing.
From S2P Require Import Config Json Preferences.
Local Open Scope string_scope.

(** What the badges rely on from extended grapheme clusters: a text is cut into its clusters,
    of which the first is one cluster by itself (a boundary depends only on what is before it
    and on the next character), and an ASCII question mark is one. *)
Class Graphemes := {
  graphemes : string -> list string;
  graphemes_concat s : String.concat "" (graphemes s) = s;
  graphemes_first s g rest : graphemes s = g :: rest -> graphemes g = [g];
  graphemes_question : graphemes "?" = ["?"];
}.

(** The encodings of the control characters: U+0000 to U+001F and U+007F to U+009F. *)
Definition controls : list string :=
  (map (fun c => char_of [c]) (seq 0 32 ++ [127]) ++
   map (fun c => char_of [194; c]) (seq 128 32))%nat%list.

Module Badges.

Definition BADGES_FILE : string := "tray-badges.json".

Definition Icons := list (string * string).

Inductive BadgeError :=
  | NoMachine
  | NotOneGlyph
  | NoDirectory
  | IconsUnavailable
  | NoParentDirectory
  | IconsNotSaved (e : PersistError).

Record TrayBadges := {
  path : option string;
  icons : Icons;
  icons_poisoned : bool;
  badges_file : ReadOutcome;
  badges_ops : nat;
}.

Section Badges.
Context {GR : Graphemes} (to_uppercase : string -> string).
Context {IJ : JsonCodec Icons anything} (fault : nat -> bool).

Definition badge_label (icon : option string) (name : string) : string :=
  match icon with
  | Some icon => icon
  | None =>
      match graphemes (trim name) with
      | [] => "?"
      | first :: _ =>
          let upper := to_uppercase first in
          if Nat.eqb (length (graphemes upper)) 1 then upper else first
      end
  end.

Definition validate_icon (icon : string) : result string BadgeError :=
  match graphemes (trim icon) with
  | [glyph] =>
      if existsb (fun c => has_char c glyph) (controls ++ map char_of white_space)
      then Err NotOneGlyph else Ok glyph
  | _ => Err NotOneGlyph
  end.

(** Drop the entries that break the rule, and keep the others as they validate. *)
Definition valid_icons (l : Icons) : Icons :=
  omap (fun e => (fun icon => (fst e, icon)) <$> result_ok (validate_icon (snd e))) l.

Definition read_icons (f : ReadOutcome) : result Icons PersistError :=
  let? l := read_file_or (AJ := IJ) [] f in Ok (valid_icons l).

Definition shown_icons (p : option string) (f : ReadOutcome) : Icons :=
  match p with
  | Some _ => match read_icons f with Ok l => l | Err _ => [] end
  | None => []
  end.

Definition load (config_dir : option string) (f : ReadOutcome) (n : nat) : TrayBadges :=
  let p := (fun dir => path_join dir BADGES_FILE) <$> config_dir in
  {| path := p; icons := shown_icons p f; icons_poisoned := false; badges_file := f; badges_ops := n |}.

Definition icon (b : TrayBadges) (machine_id : string) : option string :=
  if icons_poisoned b then None else bt_get machine_id (icons b).

Definition decorate (b : TrayBadges) (node : Value) : Value :=
  match node with
  | VObject m =>
      let i := (bt_get "id" m ≫= as_str) ≫= icon b in
      let name := default "" (bt_get "name" m ≫= as_str) in
      let label := badge_label i name in
      VObject (bt_insert "trayIcon" (match i with Some i => VString i | None => VNull end)
                 (bt_insert "trayLabel" (VString label) m))
  | _ => node
  end.

Definition write_icons (p : string) (next : Icons) (b : TrayBadges)
  : TrayBadges * result unit BadgeError :=
  if negb (Preferences.has_parent p) then (b, Err NoParentDirectory)
  else
    let '(f, n, r) := replace_steps fault 1 4 next (badges_file b) (badges_ops b) in
    ({| path := path b; icons := icons b; icons_poisoned := icons_poisoned b; badges_file := f;
        badges_ops := n |}, map_err IconsNotSaved r).

Definition next_icons (machine_id : string) (i : option string) (l : Icons) : Icons :=
  match i with Some i => bt_insert machine_id i l | None => bt_remove machine_id l end.

(** [icon.map(validate_icon).transpose()]. *)
Definition validated (i : option string) : result (option string) BadgeError :=
  match i with Some i => let? glyph := validate_icon i in Ok (Some glyph) | None => Ok None end.

Definition set (machine_id : string) (i : option string) (b : TrayBadges)
  : TrayBadges * result unit BadgeError :=
  if String.eqb machine_id "" then (b, Err NoMachine)
  else match validated i with
  | Err e => (b, Err e)
  | Ok i =>
      match path b with
      | None => (b, Err NoDirectory)
      | Some p =>
          if icons_poisoned b then (b, Err IconsUnavailable)
          else
            let next := next_icons machine_id i (icons b) in
            match write_icons p next b with
            | (b, Err e) => (b, Err e)
            | (b, Ok _) =>
                ({| path := path b; icons := next; icons_poisoned := icons_poisoned b;
                    badges_file := badges_file b; badges_ops := badges_ops b |}, Ok tt)
            end
      end
  end.

Definition run (l : list (string * option string)) (b : TrayBadges) : TrayBadges :=
  fold_left (fun b '(machine, i) => fst (set machine i b)) l b.

(** ** One glyph per badge *)

Definition one_glyph (s : string) : Prop := graphemes s = [s].

(** An icon validation accepts. *)
Definition valid_icon (s : string) : Prop := exists text, validate_icon text = Ok s.

Definition icons_ok (l : Icons) : Prop := Forall (fun e => valid_icon (snd e)) l.

Lemma valid_icon_glyph s : valid_icon s -> one_glyph s.
Proof.
  intros (text & E). revert E. unfold validate_icon.
  destruct (graphemes (trim text)) as [|g [|]] eqn:G; [done| |done].
  destruct (existsb _ _); [done|]. intros [= <-]. by eapply graphemes_first.
Qed.

Lemma valid_icons_ok l : icons_ok (valid_icons l).
Proof.
  unfold icons_ok, valid_icons. induction l as [|[k i] l IH]; simpl; [constructor|].
  destruct (validate_icon i) as [g|] eqn:E; simpl; [|done]. constructor; [|done]. by exists i.
Qed.

Lemma shown_icons_ok p f : icons_ok (shown_icons p f).
Proof.
  unfold shown_icons. destruct p; [|constructor]. unfold read_icons.
  destruct (read_file_or _ f); simpl; [apply valid_icons_ok|constructor].
Qed.

Lemma next_icons_ok machine i l g :
  validated i = Ok g -> icons_ok l -> icons_ok (next_icons machine g l).
Proof.
  intros E Hl. unfold icons_ok, next_icons in *. destruct g as [g|].
  - apply bt_insert_Forall; [|done]. simpl. destruct i as [i|]; [|done]. exists i. revert E. simpl.
    destruct (validate_icon i); simpl; [|done]. by intros [= ->].
  - rewrite List.Forall_forall in *. intros e He. apply Hl. by eapply bt_remove_In.
Qed.

Lemma set_icon_cases machine i b :
  match set machine i b with
  | (b', Ok _) => exists g, validated i = Ok g /\ icons b' = next_icons machine g (icons b) /\
                  path b' = path b /\ path b <> None /\ icons_poisoned b' = icons_poisoned b /\
                  read_file_or (AJ := IJ) [] (badges_file b') = Ok (icons b')
  | (b', Err _) => icons b' = icons b /\ path b' = path b /\ badges_file b' = badges_file b /\
                   icons_poisoned b' = icons_poisoned b
  end.
Proof.
  unfold set. destruct (String.eqb machine ""); [done|].
  destruct (validated i) as [g|] eqn:V; [|done]. destruct (path b) as [p|] eqn:Hp; [|done].
  destruct (icons_poisoned b) eqn:Hl; [done|]. unfold write_icons.
  destruct (Preferences.has_parent p); simpl; [|done].
  destruct (replace_steps fault 1 4 _ _ _) as [[f n] [[]|e]] eqn:E; simpl.
  - exists g. destruct (replace_steps_Ok _ _ _ _ _ _ _ _ _ E I) as (bytes & -> & Hb). simpl.
    rewrite Hb. done.
  - by apply replace_steps_Err in E.
Qed.

Lemma badge_label_glyph i name :
  (forall g, i = Some g -> one_glyph g) -> one_glyph (badge_label i name).
Proof.
  intros Hi. unfold badge_label. destruct i as [g|]; [by apply Hi|].
  destruct (graphemes (trim name)) as [|first rest] eqn:G; [apply graphemes_question|].
  destruct (Nat.eqb_spec (length (graphemes (to_uppercase first))) 1) as [H1|H1].
  - unfold one_glyph. destruct (graphemes (to_uppercase first)) as [|u [|]] eqn:U; [done| |done].
    pose proof (graphemes_concat (to_uppercase first)) as Hu. rewrite U in Hu. simpl in Hu. by subst.
  - by eapply graphemes_first.
Qed.

Lemma decorate_glyph b m :
  icons_ok (icons b) ->
  exists label, vget "trayLabel" (decorate b (VObject m)) = Some (VString label) /\ one_glyph label.
Proof.
  intros Hok. eexists. split.
  - cbn [decorate vget]. rewrite bt_get_insert_ne by done. apply bt_get_insert_eq.
  - apply badge_label_glyph. intros g Hg.
    destruct (bt_get "id" m ≫= as_str) as [i|]; [|done]. cbn [base.mbind option_bind] in Hg.
    unfold icon in Hg. destruct (icons_poisoned b); [done|]. apply bt_get_In in Hg.
    unfold icons_ok in Hok. rewrite List.Forall_forall in Hok. apply (valid_icon_glyph g), (Hok _ Hg).
Qed.

(** ** Memory and file agree *)

Lemma valid_icon_stable s : valid_icon s -> validate_icon s = Ok s.
Proof.
  intros Hv. pose proof (valid_icon_glyph s Hv) as Hg. destruct Hv as (text & E). revert E.
  unfold validate_icon. destruct (graphemes (trim text)) as [|g [|]]; [done| |done].
  destruct (existsb _ _) eqn:X; [done|]. intros [= ->]. rewrite trim_no_space.
  - unfold one_glyph in Hg. by rewrite Hg, X.
  - intros c Hc. destruct (has_char (char_of c) s) eqn:H; [|done].
    rewrite <- X. symmetry. apply existsb_exists. exists (char_of c). split; [|done].
    apply in_app_iff. right. by apply in_map.
Qed.

Lemma valid_icons_stable l : icons_ok l -> valid_icons l = l.
Proof.
  unfold icons_ok, valid_icons. induction 1 as [|[k i] l Hi _ IH]; simpl in *; [done|].
  rewrite (valid_icon_stable i Hi). simpl. f_equal. exact IH.
Qed.

(** The icons are valid, and those a restart shows. *)
Definition icons_durable (b : TrayBadges) : Prop :=
  icons_ok (icons b) /\ icons b = shown_icons (path b) (badges_file b).

Lemma set_icons_durable machine i b :
  icons_durable b -> icons_durable (fst (set machine i b)) /\ path (fst (set machine i b)) = path b.
Proof.
  intros [Hok Hd]. pose proof (set_icon_cases machine i b) as C. unfold icons_durable.
  destruct (set machine i b) as [b' [[]|e]]; cbn [fst].
  - destruct C as (g & V & Hi & Hp & Hn & _ & Hr).
    assert (Hok' : icons_ok (icons b')) by (rewrite Hi; by eapply next_icons_ok). split; [|done]. split; [done|].
    unfold shown_icons. rewrite Hp. destruct (path b); [|done]. unfold read_icons. rewrite Hr. simpl.
    by rewrite valid_icons_stable.
  - destruct C as (-> & -> & -> & _). done.
Qed.

Lemma run_icons_durable l b :
  icons_durable b -> icons_durable (run l b) /\ path (run l b) = path b.
Proof.
  revert b. induction l as [|[machine i] l IH]; intros b Hb; [done|]. cbn [run fold_left].
  destruct (set_icons_durable machine i b Hb) as [H1 <-]. by apply IH.
Qed.

Lemma load_icons_durable config_dir f n : icons_durable (load config_dir f n).
Proof. split; [apply shown_icons_ok|done]. Qed.

(** Whatever the badge file held and whatever icons were set since, every machine gets a badge of
    exactly one glyph next to its other fields, which stay as they were, and a restart shows the
    same icons. *)
Theorem badges_are_single_glyphs (config_dir : option string) (f : ReadOutcome) (n : nat)
    (l : list (string * option string)) (m : list (string * Value)) :
  let b := run l (load config_dir f n) in
  (exists label, vget "trayLabel" (decorate b (VObject m)) = Some (VString label) /\
                 graphemes label = [label]) /\
  (forall key, key <> "trayLabel" -> key <> "trayIcon" ->
     vget key (decorate b (VObject m)) = vget key (VObject m)) /\
  icons b = icons (load config_dir (badges_file b) 0).
Proof.
  set (b := run l (load config_dir f n)).
  destruct (run_icons_durable l (load config_dir f n) (load_icons_durable config_dir f n)) as [[Hok Hd] Hp].
  fold b in Hok, Hd, Hp. split; [|split].
  - by apply decorate_glyph.
  - intros key H1 H2. cbn [decorate vget]. by rewrite !bt_get_insert_ne by congruence.
  - rewrite Hd, Hp. done.
Qed.

End Badges.

(** Clusters for witnesses: one per byte. *)
#[export] Instance byte_graphemes : Graphemes.
Proof.
  refine {| graphemes s := map (fun c => String c "") (list_ascii_of_string s) |}.
  - induction s as [|c s IH]; [done|]. simpl. destruct (list_ascii_of_string s) as [|d l]; simpl in *.
    + by subst s.
    + rewrite <- IH. done.
  - intros [|c s] g rest; simpl; [done|]. by intros [= <- _].
  - reflexivity.
Defined.

Example long_icon_is_refused : validate_icon "WEB" = Err NotOneGlyph.
Proof. vm_compute. reflexivity. Qed.
Example initial_badge : badge_label (fun s => s) None " web-1" = "w".
Proof. vm_compute. reflexivity. Qed.

End Badges.
