(* ===== verification/Presentation.v ===== *)
(** What the desktop shows: [apps/desktop/src-tauri/src/presentation.rs], [daemon.rs] and the
    commands of [lib.rs].

    The desktop asks the daemon over its local socket ([request]), checks the answer and projects
    the daemon's JSON into the values of the dashboard and the tray ([machine_json],
    [load_fleet_snapshot], [machine_history]). [machine_view] and [trend_view] say what is shown
    in terms of the daemon's own types; the theorems relate the two. *)

From Stdlib Require Import Ascii String.
From stdpp Require Import sorting.
From S2P Require Import Prelude BTree Float Model Alert Storage Framing Transport Net Persist.
From S2P Require Import Codecs Pairing Mdns Server Remote Fleet Config Json LocalIpc Commands.
From S2P Require Import WindowsIpc Preferences Badges.
Local Open Scope string_scope.
Local Open Scope Z_scope.

(** ** Sorting elements on which a comparison is a total preorder *)

Section SortOn.
Context {A : Type} (cmp : A -> A -> comparison) (P : A -> Prop).
Context (cmp_total : forall x y, P x -> P y -> cmp x y = Gt -> cmp y x <> Gt).
Context (cmp_trans : forall x y z, P x -> P y -> P z -> cmp x y <> Gt -> cmp y z <> Gt -> cmp x z <> Gt).

Lemma insert_by_sorted_on x l :
  P x -> Forall P l -> StronglySorted (fun a b => cmp a b <> Gt) l ->
  StronglySorted (fun a b => cmp a b <> Gt) (insert_by cmp x l).
Proof.
  intros Hx Hl. induction 1 as [|y l Hs IH Hy]; simpl; [repeat constructor|].
  inversion Hl as [|? ? Py Pl]; subst. destruct (cmp x y) eqn:E.
  3:{ constructor; [by apply IH|]. rewrite insert_by_perm. constructor; [by apply cmp_total|done]. }
  all: assert (Hxy : cmp x y <> Gt) by congruence.
  all: constructor; [by constructor|]; constructor; [done|].
  all: rewrite List.Forall_forall in *; intros z Hz; apply (cmp_trans x y z); auto; by apply Hy.
Qed.

Lemma sort_by_sorted_on l : Forall P l -> StronglySorted (fun a b => cmp a b <> Gt) (sort_by cmp l).
Proof.
  induction 1 as [|x l Hx Hl IH]; simpl; [constructor|]. apply insert_by_sorted_on; [done| |done].
  by rewrite sort_by_perm.
Qed.

End SortOn.

(** ** Projections *)

Definition history_point_from_sample (sample : Value) : Value :=
  let worst_disk := (vget "disks" sample ≫= as_array) ≫= head in
  obj [("timestampMs", to_value (vget "timestamp_ms" sample));
       ("cpuPercent", to_value (vget "cpu_percent" sample));
       ("memoryUsedBytes", to_value (vget "memory_used_bytes" sample));
       ("memoryTotalBytes", to_value (vget "memory_total_bytes" sample));
       ("swapUsedBytes", to_value (vget "swap_used_bytes" sample));
       ("swapTotalBytes", to_value (vget "swap_total_bytes" sample));
       ("diskUsedBytes", to_value (worst_disk ≫= vget "used_bytes"));
       ("diskTotalBytes", to_value (worst_disk ≫= vget "total_bytes"));
       ("temperatureCelsius", to_value (vget "temperature" sample ≫= vget "celsius"));
       ("networkReceivedBytesPerSecond",
         to_value (vget "network" sample ≫= vget "received_bytes_per_second"));
       ("networkSentBytesPerSecond", to_value (vget "network" sample ≫= vget "sent_bytes_per_second"))].

Definition trend_point_json (sample : Value) : Value :=
  obj [("timestampMs", to_value (vget "timestamp_ms" sample));
       ("cpuPercent", to_value (vget "cpu_percent" sample));
       ("memoryUsedBytes", to_value (vget "memory_used_bytes" sample));
       ("memoryTotalBytes", to_value (vget "memory_total_bytes" sample));
       ("swapUsedBytes", to_value (vget "swap_used_bytes" sample));
       ("swapTotalBytes", to_value (vget "swap_total_bytes" sample));
       ("diskUsedBytes", to_value (vget "disk_used_bytes" sample));
       ("diskTotalBytes", to_value (vget "disk_total_bytes" sample));
       ("temperatureCelsius", to_value (vget "temperature_celsius" sample));
       ("networkReceivedBytesPerSecond", to_value (vget "network_received_bytes_per_second" sample));
       ("networkSentBytesPerSecond", to_value (vget "network_sent_bytes_per_second" sample));
       ("rttMs", to_value (vget "rtt_ms" sample))].

(** A mounted filesystem as the projection reads it: mount, used, total. *)
Definition filesystem := (string * Z * Z)%type.

Definition filesystem_of (disk : Value) : option filesystem :=
  mount ← vget "mount" disk ≫= as_str;
  used ← vget "used_bytes" disk ≫= as_u64;
  total ← vget "total_bytes" disk ≫= as_u64;
  if 0 <? total then Some (mount, used, total) else None.

(** The comparison of the sort: fullest first. *)
Definition fuller (left right : filesystem) : comparison :=
  let '(_, left_used, left_total) := left in
  let '(_, right_used, right_total) := right in
  sat_mul u128_max right_used left_total ?= sat_mul u128_max left_used right_total.

Definition filesystem_json (f : filesystem) : Value :=
  let '(mount, used, total) := f in
  obj [("mount", to_value mount); ("usedBytes", to_value used); ("totalBytes", to_value total)].

Definition temperature_json (t : Value) : Value :=
  obj [("label", to_value (vget "label" t)); ("celsius", to_value (vget "celsius" t));
       ("criticalCelsius", to_value (vget "critical_celsius" t));
       ("sensorCount", to_value (vget "sensor_count" t))].

Definition positive (o : option Z) : option Z := o ≫= fun s => if 0 <? s then Some s else None.
Definition not_null (o : option Value) : option Value :=
  o ≫= fun v => if is_null v then None else Some v.

Definition machine_json (source : Value) (node_state path : string) (rtt_ms last_seen_ms : option Z)
    (trend : list Value) (detail : option string) : result Value string :=
  let? node := ok_or (vget "node" source) "machine response did not contain node info" in
  let latest := default VNull (vget "latest" source) in
  let? node_id := ok_or (vget "node_id" node ≫= as_str) "machine node ID is missing" in
  let? node_name := ok_or (vget "display_name" node ≫= as_str) "machine node name is missing" in
  let disks := default [] (vget "disks" latest ≫= as_array) in
  let filesystems := sort_by fuller (omap filesystem_of disks) in
  let fullest := head filesystems in
  let text key := default "unknown" (vget key node ≫= as_str) in
  Ok (obj [("id", to_value node_id); ("endpointId", to_value (vget "endpoint_id" source));
           ("name", to_value node_name);
           ("os", to_value (text "os" +:+ " · " +:+ text "architecture"));
           ("state", to_value node_state); ("path", to_value path);
           ("cpuPercent", to_value (float_value <$> (vget "cpu_percent" latest ≫= as_f64)));
           ("memoryUsedBytes", to_value (vget "memory_used_bytes" latest));
           ("memoryTotalBytes", to_value (vget "memory_total_bytes" latest));
           ("swapUsedBytes", to_value (vget "swap_used_bytes" latest));
           ("swapTotalBytes", to_value (vget "swap_total_bytes" latest));
           ("diskUsedBytes", to_value ((fun f => snd (fst f)) <$> fullest));
           ("diskTotalBytes", to_value (snd <$> fullest));
           ("diskMount", to_value ((fun f => fst (fst f)) <$> fullest));
           ("filesystems", VArray (map filesystem_json filesystems));
           ("temperature", to_value (temperature_json <$> not_null (vget "temperature" latest)));
           ("networkReceivedBytesPerSecond",
             to_value (vget "network" latest ≫= vget "received_bytes_per_second"));
           ("networkSentBytesPerSecond",
             to_value (vget "network" latest ≫= vget "sent_bytes_per_second"));
           ("rttMs", to_value rtt_ms);
           ("uptimeSeconds", to_value (positive (vget "uptime_seconds" latest ≫= as_u64)));
           ("lastSeenMs", to_value last_seen_ms);
           ("trend", VArray (map trend_point_json trend));
           ("detail", to_value detail)]).

(** ** What is shown, in the daemon's terms *)

Definition disk_filesystem (d : DiskMetric) : filesystem := (mount d, used_bytes d, total_bytes d).

(** The filesystems with capacity, fullest first. *)
Definition sample_filesystems (s : MetricSample) : list filesystem :=
  sort_by fuller (map disk_filesystem (List.filter (fun d => 0 <? total_bytes d) (disks s))).

Definition temperature_view (t : TemperatureMetric) : Value :=
  obj [("label", to_value (Model.label t)); ("celsius", f32_value (celsius t));
       ("criticalCelsius", to_value (f32_value <$> critical_celsius t));
       ("sensorCount", to_value (sensor_count t))].

Definition trend_view (t : TrendSample) : Value :=
  obj [("timestampMs", to_value (t_timestamp_ms t));
       ("cpuPercent", to_value (f32_value <$> t_cpu_percent t));
       ("memoryUsedBytes", to_value (t_memory_used_bytes t));
       ("memoryTotalBytes", to_value (t_memory_total_bytes t));
       ("swapUsedBytes", to_value (t_swap_used_bytes t));
       ("swapTotalBytes", to_value (t_swap_total_bytes t));
       ("diskUsedBytes", to_value (t_disk_used_bytes t));
       ("diskTotalBytes", to_value (t_disk_total_bytes t));
       ("temperatureCelsius", to_value (f32_value <$> t_temperature_celsius t));
       ("networkReceivedBytesPerSecond", to_value (t_network_received_bytes_per_second t));
       ("networkSentBytesPerSecond", to_value (t_network_sent_bytes_per_second t));
       ("rttMs", to_value (t_rtt_ms t))].

Definition history_view (s : MetricSample) : Value :=
  obj [("timestampMs", to_value (timestamp_ms s));
       ("cpuPercent", to_value (f32_value <$> cpu_percent s));
       ("memoryUsedBytes", to_value (memory_used_bytes s));
       ("memoryTotalBytes", to_value (memory_total_bytes s));
       ("swapUsedBytes", to_value (swap_used_bytes s)); ("swapTotalBytes", to_value (swap_total_bytes s));
       ("diskUsedBytes", to_value (used_bytes <$> head (disks s)));
       ("diskTotalBytes", to_value (total_bytes <$> head (disks s)));
       ("temperatureCelsius", to_value ((fun t => f32_value (celsius t)) <$> temperature s));
       ("networkReceivedBytesPerSecond", to_value (received_bytes_per_second <$> network s));
       ("networkSentBytesPerSecond", to_value (sent_bytes_per_second <$> network s))].

Section View.
Context (uuid_text : Uuid -> string).

Definition machine_view (node : NodeInfo) (endpoint : string) (latest : option MetricSample)
    (state path : string) (rtt_ms last_seen_ms : option Z) (trend : list TrendSample)
    (detail : option string) : Value :=
  let filesystems := default [] (sample_filesystems <$> latest) in
  obj [("id", VString (uuid_text (node_id node))); ("endpointId", VString endpoint);
       ("name", VString (display_name node));
       ("os", VString (os node +:+ " · " +:+ architecture node));
       ("state", VString state); ("path", VString path);
       ("cpuPercent", to_value (f32_value <$> (latest ≫= cpu_percent)));
       ("memoryUsedBytes", to_value (latest ≫= memory_used_bytes));
       ("memoryTotalBytes", to_value (latest ≫= memory_total_bytes));
       ("swapUsedBytes", to_value (latest ≫= swap_used_bytes));
       ("swapTotalBytes", to_value (latest ≫= swap_total_bytes));
       ("diskUsedBytes", to_value ((fun f => snd (fst f)) <$> head filesystems));
       ("diskTotalBytes", to_value (snd <$> head filesystems));
       ("diskMount", to_value ((fun f => fst (fst f)) <$> head filesystems));
       ("filesystems", VArray (map filesystem_json filesystems));
       ("temperature", to_value (temperature_view <$> (latest ≫= temperature)));
       ("networkReceivedBytesPerSecond", to_value (received_bytes_per_second <$> (latest ≫= network)));
       ("networkSentBytesPerSecond", to_value (sent_bytes_per_second <$> (latest ≫= network)));
       ("rttMs", to_value rtt_ms);
       ("uptimeSeconds", to_value (positive (uptime_seconds <$> latest)));
       ("lastSeenMs", to_value last_seen_ms);
       ("trend", VArray (map trend_view trend));
       ("detail", to_value detail)].

(** ** Reading back what serde writes *)

Lemma filesystem_of_disk d :
  disk_wf d -> filesystem_of (to_value d) = if 0 <? total_bytes d then Some (disk_filesystem d) else None.
Proof.
  intros [H1 H2]. unfold filesystem_of, to_value, ser_disk. read_fields.
  cbn [base.mbind option_bind]. unfold to_value, ser_int. rewrite !as_u64_int by done. done.
Qed.

Lemma filesystems_of_disks l :
  Forall disk_wf l ->
  omap filesystem_of (map to_value l) =
  map disk_filesystem (List.filter (fun d => 0 <? total_bytes d) l).
Proof.
  induction 1 as [|d l Hd _ IH]; [done|]. cbn [map omap list_omap List.filter].
  rewrite (filesystem_of_disk d Hd). destruct (0 <? total_bytes d); cbn [map]; [f_equal|]; exact IH.
Qed.

Lemma float_read_back (o : option f32) :
  to_value (float_value <$> as_f64 (to_value (f32_value <$> o))) = to_value (f32_value <$> o).
Proof.
  destruct o as [x|]; [|done]. cbn [fmap option_fmap option_map]. unfold to_value, ser_option, ser_value, f32_value, float_value.
  destruct (is_finite (f64_of_f32 x)) eqn:E; cbn [as_f64 fmap option_fmap option_map]; [|done].
  unfold to_value, ser_value. cbn [as_f64 fmap option_fmap option_map]. by rewrite E.
Qed.

Lemma temperature_read_back (o : option TemperatureMetric) :
  to_value (temperature_json <$> not_null (Some (to_value o))) = to_value (temperature_view <$> o).
Proof.
  destruct o as [t|]; [|done]. unfold not_null. cbn [base.mbind option_bind].
  change (to_value (Some t)) with (ser_temperature t). unfold ser_temperature at 1.
  cbn [is_null obj fmap option_fmap option_map]. unfold temperature_json, ser_temperature. read_fields. done.
Qed.

Lemma network_read_back (o : option NetworkMetric) (key : string) (f : NetworkMetric -> Z) :
  (forall n, vget key (to_value n) = Some (VInt (f n))) ->
  to_value (vget key (to_value o)) = to_value (f <$> o).
Proof. intros H. destruct o as [n|]; [|done]. change (to_value (Some n)) with (to_value n). by rewrite H. Qed.

Lemma trend_point_of_sample t : trend_point_json (to_value t) = trend_view t.
Proof. unfold trend_point_json. change (to_value t) with (ser_trend t). unfold ser_trend. read_fields. done. Qed.

Lemma trend_points_of_samples l : map trend_point_json (map to_value l) = map trend_view l.
Proof. rewrite map_map. apply map_ext. apply trend_point_of_sample. Qed.

(** A [source] with these fields. *)
Definition source_of (source : Value) (node : NodeInfo) (endpoint : string)
    (latest : option MetricSample) : Prop :=
  vget "node" source = Some (node_value uuid_text node) /\
  vget "endpoint_id" source = Some (VString endpoint) /\
  vget "latest" source = Some (to_value latest).

Lemma machine_json_view source node endpoint latest state path rtt seen trend detail :
  source_of source node endpoint latest ->
  (forall s, latest = Some s -> sample_wf s) ->
  machine_json source state path rtt seen (map to_value trend) detail =
  Ok (machine_view node endpoint latest state path rtt seen trend detail).
Proof.
  intros (Hn & He & Hl) Hwf. unfold machine_json. rewrite Hn, He, Hl. cbn [ok_or result_bind default Datatypes.id].
  unfold node_value. read_fields. cbn [base.mbind option_bind].
  rewrite trend_points_of_samples.
  destruct latest as [s|]; [|reflexivity].
  change (to_value (Some s)) with (ser_sample s). unfold ser_sample. read_fields.
  cbn [base.mbind option_bind].
  destruct (Hwf s eq_refl) as (_ & _ & _ & _ & _ & _ & Hd & Hu).
  change (to_value (disks s)) with (VArray (map to_value (disks s))).
  change (to_value (uptime_seconds s)) with (VInt (uptime_seconds s)).
  cbn [as_array default Datatypes.id]. rewrite (filesystems_of_disks _ Hd), (as_u64_int _ Hu).
  rewrite float_read_back, temperature_read_back.
  rewrite (network_read_back _ "received_bytes_per_second" received_bytes_per_second)
    by (intros n; unfold to_value, ser_network; by read_fields).
  rewrite (network_read_back _ "sent_bytes_per_second" sent_bytes_per_second)
    by (intros n; unfold to_value, ser_network; by read_fields).
  reflexivity.
Qed.

End View.

(** ** The headline disk *)

Definition filesystem_ok (f : filesystem) : Prop :=
  in_u u64_max (snd (fst f)) /\ in_u u64_max (snd f) /\ 0 < snd f.

(** [f] is at least as full as [g], as exact fractions. *)
Definition as_full (f g : filesystem) : Prop := snd (fst g) * snd f <= snd (fst f) * snd g.

Lemma fuller_exact f g :
  filesystem_ok f -> filesystem_ok g -> fuller f g = (snd (fst g) * snd f ?= snd (fst f) * snd g).
Proof.
  destruct f as [[m u] t], g as [[m' u'] t']. intros (H1 & H2 & _) (H3 & H4 & _). simpl in *.
  unfold sat_mul. unfold in_u, u64_max, u128_max in *. rewrite !Z.min_l by nia. done.
Qed.

Lemma fuller_total f g : filesystem_ok f -> filesystem_ok g -> fuller f g = Gt -> fuller g f <> Gt.
Proof. intros Hf Hg. rewrite !fuller_exact by done. rewrite Z.compare_gt_iff, Z.compare_ngt_iff. lia. Qed.

Lemma fuller_trans f g h :
  filesystem_ok f -> filesystem_ok g -> filesystem_ok h ->
  fuller f g <> Gt -> fuller g h <> Gt -> fuller f h <> Gt.
Proof.
  intros Hf Hg Hh. rewrite !fuller_exact by done. rewrite !Z.compare_ngt_iff.
  destruct f as [[mf uf] tf], g as [[mg ug] tg], h as [[mh uh] th].
  unfold filesystem_ok, in_u in *. simpl in *. intros H1 H2. apply Z.le_ngt. apply Z.le_ngt in H1, H2.
  apply (Z.mul_le_mono_pos_r _ _ tg); [lia|]. transitivity (ug * th * tf); nia.
Qed.

Lemma sample_filesystems_ok s :
  Forall disk_wf (disks s) ->
  Forall filesystem_ok (map disk_filesystem (List.filter (fun d => 0 <? total_bytes d) (disks s))).
Proof.
  rewrite !List.Forall_forall. intros H f (d & <- & [Hd Ht]%filter_In)%in_map_iff.
  apply Z.ltb_lt in Ht. destruct (H d Hd). done.
Qed.

Lemma sample_filesystems_perm s :
  Permutation (sample_filesystems s) (map disk_filesystem (List.filter (fun d => 0 <? total_bytes d) (disks s))).
Proof. apply sort_by_perm. Qed.

Lemma sample_filesystems_sorted s :
  Forall disk_wf (disks s) -> StronglySorted as_full (sample_filesystems s).
Proof.
  intros H. pose proof (sample_filesystems_ok s H) as Hok.
  pose proof (sort_by_sorted_on fuller filesystem_ok fuller_total fuller_trans _ Hok) as Hs.
  fold (sample_filesystems s) in Hs. rewrite <- sample_filesystems_perm in Hok.
  induction Hs as [|f l Hs IH Hf]; [constructor|]. inversion Hok as [|? ? Hof Hol]; subst.
  constructor; [by apply IH|]. rewrite List.Forall_forall in *. intros g Hg. specialize (Hf g Hg).
  rewrite fuller_exact, Z.compare_ngt_iff in Hf by auto. by apply Z.le_ngt.
Qed.

(** The desktop's list of filesystems is the machine's filesystems with capacity, each once, in
    order of decreasing fill ratio, and its headline disk is as full as the one the daemon
    reports in the trend: the card and its chart agree on the ratio, by two different
    computations, and one is empty exactly when the other is. *)
Theorem headline_disk_matches_trend (s : MetricSample) :
  Forall disk_wf (disks s) ->
  Permutation (sample_filesystems s)
    (map disk_filesystem (List.filter (fun d => 0 <? total_bytes d) (disks s))) /\
  StronglySorted as_full (sample_filesystems s) /\
  match head (sample_filesystems s), worst_disk s with
  | Some (_, used, total), Some d => used * total_bytes d = used_bytes d * total
  | None, None => True
  | _, _ => False
  end.
Proof.
  intros H. pose proof (worst_disk_is_fullest s H) as W.
  pose proof (sample_filesystems_perm s) as P. pose proof (sample_filesystems_sorted s H) as S.
  split; [done|]. split; [done|].
  assert (Hin : forall f, In f (sample_filesystems s) <->
                  exists d, In d (disks s) /\ 0 < total_bytes d /\ f = disk_filesystem d).
  { intros f. split.
    - intros Hf. apply (Permutation_in _ P), in_map_iff in Hf as (d & <- & [Hd Ht]%filter_In).
      apply Z.ltb_lt in Ht. eauto.
    - intros (d & Hd & Ht & ->). apply (Permutation_in _ (Permutation_sym P)), in_map, filter_In.
      by rewrite Z.ltb_lt. }
  destruct (sample_filesystems s) as [|[[m u] t] rest]; cbn [head].
  - destruct (worst_disk s) as [d|]; [|done]. destruct W as (Hd & Ht & _).
    destruct (proj2 (Hin (disk_filesystem d))). eauto.
  - destruct (proj1 (Hin (m, u, t))) as (e & He & Hte & [= -> -> ->]); [by left|].
    destruct (worst_disk s) as [d|]; [|specialize (W e He); lia]. destruct W as (Hd & Ht & Hmax).
    specialize (Hmax e He Hte). assert (Hle : used_bytes d * total_bytes e <= used_bytes e * total_bytes d).
    { destruct (proj2 (Hin (disk_filesystem d))) as [Heq|Hrest]; [eauto| |].
      - injection Heq as _ -> ->. lia.
      - inversion S as [|? ? _ Hf]; subst. rewrite List.Forall_forall in Hf. by apply (Hf _ Hrest). }
    lia.
Qed.

Definition two_full : MetricSample :=
  {| timestamp_ms := 1; sequence := 0; cpu_percent := None;
     memory_used_bytes := None; memory_total_bytes := None;
     swap_used_bytes := None; swap_total_bytes := None;
     disks := [{| mount := "/"; total_bytes := 100; used_bytes := 90 |};
               {| mount := "/data"; total_bytes := 1000; used_bytes := 900 |};
               {| mount := "/proc"; total_bytes := 0; used_bytes := 0 |}];
     network := None; temperature := None; uptime_seconds := 0; errors := [] |}.

Lemma headline_disk_matches_trend_witness :
  match head (sample_filesystems two_full), worst_disk two_full with
  | Some (_, used, total), Some d => used * total_bytes d = used_bytes d * total
  | _, _ => False
  end.
Proof.
  assert (Hwf : Forall disk_wf (disks two_full)) by (repeat constructor; vm_compute; done).
  exact (proj2 (proj2 (headline_disk_matches_trend two_full Hwf))).
Defined.

(** Among equally full disks the sort takes the first and [max_by] the last, so the card may name
    a different filesystem than the one its chart plots. *)
Lemma equally_full_disks_differ :
  fst <$> (fst <$> head (sample_filesystems two_full)) = Some "/" /\
  mount <$> worst_disk two_full = Some "/data".
Proof. split; reflexivity. Qed.

(** ** Asking the daemon: [daemon.rs] *)

Definition DAEMON_REQUEST_TIMEOUT_SECS : Z := 3.

(** [serde_json::to_value] of a response; no warnings are left out. *)
Definition response_value (r : LocalResponse) : Value :=
  obj ([("ok", to_value (resp_ok r)); ("data", to_value (resp_data r)); ("error", to_value (resp_error r))] ++
       match resp_warnings r with [] => [] | w => [("warnings", to_value w)] end)%list.

(** The candidates of [exchange] on Unix. *)
Definition exchange_candidates (os : UnixOs) (rackio_socket : option string) (dirs : ProjectDirs)
  : list string :=
  (match rackio_socket with Some path => [path] | None => [] end ++ system_socket os ++
   [path_join (default (data_local_dir dirs) (state_dir dirs)) "agent.sock"])%list.

Fixpoint connect_candidate {S} (connect : string -> result S string)
    (last_error : option (string * string)) (candidates : list string) : result S string :=
  match candidates with
  | [] =>
      Err match last_error with
          | Some (path, error) => "daemon is not reachable at " +:+ path +:+ ": " +:+ error
          | None => "no local daemon socket was configured"
          end
  | c :: rest =>
      match connect c with
      | Ok stream => Ok stream
      | Err e => connect_candidate connect (Some (c, e)) rest
      end
  end.

(** A response whose [ok] is not true is an error, with the daemon's reason. *)
Definition accepted (response : Value) : result Value string :=
  if default false (vget "ok" response ≫= as_bool) then Ok response
  else Err (default "daemon request failed" (vget "error" response ≫= as_str)).

Section Exchange.
Context {S : Type} (connect : string -> result S string) (encode : Value -> result string string).
Context (send : S -> string -> result unit string) (next_line : S -> result (option string) string).
Context (decode : string -> result Value string).

Definition exchange (os : UnixOs) (rackio_socket : option string) (dirs : option ProjectDirs)
    (command : Value) : result Value string :=
  let? dirs := ok_or dirs "OS application directories are unavailable" in
  let? stream := connect_candidate connect None (exchange_candidates os rackio_socket dirs) in
  let? request := encode command in
  let? _ := send stream (request +:+ String "010" "") in
  let? line := next_line stream in
  let? line := ok_or line "daemon closed the local connection without a response" in
  let? response := decode line in
  accepted response.

(** [exchange] on Windows: the pipe in the place of the candidates. *)
Definition exchange_windows (rackio_pipe : option string) (open_pipe : string -> nat -> result S (option Z))
    (io_message : Wide.IoError -> string) (command : Value) : result Value string :=
  let? name := map_err io_message (configured_pipe_name rackio_pipe) in
  let? stream := map_err io_message (fst (connect_client (open_pipe name))) in
  let? request := encode command in
  let? _ := send stream (request +:+ String "010" "") in
  let? line := next_line stream in
  let? line := ok_or line "daemon closed the local connection without a response" in
  let? response := decode line in
  accepted response.

End Exchange.

(** [None] is an exchange that did not finish in time. *)
Definition bounded_exchange (r : option (result Value string)) : result Value string :=
  match r with
  | Some response => response
  | None => Err ("daemon did not respond within " +:+ dec DAEMON_REQUEST_TIMEOUT_SECS +:+ " seconds")
  end.

(** ** The commands: [lib.rs] *)

Section Commands.
(** [daemon::request]. *)
Context (request : Value -> result Value string).
Context {GR : Graphemes} (to_uppercase : string -> string).

Definition first_text (o : option Value) : option string := ((o ≫= as_array) ≫= head) ≫= as_str.

Definition local_machine (local : Value) : result Value string :=
  machine_json local
    (default "degraded" ((vget "health" local ≫= vget "state") ≫= as_str)) "unknown" None
    ((vget "latest" local ≫= vget "timestamp_ms") ≫= as_i64)
    (default [] (vget "trend" local ≫= as_array))
    (first_text (vget "health" local ≫= vget "details")).

Definition remote_machine (remote : Value) : result Value string :=
  machine_json remote
    (default "degraded" (vget "state" remote ≫= as_str))
    (default "unknown" (vget "path" remote ≫= as_str))
    (vget "rtt_ms" remote ≫= as_u64) (vget "last_seen_ms" remote ≫= as_i64)
    (default [] (vget "trend" remote ≫= as_array)) (first_text (vget "details" remote)).

Definition load_fleet_snapshot (badges : Badges.TrayBadges) : result Value string :=
  let? response := request (obj [("command", VString "fleet_snapshot")]) in
  let? data := ok_or (vget "data" response) "daemon response did not contain data" in
  let? local := ok_or (vget "local" data) "daemon fleet did not contain the local machine" in
  let? local_node := local_machine local in
  let? remotes := ok_or (vget "remotes" data ≫= as_array)
                    "daemon fleet did not contain remote machines" in
  let? remote_nodes := collect_results remote_machine remotes in
  Ok (obj [("daemon", VString "connected");
           ("nodes", VArray (map (Badges.decorate to_uppercase badges) (local_node :: remote_nodes)))]).

Definition pair_machine (bundle : string) : result Value string :=
  let? response := request (obj [("command", VString "pairing_import"); ("bundle", VString bundle)]) in
  ok_or (vget "data" response) "daemon pairing response did not contain data".

Definition machine_history (now_ms : Z) (endpoint_id : string) (hours : Z) : result Value string :=
  if String.eqb endpoint_id "" || negb ((1 <=? hours) && (hours <=? 168)) then
    Err "History requires a paired endpoint and a range between 1 and 168 hours."
  else
    let to_ms := now_ms in
    let from_ms := i64_sat_sub to_ms (hours * 60 * 60 * 1000) in
    let? response := request (obj [("command", VString "query_history");
                                   ("endpoint_id", VString endpoint_id); ("from_ms", VInt from_ms);
                                   ("to_ms", VInt to_ms); ("resolution", VString "minute")]) in
    let? samples := ok_or (vget "data" response ≫= as_array)
                      "daemon history response did not contain samples" in
    Ok (VArray (map history_point_from_sample samples)).

End Commands.

(** ** From the daemon's state to what is shown *)

(** The daemon's side of an exchange: read the command, handle it, answer. *)
Definition daemon_request (handle : LocalCommand -> option LocalResponse) (command : Value)
  : result Value string :=
  match command_of_value command with
  | None => Err "local request is not a command"
  | Some c =>
      match handle c with
      | Some r => accepted (response_value r)
      | None => Err "daemon did not answer"
      end
  end.

Section Shown.
Context (uuid_text : Uuid -> string) {GR : Graphemes} (to_uppercase : string -> string).

Definition state_text (s : NodeState) : string := default "" (as_str (to_value s)).
Definition path_text (p : ConnectionPath) : string := default "" (as_str (to_value p)).

Definition local_view (p : StatusPayload) : Value :=
  machine_view uuid_text (st_node p) (st_endpoint_id p) (st_latest p)
    (state_text (Model.state (st_health p))) "unknown" None (timestamp_ms <$> st_latest p) (st_trend p)
    (head (Model.details (st_health p))).

Definition remote_view (s : RemoteMachineSnapshot) : Value :=
  machine_view uuid_text (s_node s) (s_endpoint_id s) (s_latest s) (state_text (s_state s))
    (path_text (s_path s)) (s_rtt_ms s) (s_last_seen_ms s) (s_trend s) (head (s_details s)).

(** Every number the desktop reads is in the range of its type. *)
Definition latest_wf (o : option MetricSample) : Prop := forall s, o = Some s -> sample_wf s.

Definition snapshot_wf (s : RemoteMachineSnapshot) : Prop :=
  latest_wf (s_latest s) /\ opt_wf u64_max (s_rtt_ms s) /\
  (forall t, s_last_seen_ms s = Some t -> in_i64 t).

Lemma opt_u64_reads_back o : opt_wf u64_max o -> (Some (to_value o) ≫= as_u64) = o.
Proof. intros H. destruct o as [z|]; [|done]. by apply as_u64_int, H. Qed.

Lemma opt_i64_reads_back o : (forall t, o = Some t -> in_i64 t) -> (Some (to_value o) ≫= as_i64) = o.
Proof. intros H. destruct o as [z|]; [|done]. by apply as_i64_int, H. Qed.

Lemma first_text_list l : first_text (Some (to_value l)) = head l.
Proof. by destruct l. Qed.

Lemma trend_array (l : TrendWindow) : default [] (Some (to_value l) ≫= as_array) = map to_value l.
Proof. done. Qed.

Lemma remote_machine_shown s :
  snapshot_wf s -> remote_machine (snapshot_value uuid_text s) = Ok (remote_view s).
Proof.
  intros (Hl & Hr & Ht). unfold remote_machine.
  assert (Hsrc : source_of uuid_text (snapshot_value uuid_text s) (s_node s) (s_endpoint_id s) (s_latest s))
    by (repeat split; unfold snapshot_value; by read_fields).
  assert (Hv : forall key, vget key (snapshot_value uuid_text s) = field key _)
    by (intros key; apply vget_obj).
  rewrite !Hv. cbn [field String.eqb Ascii.eqb Bool.eqb].
  rewrite opt_u64_reads_back, opt_i64_reads_back, first_text_list, trend_array by done.
  by apply machine_json_view.
Qed.

Lemma remote_machines_shown l :
  Forall snapshot_wf l ->
  collect_results remote_machine (map (snapshot_value uuid_text) l) = Ok (map remote_view l).
Proof.
  induction 1 as [|s l Hs _ IH]; [done|]. cbn [map collect_results].
  rewrite (remote_machine_shown s Hs). cbn [result_bind]. by rewrite IH.
Qed.

Lemma local_machine_shown p :
  latest_wf (st_latest p) -> local_machine (ser_status uuid_text p) = Ok (local_view p).
Proof.
  intros Hl. unfold local_machine.
  assert (Hsrc : source_of uuid_text (ser_status uuid_text p) (st_node p) (st_endpoint_id p) (st_latest p))
    by (repeat split; unfold ser_status; by read_fields).
  assert (Hv : forall key, vget key (ser_status uuid_text p) = field key _)
    by (intros key; apply vget_obj).
  rewrite !Hv. cbn [field String.eqb Ascii.eqb Bool.eqb]. cbn [base.mbind option_bind].
  change (to_value (st_health p)) with (ser_health (st_health p)). unfold ser_health. read_fields.
  rewrite first_text_list.
  change (default [] (as_array (to_value (st_trend p)))) with (map to_value (st_trend p)).
  replace ((vget "timestamp_ms" (to_value (st_latest p)) ≫= as_i64)) with (timestamp_ms <$> st_latest p).
  { by apply machine_json_view. }
  destruct (st_latest p) as [s|]; [|done]. change (to_value (Some s)) with (ser_sample s).
  unfold ser_sample. read_fields. symmetry. apply as_i64_int. by apply (Hl s).
Qed.

Context {J : Type} {SC : SampleCodec J} (db_fault : nat -> bool).
Context {ET : EndpointText} {B64 : Base64} {BJ : JsonCodec PairingBundle anything}.
Context {RJ : JsonCodec Records anything} {MJ : JsonCodec Machines machines_finite}.
Context {float_ok : f64 -> Prop} {CJ : JsonCodec AgentConfig (config_carried float_ok)}.
Context (peers_fault machines_fault config_fault : nat -> bool) (parse_uuid : string -> option Uuid).
Context {Url Cert : Type} (parse_relay_url : string -> option Url).
Context (read_file : string -> option (list Z)) (pem_sections : list Z -> option (list Cert)).
Context (verifier : list Cert -> bool) (ca_text : RelayCaError -> string).
Context (mdns_spawn : PairingMdnsAdvertisement -> result unit string).
Context {DC : Display PersistError} {DF : Display RemoteFleetError} {DP : Display PairingError}.
Context {DM : Display PairingMdnsError} {DS : Display ServerError} {DQ : Display StoreError}.

(** The running daemon, as the desktop reaches it. *)
Definition daemon_of (env : LocalEnv) (ctx : LocalContext (J := J)) : Value -> result Value string :=
  daemon_request (fun c => snd (handle_local db_fault peers_fault machines_fault config_fault uuid_text
    parse_uuid parse_relay_url read_file pem_sections verifier ca_text mdns_spawn env c ctx)).

Lemma fleet_shown (env : LocalEnv) (ctx : LocalContext (J := J)) (p : StatusPayload)
    (badges : Badges.TrayBadges) :
  local_status env ctx = Ok p ->
  latest_wf (st_latest p) ->
  Forall snapshot_wf (snapshots_at (le_now_snapshots env) (lc_fleet ctx)) ->
  load_fleet_snapshot (daemon_of env ctx) to_uppercase badges =
  Ok (obj [("daemon", VString "connected");
           ("nodes", VArray (map (Badges.decorate to_uppercase badges)
                       (local_view p ::
                        map remote_view (snapshots_at (le_now_snapshots env) (lc_fleet ctx)))))]).
Proof.
  intros Hp Hl Hr. unfold load_fleet_snapshot, daemon_of, daemon_request.
  change (command_of_value (obj [("command", VString "fleet_snapshot")])) with (Some FleetSnapshot).
  cbn [handle_local snd]. rewrite Hp.
  set (remotes := snapshots_at _ _) in *.
  unfold success, response_value. cbn [resp_ok resp_data resp_error resp_warnings app].
  unfold accepted. read_fields. cbn [base.mbind option_bind result_bind].
  change (default false (as_bool (to_value true))) with true. cbn [result_bind].
  read_fields. cbn [ok_or result_bind].
  change (to_value (Some (to_value {| fl_local := p; fl_remotes := remotes |})))
    with (ser_fleet uuid_text {| fl_local := p; fl_remotes := remotes |}).
  unfold ser_fleet. cbn [fl_local fl_remotes]. read_fields. cbn [ok_or result_bind].
  change (to_value p) with (ser_status uuid_text p). rewrite (local_machine_shown p Hl).
  cbn [result_bind base.mbind option_bind as_array ok_or].
  rewrite (remote_machines_shown remotes Hr). reflexivity.
Qed.

(** C18: The dashboard and the tray show exactly the daemon's machines, its own first and then every
    paired one, and of each exactly what the daemon holds: identity, state, path, the latest
    sample with its filesystems fullest first, the trend and the first detail, with the badge
    added. Nothing the daemon sends is lost, renamed or refused on the way. *)
Theorem fleet_shown_is_fleet_held (env : LocalEnv) (ctx : LocalContext (J := J)) (p : StatusPayload)
    (badges : Badges.TrayBadges) :
  local_status env ctx = Ok p ->
  latest_wf (st_latest p) ->
  Forall snapshot_wf (snapshots_at (le_now_snapshots env) (lc_fleet ctx)) ->
  load_fleet_snapshot (daemon_of env ctx) to_uppercase badges =
  Ok (obj [("daemon", VString "connected");
           ("nodes", VArray (map (Badges.decorate to_uppercase badges)
                       (local_view p ::
                        map remote_view (snapshots_at (le_now_snapshots env) (lc_fleet ctx)))))]).
Proof. apply fleet_shown. Qed.

End Shown.

(** ** History *)

Lemma history_point_of_sample s : history_point_from_sample (to_value s) = history_view s.
Proof.
  unfold history_point_from_sample. change (to_value s) with (ser_sample s).
  assert (Hv : forall key, vget key (ser_sample s) = field key _) by (intros key; apply vget_obj).
  rewrite !Hv. cbn [field String.eqb Ascii.eqb Bool.eqb base.mbind option_bind].
  rewrite (network_read_back _ "received_bytes_per_second" received_bytes_per_second)
    by (intros n; unfold to_value, ser_network; by read_fields).
  rewrite (network_read_back _ "sent_bytes_per_second" sent_bytes_per_second)
    by (intros n; unfold to_value, ser_network; by read_fields).
  unfold history_view. destruct (disks s) as [|d l], (temperature s) as [t|]; reflexivity.
Qed.

Lemma history_command_reads now e hours :
  in_i64 now -> in_i64 (i64_sat_sub now (hours * 60 * 60 * 1000)) ->
  command_of_value (obj [("command", VString "query_history"); ("endpoint_id", VString e);
                         ("from_ms", VInt (i64_sat_sub now (hours * 60 * 60 * 1000)));
                         ("to_ms", VInt now); ("resolution", VString "minute")]) =
  Some (QueryHistory e (i64_sat_sub now (hours * 60 * 60 * 1000)) now Minute).
Proof.
  intros H1 H2. unfold command_of_value, need. read_fields. cbn [base.mbind option_bind].
  by rewrite !as_i64_int.
Qed.

(** Asking for the history of a machine sends the daemon one query, for the minutes of the chosen
    hours up to now, a range the daemon's own limit always admits, and shows every sample of its
    answer in order, each with exactly the readings it carries. *)
Theorem history_shown_is_history_held (handle : LocalCommand -> option LocalResponse) (now hours : Z)
    (endpoint : string) (samples : list MetricSample) :
  let from_ms := i64_sat_sub now (hours * 60 * 60 * 1000) in
  in_i64 now -> endpoint <> "" -> 1 <= hours <= 168 ->
  handle (QueryHistory endpoint from_ms now Minute) = Some (success samples) ->
  machine_history (daemon_request handle) now endpoint hours = Ok (VArray (map history_view samples)) /\
  from_ms <= now <= from_ms + MAX_LOCAL_HISTORY_RANGE_MS.
Proof.
  intros from_ms Hn He Hh H.
  assert (Hf : in_i64 from_ms /\ from_ms <= now <= from_ms + MAX_LOCAL_HISTORY_RANGE_MS).
  { unfold from_ms, i64_sat_sub, i64_clamp, MAX_LOCAL_HISTORY_RANGE_MS, in_i64, i64_min, i64_max in *. lia. }
  split; [|apply Hf]. unfold machine_history. rewrite (proj2 (String.eqb_neq _ _) He).
  rewrite (proj2 (Z.leb_le 1 hours)), (proj2 (Z.leb_le hours 168)) by lia. cbn [negb orb andb].
  unfold daemon_request. rewrite history_command_reads by (done || apply Hf). fold from_ms. rewrite H.
  unfold success, response_value, accepted. cbn [resp_ok resp_data resp_error resp_warnings app].
  read_fields. cbn [base.mbind option_bind result_bind].
  change (default false (as_bool (to_value true))) with true. cbn [result_bind]. read_fields.
  cbn [base.mbind option_bind]. change (as_array _) with (Some (map to_value samples)).
  cbn [ok_or result_bind]. do 2 f_equal. rewrite map_map. apply map_ext. apply history_point_of_sample.
Qed.

(** The desktop tries the socket of [RACKIO_SOCKET] and then falls back to the others, where the
    command line stays with the named one, and it never tries the socket of a user service,
    which the command line finds. *)
Lemma desktop_and_cli_sockets_differ paths dirs :
  In "/run/rackio/agent.sock" (exchange_candidates Linux (Some "/tmp/dev.sock") dirs) /\
  local_socket_candidates Linux paths true None = [p_local_socket paths] /\
  In "/run/user/1000/rackio/agent.sock" (local_socket_candidates Linux paths false (Some "/run/user/1000")) /\
  (state_dir dirs = Some "/home/u/.local/state/rackio" ->
   ~ In "/run/user/1000/rackio/agent.sock" (exchange_candidates Linux None dirs)).
Proof.
  split; [right; by left|]. split; [done|]. split.
  - unfold local_socket_candidates, local_socket_candidates_with_runtime_socket.
    cbn [fmap option_fmap option_map]. cbv zeta.
    change (path_join "/run/user/1000" "rackio/agent.sock") with "/run/user/1000/rackio/agent.sock".
    cbn [system_socket]. change (starts_with "/" "/run/user/1000/rackio/agent.sock" && _) with true.
    cbv iota. destruct (str_contains _ _); [right; by left|]. apply in_app_iff. left. right. by left.
  - intros H. unfold exchange_candidates. rewrite H. cbn [default Datatypes.id app system_socket].
    vm_compute. intros [E|[E|[]]]; discriminate E.
Qed.

Definition demo_badges : Badges.TrayBadges :=
  {| Badges.path := None; Badges.icons := [("11", "R")]; Badges.icons_poisoned := false;
     Badges.badges_file := NotFound; Badges.badges_ops := 0 |}.

#[local] Instance no_display {A} : Display A := fun _ => "error".
#[local] Existing Instance Badges.byte_graphemes.

(** A daemon with a sample of its own and one paired machine. *)
Definition shown_remote : RemoteMachineSnapshot :=
  {| s_node := demo_info; s_endpoint_id := "remote"; s_latest := Some two_full; s_state := Healthy;
     s_path := LanDirect; s_rtt_ms := Some 12; s_last_seen_ms := Some 900;
     s_trend := [trend_of_sample two_full]; s_details := [] |}.

Definition shown_ctx : LocalContext (J := MetricSample) :=
  let c := demo_ctx demo_config in
  let n := lc_runtime c in
  with_fleet {| f_registry := f_registry (lc_fleet c); f_snapshots := [("remote", shown_remote)];
                f_monitors := f_monitors (lc_fleet c); f_monitors_poisoned := f_monitors_poisoned (lc_fleet c);
                f_spawned := f_spawned (lc_fleet c); f_running := f_running (lc_fleet c) |}
    (with_runtime {| info := info n; health := health n; Server.latest := Some two_full; trend := trend n;
                     store := store n; pairing := pairing n; pairing_poisoned := pairing_poisoned n;
                     pairing_mdns := pairing_mdns n; peers := peers n;
                     active_connections := active_connections n; active_poisoned := active_poisoned n;
                     closed := closed n |} c).

Lemma two_full_wf : sample_wf two_full.
Proof. repeat split; try done; repeat constructor; done. Qed.

Lemma fleet_shown_is_fleet_held_witness :
  match local_status demo_env shown_ctx with
  | Ok p =>
      st_latest p = Some two_full /\
      load_fleet_snapshot
        (daemon_of unary_text (Cert := Z) never never no_fault never parse_unary Some (fun _ => Some [1])
           Some (fun _ => true) (fun _ => "") (fun _ => Ok tt) demo_env shown_ctx)
        (fun s => s) demo_badges =
      Ok (obj [("daemon", VString "connected");
               ("nodes", VArray [Badges.decorate (fun s => s) demo_badges (local_view unary_text p);
                                 Badges.decorate (fun s => s) demo_badges
                                   (remote_view unary_text shown_remote)])])
  | Err _ => False
  end.
Proof.
  destruct (local_status demo_env shown_ctx) as [p|e] eqn:E;
    unfold local_status in E; cbn [shown_ctx demo_ctx with_fleet with_runtime lc_disk] in E;
    rewrite demo_config_loads in E; cbn [result_bind] in E; [|discriminate E].
  assert (Hl : st_latest p = Some two_full) by (by injection E as <-). split; [exact Hl|].
  refine (fleet_shown_is_fleet_held unary_text (fun s => s) (Cert := Z) never never no_fault never
    parse_unary Some (fun _ => Some [1]) Some (fun _ => true) (fun _ => "") (fun _ => Ok tt)
    demo_env shown_ctx p demo_badges _ _ _).
  - unfold local_status. cbn [shown_ctx demo_ctx with_fleet with_runtime lc_disk].
    rewrite demo_config_loads. exact E.
  - intros s. rewrite Hl. intros [= <-]. exact two_full_wf.
  - constructor; [|constructor]. split; [|split].
    + intros s [= <-]. exact two_full_wf.
    + intros z [= <-]. split; by vm_compute.
    + intros z [= <-]. split; by vm_compute.
Defined.

Lemma history_shown_is_history_held_witness :
  machine_history (daemon_request (fun _ => Some (success [two_full]))) 1000000000 "peer" 24 =
  Ok (VArray [history_view two_full]).
Proof.
  refine (proj1 (history_shown_is_history_held (fun _ => Some (success [two_full])) 1000000000 24 "peer"
    [two_full] _ _ _ _)); [split; by vm_compute|done|lia|reflexivity].
Defined.
