(* ===== verification/Shell.v ===== *)
(** The desktop's other commands: [apps/desktop/src-tauri/src/settings.rs], [pairing.rs],
    [updater.rs] and [create_pairing_share] of [lib.rs].

    [settings.rs] turns an edit of the settings window into one daemon command; [pairing.rs]
    shows and exports a pairing bundle; [updater.rs] decides whether a build updates itself. *)

From Stdlib Require Import Ascii String.
From S2P Require Import Prelude BTree Float Model Alert Storage Framing Transport Net Persist.
From S2P Require Import Codecs Pairing Mdns Server Remote Fleet Config Json LocalIpc Commands.
From S2P Require Import Preferences Badges Presentation.
Local Open Scope string_scope.
Local Open Scope Z_scope.

(** ** Health thresholds: [settings.rs] *)

Definition RULE_SEVERITIES : list string := ["warning"; "critical"].
Definition COMPARISONS : list string := ["greater_than_or_equal"; "less_than_or_equal"].

Record AlertRuleEdit := {
  e_id : string;
  e_metric : option string;
  e_comparison : option string;
  e_threshold : option f64;
  e_consecutive_samples : option Z;
  e_severity : option string;
}.

Definition require_id (id : string) : result unit string :=
  if String.eqb (trim id) "" then Err "An alert rule id is required." else Ok tt.

(** [command[key] = value] for the fields that are present. *)
Definition add_fields (fields : list (string * option Value)) (command : list (string * Value))
  : list (string * Value) :=
  fold_left (fun c '(key, value) => match value with Some v => (c ++ [(key, v)])%list | None => c end)
    fields command.

Definition alerts_set_command (edit : AlertRuleEdit) : result Value string :=
  let? _ := require_id (e_id edit) in
  let? _ := match e_threshold edit with
            | Some t => if negb (is_finite t) then Err "The threshold must be a finite number." else Ok tt
            | None => Ok tt
            end in
  let? _ := if bool_decide (e_consecutive_samples edit = Some 0)
            then Err "A rule needs at least one consecutive sample." else Ok tt in
  let? _ := match e_severity edit with
            | Some s => if negb (str_contains RULE_SEVERITIES s)
                        then Err "The severity must be warning or critical." else Ok tt
            | None => Ok tt
            end in
  let? _ := match e_comparison edit with
            | Some c => if negb (str_contains COMPARISONS c) then Err "Unknown comparison." else Ok tt
            | None => Ok tt
            end in
  Ok (obj (add_fields [("metric", to_value <$> e_metric edit);
                       ("comparison", to_value <$> e_comparison edit);
                       ("threshold", float_value <$> e_threshold edit);
                       ("consecutive_samples", to_value <$> e_consecutive_samples edit);
                       ("severity", to_value <$> e_severity edit)]
             [("command", VString "alerts"); ("alerts", VString "set"); ("id", VString (e_id edit))])).

Definition alerts_rule_enabled_command (id : string) (enabled : bool) : result Value string :=
  let? _ := require_id id in
  Ok (obj [("command", VString "alerts"); ("alerts", VString "rule_enabled"); ("id", VString id);
           ("enabled", VBool enabled)]).

Definition alerts_reset_command (id : option string) : result Value string :=
  let command := [("command", VString "alerts"); ("alerts", VString "reset")] in
  match id with
  | Some id => let? _ := require_id id in Ok (obj (command ++ [("id", VString id)])%list)
  | None => Ok (obj command)
  end.

Definition alerts_enabled_command (enabled : bool) : Value :=
  obj [("command", VString "alerts"); ("alerts", VString "enabled"); ("enabled", VBool enabled)].

Definition alerts_list_command : Value := obj [("command", VString "alerts"); ("alerts", VString "list")].

(** The daemon's read-back, only if it has rules. *)
Definition alert_listing (response : Value) : result Value string :=
  ok_or (data ← vget "data" response;
         rules ← vget "rules" data;
         match rules with VArray _ => Some data | _ => None end)
    "daemon alert response did not contain rules".

Section Settings.
Context (request : Value -> result Value string).

Definition exchange_alerts (command : Value) : result Value string :=
  let? response := request command in alert_listing response.

Definition alerts_set (edit : AlertRuleEdit) : result Value string :=
  let? command := alerts_set_command edit in exchange_alerts command.

Definition alerts_rule_enabled (id : string) (enabled : bool) : result Value string :=
  let? command := alerts_rule_enabled_command id enabled in exchange_alerts command.

Definition alerts_reset (id : option string) : result Value string :=
  let? command := alerts_reset_command id in exchange_alerts command.

Definition alerts_list : result Value string := exchange_alerts alerts_list_command.
Definition alerts_set_enabled (enabled : bool) : result Value string :=
  exchange_alerts (alerts_enabled_command enabled).

End Settings.

(** The names of a severity and a comparison in the window. *)
Definition severity_of (s : string) : NodeState := if String.eqb s "warning" then Warning else Critical.
Definition comparison_of (s : string) : Comparison :=
  if String.eqb s "greater_than_or_equal" then GreaterThanOrEqual else LessThanOrEqual.

(** The command an edit stands for. *)
Definition edit_command (e : AlertRuleEdit) : AlertCommand :=
  AlertSet (e_id e) (e_metric e) (comparison_of <$> e_comparison e) (e_threshold e)
    (e_consecutive_samples e) (severity_of <$> e_severity e).

Definition edit_acceptable (e : AlertRuleEdit) : Prop :=
  trim (e_id e) <> "" /\ (forall t, e_threshold e = Some t -> is_finite t = true) /\
  e_consecutive_samples e <> Some 0 /\
  (forall s, e_severity e = Some s -> In s RULE_SEVERITIES) /\
  (forall c, e_comparison e = Some c -> In c COMPARISONS).

Lemma require_id_Ok id : require_id id = Ok tt <-> trim id <> "".
Proof. unfold require_id. destruct (String.eqb_spec (trim id) ""); naive_solver. Qed.

Lemma one_of (l : list string) (o : option string) (e : string) :
  match o with Some s => if negb (str_contains l s) then Err e else Ok tt | None => Ok tt end = Ok tt <->
  (forall s, o = Some s -> In s l).
Proof.
  destruct o as [s|]; [|naive_solver]. destruct (str_contains l s) eqn:E; simpl.
  - apply str_contains_In in E. split; [|done]. by intros _ s' [= <-].
  - split; [done|]. intros H. specialize (H s eq_refl). apply str_contains_In in H. congruence.
Qed.

Lemma severity_text s : In s RULE_SEVERITIES -> VString s = to_value (severity_of s).
Proof. by intros [<-|[<-|[]]]. Qed.

Lemma comparison_text s : In s COMPARISONS -> VString s = to_value (comparison_of s).
Proof. by intros [<-|[<-|[]]]. Qed.

Lemma alerts_set_command_Ok e v : alerts_set_command e = Ok v -> edit_acceptable e.
Proof.
  unfold alerts_set_command, edit_acceptable. destruct (require_id (e_id e)) as [[]|] eqn:E1; [|done].
  apply require_id_Ok in E1. cbn [result_bind]. intros H. split; [done|]. revert H.
  set (t := match e_threshold e with Some t => _ | None => _ end).
  destruct t as [[]|] eqn:E2; [|done]. cbn [result_bind]. intros H. split.
  { intros x Hx. unfold t in E2. rewrite Hx in E2. by destruct (is_finite x). }
  revert H. clear t E2. destruct (bool_decide_reflect (e_consecutive_samples e = Some 0)); [done|].
  cbn [result_bind]. intros H. split; [done|]. revert H.
  destruct (match e_severity e with Some s => _ | None => _ end) as [[]|] eqn:E4; [|done].
  cbn [result_bind]. intros H. split; [exact (proj1 (one_of _ _ _) E4)|]. revert H.
  destruct (match e_comparison e with Some s => _ | None => _ end) as [[]|] eqn:E5; [|done].
  intros _. exact (proj1 (one_of _ _ _) E5).
Qed.

Lemma acceptable_edit_is_sent e :
  edit_acceptable e -> opt_wf u32_max (e_consecutive_samples e) ->
  exists v, alerts_set_command e = Ok v /\ command_of_value v = Some (Alerts (edit_command e)).
Proof.
  intros (H1 & H2 & H3 & H4 & H5) Hn. unfold alerts_set_command.
  rewrite (proj2 (require_id_Ok _) H1). cbn [result_bind].
  replace (match e_threshold e with Some t => _ | None => _ end) with (@Ok unit string tt).
  2:{ destruct (e_threshold e) as [t|]; [|done]. by rewrite (H2 t eq_refl). }
  cbn [result_bind]. rewrite bool_decide_eq_false_2 by done. cbn [result_bind].
  rewrite (proj2 (one_of RULE_SEVERITIES _ _) H4). cbn [result_bind].
  rewrite (proj2 (one_of COMPARISONS _ _) H5). cbn [result_bind]. eexists. split; [reflexivity|].
  set (v := obj _).
  assert (Hv : forall key, vget key v = field key _) by (intros key; apply vget_obj).
  unfold command_of_value, need.
  assert (Hset : alert_of_value v = Some (edit_command e)).
  { apply set_reads_back; [..|done]; rewrite Hv; clear v Hv.
    all: destruct e as [i m cmp t n s]; cbn [e_id e_metric e_comparison e_threshold e_consecutive_samples
           e_severity] in *.
    all: destruct m as [m|], n as [n|]; destruct t as [t|]; [rewrite ?(H2 t eq_refl)..|];
         destruct cmp as [c|], s as [s|];
         cbn [add_fields fold_left fmap option_fmap option_map app field String.eqb Ascii.eqb Bool.eqb].
    all: try reflexivity.
    all: try (f_equal; apply severity_text; by apply H4).
    all: try (f_equal; apply comparison_text; by apply H5).
    all: unfold float_value; by rewrite (H2 t eq_refl). }
  assert (Htag : vget "command" v = Some (VString "alerts")).
  { rewrite Hv. by destruct (e_metric e), (e_comparison e), (e_threshold e), (e_consecutive_samples e),
      (e_severity e). }
  rewrite Htag. cbn [base.mbind option_bind as_str String.eqb Ascii.eqb Bool.eqb]. by rewrite Hset.
Qed.

(** C39: The settings window sends a threshold edit exactly when its id is not blank, its threshold is
    finite, its sample count is not zero and its severity and comparison are ones a rule can
    have; and what it sends is, for the daemon, the edit the user made: the same rule, the fields
    the user changed and no other. *)
Theorem settings_edit_reaches_daemon (e : AlertRuleEdit) :
  opt_wf u32_max (e_consecutive_samples e) ->
  match alerts_set_command e with
  | Ok v => edit_acceptable e /\ command_of_value v = Some (Alerts (edit_command e))
  | Err _ => ~ edit_acceptable e
  end.
Proof.
  intros Hn. destruct (alerts_set_command e) as [v|] eqn:E.
  - assert (Ha : edit_acceptable e) by (by eapply alerts_set_command_Ok). split; [done|].
    destruct (acceptable_edit_is_sent e Ha Hn) as (v' & E' & Hv). rewrite E in E'. by injection E' as <-.
  - intros Ha. destruct (acceptable_edit_is_sent e Ha Hn) as (v' & E' & _). congruence.
Qed.

Lemma settings_edit_reaches_daemon_witness :
  let e := {| e_id := "cpu"; e_metric := None; e_comparison := None; e_threshold := Some (f64_of_Z 90);
              e_consecutive_samples := Some 5; e_severity := Some "critical" |} in
  match alerts_set_command e with
  | Ok v => command_of_value v = Some (Alerts (edit_command e))
  | Err _ => False
  end.
Proof.
  intros e. assert (Hn : opt_wf u32_max (e_consecutive_samples e)) by (intros z [= <-]; by vm_compute).
  pose proof (settings_edit_reaches_daemon e Hn) as H.
  destruct (alerts_set_command e) as [v|x] eqn:E; [exact (proj2 H)|].
  vm_compute in E. discriminate E.
Defined.

(** ** Pairing bundles: [pairing.rs] and [create_pairing_share] *)

Section Share.
Context {B64 : Base64} (parse_value : list Z -> option Value) (qr_data_url : string -> result string string).
Context (request : Value -> result Value string).

Definition bundle_expiry (bundle : string) : result Z string :=
  let? payload := ok_or (strip_prefix "rackio-pair:" bundle)
                    "daemon returned a bundle without a pairing prefix" in
  let? decoded := ok_or (b64_decode payload) "daemon pairing bundle is not valid base64" in
  ok_or ((parse_value decoded ≫= vget "expires_at_ms") ≫= as_i64)
    "daemon pairing bundle did not declare an expiry".

Definition create_pairing_share : result Value string :=
  let? response := request (obj [("command", VString "pairing_create")]) in
  let? bundle := ok_or (vget "data" response ≫= as_str)
                   "daemon pairing response did not contain a bundle" in
  let? expires_at_ms := bundle_expiry bundle in
  let lan_warning := first_text (vget "warnings" response) in
  Ok (obj [("bundle", to_value bundle); ("expiresAtMs", to_value expires_at_ms);
           match qr_data_url bundle with
           | Ok url => ("qrDataUrl", to_value url)
           | Err e => ("qrError", to_value e)
           end;
           ("lanWarning", to_value lan_warning)]).

(** What serde derives for a bundle: its expiry is a field of the object. *)
Context {BJ : JsonCodec PairingBundle anything}.
Hypothesis bundle_object : forall b bytes, to_vec b = Some bytes ->
  exists v, parse_value bytes = Some v /\ vget "expires_at_ms" v = Some (VInt (b_expires_at_ms b)).

Lemma encoded_bundle_expiry b text :
  bundle_encode b = Ok text -> in_i64 (b_expires_at_ms b) -> bundle_expiry text = Ok (b_expires_at_ms b).
Proof.
  unfold bundle_encode. destruct (json_reads_back (carried := anything) b I) as (bytes & E & Hb & _).
  rewrite E. cbn [ok_or result_bind]. intros [= <-] Hi. unfold bundle_expiry.
  change "rackio-pair:" with SCHEME. rewrite strip_prefix_append. cbn [ok_or result_bind].
  rewrite b64_roundtrip by done. cbn [ok_or result_bind].
  destruct (bundle_object b bytes E) as (v & -> & Hv). cbn [base.mbind option_bind]. rewrite Hv.
  cbn [base.mbind option_bind]. by rewrite as_i64_int.
Qed.

Lemma share_has_expiry v :
  create_pairing_share = Ok v ->
  exists bundle z, bundle_expiry bundle = Ok z /\
    vget "bundle" v = Some (VString bundle) /\ vget "expiresAtMs" v = Some (VInt z).
Proof.
  unfold create_pairing_share. destruct (request _) as [r|]; [|done]. cbn [result_bind].
  destruct (vget "data" r ≫= as_str) as [bundle|]; [|done]. cbn [ok_or result_bind].
  destruct (bundle_expiry bundle) as [z|] eqn:E; [|done]. cbn [result_bind]. intros [= <-].
  exists bundle, z. split; [done|]. rewrite !vget_obj. by destruct (qr_data_url bundle).
Qed.

(** A pairing window is offered only with the instant it ends: no share lacks an expiry, and the
    share of a bundle the daemon made shows that bundle and the expiry of its window, also when
    the daemon could not advertise it or it does not fit a QR code. *)
Theorem share_shows_window_end (r : LocalResponse) (b : PairingBundle) (text : string) :
  request (obj [("command", VString "pairing_create")]) = accepted (response_value r) ->
  (forall v, create_pairing_share = Ok v ->
     exists z, vget "expiresAtMs" v = Some (VInt z)) /\
  (resp_ok r = true -> resp_data r = Some (VString text) -> bundle_encode b = Ok text ->
   in_i64 (b_expires_at_ms b) ->
   exists v, create_pairing_share = Ok v /\ vget "bundle" v = Some (VString text) /\
     vget "expiresAtMs" v = Some (VInt (b_expires_at_ms b))).
Proof.
  intros Hr. split.
  - intros v Hv. destruct (share_has_expiry v Hv) as (bundle & z & _ & _ & H). eauto.
  - intros Hok Hd Hb Hi. unfold create_pairing_share. rewrite Hr.
    assert (Hvalue : forall key, vget key (response_value r) = field key _) by (intros key; apply vget_obj).
    assert (Hfields : vget "ok" (response_value r) = Some (VBool true) /\
                      vget "data" (response_value r) = Some (VString text)).
    { rewrite !Hvalue, Hok, Hd. by destruct (resp_warnings r). }
    destruct Hfields as [H1 H2]. unfold accepted. rewrite H1. cbn [base.mbind option_bind as_bool default
      Datatypes.id result_bind]. rewrite H2. cbn [base.mbind option_bind as_str ok_or result_bind].
    rewrite (encoded_bundle_expiry b text Hb Hi). cbn [result_bind]. eexists. split; [done|].
    rewrite !vget_obj. by destruct (qr_data_url text).
Qed.

End Share.

(** The file the user chose, as its mode and contents. *)
Record ExportFile := { f_mode : Z; f_contents : string }.

Definition PRIVATE : Z := 384.

(** What the operating system does (its own error text is left out of the messages): open, restrict, and how much a failing write leaves. *)
Record ExportEnv := {
  x_open_ok : bool;
  x_created_mode : Z -> Z;
  x_chmod_ok : bool;
  x_written : option nat;
  x_sync_ok : bool;
}.

Definition save_pairing_bundle (env : ExportEnv) (path bundle : string) (f : option ExportFile)
  : option ExportFile * result unit string :=
  if negb (starts_with "rackio-pair:" bundle) || (16 * 1024 <? Z.of_nat (String.length bundle)) then
    (f, Err "refusing to save an invalid pairing bundle")
  else if String.eqb path "" then (f, Err "pairing bundle path cannot be empty")
  else if negb (x_open_ok env) then (f, Err "failed to open the pairing bundle file")
  else
    let opened := {| f_mode := match f with Some f => f_mode f | None => x_created_mode env PRIVATE end;
                     f_contents := "" |} in
    if negb (x_chmod_ok env) then (Some opened, Err "failed to restrict the pairing bundle file")
    else
      let contents := bundle +:+ String "010" "" in
      match x_written env with
      | Some n => (Some {| f_mode := PRIVATE; f_contents := String.substring 0 n contents |},
                   Err "failed to save the pairing bundle")
      | None => (Some {| f_mode := PRIVATE; f_contents := contents |},
                 if x_sync_ok env then Ok tt else Err "failed to save the pairing bundle")
      end.

(** Whatever the file was before and wherever the export fails, the file is left untouched, empty,
    or readable by its owner alone: the secret is never in a file others can read. A successful
    export holds the bundle and a newline. *)
Theorem exported_secret_is_private (env : ExportEnv) (path bundle : string) (f : option ExportFile) :
  match save_pairing_bundle env path bundle f with
  | (Some f', Ok _) => f_mode f' = PRIVATE /\ f_contents f' = bundle +:+ String "010" ""
  | (None, Ok _) => False
  | (f', Err _) => f' = f \/ exists g, f' = Some g /\ (f_contents g = "" \/ f_mode g = PRIVATE)
  end.
Proof.
  unfold save_pairing_bundle. destruct (negb _ || _); [destruct f; by left|].
  destruct (String.eqb path ""); [destruct f; by left|].
  destruct (x_open_ok env); cbn [negb]; [|destruct f; by left].
  destruct (x_chmod_ok env); cbn [negb]; [|right; eexists; eauto].
  destruct (x_written env) as [n|]; [right; eexists; eauto|].
  destruct (x_sync_ok env); [done|]. right. eexists. eauto.
Qed.

(** ** Updates: [updater.rs] *)

Definition configured_public_key (value : option string) : option string :=
  key ← value; if String.eqb (trim key) "" then None else Some (trim key).

Definition verify_updater_config (embedded_key : string) (config : option Value) : result unit string :=
  let? configured :=
    ok_or (((config ≫= vget "pubkey") ≫= as_str) ≫= fun key => configured_public_key (Some key))
      ("this build embeds an updater key but has no updater configuration; " +:+
       "build it with --config src-tauri/tauri.updater.conf.json") in
  if String.eqb configured embedded_key then Ok tt
  else Err "the updater configuration's public key does not match the key embedded in this build".

(** [register]: whether the builder gets the updater plugin. *)
Definition register_with_key (key : option string) (config : option Value) : result bool string :=
  match key with
  | None => Ok false
  | Some key => let? _ := verify_updater_config key config in Ok true
  end.

Definition register (embedded : option string) (config : option Value) : result bool string :=
  register_with_key (configured_public_key embedded) config.

(** [start]: whether the update loop runs. *)
Definition start (embedded : option string) : bool :=
  match configured_public_key embedded with Some _ => true | None => false end.

(** A build that starts runs the update loop exactly when it registered the plugin, and it
    registers it only if the key compiled into it is the key its configuration verifies
    signatures with; a build whose keys differ does not start. *)
Theorem updates_need_the_embedded_key (embedded : option string) (config : option Value) :
  match register embedded config with
  | Ok plugin =>
      start embedded = plugin /\
      (plugin = true -> exists key pubkey, embedded = Some key /\ trim key <> "" /\
         config ≫= vget "pubkey" = Some (VString pubkey) /\ trim pubkey = trim key)
  | Err _ => start embedded = true
  end.
Proof.
  unfold register, start. destruct (configured_public_key embedded) as [key|] eqn:E; [|done].
  cbn [register_with_key]. unfold configured_public_key in E. destruct embedded as [raw|]; [|done].
  cbn [base.mbind option_bind] in E. destruct (String.eqb_spec (trim raw) "") as [|Hn]; [done|].
  injection E as <-. unfold verify_updater_config.
  destruct (config ≫= vget "pubkey") as [v|]; [|done]. cbn [base.mbind option_bind].
  destruct v; cbn [as_str base.mbind option_bind configured_public_key ok_or result_bind]; try done.
  destruct (String.eqb_spec (trim s) "") as [|Hs]; [done|]. cbn [ok_or result_bind].
  destruct (String.eqb_spec (trim s) (trim raw)) as [He|]; [|done]. cbn [result_bind]. split; [done|].
  intros _. eauto 10.
Qed.

(** A concrete reading of the bundle's object, for the witness. *)
Definition demo_parse (bytes : list Z) : option Value :=
  (fun b : PairingBundle => obj [("expires_at_ms", VInt (b_expires_at_ms b))]) <$>
  from_slice (JsonCodec := bundle_json) bytes.

Lemma share_shows_window_end_witness :
  let b := snd (Pairing.open demo_secret 1000 1 2 [] [] None) in
  match bundle_encode b with
  | Ok text =>
      exists v, create_pairing_share demo_parse (fun _ => Err "too large")
                  (fun _ => accepted (response_value (success_with_warning text "mDNS is off"))) = Ok v /\
        vget "expiresAtMs" v = Some (VInt 301000)
  | Err _ => False
  end.
Proof.
  intros b. destruct (bundle_encode b) as [text|] eqn:E; [|discriminate E].
  assert (Hobj : forall (b : PairingBundle) bytes, to_vec b = Some bytes ->
            exists v, demo_parse bytes = Some v /\ vget "expires_at_ms" v = Some (VInt (b_expires_at_ms b))).
  { intros b' bytes Hb. destruct (json_reads_back (carried := anything) b' I) as (bytes' & E1 & _ & E2).
    rewrite Hb in E1. injection E1 as <-. unfold demo_parse. rewrite E2. eexists. split; reflexivity. }
  destruct (share_shows_window_end demo_parse (fun _ => Err "too large")
    (fun _ => accepted (response_value (success_with_warning text "mDNS is off"))) Hobj
    (success_with_warning text "mDNS is off") b text eq_refl) as [_ H].
  destruct (H eq_refl eq_refl E) as (v & H1 & _ & H3); [split; by vm_compute|].
  exists v. split; [exact H1|]. rewrite H3. reflexivity.
Defined.
