(* ===== verification/Tray.v ===== *)
(** The tray: [apps/desktop/src-tauri/src/tray.rs].

    Every two seconds the desktop loads the fleet snapshot, reads it into [TrayFleetSnapshot] and
    draws one status item per machine: a glyph and a state in the menu bar, a menu of gauges
    behind it. [App] is what the operating system shows: the items, and the menus they share with
    the registry; a menu is an object that is changed in place or replaced. Calls of the platform
    that fail are arguments ([TrayOps]). *)

From Stdlib Require Import Ascii String.
From stdpp Require Import gmap strings.
From S2P Require Import Prelude BTree Float Model Alert Storage Framing Transport Net Persist.
From S2P Require Import Codecs Pairing Mdns Server Remote Fleet Config Json LocalIpc Commands.
From S2P Require Import Preferences Badges Presentation.
Local Open Scope string_scope.
Local Open Scope Z_scope.

Module Tray.

(** ** Snapshots *)

Record TrayTemperature := { tt_label : string; tt_celsius : f64 }.

Record TrayNodeSnapshot := {
  id : string;
  name : string;
  tray_label : string;
  state : string;
  path : string;
  cpu_percent : option f64;
  memory_used_bytes : option Z;
  memory_total_bytes : option Z;
  swap_used_bytes : option Z;
  swap_total_bytes : option Z;
  disk_used_bytes : option Z;
  disk_total_bytes : option Z;
  disk_mount : option string;
  network_received_bytes_per_second : option Z;
  network_sent_bytes_per_second : option Z;
  uptime_seconds : option Z;
  temperature : option TrayTemperature;
  rtt_ms : option Z;
}.

Record TrayFleetSnapshot := { daemon : string; nodes : list TrayNodeSnapshot }.

(** [serde_json::from_value]: required and optional fields by their names in JSON. *)
Definition temperature_of_value (v : Value) : option TrayTemperature :=
  l ← need "label" as_str v; c ← need "celsius" as_f64 v; Some {| tt_label := l; tt_celsius := c |}.

Definition node_of_value (v : Value) : option TrayNodeSnapshot :=
  i ← need "id" as_str v;
  n ← need "name" as_str v;
  tl ← need "trayLabel" as_str v;
  st ← need "state" as_str v;
  p ← need "path" as_str v;
  cpu ← may "cpuPercent" as_f64 v;
  mu ← may "memoryUsedBytes" as_u64 v;
  mt ← may "memoryTotalBytes" as_u64 v;
  su ← may "swapUsedBytes" as_u64 v;
  swt ← may "swapTotalBytes" as_u64 v;
  du ← may "diskUsedBytes" as_u64 v;
  dt ← may "diskTotalBytes" as_u64 v;
  dm ← may "diskMount" as_str v;
  nr ← may "networkReceivedBytesPerSecond" as_u64 v;
  ns ← may "networkSentBytesPerSecond" as_u64 v;
  up ← may "uptimeSeconds" as_u64 v;
  t ← may "temperature" temperature_of_value v;
  rtt ← may "rttMs" as_u64 v;
  Some {| id := i; name := n; tray_label := tl; state := st; path := p; cpu_percent := cpu;
          memory_used_bytes := mu; memory_total_bytes := mt; swap_used_bytes := su;
          swap_total_bytes := swt; disk_used_bytes := du; disk_total_bytes := dt; disk_mount := dm;
          network_received_bytes_per_second := nr; network_sent_bytes_per_second := ns;
          uptime_seconds := up; temperature := t; rtt_ms := rtt |}.

Definition snapshot_of_value (v : Value) : option TrayFleetSnapshot :=
  d ← need "daemon" as_str v;
  l ← need "nodes" as_array v;
  ns ← mapM node_of_value l;
  Some {| daemon := d; nodes := ns |}.

(** ** Labels *)

Definition Color := (Z * Z * Z * Z)%type.

Record TrayGauge := { text : string; fill_basis_points : option Z }.

Record TraySection := {
  header : string;
  color : Color;
  gauges : list TrayGauge;
  link : string;
}.

Record TrayMachineMenu := { title : string; section : TraySection }.

Definition machine_tray_id (node : TrayNodeSnapshot) : string := "machine-" +:+ id node.

Definition NEUTRAL_COLOR : Color := (164, 173, 168, 255).

Definition tray_state_color (state : string) : result Color string :=
  if String.eqb state "healthy" then Ok (84, 217, 139, 255)
  else if str_contains ["warning"; "degraded"] state then Ok (230, 189, 89, 255)
  else if String.eqb state "stale" then Ok NEUTRAL_COLOR
  else if str_contains ["critical"; "offline"; "auth_error"; "incompatible"; "daemon_unavailable"] state
  then Ok (255, 111, 103, 255)
  else Err "Unknown fleet state for tray icon.".

Definition tray_state_symbol (state : string) : string :=
  if String.eqb state "healthy" then "●"
  else if str_contains ["warning"; "degraded"] state then "▲"
  else if String.eqb state "stale" then "◌"
  else if str_contains ["critical"; "offline"; "auth_error"; "incompatible"] state then "✕"
  else "?".

Definition tray_state_label (state : string) : string :=
  if String.eqb state "healthy" then "Healthy"
  else if String.eqb state "warning" then "Warning"
  else if String.eqb state "stale" then "Stale"
  else if String.eqb state "critical" then "Critical"
  else if String.eqb state "offline" then "Offline"
  else if String.eqb state "auth_error" then "Authentication error"
  else if String.eqb state "incompatible" then "Incompatible agent"
  else if String.eqb state "daemon_unavailable" then "Agent unavailable"
  else "Degraded".

Definition known_path_label (path : string) : option string :=
  if String.eqb path "lan_direct" then Some "LAN direct"
  else if String.eqb path "wan_direct" then Some "WAN direct"
  else if String.eqb path "relayed" then Some "Relayed"
  else None.

Definition percentage_label (value : option f64) : string :=
  match value with Some x => format_fixed 0 x +:+ "%" | None => "—" end.

(** [f64::clamp], and [f64::round] (halves away from zero) with the saturating cast to [u16]. *)
Definition f64_clamp (lo hi x : f64) : f64 :=
  if SpecFloat.SFltb x lo then lo else if SpecFloat.SFltb hi x then hi else x.

Definition round_u16 (x : f64) : Z :=
  match x with
  | SpecFloat.S754_finite s m e =>
      let r := if 0 <=? e then Zpos m * 2 ^ e else (2 * Zpos m + 2 ^ (- e)) / (2 * 2 ^ (- e)) in
      if s then 0 else Z.min r u16_max
  | SpecFloat.S754_infinity false => u16_max
  | _ => 0
  end.

Definition scale_basis_points (value : f64) : Z :=
  round_u16 (f64_mul (f64_clamp (f64_of_Z 0) (f64_of_Z 100) value) (f64_of_Z 100)).

Definition percent_basis_points (value : option f64) : option Z := scale_basis_points <$> value.

Definition ratio_basis_points (used total : option Z) : option Z :=
  match used, total with
  | Some used, Some total =>
      if 0 <? total then
        let bp := Z.min (default 0 (checked_div (sat_mul u64_max used 10000) total)) 10000 in
        Some (default 10000 (try_from_u u16_max bp))
      else None
  | _, _ => None
  end.

Definition basis_points_label (bp : option Z) : string :=
  match bp with
  | Some bp => format_fixed 0 (f64_div (f64_of_Z bp) (f64_of_Z 100)) +:+ "%"
  | None => "—"
  end.

Definition memory_percentage_label (n : TrayNodeSnapshot) : string :=
  basis_points_label (ratio_basis_points (memory_used_bytes n) (memory_total_bytes n)).
Definition swap_percentage_label (n : TrayNodeSnapshot) : string :=
  basis_points_label (ratio_basis_points (swap_used_bytes n) (swap_total_bytes n)).
Definition disk_percentage_label (n : TrayNodeSnapshot) : string :=
  basis_points_label (ratio_basis_points (disk_used_bytes n) (disk_total_bytes n)).

Definition UNITS : list string := ["B"; "KiB"; "MiB"; "GiB"; "TiB"].

(** The loop of [byte_label]: at most one step per unit. *)
Fixpoint byte_units (steps : nat) (value remainder : Z) (unit : nat) : Z * Z * nat :=
  match steps with
  | O => (value, remainder, unit)
  | S steps =>
      if (1024 <=? value) && (unit + 1 <? length UNITS)%nat
      then byte_units steps (value / 1024) (value mod 1024) (unit + 1)
      else (value, remainder, unit)
  end.

Definition byte_label (bytes : Z) : string :=
  let '(value, remainder, unit) := byte_units (length UNITS) bytes 0 0 in
  let name := nth unit UNITS "" in
  if (1 <? unit)%nat then
    let tenths := (remainder * 10 + 512) / 1024 in
    let '(value, tenths) := if 10 <=? tenths then (value + 1, 0) else (value, tenths) in
    dec value +:+ "." +:+ dec tenths +:+ " " +:+ name
  else
    let value := if 1024 <=? remainder * 2 then value + 1 else value in
    dec value +:+ " " +:+ name.

Definition rate_label (rate : option Z) : string :=
  match rate with Some r => byte_label r +:+ "/s" | None => "—" end.

Definition network_label (n : TrayNodeSnapshot) : string :=
  match network_received_bytes_per_second n, network_sent_bytes_per_second n with
  | None, None => "—"
  | received, sent => "↓" +:+ rate_label received +:+ " ↑" +:+ rate_label sent
  end.

Definition uptime_label (seconds : option Z) : string :=
  match seconds with
  | None => "—"
  | Some seconds =>
      let days := seconds / 86400 in
      let hours := seconds mod 86400 / 3600 in
      let minutes := seconds mod 3600 / 60 in
      if 0 <? days then dec days +:+ "d " +:+ dec hours +:+ "h"
      else if 0 <? hours then dec hours +:+ "h " +:+ dec minutes +:+ "m"
      else if 0 <? minutes then dec minutes +:+ "m " +:+ dec (seconds mod 60) +:+ "s"
      else dec seconds +:+ "s"
  end.

Definition swap_gauge (n : TrayNodeSnapshot) : TrayGauge :=
  {| text := match swap_used_bytes n, swap_total_bytes n with
             | _, Some 0 => "Swap none"
             | Some _, Some _ => "Swap " +:+ swap_percentage_label n
             | _, _ => "Swap —"
             end;
     fill_basis_points := ratio_basis_points (swap_used_bytes n) (swap_total_bytes n) |}.

Definition temperature_gauge (n : TrayNodeSnapshot) : TrayGauge :=
  match temperature n with
  | None => {| text := "Temperature —"; fill_basis_points := None |}
  | Some t =>
      {| text := "Temperature " +:+ format_fixed 0 (tt_celsius t) +:+ " °C " +:+ tt_label t;
         fill_basis_points := Some (scale_basis_points (tt_celsius t)) |}
  end.

Definition link_label (n : TrayNodeSnapshot) : string :=
  let parts := (match known_path_label (path n) with Some p => [p] | None => [] end ++
                match rtt_ms n with Some r => ["RTT " +:+ dec r +:+ " ms"] | None => [] end)%list in
  match parts with [] => "—" | _ => join " · " parts end.

Definition tray_node_status (n : TrayNodeSnapshot) : string :=
  tray_label n +:+ " " +:+ tray_state_symbol (state n).

Definition tray_machine_menu (n : TrayNodeSnapshot) : TrayMachineMenu :=
  {| title := name n +:+ " · " +:+ tray_state_label (state n) +:+ " · CPU " +:+
              percentage_label (cpu_percent n) +:+ " · Memory " +:+ memory_percentage_label n;
     section :=
       {| header := tray_state_symbol (state n) +:+ " " +:+ name n +:+ " — " +:+ tray_state_label (state n);
          color := match tray_state_color (state n) with Ok c => c | Err _ => NEUTRAL_COLOR end;
          gauges :=
            [{| text := "CPU " +:+ percentage_label (cpu_percent n);
                fill_basis_points := percent_basis_points (cpu_percent n) |};
             {| text := "Memory " +:+ memory_percentage_label n;
                fill_basis_points := ratio_basis_points (memory_used_bytes n) (memory_total_bytes n) |};
             swap_gauge n;
             {| text := match disk_mount n with
                        | Some mount => "Disk " +:+ disk_percentage_label n +:+ " " +:+ mount
                        | None => "Disk " +:+ disk_percentage_label n
                        end;
                fill_basis_points := ratio_basis_points (disk_used_bytes n) (disk_total_bytes n) |};
             temperature_gauge n;
             {| text := "Net " +:+ network_label n; fill_basis_points := None |};
             {| text := "Uptime " +:+ uptime_label (uptime_seconds n); fill_basis_points := None |}];
          link := link_label n |} |}.

Definition fleet_tray_sections (nodes : list TrayNodeSnapshot) : list TraySection :=
  map (fun n => section (tray_machine_menu n)) nodes.

Definition status_section (message : string) : TraySection :=
  {| header := message; color := NEUTRAL_COLOR;
     gauges := map (fun t => {| text := t; fill_basis_points := None |})
                 ["CPU —"; "Memory —"; "Disk —"; "Temperature —"];
     link := "—" |}.

(** ** Images *)

Definition pixel (c : Color) : list Z := let '(r, g, b, a) := c in [r; g; b; a].

(** An image of this width and height, row by row. *)
Definition image (width height : nat) (color_at : Z -> Z -> Color) : list Z :=
  flat_map (fun y => flat_map (fun x => pixel (color_at (Z.of_nat x) (Z.of_nat y))) (seq 0 width))
    (seq 0 height).

Definition state_icon (c : Color) : list Z :=
  image 22 22 (fun x y => if (x - 10) * (x - 10) + (y - 10) * (y - 10) <=? 49 then c else (0, 0, 0, 0)).

Definition GAUGE_WIDTH : Z := 56.
Definition GAUGE_HEIGHT : Z := 10.

Definition gauge_fill_width (basis_points : Z) : Z := Z.min basis_points 10000 * GAUGE_WIDTH / 10000.

Definition TRACK : Color := (127, 127, 127, 56).

Definition gauge_icon (basis_points : Z) (c : Color) : list Z :=
  image (Z.to_nat GAUGE_WIDTH) (Z.to_nat GAUGE_HEIGHT)
    (fun x _ => if x <? gauge_fill_width basis_points then c else TRACK).

Definition gauge_image (g : TrayGauge) (c : Color) : option (list Z) :=
  (fun bp => gauge_icon bp c) <$> fill_basis_points g.

(** ** Status items *)

Record TrayItem := {
  t_icon : Color;
  t_title : string;
  t_tooltip : string;
  t_menu : nat;
}.

(** What the items of a menu show: a gauge row its text and its image, whatever they were made of. *)
Record GaugeItem := { shown_text : string; shown_image : option (list Z) }.

Record TraySectionItems := {
  submenu_text : string;
  gauge_items : list GaugeItem;
  link_text : string;
}.

(** The items on screen, the menu objects by their handle, and [TrayRegistry]. *)
Record App := {
  trays : gmap string TrayItem;
  menu_objects : gmap nat (list TraySectionItems);
  next_menu : nat;
  menus : gmap string nat;
  machine_ids : gset string;
}.

(** The writes onto the rows of a section. *)
Inductive RowCall :=
  | SetHeader
  | SetGaugeText (gauge : nat)
  | SetGaugeIcon (gauge : nat)
  | SetLink.

(** Which calls of the platform succeed while one item is drawn; the writes onto the rows of a menu
    by their section. *)
Record TrayOps := {
  o_icon : bool;
  o_title : bool;
  o_tooltip : bool;
  o_template : bool;
  o_menu : bool;
  o_set_menu : bool;
  o_build : bool;
  o_row : nat -> RowCall -> bool;
}.

Definition with_trays (t : gmap string TrayItem) (a : App) : App :=
  {| trays := t; menu_objects := menu_objects a; next_menu := next_menu a; menus := menus a;
     machine_ids := machine_ids a |}.

Definition with_ids (ids : gset string) (a : App) : App :=
  {| trays := trays a; menu_objects := menu_objects a; next_menu := next_menu a; menus := menus a;
     machine_ids := ids |}.

(** The rows a section is built with. *)
Definition section_items (s : TraySection) : TraySectionItems :=
  {| submenu_text := header s;
     gauge_items := map (fun g => {| shown_text := text g; shown_image := gauge_image g (color s) |}) (gauges s);
     link_text := link s |}.

(** [tray_menu]: a new menu object with these rows. *)
Definition tray_menu (sections : list TraySection) (a : App) : App * nat :=
  ({| trays := trays a; menu_objects := <[next_menu a := map section_items sections]> (menu_objects a);
      next_menu := S (next_menu a); menus := menus a; machine_ids := machine_ids a |}, next_menu a).

Definition same_shape (items : list TraySectionItems) (sections : list TraySection) : bool :=
  (length items =? length sections)%nat &&
  forallb (fun '(o, n) => (length (gauge_items o) =? length (gauges n))%nat) (combine items sections).

(** Write the new texts and images onto the rows of a menu. A write that fails leaves what the row
    showed, and the next one is made all the same. *)
Definition rewrite_gauges (ok : RowCall -> bool) (c : Color) (items : list GaugeItem) (new : list TrayGauge)
  : list GaugeItem :=
  imap (fun k '(item, g) =>
          {| shown_text := if ok (SetGaugeText k) then text g else shown_text item;
             shown_image := if ok (SetGaugeIcon k) then gauge_image g c else shown_image item |})
    (combine items new).

Definition rewrite_rows (ok : nat -> RowCall -> bool) (items : list TraySectionItems) (sections : list TraySection)
  : list TraySectionItems :=
  imap (fun k '(o, n) =>
          {| submenu_text := if ok k SetHeader then header n else submenu_text o;
             gauge_items := rewrite_gauges (ok k) (color n) (gauge_items o) (gauges n);
             link_text := if ok k SetLink then link n else link_text o |})
    (combine items sections).

Definition update_tray_menu (ops : TrayOps) (menu : nat) (sections : list TraySection) (a : App) : App * bool :=
  match menu_objects a !! menu with
  | Some items =>
      if same_shape items sections then
        ({| trays := trays a; menu_objects := <[menu := rewrite_rows (o_row ops) items sections]> (menu_objects a);
            next_menu := next_menu a; menus := menus a; machine_ids := machine_ids a |}, true)
      else (a, false)
  | None => (a, false)
  end.

(** [tray.set_menu], then [menus.insert]. *)
Definition adopt_menu (i : string) (item : TrayItem) (menu : nat) (a : App) : App :=
  {| trays := <[i := {| t_icon := t_icon item; t_title := t_title item; t_tooltip := t_tooltip item;
                        t_menu := menu |}]> (trays a);
     menu_objects := menu_objects a; next_menu := next_menu a; menus := <[i := menu]> (menus a);
     machine_ids := machine_ids a |}.

Definition upsert_tray (ops : TrayOps) (i state title tooltip : string) (sections : list TraySection)
    (a : App) : App * result unit string :=
  match tray_state_color state with
  | Err e => (a, Err e)
  | Ok c =>
      match trays a !! i with
      | Some item =>
          let put t a := with_trays (<[i := t]> (trays a)) a in
          if negb (o_icon ops) then (a, Err "Could not update the tray icon")
          else
            let item := {| t_icon := c; t_title := t_title item; t_tooltip := t_tooltip item;
                           t_menu := t_menu item |} in
            let a := put item a in
            if negb (o_title ops) then (a, Err "Could not update the tray title")
            else
              let item := {| t_icon := c; t_title := title; t_tooltip := t_tooltip item;
                             t_menu := t_menu item |} in
              let a := put item a in
              if negb (o_tooltip ops) then (a, Err "Could not update the tray tooltip")
              else
                let item := {| t_icon := c; t_title := title; t_tooltip := tooltip;
                               t_menu := t_menu item |} in
                let a := put item a in
                if negb (o_template ops) then (a, Err "Could not configure the tray icon")
                else
                  let '(a, updated_in_place) :=
                    match menus a !! i with
                    | Some menu => update_tray_menu ops menu sections a
                    | None => (a, false)
                    end in
                  if updated_in_place then (a, Ok tt)
                  else if negb (o_menu ops) then (a, Err "Could not build tray menu")
                  else
                    let '(a, menu) := tray_menu sections a in
                    if negb (o_set_menu ops) then (a, Err "Could not update the tray menu")
                    else (adopt_menu i item menu a, Ok tt)
      | None =>
          if negb (o_menu ops) then (a, Err "Could not build tray menu")
          else
            let '(a, menu) := tray_menu sections a in
            if negb (o_build ops) then (a, Err ("Could not create tray icon " +:+ i))
            else (adopt_menu i {| t_icon := c; t_title := title; t_tooltip := tooltip; t_menu := menu |}
                    menu a, Ok tt)
      end
  end.

Inductive TrayUpdate :=
  | DrawStatus (state message : string)
  | DrawMachines (nodes : list TrayNodeSnapshot).

(** What a poll finds; [loaded] is [load_fleet_snapshot]. *)
Definition tray_update (loaded : result Value string) : TrayUpdate :=
  match loaded with
  | Err _ => DrawStatus "daemon_unavailable" "Agent unavailable"
  | Ok value =>
      match snapshot_of_value value with
      | None => DrawStatus "degraded" "Invalid agent snapshot"
      | Some snapshot =>
          if String.eqb (daemon snapshot) "connected" then
            match nodes snapshot with
            | [] => DrawStatus "warning" "No paired machines"
            | nodes => DrawMachines nodes
            end
          else DrawStatus "degraded" "Invalid agent snapshot"
      end
  end.

Section Updates.
Context (ops : string -> TrayOps).

Definition STATUS : string := "rackio-status".

Definition draw_status (state message i : string) (a : App) : App * result unit string :=
  upsert_tray (ops i) i state message message [status_section message] a.

Definition update_status_tray (state message : string) (a : App) : App :=
  if decide (machine_ids a = ∅) then
    match draw_status state message STATUS a with
    | (a, Ok _) => with_ids ({[STATUS]} ∪ machine_ids a) a
    | (a, Err _) => a
    end
  else fold_left (fun a i => fst (draw_status state message i a)) (elements (machine_ids a)) a.

(** The item of the machine at this index. *)
Definition item_id (status_slot : bool) (index : nat) (n : TrayNodeSnapshot) : string :=
  if (index =? 0)%nat && status_slot then STATUS else machine_tray_id n.

Definition item_sections (nodes : list TrayNodeSnapshot) (index : nat) (n : TrayNodeSnapshot)
  : list TraySection :=
  if (index =? 0)%nat then fleet_tray_sections nodes else [section (tray_machine_menu n)].

Definition draw_machine (status_slot : bool) (nodes : list TrayNodeSnapshot) (a : App)
    (entry : nat * TrayNodeSnapshot) : App :=
  let '(index, n) := entry in
  let i := item_id status_slot index n in
  fst (upsert_tray (ops i) i (state n) (tray_node_status n) (title (tray_machine_menu n))
         (item_sections nodes index n) a).

Definition indexed (nodes : list TrayNodeSnapshot) : list (nat * TrayNodeSnapshot) :=
  combine (seq 0 (length nodes)) nodes.

Definition retired_tray_ids (registered active : gset string) : gset string := registered ∖ active.

Definition retire (a : App) (i : string) : App :=
  {| trays := delete i (trays a); menu_objects := menu_objects a; next_menu := next_menu a;
     menus := delete i (menus a); machine_ids := machine_ids a |}.

Definition status_slot_of (a : App) : bool :=
  bool_decide (STATUS ∈ machine_ids a) && bool_decide (is_Some (trays a !! STATUS)).

Definition active_ids (status_slot : bool) (nodes : list TrayNodeSnapshot) : gset string :=
  list_to_set (map (fun '(index, n) => item_id status_slot index n) (indexed nodes)).

Definition update_machine_trays (nodes : list TrayNodeSnapshot) (a : App) : App :=
  let registered := machine_ids a in
  let status_slot := status_slot_of a in
  let a := fold_left (draw_machine status_slot nodes) (indexed nodes) a in
  let active := active_ids status_slot nodes in
  let a := fold_left retire (elements (retired_tray_ids registered active)) a in
  with_ids active a.

(** What a poll hands to the main thread. *)
Definition draw_update (u : TrayUpdate) (a : App) : App :=
  match u with
  | DrawStatus state message => update_status_tray state message a
  | DrawMachines nodes => update_machine_trays nodes a
  end.

(** What one poll of the daemon does to the items, once the main thread draws it. *)
Definition update_tray_from_daemon (loaded : result Value string) (a : App) : App :=
  draw_update (tray_update loaded) a.

End Updates.

(** The polls of [run_tray_monitor], each with what the platform and the daemon do. *)
Definition run_tray_monitor (polls : list ((string -> TrayOps) * result Value string)) (a : App) : App :=
  fold_left (fun a '(ops, loaded) => update_tray_from_daemon ops loaded a) polls a.

Definition app_start : App :=
  {| trays := ∅; menu_objects := ∅; next_menu := 0; menus := ∅; machine_ids := ∅ |}.


(** ** Menus are shared with the registry and with nothing else *)

Record menus_ok (a : App) : Prop := {
  mo_shared i t : trays a !! i = Some t ->
    menus a !! i = Some (t_menu t) /\ is_Some (menu_objects a !! t_menu t);
  mo_own i j t u : trays a !! i = Some t -> trays a !! j = Some u -> t_menu t = t_menu u -> i = j;
  mo_fresh m : is_Some (menu_objects a !! m) -> (m < next_menu a)%nat;
}.

(** Two lists of the same length, of which only the second is kept. *)
Lemma imap_combine {A B C} (f : nat -> A -> B -> C) (g : B -> C) xs ys :
  length xs = length ys -> (forall k x y, In (x, y) (combine xs ys) -> f k x y = g y) ->
  imap (fun k '(x, y) => f k x y) (combine xs ys) = map g ys.
Proof.
  revert f ys. induction xs as [|x xs IH]; intros f [|y ys]; try done. cbn [length combine]. intros [= Hl] Hf.
  rewrite imap_cons. cbn [map]. f_equal; [apply Hf; by left|]. apply (IH (fun k => f (S k))); [done|].
  intros k u v Hin. apply Hf. by right.
Qed.

(** When every write succeeds, the rows are those a new menu would have. *)
Lemma rewrite_gauges_same ok c items new :
  (forall call, ok call = true) -> length items = length new ->
  rewrite_gauges ok c items new = map (fun g => {| shown_text := text g; shown_image := gauge_image g c |}) new.
Proof. intros Hok Hl. apply imap_combine; [done|]. intros k x y _. by rewrite !Hok. Qed.

Lemma rewrite_rows_same ok items sections :
  (forall k call, ok k call = true) -> same_shape items sections = true ->
  rewrite_rows ok items sections = map section_items sections.
Proof.
  intros Hok [Hl Hg]%andb_true_iff. apply Nat.eqb_eq in Hl. apply imap_combine; [done|].
  intros k o n Hin. rewrite forallb_forall in Hg. specialize (Hg _ Hin). apply Nat.eqb_eq in Hg.
  by rewrite !Hok, rewrite_gauges_same.
Qed.

(** Redraw the item of [i] without touching its menu. *)
Lemma put_menus_ok a i t t' :
  menus_ok a -> trays a !! i = Some t -> t_menu t' = t_menu t ->
  menus_ok (with_trays (<[i := t']> (trays a)) a).
Proof.
  intros [H1 H2 H3] Hi Hm. split; cbn [with_trays trays menus menu_objects next_menu].
  - intros j u. rewrite lookup_insert. case_decide as E; [|apply H1]. intros [= <-]. subst j. rewrite Hm.
    by apply H1.
  - intros j k u v. rewrite !lookup_insert. case_decide as E1; case_decide as E2; try congruence.
    + intros [= <-] Hk. rewrite Hm. subst. intros E. by apply (H2 _ _ t v).
    + intros Hj [= <-]. rewrite Hm. subst. intros E. by apply (H2 _ _ u t).
    + apply H2.
  - exact H3.
Qed.

Lemma tray_menu_ok a sections :
  menus_ok a -> menus_ok (fst (tray_menu sections a)).
Proof.
  intros [H1 H2 H3]. split; cbn [tray_menu fst trays menus menu_objects next_menu].
  - intros i t Hi. destruct (H1 i t Hi) as [Hm Ho]. split; [done|].
    rewrite lookup_insert. case_decide; [by eexists|done].
  - exact H2.
  - intros m. rewrite lookup_insert. case_decide; [lia|]. intros Hm. specialize (H3 m Hm). lia.
Qed.

(** Give [i] a menu nobody has. *)
Lemma adopt_menu_ok a i item m sections :
  menus_ok a -> menu_objects a !! m = Some sections ->
  (forall j t, trays a !! j = Some t -> t_menu t <> m) -> menus_ok (adopt_menu i item m a).
Proof.
  intros [H1 H2 H3] Hm Hn. split; cbn [adopt_menu trays menus menu_objects next_menu].
  - intros j u. rewrite lookup_insert. case_decide as E.
    + intros [= <-]. subst j. cbn [t_menu]. rewrite lookup_insert_eq, Hm. eauto.
    + intros Hj. rewrite lookup_insert_ne by done. by apply H1.
  - intros j k u v. rewrite !lookup_insert. case_decide as E1; case_decide as E2; try congruence.
    + intros [= <-] Hk. cbn [t_menu]. intros E. by destruct (Hn _ _ Hk).
    + intros Hj [= <-]. cbn [t_menu]. intros E. by destruct (Hn _ _ Hj).
    + apply H2.
  - exact H3.
Qed.

Lemma rows_menus_ok a m rows old :
  menus_ok a -> menu_objects a !! m = Some old ->
  menus_ok {| trays := trays a; menu_objects := <[m := rows]> (menu_objects a); next_menu := next_menu a;
              menus := menus a; machine_ids := machine_ids a |}.
Proof.
  intros [H1 H2 H3] Hm. split; cbn [trays menus menu_objects next_menu].
  - intros i t Hi. destruct (H1 i t Hi) as [Hr Ho]. split; [done|].
    rewrite lookup_insert. case_decide; [by eexists|done].
  - exact H2.
  - intros k. rewrite lookup_insert. case_decide as E; [|apply H3]. intros _. subst k. apply H3. by rewrite Hm.
Qed.

(** Every write onto the rows of a menu succeeds. *)
Definition rows_work (o : TrayOps) : Prop := forall k call, o_row o k call = true.

(** What drawing the item [i] does, whatever fails. *)
Record drawn (ops : TrayOps) (i state title tooltip : string) (sections : list TraySection) (a a' : App)
    (r : result unit string) : Prop := {
  dr_menus : menus_ok a';
  dr_ids : machine_ids a' = machine_ids a;
  dr_others j : j <> i -> trays a' !! j = trays a !! j;
  dr_other_rows j t : j <> i -> trays a !! j = Some t ->
    menu_objects a' !! t_menu t = menu_objects a !! t_menu t;
  dr_absent e : trays a !! i = None -> r = Err e -> trays a' !! i = None;
  dr_shown : r = Ok tt ->
    exists t, trays a' !! i = Some t /\ tray_state_color state = Ok (t_icon t) /\ t_title t = title /\
      t_tooltip t = tooltip /\
      (rows_work ops -> menu_objects a' !! t_menu t = Some (map section_items sections));
  dr_kept t old : trays a !! i = Some t -> menu_objects a !! t_menu t = Some old ->
    same_shape old sections = true -> r = Ok tt ->
    exists t', trays a' !! i = Some t' /\ t_menu t' = t_menu t;
}.

Lemma drawn_failed ops i st ti tp secs a t' e :
  menus_ok a -> (forall t, trays a !! i = Some t -> t_menu t' = t_menu t) ->
  drawn ops i st ti tp secs a
    match trays a !! i with Some _ => with_trays (<[i := t']> (trays a)) a | None => a end (Err e).
Proof.
  intros Ha Ht. destruct (trays a !! i) as [t|] eqn:Hi; split; try done.
  - by eapply put_menus_ok; [| |apply Ht].
  - intros j Hj. cbn [with_trays trays]. by rewrite lookup_insert_ne by done.
  - congruence.
Qed.

Lemma menu_unused a t j : menus_ok a -> trays a !! j = Some t -> t_menu t <> next_menu a.
Proof. intros Ha Hj E. destruct (mo_shared a Ha j t Hj) as [_ Ho]. apply (mo_fresh a Ha) in Ho. lia. Qed.

(** A new menu built for [i] that did not reach it. *)
Lemma drawn_menu_lost ops i st ti tp secs a a1 e :
  drawn ops i st ti tp secs a a1 (Err e) ->
  (forall j t, j <> i -> trays a !! j = Some t -> t_menu t <> next_menu a1) ->
  drawn ops i st ti tp secs a (fst (tray_menu secs a1)) (Err e).
Proof.
  intros [D1 D2 D3 D4 D5 _ _] Hn. split; try done.
  - by apply tray_menu_ok.
  - intros j t Hj Ht. cbn [tray_menu fst menu_objects]. rewrite lookup_insert_ne by (intros E; exact (Hn j t Hj Ht (eq_sym E))).
    by apply (D4 j).
Qed.

(** A new menu adopted by [i]. *)
Lemma drawn_new_menu ops i st ti tp secs a a1 c e :
  tray_state_color st = Ok c ->
  drawn ops i st ti tp secs a a1 (Err e) ->
  (forall t old, trays a !! i = Some t -> menu_objects a !! t_menu t = Some old ->
     same_shape old secs = false) ->
  drawn ops i st ti tp secs a
    (adopt_menu i {| t_icon := c; t_title := ti; t_tooltip := tp; t_menu := next_menu a1 |}
       (next_menu a1) (fst (tray_menu secs a1))) (Ok tt).
Proof.
  intros Hc D Hs. pose proof (dr_menus _ _ _ _ _ _ _ _ _ D) as Ha1.
  assert (Hn : forall j t, j <> i -> trays a !! j = Some t -> t_menu t <> next_menu a1).
  { intros j t Hj Ht. rewrite <- (dr_others _ _ _ _ _ _ _ _ _ D j Hj) in Ht. by apply (menu_unused _ t j). }
  destruct (drawn_menu_lost _ _ _ _ _ _ _ _ _ D Hn) as [D1 D2 D3 D4 _ _ _]. split.
  - eapply adopt_menu_ok; [done| |].
    + cbn [tray_menu fst menu_objects]. apply lookup_insert_eq.
    + intros j t Ht. cbn [tray_menu fst trays] in Ht. by apply (menu_unused _ t j).
  - exact D2.
  - intros j Hj. cbn [adopt_menu trays]. rewrite lookup_insert_ne by done. by apply D3.
  - intros j t Hj Ht. by apply (D4 j t Hj Ht).
  - done.
  - intros _. eexists. cbn [adopt_menu trays tray_menu fst menu_objects].
    split; [apply lookup_insert_eq|]. cbn [t_icon t_title t_tooltip t_menu]. do 3 (split; [done|]).
    intros _. apply lookup_insert_eq.
  - intros t old Ht Ho Hsame. rewrite (Hs t old Ht Ho) in Hsame. done.
Qed.

(** The menu [i] has, rewritten in place. *)
Lemma drawn_in_place ops i st ti tp secs a c item old :
  menus_ok a -> tray_state_color st = Ok c -> trays a !! i = Some item ->
  menu_objects a !! t_menu item = Some old -> same_shape old secs = true ->
  let item' := {| t_icon := c; t_title := ti; t_tooltip := tp; t_menu := t_menu item |} in
  drawn ops i st ti tp secs a
    {| trays := <[i := item']> (trays a); menu_objects := <[t_menu item := rewrite_rows (o_row ops) old secs]> (menu_objects a);
       next_menu := next_menu a; menus := menus a; machine_ids := machine_ids a |} (Ok tt).
Proof.
  intros Ha Hc Hi Ho Hsame item'. split; cbn [trays menu_objects machine_ids]; try done.
  - refine (rows_menus_ok (with_trays (<[i := item']> (trays a)) a) (t_menu item) _ old _ Ho).
    by apply (put_menus_ok _ _ item).
  - intros j Hj. by rewrite lookup_insert_ne by done.
  - intros j t Hj Ht. rewrite lookup_insert_ne; [done|]. intros E. apply Hj.
    by apply (mo_own a Ha j i t item).
  - intros _. exists item'. rewrite !lookup_insert_eq. do 4 (split; [done|]). intros Hw.
    by rewrite (rewrite_rows_same _ _ _ Hw Hsame).
  - intros t o Ht _ _ _. rewrite Hi in Ht. injection Ht as <-. exists item'. by rewrite lookup_insert_eq.
Qed.

Lemma with_trays_twice t u a : with_trays t (with_trays u a) = with_trays t a.
Proof. done. Qed.

Lemma upsert_drawn ops i st ti tp secs a :
  menus_ok a ->
  let '(a', r) := upsert_tray ops i st ti tp secs a in drawn ops i st ti tp secs a a' r.
Proof.
  intros Ha. unfold upsert_tray. destruct (tray_state_color st) as [c|e] eqn:Hc.
  2:{ by split; try done. }
  destruct (trays a !! i) as [item|] eqn:Hi.
  2:{ assert (D0 : forall e, drawn ops i st ti tp secs a a (Err e)) by (intros; by split).
      destruct (o_menu ops); cbn [negb]; [|apply D0].
      pose proof (drawn_menu_lost ops i st ti tp secs a a) as L. cbn [tray_menu fst] in L.
      destruct (o_build ops); cbn [negb tray_menu].
      - pose proof (drawn_new_menu ops i st ti tp secs a a c "" Hc (D0 "")) as N. cbn [tray_menu fst] in N.
        apply N. intros t old Ht. congruence.
      - apply L; [apply D0|]. intros j t _ Ht. by apply (menu_unused _ t j). }
  assert (Put : forall t' e, t_menu t' = t_menu item ->
            drawn ops i st ti tp secs a (with_trays (<[i := t']> (trays a)) a) (Err e)).
  { intros t' e Ht. pose proof (drawn_failed ops i st ti tp secs a t' e Ha) as D. rewrite Hi in D. apply D.
    by intros t [= <-]. }
  destruct (mo_shared a Ha i item Hi) as [Hreg [old Hold]].
  destruct (o_icon ops); cbn [negb]; [|by split].
  destruct (o_title ops); cbn [negb]; [|by apply Put].
  rewrite !with_trays_twice. cbn [t_title t_tooltip t_menu with_trays trays]. rewrite ?insert_insert_eq.
  destruct (o_tooltip ops); cbn [negb]; [|by apply Put].
  destruct (o_template ops); cbn [negb]; [|by apply Put].
  cbn [with_trays menus t_title t_tooltip t_menu]. rewrite ?insert_insert_eq, Hreg.
  set (item' := {| t_icon := c; t_title := ti; t_tooltip := tp; t_menu := t_menu item |}).
  fold (with_trays (<[i := item']> (trays a)) a).
  set (a1 := with_trays (<[i := item']> (trays a)) a).
  assert (D1 : forall e, drawn ops i st ti tp secs a a1 (Err e)) by (intros e; by apply Put).
  unfold update_tray_menu. change (menu_objects a1) with (menu_objects a). rewrite Hold.
  destruct (same_shape old secs) eqn:Hs.
  - exact (drawn_in_place ops i st ti tp secs a c item old Ha Hc Hi Hold Hs).
  - destruct (o_menu ops); cbn [negb]; [|apply D1].
    pose proof (drawn_new_menu ops i st ti tp secs a a1 c "" Hc (D1 "")) as N.
    destruct (o_set_menu ops); cbn [negb tray_menu].
    + apply N. intros t o Ht Ho. rewrite Hi in Ht. injection Ht as <-. congruence.
    + apply (drawn_menu_lost ops i st ti tp secs a a1); [apply D1|]. intros j t Hj Ht.
      apply (menu_unused a1 t j); [apply (D1 "")|]. by rewrite (dr_others _ _ _ _ _ _ _ _ _ (D1 "") j Hj).
Qed.

(** The calls of the platform all succeed. *)
Definition works (o : TrayOps) : Prop :=
  o_icon o = true /\ o_title o = true /\ o_tooltip o = true /\ o_template o = true /\
  o_menu o = true /\ o_set_menu o = true /\ o_build o = true /\ rows_work o.

Lemma upsert_succeeds ops i st ti tp secs a c :
  works ops -> tray_state_color st = Ok c -> snd (upsert_tray ops i st ti tp secs a) = Ok tt.
Proof.
  intros (H1 & H2 & H3 & H4 & H5 & H6 & H7 & _) Hc. unfold upsert_tray. rewrite Hc, H1, H2, H3, H4, H5, H6, H7.
  cbn [negb]. destruct (trays a !! i); [|done].
  destruct (match menus _ !! i with Some menu => _ | None => _ end) as [a2 []]; done.
Qed.

Definition is_Ok {A E} (r : result A E) : Prop := exists a, r = Ok a.

(** ** Drawing several items *)

Record Draw := {
  d_id : string;
  d_state : string;
  d_title : string;
  d_tooltip : string;
  d_sections : list TraySection;
}.

Section Drawing.
Context (ops : string -> TrayOps).

Definition draw (a : App) (d : Draw) : App :=
  fst (upsert_tray (ops (d_id d)) (d_id d) (d_state d) (d_title d) (d_tooltip d) (d_sections d) a).

(** The item of [d] is on screen as [d] says. *)
Definition shows (d : Draw) (a : App) : Prop :=
  exists t, trays a !! d_id d = Some t /\ tray_state_color (d_state d) = Ok (t_icon t) /\
    t_title t = d_title d /\ t_tooltip t = d_tooltip d /\
    menu_objects a !! t_menu t = Some (map section_items (d_sections d)).

Lemma draw_drawn d a :
  menus_ok a -> exists r, drawn (ops (d_id d)) (d_id d) (d_state d) (d_title d) (d_tooltip d) (d_sections d) a (draw a d) r /\
                 r = snd (upsert_tray (ops (d_id d)) (d_id d) (d_state d) (d_title d) (d_tooltip d) (d_sections d) a).
Proof.
  intros Ha. pose proof (upsert_drawn (ops (d_id d)) (d_id d) (d_state d) (d_title d) (d_tooltip d) (d_sections d) a Ha) as D.
  unfold draw. destruct (upsert_tray _ _ _ _ _ _ a) as [a' r]. by exists r.
Qed.

Lemma draw_all l a :
  menus_ok a ->
  let a' := fold_left draw l a in
  menus_ok a' /\ machine_ids a' = machine_ids a /\
  (forall j, ~ In j (map d_id l) -> trays a' !! j = trays a !! j) /\
  (forall j, ~ In j (map d_id l) -> forall t, trays a !! j = Some t ->
     menu_objects a' !! t_menu t = menu_objects a !! t_menu t).
Proof.
  revert a. induction l as [|d l IH]; intros a Ha; [done|]. cbn [fold_left map].
  destruct (draw_drawn d a Ha) as (r & D & _). destruct (IH (draw a d)) as (H1 & H2 & H3 & H4); [apply D|].
  split; [done|]. split; [by rewrite H2; apply D|]. split.
  - intros j Hj. rewrite H3 by (intros Hin; apply Hj; by right).
    apply (dr_others _ _ _ _ _ _ _ _ _ D). intros ->. apply Hj. by left.
  - intros j Hj t Ht. assert (j <> d_id d) by (intros ->; apply Hj; by left).
    rewrite <- (dr_other_rows _ _ _ _ _ _ _ _ _ D j t) by done. apply (H4 j); [intros Hin; apply Hj; by right|].
    by rewrite (dr_others _ _ _ _ _ _ _ _ _ D).
Qed.

Lemma draw_all_shown l a :
  menus_ok a -> NoDup (map d_id l) ->
  Forall (fun d => works (ops (d_id d)) /\ is_Ok (tray_state_color (d_state d))) l ->
  Forall (fun d => shows d (fold_left draw l a)) l.
Proof.
  revert a. induction l as [|d l IH]; intros a Ha Hnd Hw; [constructor|].
  cbn [map] in Hnd. apply list.NoDup_cons in Hnd as [Hd Hnd]. inversion Hw as [|? ? [Hwd Hcd] Hwl]; subst.
  destruct (draw_drawn d a Ha) as (r & D & Hr). cbn [fold_left].
  assert (Hok : menus_ok (draw a d)) by apply D.
  constructor; [|by apply IH].
  destruct Hcd as [c Hc]. rewrite (upsert_succeeds _ _ _ _ _ _ _ c Hwd Hc) in Hr.
  destruct (dr_shown _ _ _ _ _ _ _ _ _ D Hr) as (t & H1 & H2 & H3 & H4 & H5).
  destruct (draw_all l (draw a d) Hok) as (_ & _ & K1 & K2). exists t.
  assert (Hin : ~ In (d_id d) (map d_id l)) by (by rewrite <- list_elem_of_In).
  rewrite (K1 _ Hin), (K2 _ Hin t H1). do 4 (split; [done|]). apply H5, Hwd.
Qed.

(** An item whose menu has the shape of the new one keeps the menu object. *)
Lemma draw_all_kept l a d t old :
  menus_ok a -> NoDup (map d_id l) ->
  Forall (fun d => works (ops (d_id d)) /\ is_Ok (tray_state_color (d_state d))) l ->
  In d l -> trays a !! d_id d = Some t -> menu_objects a !! t_menu t = Some old ->
  same_shape old (d_sections d) = true ->
  exists t', trays (fold_left draw l a) !! d_id d = Some t' /\ t_menu t' = t_menu t.
Proof.
  revert a. induction l as [|e l IH]; intros a Ha Hnd Hw Hin Ht Ho Hs; [done|].
  cbn [map] in Hnd. apply list.NoDup_cons in Hnd as [He Hnd]. inversion Hw as [|? ? [Hwe [c Hc]] Hwl]; subst.
  rewrite list_elem_of_In in He. destruct (draw_drawn e a Ha) as (r & D & Hr). cbn [fold_left].
  rewrite (upsert_succeeds _ _ _ _ _ _ _ c Hwe Hc) in Hr.
  destruct Hin as [->|Hin].
  - destruct (dr_kept _ _ _ _ _ _ _ _ _ D t old Ht Ho Hs Hr) as (t' & H1 & H2). exists t'.
    destruct (draw_all l (draw a d)) as (_ & _ & K1 & _); [apply D|]. by rewrite (K1 _ He).
  - assert (Hne : d_id d <> d_id e) by (intros E; apply He; rewrite <- E; by apply in_map).
    apply IH; try done; [apply D|by rewrite (dr_others _ _ _ _ _ _ _ _ _ D)|].
    by rewrite (dr_other_rows _ _ _ _ _ _ _ _ _ D (d_id d) t).
Qed.

End Drawing.

(** ** The items are the machines *)

(** Every item is registered, so that the next poll redraws or retires it, and has its own menu. *)
Definition app_ok (a : App) : Prop :=
  menus_ok a /\ forall i, is_Some (trays a !! i) -> i ∈ machine_ids a.

Definition machine_draw (status_slot : bool) (nodes : list TrayNodeSnapshot)
    (entry : nat * TrayNodeSnapshot) : Draw :=
  let '(index, n) := entry in
  {| d_id := item_id status_slot index n; d_state := state n; d_title := tray_node_status n;
     d_tooltip := title (tray_machine_menu n); d_sections := item_sections nodes index n |}.

Lemma fold_draw_machine ops slot nodes l a :
  fold_left (draw_machine ops slot nodes) l a = fold_left (draw ops) (map (machine_draw slot nodes) l) a.
Proof. revert a. induction l as [|[k n] l IH]; intros a; [done|]. apply IH. Qed.

Lemma machine_draw_ids slot nodes l :
  map d_id (map (machine_draw slot nodes) l) = map (fun '(index, n) => item_id slot index n) l.
Proof. rewrite map_map. apply map_ext. by intros [k n]. Qed.

Lemma retire_all l a :
  menus_ok a ->
  let a' := fold_left retire l a in
  menus_ok a' /\ menu_objects a' = menu_objects a /\
  (forall j, trays a' !! j = if decide (j ∈ l) then None else trays a !! j).
Proof.
  revert a. induction l as [|i l IH]; intros a Ha; [done|]. cbn [fold_left].
  destruct (IH (retire a i)) as (H1 & H2 & H3).
  { destruct Ha as [A1 A2 A3]. split; cbn [retire trays menus menu_objects next_menu].
    - intros j t [Hj Ht]%lookup_delete_Some. rewrite lookup_delete_ne by done. by apply A1.
    - intros j k t u [_ Hj]%lookup_delete_Some [_ Hk]%lookup_delete_Some. by apply A2.
    - exact A3. }
  split; [done|]. split; [done|]. intros j. rewrite H3. cbn [retire trays].
  destruct (decide (j ∈ l)) as [Hl|Hl]; [by rewrite decide_True by (by right)|].
  destruct (decide (i = j)) as [->|Hij].
  - rewrite lookup_delete_eq. by rewrite decide_True by (by left).
  - rewrite lookup_delete_ne by done. by rewrite decide_False by (by intros [?|?]%elem_of_cons).
Qed.

Lemma in_active slot nodes j :
  j ∈ active_ids slot nodes <-> In j (map (fun '(index, n) => item_id slot index n) (indexed nodes)).
Proof. unfold active_ids. by rewrite elem_of_list_to_set, list_elem_of_In. Qed.

(** One drawing of the fleet, whatever fails. *)
Lemma machine_trays_ok ops nodes a :
  app_ok a -> app_ok (update_machine_trays ops nodes a) /\
    forall j, j ∉ active_ids (status_slot_of a) nodes -> trays (update_machine_trays ops nodes a) !! j = None.
Proof.
  intros [Ha Hreg]. unfold update_machine_trays. set (slot := status_slot_of a).
  rewrite fold_draw_machine. destruct (draw_all ops (map (machine_draw slot nodes) (indexed nodes)) a Ha)
    as (D1 & _ & D3 & _). rewrite machine_draw_ids in D3. set (a1 := fold_left (draw ops) _ a) in *.
  set (active := active_ids slot nodes).
  destruct (retire_all (elements (retired_tray_ids (machine_ids a) active)) a1 D1) as (R1 & _ & R3).
  set (a2 := fold_left retire _ a1) in *. cbn [with_ids trays].
  assert (Hout : forall j, j ∉ active -> trays a2 !! j = None).
  { intros j Hj. rewrite R3. destruct (decide (j ∈ _)) as [|Hn]; [done|].
    rewrite D3 by (by rewrite <- in_active). destruct (trays a !! j) eqn:Ej; [|done]. exfalso. apply Hn.
    rewrite elem_of_elements. unfold retired_tray_ids.
    assert (Hr : j ∈ machine_ids a) by (apply Hreg; by eexists). set_solver. }
  split; [|done]. split.
  - by destruct R1.
  - intros i [t Hi]. cbn [with_ids machine_ids trays] in *. destruct (decide (i ∈ active)) as [|Hn]; [done|].
    by rewrite Hout in Hi.
Qed.

Lemma status_draw_ok ops st msg i a :
  app_ok a -> (i ∈ machine_ids a \/ trays a !! i = None) ->
  let '(a', r) := draw_status ops st msg i a in
  menus_ok a' /\ machine_ids a' = machine_ids a /\
  (forall j, is_Some (trays a' !! j) -> j ∈ machine_ids a \/ (j = i /\ r = Ok tt)).
Proof.
  intros [Ha Hreg] Hi. unfold draw_status.
  pose proof (upsert_drawn (ops i) i st msg msg [status_section msg] a Ha) as D.
  destruct (upsert_tray _ _ _ _ _ _ a) as [a' r]. split; [apply D|]. split; [apply D|].
  intros j Hj. destruct (decide (j = i)) as [->|Hne].
  - destruct Hi as [Hi|Hi]; [by left|]. destruct r as [[]|e]; [by right|].
    rewrite (dr_absent _ _ _ _ _ _ _ _ _ D e Hi eq_refl) in Hj. by destruct Hj.
  - left. apply Hreg. by rewrite <- (dr_others _ _ _ _ _ _ _ _ _ D j Hne).
Qed.

Lemma status_tray_ok ops st msg a : app_ok a -> app_ok (update_status_tray ops st msg a).
Proof.
  intros Ha. unfold update_status_tray. destruct (decide (machine_ids a = ∅)) as [He|He].
  - pose proof (status_draw_ok ops st msg STATUS a Ha) as D.
    destruct (draw_status ops st msg STATUS a) as [a' r].
    destruct D as (D1 & D2 & D3).
    { right. destruct (trays a !! STATUS) eqn:E; [|done]. destruct Ha as [_ Hreg].
      assert (H : STATUS ∈ machine_ids a) by (apply Hreg; by eexists). rewrite He in H. set_solver. }
    destruct r as [[]|e].
    + split; [by destruct D1|]. intros i Hi. cbn [with_ids machine_ids trays] in *. rewrite D2.
      apply elem_of_union. destruct (D3 i Hi) as [?|[-> _]]; [by right|left; by apply elem_of_singleton].
    + split; [done|]. intros i Hi. rewrite D2. by destruct (D3 i Hi) as [?|[_ ?]].
  - assert (Hl : forall i, In i (elements (machine_ids a)) -> i ∈ machine_ids a)
      by (intros i; rewrite <- list_elem_of_In; apply elem_of_elements).
    revert Hl. generalize (elements (machine_ids a)) as l. intros l. revert a Ha He.
    induction l as [|i l IH]; intros a Ha He Hl; [done|]. cbn [fold_left].
    pose proof (status_draw_ok ops st msg i a Ha (or_introl (Hl i (or_introl eq_refl)))) as D.
    destruct (draw_status ops st msg i a) as [a' r]. destruct D as (D1 & D2 & D3). cbn [fst].
    assert (Hi : i ∈ machine_ids a) by (apply Hl; by left).
    apply IH; [split; [done|]|by rewrite D2|].
    + intros j Hj. rewrite D2. by destruct (D3 j Hj) as [?|[-> _]].
    + intros j Hj. rewrite D2. apply Hl. by right.
Qed.

Lemma update_ok ops u a : app_ok a -> app_ok (draw_update ops u a).
Proof. intros Ha. destruct u; [by apply status_tray_ok|by apply machine_trays_ok]. Qed.

Lemma monitor_ok polls a : app_ok a -> app_ok (run_tray_monitor polls a).
Proof.
  revert a. induction polls as [|[ops loaded] l IH]; intros a Ha; [done|]. by apply IH, update_ok.
Qed.

Lemma start_ok : app_ok app_start.
Proof.
  split; [split|]; cbn [app_start trays menus menu_objects].
  - intros i t. by rewrite lookup_empty.
  - intros i j t u. by rewrite lookup_empty.
  - intros m. rewrite lookup_empty. by intros [].
  - intros i. rewrite lookup_empty. by intros [].
Qed.

(** ** Titles *)

Section Titles.
Context (P : string -> Prop).

Definition titles (a : App) : Prop := map_Forall (fun _ t => P (t_title t)) (trays a).

Lemma titles_put a i t : P (t_title t) -> titles a -> titles (with_trays (<[i := t]> (trays a)) a).
Proof. intros Ht Ha. by apply map_Forall_insert_2. Qed.

Lemma upsert_titles ops i st ti tp secs a :
  P ti -> titles a -> titles (fst (upsert_tray ops i st ti tp secs a)).
Proof.
  intros Ht Ha. unfold upsert_tray. destruct (tray_state_color st) as [c|]; [|done].
  destruct (trays a !! i) as [item|] eqn:Hi.
  - assert (Hitem : P (t_title item)) by exact (Ha _ _ Hi).
    destruct (o_icon ops); cbn [negb]; [|done].
    destruct (o_title ops); cbn [negb]; [|by apply titles_put].
    destruct (o_tooltip ops); cbn [negb]; [|by repeat apply titles_put].
    destruct (o_template ops); cbn [negb]; [|by repeat apply titles_put].
    set (a1 := with_trays _ (with_trays _ (with_trays _ a))).
    assert (Ha1 : titles a1) by (by repeat apply titles_put).
    destruct (menus a1 !! i) as [m|].
    + unfold update_tray_menu. destruct (menu_objects a1 !! m) as [old|].
      * destruct (same_shape old secs); [done|]. destruct (o_menu ops), (o_set_menu ops); try done.
        by apply map_Forall_insert_2.
      * destruct (o_menu ops), (o_set_menu ops); try done. by apply map_Forall_insert_2.
    + destruct (o_menu ops), (o_set_menu ops); try done. by apply map_Forall_insert_2.
  - destruct (o_menu ops), (o_build ops); try done. by apply map_Forall_insert_2.
Qed.

Lemma draws_titles ops l a :
  Forall (fun d => P (d_title d)) l -> titles a -> titles (fold_left (draw ops) l a).
Proof.
  intros Hl. revert a. induction Hl as [|d l Hd _ IH]; intros a Ha; [done|]. by apply IH, upsert_titles.
Qed.

Lemma retire_titles l a : titles a -> titles (fold_left retire l a).
Proof. revert a. induction l as [|i l IH]; intros a Ha; [done|]. by apply IH, map_Forall_delete. Qed.

(** What an update may write as a title. *)
Definition update_titles (u : TrayUpdate) : Prop :=
  match u with
  | DrawStatus _ message => P message
  | DrawMachines nodes => Forall (fun n => P (tray_node_status n)) nodes
  end.

Lemma draw_update_titles ops u a : update_titles u -> titles a -> titles (draw_update ops u a).
Proof.
  destruct u as [st msg|nodes]; cbn [update_titles draw_update]; intros Hu Ha.
  - unfold update_status_tray. destruct (decide (machine_ids a = ∅)) as [_|n].
    + pose proof (upsert_titles (ops STATUS) STATUS st msg msg [status_section msg] a Hu Ha) as H.
      unfold draw_status. by destruct (upsert_tray _ _ _ _ _ _ a) as [a' [[]|e]].
    + generalize (elements (machine_ids a)) as l. intros l. clear n. revert a Ha.
      induction l as [|i l IH]; intros a Ha; [done|]. by apply IH, upsert_titles.
  - unfold update_machine_trays. apply retire_titles. rewrite fold_draw_machine. apply draws_titles; [|done].
    rewrite List.Forall_forall in *. intros d ([k n] & <- & Hin)%in_map_iff.
    apply in_combine_r in Hin. by apply Hu.
Qed.

End Titles.

(** Over any number of polls, whatever the daemon answers and whichever calls of the platform
    fail, every status item is in the registry, so it is redrawn or retired by the next poll and
    never orphaned; the registry's handle is the menu the item shows; and no two items share a
    menu, so that writing one machine's readings never shows them under another. *)
Theorem tray_items_stay_registered (polls : list ((string -> TrayOps) * result Value string)) :
  let a := run_tray_monitor polls app_start in
  forall i t, trays a !! i = Some t ->
    i ∈ machine_ids a /\ menus a !! i = Some (t_menu t) /\ is_Some (menu_objects a !! t_menu t) /\
    forall j u, trays a !! j = Some u -> t_menu u = t_menu t -> j = i.
Proof.
  intros a i t Hi. destruct (monitor_ok polls app_start start_ok) as [Ha Hreg]. fold a in Ha, Hreg.
  split; [apply Hreg; by eexists|]. destruct (mo_shared a Ha i t Hi) as [H1 H2]. split; [done|].
  split; [done|]. intros j u Hj E. by apply (mo_own a Ha j i u t).
Qed.

(** ** What a poll shows *)

Lemma machine_id_status n : machine_tray_id n <> STATUS.
Proof. done. Qed.

Lemma machine_id_inj n m : machine_tray_id n = machine_tray_id m -> id n = id m.
Proof.
  unfold machine_tray_id. intros E. pose proof (strip_prefix_append "machine-" (id n)) as H1.
  pose proof (strip_prefix_append "machine-" (id m)) as H2. rewrite E in H1. congruence.
Qed.

Lemma item_ids_distinct slot nodes :
  NoDup (map id nodes) -> NoDup (map (fun '(index, n) => item_id slot index n) (indexed nodes)).
Proof.
  unfold indexed. destruct nodes as [|n nodes]; [constructor|]. cbn [map length seq combine].
  intros [Hn Hnd]%list.NoDup_cons.
  assert (Hrest : forall k, (0 < k)%nat ->
    map (fun '(index, n) => item_id slot index n) (combine (seq k (length nodes)) nodes) =
    map machine_tray_id nodes).
  { clear. induction nodes as [|m l IH]; intros k Hk; [done|]. cbn [length seq combine map].
    rewrite IH by lia. unfold item_id. by rewrite (proj2 (Nat.eqb_neq k 0)) by lia. }
  rewrite Hrest by lia. apply list.NoDup_cons. split.
  - intros Hin. apply list_elem_of_In, in_map_iff in Hin as (m & E & Hm). unfold item_id in E.
    destruct slot; cbn [andb Nat.eqb] in E; [by apply machine_id_status in E|].
    apply machine_id_inj in E. apply Hn. rewrite <- E. apply list_elem_of_In. by apply in_map.
  - clear -Hnd. induction nodes as [|m l IH]; [constructor|]. cbn [map] in *.
    apply list.NoDup_cons in Hnd as [Hm Hl]. apply list.NoDup_cons. split; [|by apply IH].
    intros Hin. apply list_elem_of_In, in_map_iff in Hin as (m' & E & Hm').
    apply machine_id_inj in E. apply Hm. rewrite <- E. apply list_elem_of_In. by apply in_map.
Qed.

Lemma shows_after_retire d l a :
  menus_ok a -> ~ In (d_id d) l -> shows d a -> shows d (fold_left retire l a).
Proof.
  intros Ha Hl (t & Ht & Hrest). destruct (retire_all l a Ha) as (_ & H2 & H3). exists t.
  rewrite H3, H2. rewrite decide_False by (by rewrite list_elem_of_In). done.
Qed.

(** The machine can be drawn: the platform works and its state has a colour. *)
Definition drawable (ops : string -> TrayOps) (slot : bool) (entry : nat * TrayNodeSnapshot) : Prop :=
  let '(index, n) := entry in works (ops (item_id slot index n)) /\ is_Ok (tray_state_color (state n)).

Lemma in_indexed nodes k n : nodes !! k = Some n -> In (k, n) (indexed nodes).
Proof.
  unfold indexed. assert (H : forall s, nodes !! k = Some n -> In ((s + k)%nat, n) (combine (seq s (length nodes)) nodes)).
  { revert k. induction nodes as [|m l IH]; intros [|k] s; cbn [lookup list_lookup]; try done;
      cbn [length seq combine In].
    - intros [= ->]. left. by rewrite Nat.add_0_r.
    - intros Hk. right. rewrite <- Nat.add_succ_comm. by apply IH. }
  apply (H 0%nat).
Qed.

Lemma tray_exact (ops : string -> TrayOps) (nodes : list TrayNodeSnapshot) (a : App) :
  let slot := status_slot_of a in
  let a' := update_machine_trays ops nodes a in
  app_ok a -> NoDup (map id nodes) -> Forall (drawable ops slot) (indexed nodes) ->
  dom (trays a') = active_ids slot nodes /\
  forall k n, nodes !! k = Some n ->
    exists t, trays a' !! item_id slot k n = Some t /\ tray_state_color (state n) = Ok (t_icon t) /\
      t_title t = tray_node_status n /\ t_tooltip t = title (tray_machine_menu n) /\
      menu_objects a' !! t_menu t = Some (map section_items (item_sections nodes k n)).
Proof.
  intros slot a' Ha Hnd Hdraw.
  assert (Hshow : forall e, In e (indexed nodes) -> shows (machine_draw slot nodes e) a').
  { intros e He. unfold a', update_machine_trays. fold slot. rewrite fold_draw_machine.
    destruct Ha as [Hm _]. set (l := map (machine_draw slot nodes) (indexed nodes)).
    assert (Hl : Forall (fun d => shows d (fold_left (draw ops) l a)) l).
    { apply draw_all_shown; [done| |].
      - unfold l. rewrite machine_draw_ids. by apply item_ids_distinct.
      - unfold l. rewrite List.Forall_forall in *. intros d ([k n] & <- & Hin)%in_map_iff.
        exact (Hdraw _ Hin). }
    destruct (shows_after_retire (machine_draw slot nodes e)
      (elements (retired_tray_ids (machine_ids a) (active_ids slot nodes))) (fold_left (draw ops) l a))
      as (t & Ht); [by apply draw_all| | |by exists t].
    - rewrite <- list_elem_of_In, elem_of_elements. unfold retired_tray_ids.
      assert (Hact : d_id (machine_draw slot nodes e) ∈ active_ids slot nodes).
      { apply in_active. rewrite <- (machine_draw_ids slot nodes). by apply in_map, in_map. }
      by intros [_ Hno]%elem_of_difference.
    - rewrite List.Forall_forall in Hl. apply Hl. by apply in_map. }
  split.
  - apply set_eq. intros j. rewrite elem_of_dom. split.
    + intros [t Ht]. destruct (decide (j ∈ active_ids slot nodes)) as [|Hn]; [done|].
      destruct (machine_trays_ok ops nodes a Ha) as [_ Hout]. fold a' slot in Hout. by rewrite Hout in Ht.
    + rewrite in_active. intros ([k n] & <- & Hin)%in_map_iff. destruct (Hshow _ Hin) as (t & Ht & _).
      by exists t.
  - intros k n Hk. exact (Hshow _ (in_indexed nodes k n Hk)).
Qed.

(** C27: When the platform does what it is asked, a poll leaves exactly one status item per machine of
    the fleet, titled with the machine's glyph and state, with the machine's rows in its menu
    (the whole fleet's in the first), and no item of a machine that left the fleet. *)
Theorem tray_shows_exactly_the_fleet (ops : string -> TrayOps) (nodes : list TrayNodeSnapshot) (a : App) :
  let slot := status_slot_of a in
  let a' := update_machine_trays ops nodes a in
  app_ok a -> NoDup (map id nodes) -> Forall (drawable ops slot) (indexed nodes) ->
  dom (trays a') = active_ids slot nodes /\
  forall k n, nodes !! k = Some n ->
    exists t, trays a' !! item_id slot k n = Some t /\ tray_state_color (state n) = Ok (t_icon t) /\
      t_title t = tray_node_status n /\ t_tooltip t = title (tray_machine_menu n) /\
      menu_objects a' !! t_menu t = Some (map section_items (item_sections nodes k n)).
Proof. apply tray_exact. Qed.

Lemma sections_same_shape slot nodes nodes' k n n' :
  length nodes = length nodes' ->
  same_shape (map section_items (item_sections nodes k n)) (d_sections (machine_draw slot nodes' (k, n'))) = true.
Proof.
  intros Hl. cbn [machine_draw d_sections]. unfold item_sections. destruct (k =? 0)%nat; [|done].
  unfold same_shape, fleet_tray_sections. rewrite !length_map, Hl, Nat.eqb_refl. cbn [andb].
  apply forallb_forall. intros [o s] Hin. pose proof (in_combine_l _ _ _ _ Hin) as Ho.
  pose proof (in_combine_r _ _ _ _ Hin) as Hs. apply in_map_iff in Ho as (x & <- & (m & <- & _)%in_map_iff).
  by apply in_map_iff in Hs as (m' & <- & _).
Qed.

(** While the fleet has the same machines, polls never replace a menu that is on screen: the
    readings are written into the menu object that is there, which an open menu keeps showing. *)
Theorem polls_keep_open_menus (ops : string -> TrayOps) (nodes nodes' : list TrayNodeSnapshot) (a : App)
    (k : nat) (n n' : TrayNodeSnapshot) (t : TrayItem) :
  let slot := status_slot_of a in
  app_ok a -> NoDup (map id nodes') -> Forall (drawable ops slot) (indexed nodes') ->
  length nodes = length nodes' -> nodes' !! k = Some n' -> id n' = id n ->
  trays a !! item_id slot k n = Some t -> menu_objects a !! t_menu t = Some (map section_items (item_sections nodes k n)) ->
  exists t', trays (update_machine_trays ops nodes' a) !! item_id slot k n' = Some t' /\
    t_menu t' = t_menu t /\ t_title t' = tray_node_status n'.
Proof.
  intros slot Ha Hnd Hdraw Hlen Hk Hid Ht Hrows.
  destruct (tray_exact ops nodes' a Ha Hnd Hdraw) as [_ Hshow].
  destruct (Hshow k n' Hk) as (t' & Ht' & _ & Htitle & _). exists t'. split; [done|]. split; [|done].
  fold slot in Ht'. revert Ht'. unfold update_machine_trays. fold slot. rewrite fold_draw_machine.
  set (l := map (machine_draw slot nodes') (indexed nodes')). destruct Ha as [Hm _].
  assert (Eid : item_id slot k n = item_id slot k n') by (unfold item_id, machine_tray_id; by rewrite Hid).
  rewrite Eid in Ht.
  destruct (draw_all_kept ops l a (machine_draw slot nodes' (k, n')) t (map section_items (item_sections nodes k n)))
    as (t2 & Ht2 & Hmenu); try done.
  - unfold l. rewrite machine_draw_ids. by apply item_ids_distinct.
  - unfold l. rewrite List.Forall_forall in *. intros d ([k2 n2] & <- & Hin)%in_map_iff. exact (Hdraw _ Hin).
  - unfold l. apply in_map. by apply in_indexed.
  - by apply (sections_same_shape slot).
  - cbn [with_ids trays]. intros Ht'. rewrite <- Hmenu. f_equal.
    destruct (retire_all (elements (retired_tray_ids (machine_ids a) (active_ids slot nodes')))
      (fold_left (draw ops) l a)) as (_ & _ & R3); [by apply draw_all|].
    rewrite R3 in Ht'. destruct (decide _); [done|]. cbn [machine_draw d_id] in Ht2. congruence.
Qed.

(** When the daemon goes away the menu of every machine is replaced: its rows do not have the
    shape of the status rows. *)
Lemma outage_replaces_menus (n : TrayNodeSnapshot) (message : string) :
  same_shape (map section_items [section (tray_machine_menu n)]) [status_section message] = false.
Proof. reflexivity. Qed.

(** ** From the daemon to the tray *)

(** What the tray reads of a machine whose samples JSON can carry. *)
Definition readable (s : MetricSample) : Prop :=
  sample_wf s /\
  (forall x, Model.cpu_percent s = Some x -> is_finite (f64_of_f32 x) = true) /\
  (forall t, Model.temperature s = Some t -> is_finite (f64_of_f32 (celsius t)) = true) /\
  (forall n, network s = Some n -> in_u u64_max (received_bytes_per_second n) /\
                                   in_u u64_max (sent_bytes_per_second n)).

Definition latest_readable (o : option MetricSample) : Prop := forall s, o = Some s -> readable s.

Section Read.
Context (uuid_text : Uuid -> string).

Definition node_of_machine (node : NodeInfo) (latest : option MetricSample) (state path : string)
    (rtt : option Z) (label : string) : TrayNodeSnapshot :=
  let disk := head (default [] (sample_filesystems <$> latest)) in
  {| id := uuid_text (node_id node); name := display_name node; tray_label := label;
     Tray.state := state; Tray.path := path;
     cpu_percent := f64_of_f32 <$> (latest ≫= Model.cpu_percent);
     memory_used_bytes := latest ≫= Model.memory_used_bytes;
     memory_total_bytes := latest ≫= Model.memory_total_bytes;
     swap_used_bytes := latest ≫= Model.swap_used_bytes;
     swap_total_bytes := latest ≫= Model.swap_total_bytes;
     disk_used_bytes := (fun f => snd (fst f)) <$> disk; disk_total_bytes := snd <$> disk;
     disk_mount := (fun f => fst (fst f)) <$> disk;
     network_received_bytes_per_second := received_bytes_per_second <$> (latest ≫= network);
     network_sent_bytes_per_second := sent_bytes_per_second <$> (latest ≫= network);
     uptime_seconds := positive (Model.uptime_seconds <$> latest);
     temperature := (fun t => {| tt_label := Model.label t; tt_celsius := f64_of_f32 (celsius t) |}) <$>
                    (latest ≫= Model.temperature);
     rtt_ms := rtt |}.

Lemma may_option {A} `{!Serialize A} (key : string) (read : Value -> option A) (o : option A) v :
  vget key v = Some (to_value o) ->
  (forall a, o = Some a -> to_value a <> VNull /\ read (to_value a) = Some a) ->
  may key read v = Some o.
Proof.
  intros E H. unfold may. rewrite E. destruct o as [a|]; [|done].
  change (to_value (Some a)) with (to_value a). destruct (H a eq_refl) as [Hn Hr]. rewrite Hr.
  by destruct (to_value a).
Qed.

Lemma may_u64 key o v :
  vget key v = Some (to_value o) -> opt_wf u64_max o -> may key as_u64 v = Some o.
Proof. intros E H. apply may_option; [done|]. intros z Hz. split; [done|]. by apply as_u64_int, H. Qed.

Lemma may_text key (o : option string) v :
  vget key v = Some (to_value o) -> may key as_str v = Some o.
Proof. intros E. by apply may_option. Qed.

Lemma may_float key (o : option f32) v :
  vget key v = Some (to_value (f32_value <$> o)) ->
  (forall x, o = Some x -> is_finite (f64_of_f32 x) = true) ->
  may key as_f64 v = Some (f64_of_f32 <$> o).
Proof.
  intros E H. unfold may. rewrite E. destruct o as [x|]; [|done]. cbn [fmap option_fmap option_map].
  change (to_value (Some (f32_value x))) with (f32_value x). unfold f32_value, float_value.
  by rewrite (H x eq_refl).
Qed.

Lemma may_temperature key (o : option TemperatureMetric) v :
  vget key v = Some (to_value (temperature_view <$> o)) ->
  (forall t, o = Some t -> is_finite (f64_of_f32 (celsius t)) = true) ->
  may key temperature_of_value v =
  Some ((fun t => {| tt_label := Model.label t; tt_celsius := f64_of_f32 (celsius t) |}) <$> o).
Proof.
  intros E H. unfold may. rewrite E. destruct o as [t|]; [|done]. cbn [fmap option_fmap option_map].
  change (to_value (Some (temperature_view t))) with (temperature_view t).
  assert (R : temperature_of_value (temperature_view t) =
    Some {| tt_label := Model.label t; tt_celsius := f64_of_f32 (celsius t) |}).
  { unfold temperature_of_value, need, temperature_view. read_fields. cbn [base.mbind option_bind].
    unfold f32_value, float_value. by rewrite (H t eq_refl). }
  rewrite R. done.
Qed.

Lemma headline_u64 (s : MetricSample) :
  sample_wf s ->
  opt_wf u64_max ((fun f => snd (fst f)) <$> head (sample_filesystems s)) /\
  opt_wf u64_max (snd <$> head (sample_filesystems s)).
Proof.
  intros (_ & _ & _ & _ & _ & _ & Hd & _).
  pose proof (sample_filesystems_ok s Hd) as Hok. rewrite <- sample_filesystems_perm in Hok.
  destruct (sample_filesystems s) as [|f l]; cbn [head fmap option_fmap option_map]; [by split|].
  inversion Hok as [|? ? (H1 & H2 & _) _]; subst. by split; intros z [= <-].
Qed.

Context {GR : Graphemes} (to_uppercase : string -> string).

Lemma decorated_get b fields key :
  key <> "trayLabel" -> key <> "trayIcon" ->
  vget key (Badges.decorate to_uppercase b (obj fields)) = field key fields.
Proof.
  intros H1 H2. rewrite <- vget_obj. unfold obj. cbn [Badges.decorate vget].
  by rewrite !bt_get_insert_ne by congruence.
Qed.

Lemma decorated_label b fields i n :
  field "id" fields = Some (VString i) -> field "name" fields = Some (VString n) ->
  vget "trayLabel" (Badges.decorate to_uppercase b (obj fields)) =
  Some (VString (Badges.badge_label to_uppercase (Badges.icon b i) n)).
Proof.
  rewrite <- !vget_obj. unfold obj. cbn [Badges.decorate vget]. intros H1 H2.
  rewrite bt_get_insert_ne by done. rewrite bt_get_insert_eq. by rewrite H1, H2.
Qed.

(** The numbers of a readable sample fit their types, also where there is no sample. *)
Lemma latest_numbers latest :
  latest_readable latest ->
  (forall f : MetricSample -> option Z,
     (forall s, sample_wf s -> opt_wf u64_max (f s)) -> opt_wf u64_max (latest ≫= f)) /\
  (opt_wf u64_max ((fun f => snd (fst f)) <$> head (default [] (sample_filesystems <$> latest))) /\
   opt_wf u64_max (snd <$> head (default [] (sample_filesystems <$> latest)))) /\
  (opt_wf u64_max (received_bytes_per_second <$> (latest ≫= network)) /\
   opt_wf u64_max (sent_bytes_per_second <$> (latest ≫= network))) /\
  opt_wf u64_max (positive (Model.uptime_seconds <$> latest)).
Proof.
  intros Hl. destruct latest as [s|]; [|by repeat split; intros].
  destruct (Hl s eq_refl) as (Hs & _ & _ & Hn). split; [by intros f Hf; apply Hf|].
  split; [by apply headline_u64|]. cbn [fmap option_fmap option_map base.mbind option_bind]. split.
  - destruct (network s) as [m|]; [|by split]. destruct (Hn m eq_refl). by split; intros z [= <-].
  - intros z. unfold positive. cbn [base.mbind option_bind].
    destruct (0 <? Model.uptime_seconds s); [|done]. intros [= <-]. apply Hs.
Qed.

(** Read the next field of an object whose fields [Hv] gives, with the lemma for its type. *)
Local Ltac read_with reads key value Hv :=
  rewrite (reads key value _ (Hv key ltac:(done) ltac:(done))); [cbn [base.mbind option_bind]|..].

(** The tray reads the dashboard's machine back into its own terms. *)
Lemma shown_machine_reads b node endpoint latest st p rtt seen trend detail :
  latest_readable latest -> opt_wf u64_max rtt ->
  node_of_value (Badges.decorate to_uppercase b
    (machine_view uuid_text node endpoint latest st p rtt seen trend detail)) =
  Some (node_of_machine node latest st p rtt
          (Badges.badge_label to_uppercase (Badges.icon b (uuid_text (node_id node))) (display_name node))).
Proof.
  intros Hl Hr. unfold machine_view. set (fields := (_ :: _ : list (string * Value))).
  set (v := Badges.decorate to_uppercase b (obj fields)).
  assert (Hv : forall key, key <> "trayLabel" -> key <> "trayIcon" -> vget key v = field key fields)
    by (intros; by apply decorated_get).
  pose proof (decorated_label b fields (uuid_text (node_id node)) (display_name node) eq_refl eq_refl) as Hlab.
  fold v in Hlab. destruct (latest_numbers latest Hl) as (Hwf & [Hd1 Hd2] & [Hn1 Hn2] & Hup).
  set (disk := head (default [] (sample_filesystems <$> latest))) in *.
  unfold node_of_value, need. rewrite Hlab, !Hv by done.
  cbn [field String.eqb Ascii.eqb Bool.eqb base.mbind option_bind as_str].
  read_with may_float "cpuPercent" (latest ≫= Model.cpu_percent) Hv.
  read_with may_u64 "memoryUsedBytes" (latest ≫= Model.memory_used_bytes) Hv.
  read_with may_u64 "memoryTotalBytes" (latest ≫= Model.memory_total_bytes) Hv.
  read_with may_u64 "swapUsedBytes" (latest ≫= Model.swap_used_bytes) Hv.
  read_with may_u64 "swapTotalBytes" (latest ≫= Model.swap_total_bytes) Hv.
  read_with may_u64 "diskUsedBytes" ((fun f : filesystem => snd (fst f)) <$> disk) Hv.
  read_with may_u64 "diskTotalBytes" (snd <$> disk) Hv.
  read_with may_text "diskMount" ((fun f : filesystem => fst (fst f)) <$> disk) Hv.
  read_with may_u64 "networkReceivedBytesPerSecond" (received_bytes_per_second <$> (latest ≫= network)) Hv.
  read_with may_u64 "networkSentBytesPerSecond" (sent_bytes_per_second <$> (latest ≫= network)) Hv.
  read_with may_u64 "uptimeSeconds" (positive (Model.uptime_seconds <$> latest)) Hv.
  read_with may_temperature "temperature" (latest ≫= Model.temperature) Hv.
  read_with may_u64 "rttMs" rtt Hv.
  all: try done; try (apply Hwf; intros s Hs; apply Hs).
  all: destruct latest as [s|]; [by apply (Hl s)|done].
Qed.

Context {J : Type} {SC : SampleCodec J} (db_fault : nat -> bool).
Context {ET : EndpointText} {B64 : Base64} {BJ : JsonCodec PairingBundle anything}.
Context {RJ : JsonCodec Records anything} {MJ : JsonCodec Machines machines_finite}.
Context {float_ok : f64 -> Prop} {CJ : JsonCodec AgentConfig (config_carried float_ok)}.
Context (peers_fault machines_fault config_fault : nat -> bool) (parse_uuid : string -> option Uuid).
Context {Url Cert : Type} (parse_relay_url : string -> option Url).
Context (read_file : string -> option (list Z)) (pem_sections : list Z -> option (list Cert)).
Context (verifier : list Cert -> bool) (ca_text : RelayCaError -> string).
Context (mdns_spawn : PairingMdnsAdvertisement -> result unit string).
Context {DC : Display PersistError} {DF : Display RemoteFleetError} {DP : Display PairingError}.
Context {DM : Display PairingMdnsError} {DS : Display ServerError} {DQ : Display StoreError}.

Definition badge (b : Badges.TrayBadges) (node : NodeInfo) : string :=
  Badges.badge_label to_uppercase (Badges.icon b (uuid_text (node_id node))) (display_name node).

Definition local_node (b : Badges.TrayBadges) (p : StatusPayload) : TrayNodeSnapshot :=
  node_of_machine (st_node p) (st_latest p) (state_text (Model.state (st_health p))) "unknown" None
    (badge b (st_node p)).

Definition remote_node (b : Badges.TrayBadges) (s : RemoteMachineSnapshot) : TrayNodeSnapshot :=
  node_of_machine (s_node s) (s_latest s) (state_text (s_state s)) (path_text (s_path s)) (s_rtt_ms s)
    (badge b (s_node s)).

Definition remote_readable (s : RemoteMachineSnapshot) : Prop :=
  snapshot_wf s /\ latest_readable (s_latest s).

Lemma mapM_node_cons x l y k :
  node_of_value x = Some y -> mapM node_of_value l = Some k -> mapM node_of_value (x :: l) = Some (y :: k).
Proof. intros H1 H2. simpl. rewrite H1. simpl. by rewrite H2. Qed.

Lemma remote_nodes_read b l :
  Forall remote_readable l ->
  mapM node_of_value (map (Badges.decorate to_uppercase b) (map (remote_view uuid_text) l)) =
  Some (map (remote_node b) l).
Proof.
  induction 1 as [|s l [Hs Hr] _ IH]; [done|]. cbn [map]. apply mapM_node_cons; [|done].
  apply shown_machine_reads; [done|apply Hs].
Qed.

Lemma state_text_coloured s : is_Ok (tray_state_color (state_text s)).
Proof. destruct s; by eexists. Qed.

(** The poll of a daemon that answers finds its machines. *)
Lemma answer_is_fleet (env : LocalEnv) (ctx : LocalContext (J := J)) (p : StatusPayload)
    (badges : Badges.TrayBadges) :
  local_status env ctx = Ok p ->
  latest_readable (st_latest p) ->
  Forall remote_readable (snapshots_at (le_now_snapshots env) (lc_fleet ctx)) ->
  tray_update
    (load_fleet_snapshot (daemon_of uuid_text db_fault peers_fault machines_fault config_fault parse_uuid
       parse_relay_url read_file pem_sections verifier ca_text mdns_spawn env ctx) to_uppercase badges) =
  DrawMachines (local_node badges p ::
                map (remote_node badges) (snapshots_at (le_now_snapshots env) (lc_fleet ctx))).
Proof.
  intros Hp Hl Hr. rewrite (fleet_shown _ _ _ _ _ _ _ _ _ _ _ _ _ env ctx p badges Hp).
  2:{ intros s Hs. by apply (Hl s). }
  2:{ eapply Forall_impl; [|exact Hr]. by intros s [Hs _]. }
  unfold tray_update, snapshot_of_value, need. read_fields.
  cbn [base.mbind option_bind as_str as_array map].
  assert (Hn : node_of_value (Badges.decorate to_uppercase badges (local_view uuid_text p)) =
               Some (local_node badges p)) by (apply shown_machine_reads; [done|by intros z]).
  rewrite (mapM_node_cons _ _ _ _ Hn (remote_nodes_read badges _ Hr)). reflexivity.
Qed.

Lemma machines_coloured (p : StatusPayload) (badges : Badges.TrayBadges) (l : list RemoteMachineSnapshot) :
  Forall (fun n => is_Ok (tray_state_color (state n))) (local_node badges p :: map (remote_node badges) l).
Proof.
  constructor; [apply state_text_coloured|]. apply List.Forall_forall.
  intros n (s & <- & _)%in_map_iff. apply state_text_coloured.
Qed.

(** C20: A daemon that answers is always drawn: the poll reads the daemon's whole fleet, its own
    machine first, never finds the answer invalid, and draws each machine with the state, path,
    readings and badge it has; and every state a daemon can report has a colour, so no machine is
    left undrawn for its state. *)
Theorem answering_daemon_is_drawn (ops : string -> TrayOps) (env : LocalEnv)
    (ctx : LocalContext (J := J)) (p : StatusPayload) (badges : Badges.TrayBadges) (a : App) :
  local_status env ctx = Ok p ->
  latest_readable (st_latest p) ->
  Forall remote_readable (snapshots_at (le_now_snapshots env) (lc_fleet ctx)) ->
  let machines := local_node badges p ::
                  map (remote_node badges) (snapshots_at (le_now_snapshots env) (lc_fleet ctx)) in
  update_tray_from_daemon ops
    (load_fleet_snapshot (daemon_of uuid_text db_fault peers_fault machines_fault config_fault parse_uuid
       parse_relay_url read_file pem_sections verifier ca_text mdns_spawn env ctx) to_uppercase badges) a =
  update_machine_trays ops machines a /\
  Forall (fun n => is_Ok (tray_state_color (state n))) machines.
Proof.
  intros Hp Hl Hr machines. split; [|apply machines_coloured].
  unfold update_tray_from_daemon. by rewrite (answer_is_fleet env ctx p badges Hp Hl Hr).
Qed.

End Read.

(** ** Gauges *)

Lemma ratio_range used total r :
  opt_wf u64_max used -> ratio_basis_points used total = Some r -> 0 <= r <= 10000.
Proof.
  intros Hu. unfold ratio_basis_points. destruct used as [u|]; [|done]. destruct total as [t|]; [|done].
  destruct (Z.ltb_spec 0 t) as [Ht|]; [|done]. intros [= <-]. specialize (Hu u eq_refl).
  unfold checked_div. rewrite (proj2 (Z.eqb_neq t 0)) by lia. cbn [default Datatypes.id].
  assert (H0 : 0 <= sat_mul u64_max u 10000 / t) by (apply Z.div_pos; [width_lia|lia]).
  unfold try_from_u. destruct ((_ <=? _) && _) eqn:E; cbn [default Datatypes.id]; lia.
Qed.

(** The bar and the percentage of memory, swap and disk are the basis points the alert rules
    compute for the same readings, capped at the full bar, as long as the used bytes are below
    2^64 / 10000; an absent reading or an empty device has no bar. *)
Theorem tray_ratio_matches_alerts (used total : Z) :
  0 <= used -> used * 10000 <= u64_max -> 0 < total ->
  ratio_basis_points (Some used) (Some total) = Some (Z.min (Alert.basis_points used total) 10000) /\
  ratio_basis_points (Some used) (Some 0) = None /\ ratio_basis_points None (Some total) = None.
Proof.
  intros H0 Hu Ht. split; [|done]. unfold ratio_basis_points, Alert.basis_points.
  rewrite (proj2 (Z.ltb_lt 0 total)) by done. unfold checked_div. rewrite (proj2 (Z.eqb_neq total 0)) by lia.
  cbn [default Datatypes.id]. unfold sat_mul.
  assert (Hle : u64_max <= u128_max) by (by vm_compute). rewrite (Z.min_l (used * 10000) u64_max), (Z.min_l (used * 10000) u128_max) by lia.
  set (q := used * 10000 / total). assert (Hq : 0 <= q) by (apply Z.div_pos; lia). f_equal.
  unfold try_from_u. assert (H16 : 10000 <= u16_max) by (by vm_compute).
  assert (H32 : 10000 <= u32_max) by (by vm_compute).
  rewrite (proj2 (Z.leb_le 0 (Z.min q 10000))), (proj2 (Z.leb_le (Z.min q 10000) u16_max)) by lia.
  rewrite (proj2 (Z.leb_le 0 q)) by lia. cbn [andb default Datatypes.id].
  destruct (Z.leb_spec q u32_max); cbn [default Datatypes.id]; lia.
Qed.

Lemma tray_ratio_matches_alerts_witness :
  ratio_basis_points (Some 30) (Some 100) = Some (Z.min (Alert.basis_points 30 100) 10000).
Proof. refine (proj1 (tray_ratio_matches_alerts 30 100 _ _ _)); by vm_compute. Defined.

(** Beyond that the product saturates and the bar is too short: two pebibytes, all used. *)
Lemma huge_device_reads_low :
  ratio_basis_points (Some (2 * 2 ^ 50)) (Some (2 * 2 ^ 50)) = Some 8191 /\
  Alert.basis_points (2 * 2 ^ 50) (2 * 2 ^ 50) = 10000.
Proof. split; reflexivity. Qed.

(** A run of equally long pieces. *)
Lemma piece_of {A B} (f : A -> list B) (n : nat) (l : list A) k x :
  (forall a, length (f a) = n) -> l !! k = Some x ->
  take n (drop (k * n) (flat_map f l)) = f x.
Proof.
  intros Hf. revert k. induction l as [|a l IH]; intros [|k]; cbn [lookup list_lookup]; try done.
  - intros [= ->]. cbn [flat_map Nat.mul]. rewrite drop_0. rewrite <- (Hf x) at 1. apply take_app_length.
  - intros Hk. cbn [flat_map]. replace (S k * n)%nat with (length (f a) + k * n)%nat by (rewrite Hf; lia).
    rewrite drop_app_add. by apply IH.
Qed.

Lemma image_row_length (w : nat) (color_at : Z -> Z -> Color) (y : Z) :
  length (flat_map (fun x => pixel (color_at (Z.of_nat x) y)) (seq 0 w)) = (w * 4)%nat.
Proof.
  assert (Hp : forall c, length (pixel c) = 4%nat) by (by intros [[[? ?] ?] ?]).
  assert (H : forall s, length (flat_map (fun x => pixel (color_at (Z.of_nat x) y)) (seq s w)) = (w * 4)%nat);
    [|apply H].
  induction w as [|w IH]; intros s; [done|]. cbn [seq flat_map]. rewrite length_app, IH, Hp. lia.
Qed.

Lemma image_length (w h : nat) (color_at : Z -> Z -> Color) : length (image w h color_at) = (h * (w * 4))%nat.
Proof.
  unfold image. assert (H : forall l : list nat,
    length (flat_map (fun y => flat_map (fun x => pixel (color_at (Z.of_nat x) (Z.of_nat y))) (seq 0 w)) l) =
    (length l * (w * 4))%nat).
  { induction l as [|y l IH]; [done|]. cbn [flat_map length]. rewrite length_app, IH, image_row_length. lia. }
  by rewrite H, length_seq.
Qed.

(** The pixel at [(x, y)]. *)
Lemma image_pixel w h color_at x y :
  (x < w)%nat -> (y < h)%nat ->
  take 4 (drop (x * 4) (take (w * 4) (drop (y * (w * 4)) (image w h color_at)))) =
  pixel (color_at (Z.of_nat x) (Z.of_nat y)).
Proof.
  intros Hx Hy. unfold image.
  rewrite (piece_of _ (w * 4) (seq 0 h) y y); [|intros; apply image_row_length|by rewrite lookup_seq; split].
  apply (piece_of (fun x => pixel (color_at (Z.of_nat x) (Z.of_nat y))) 4 (seq 0 w) x x).
  - intros k. by destruct (color_at _ _) as [[[? ?] ?] ?].
  - by rewrite lookup_seq; split.
Qed.

(** The bar of a gauge fits its icon for any reading, grows with it, is empty at zero and full at
    100 %, and the icon is 56 by 10 pixels with exactly the columns left of the bar's end in the
    state colour. *)
Theorem gauge_bar_is_proportional (bp bp' : Z) (c : Color) (x y : nat) :
  0 <= bp -> bp <= bp' -> (x < 56)%nat -> (y < 10)%nat ->
  0 <= gauge_fill_width bp <= gauge_fill_width bp' /\ gauge_fill_width bp' <= GAUGE_WIDTH /\
  gauge_fill_width 0 = 0 /\ (10000 <= bp' -> gauge_fill_width bp' = GAUGE_WIDTH) /\
  length (gauge_icon bp c) = (56 * 10 * 4)%nat /\
  take 4 (drop (x * 4) (take (56 * 4) (drop (y * (56 * 4)) (gauge_icon bp c)))) =
  pixel (if Z.of_nat x <? gauge_fill_width bp then c else TRACK).
Proof.
  intros H0 Hle Hx Hy. unfold gauge_fill_width, GAUGE_WIDTH. split.
  { split; [apply Z.div_pos; lia|apply Z.div_le_mono; lia]. }
  split; [apply Z.div_le_upper_bound; lia|]. split; [done|]. split.
  { intros H. by rewrite Z.min_r by lia. }
  unfold gauge_icon. change (Z.to_nat GAUGE_WIDTH) with 56%nat. change (Z.to_nat GAUGE_HEIGHT) with 10%nat.
  split; [by rewrite image_length|]. by rewrite image_pixel.
Qed.

Lemma gauge_bar_is_proportional_witness :
  gauge_fill_width 5000 <= gauge_fill_width 65535 /\
  take 4 (drop (27 * 4) (take (56 * 4) (drop (9 * (56 * 4)) (gauge_icon 5000 (1, 2, 3, 4))))) =
  pixel (1, 2, 3, 4).
Proof.
  destruct (gauge_bar_is_proportional 5000 65535 (1, 2, 3, 4) 27 9) as (H1 & _ & _ & _ & _ & H2);
    [done|done|lia|lia|]. split; [exact (proj2 H1)|exact H2].
Defined.

(** The tray's byte label drops what is below the unit before its own: 1.0507 MiB reads 1.0 MiB,
    where rounding the whole value gives 1.1; and its uptime below an hour has the seconds the
    dashboard leaves out. *)
Lemma byte_label_truncates : byte_label 1101722 = "1.0 MiB" /\ 105 * 2 ^ 20 <= 100 * 1101722.
Proof. split; [reflexivity|by vm_compute]. Qed.

Lemma uptime_label_has_seconds : uptime_label (Some 90) = "1m 30s".
Proof. reflexivity. Qed.

(** ** Witnesses *)

Definition all_work : string -> TrayOps := fun _ =>
  {| o_icon := true; o_title := true; o_tooltip := true; o_template := true; o_menu := true;
     o_set_menu := true; o_build := true; o_row := fun _ _ => true |}.

(** An outage of two polls: the status item is drawn, registered and redrawn. *)
Lemma tray_items_stay_registered_witness :
  let outage := (all_work, Err "daemon is not reachable") in
  let a := run_tray_monitor [outage; outage] app_start in
  exists t, trays a !! STATUS = Some t /\ t_title t = "Agent unavailable" /\
    STATUS ∈ machine_ids a /\ menus a !! STATUS = Some (t_menu t).
Proof.
  intros outage a.
  assert (H : trays a !! STATUS =
    Some {| t_icon := (255, 111, 103, 255); t_title := "Agent unavailable"; t_tooltip := "Agent unavailable";
            t_menu := 0 |}) by (vm_compute; reflexivity).
  destruct (tray_items_stay_registered [outage; outage] STATUS _ H) as (H1 & H2 & _).
  eexists. split; [exact H|]. split; [reflexivity|]. split; [exact H1|exact H2].
Defined.

Definition demo_node (i st : string) (cpu : Z) : TrayNodeSnapshot :=
  {| id := i; name := "Server " +:+ i; tray_label := "S"; state := st; path := "relayed";
     cpu_percent := Some (f64_of_Z cpu); memory_used_bytes := Some 30; memory_total_bytes := Some 100;
     swap_used_bytes := Some 0; swap_total_bytes := Some 0; disk_used_bytes := Some 45;
     disk_total_bytes := Some 100; disk_mount := Some "/data";
     network_received_bytes_per_second := Some 6144; network_sent_bytes_per_second := Some 1536;
     uptime_seconds := Some 1051200; temperature := None; rtt_ms := Some 8 |}.

Definition demo_nodes (cpu : Z) : list TrayNodeSnapshot := [demo_node "a" "healthy" cpu; demo_node "b" "stale" cpu].

Example demo_menu :
  map text (gauges (section (tray_machine_menu (demo_node "a" "warning" 60)))) =
  ["CPU 60%"; "Memory 30%"; "Swap none"; "Disk 45% /data"; "Temperature —"; "Net ↓6 KiB/s ↑2 KiB/s";
   "Uptime 12d 4h"] /\
  header (section (tray_machine_menu (demo_node "a" "warning" 60))) = "▲ Server a — Warning" /\
  link_label (demo_node "a" "warning" 60) = "Relayed · RTT 8 ms".
Proof. repeat split; vm_compute; reflexivity. Qed.

Lemma demo_drawable slot cpu : Forall (drawable all_work slot) (indexed (demo_nodes cpu)).
Proof. repeat constructor; by eexists. Qed.

Lemma demo_distinct cpu : NoDup (map id (demo_nodes cpu)).
Proof.
  apply list.NoDup_cons. split; [by intros ?%list_elem_of_singleton|apply list.NoDup_singleton].
Qed.

Lemma tray_shows_exactly_the_fleet_witness :
  let a := update_machine_trays all_work (demo_nodes 60) app_start in
  dom (trays a) = {["machine-a"; "machine-b"]} /\
  exists t, trays a !! "machine-b" = Some t /\ t_title t = "S ◌".
Proof.
  intros a. destruct (tray_shows_exactly_the_fleet all_work (demo_nodes 60) app_start start_ok
    (demo_distinct 60) (demo_drawable _ 60)) as [H1 H2]. split.
  - etransitivity; [exact H1|]. vm_compute. reflexivity.
  - destruct (H2 1%nat (demo_node "b" "stale" 60) eq_refl) as (t & Ht & _ & Htitle & _). exists t.
    split; [exact Ht|rewrite Htitle; reflexivity].
Defined.

(** A row whose icon is not written shows the new reading beside the old bar, the item reports no
    error, and the next poll that can write it puts it right. *)
Example unwritten_icon_is_stale :
  let dull := fun _ : string =>
    {| o_icon := true; o_title := true; o_tooltip := true; o_template := true; o_menu := true;
       o_set_menu := true; o_build := true;
       o_row := fun _ call => match call with SetGaugeIcon _ => false | _ => true end |} in
  let first := update_machine_trays all_work (demo_nodes 60) app_start in
  let stale := update_machine_trays dull (demo_nodes 95) first in
  let cpu_row (a : App) := rows ← menu_objects a !! 1%nat; s ← head rows; head (gauge_items s) in
  shown_text <$> cpu_row stale = Some "CPU 95%" /\
  (cpu_row stale ≫= shown_image) = (cpu_row first ≫= shown_image) /\
  (cpu_row stale ≫= shown_image) <> (cpu_row (update_machine_trays all_work (demo_nodes 95) stale) ≫= shown_image).
Proof. vm_compute. split; [reflexivity|]. split; [reflexivity|]. discriminate. Qed.

Lemma polls_keep_open_menus_witness :
  let a := update_machine_trays all_work (demo_nodes 60) app_start in
  exists t t', trays a !! "machine-b" = Some t /\
    trays (update_machine_trays all_work (demo_nodes 95) a) !! "machine-b" = Some t' /\
    t_menu t' = t_menu t.
Proof.
  intros a. destruct (tray_exact all_work (demo_nodes 60) app_start start_ok
    (demo_distinct 60) (demo_drawable _ 60)) as [_ H].
  destruct (H 1%nat (demo_node "b" "stale" 60) eq_refl) as (t & Ht & _ & _ & _ & Hm).
  destruct (polls_keep_open_menus all_work (demo_nodes 60) (demo_nodes 95) a 1 (demo_node "b" "stale" 60)
    (demo_node "b" "stale" 95) t (proj1 (machine_trays_ok all_work (demo_nodes 60) app_start start_ok))
    (demo_distinct 95) (demo_drawable _ 95) eq_refl eq_refl eq_refl Ht Hm) as (t' & Ht' & Hk & _).
  exists t, t'. split; [exact Ht|]. split; [exact Ht'|exact Hk].
Defined.

#[local] Instance no_display {A} : Display A := fun _ => "error".
#[local] Existing Instance Badges.byte_graphemes.

Lemma two_full_readable : readable two_full.
Proof. split; [exact two_full_wf|]. by split; [|split]. Qed.

Lemma answering_daemon_is_drawn_witness :
  match local_status demo_env shown_ctx with
  | Ok p =>
      update_tray_from_daemon all_work
        (load_fleet_snapshot
          (daemon_of unary_text (Cert := Z) never never no_fault never parse_unary Some (fun _ => Some [1])
             Some (fun _ => true) (fun _ => "") (fun _ => Ok tt) demo_env shown_ctx)
          (fun s => s) demo_badges) app_start =
      update_machine_trays all_work
        [local_node unary_text (fun s => s) demo_badges p; remote_node unary_text (fun s => s) demo_badges shown_remote]
        app_start
  | Err _ => False
  end.
Proof.
  destruct (local_status demo_env shown_ctx) as [p|e] eqn:E;
    unfold local_status in E; cbn [shown_ctx demo_ctx with_fleet with_runtime lc_disk] in E;
    rewrite demo_config_loads in E; cbn [result_bind] in E; [|discriminate E].
  assert (Hl : st_latest p = Some two_full) by (by injection E as <-).
  refine (proj1 (answering_daemon_is_drawn unary_text (fun s => s) (Cert := Z) never never no_fault never
    parse_unary Some (fun _ => Some [1]) Some (fun _ => true) (fun _ => "") (fun _ => Ok tt) all_work
    demo_env shown_ctx p demo_badges app_start _ _ _)).
  - unfold local_status. cbn [shown_ctx demo_ctx with_fleet with_runtime lc_disk].
    rewrite demo_config_loads. exact E.
  - intros s. rewrite Hl. intros [= <-]. exact two_full_readable.
  - constructor; [|constructor]. split; [split; [|split]|].
    + intros s [= <-]. exact two_full_wf.
    + intros z [= <-]. split; by vm_compute.
    + intros z [= <-]. split; by vm_compute.
    + intros s [= <-]. exact two_full_readable.
Defined.

End Tray.
