(* ===== verification/Ssh.v ===== *)
(** Installing over SSH: [apps/desktop/src-tauri/src/ssh_bootstrap.rs].

    The desktop scans a server's host keys, lets the user confirm their fingerprints, remembers the
    keys in a file of its own and installs an agent with [ssh] and [scp], which trust that file
    alone. What the server answers is hostile input: it becomes trust anchors, a directory in
    shell commands and a pairing bundle. Processes, files and the progress channel are the
    environment ([World]); [bootstrap] runs in a monad that logs every process it starts. *)

From Stdlib Require Import Ascii String.
From S2P Require Import Prelude BTree Float Model Alert Storage Framing Transport Net Text Persist.
From S2P Require Import Codecs Pairing Mdns Server Remote Fleet Config Json LocalIpc.
Local Open Scope string_scope.
Local Open Scope Z_scope.

Module Ssh.

(** ** Text *)

Definition chars (s : string) : list ascii := list_ascii_of_string s.

Definition is_alnum (c : ascii) : bool :=
  let n := Z.of_nat (nat_of_ascii c) in
  ((48 <=? n) && (n <=? 57)) || ((65 <=? n) && (n <=? 90)) || ((97 <=? n) && (n <=? 122)).

Definition one_of_chars (set : string) (c : ascii) : bool := existsb (Ascii.eqb c) (chars set).

Definition all_chars (f : ascii -> bool) (s : string) : bool := forallb f (chars s).

Definition to_lower (c : ascii) : ascii :=
  let n := nat_of_ascii c in if (65 <=? n)%nat && (n <=? 90)%nat then ascii_of_nat (n + 32) else c.

Definition eq_ignore_ascii_case (a b : string) : bool :=
  String.eqb (string_of_list_ascii (map to_lower (chars a))) (string_of_list_ascii (map to_lower (chars b))).

(** [str::split] at a one-byte character. *)
Fixpoint split_at (c : ascii) (s : string) : list string :=
  match s with
  | EmptyString => [""]
  | String d s =>
      if Ascii.eqb d c then "" :: split_at c s
      else match split_at c s with w :: rest => String d w :: rest | [] => [String d ""] end
  end.

Definition newline_char : ascii := "010"%char.

Definition strip_cr (s : string) : string :=
  if ends_with (String "013" "") s then String.substring 0 (String.length s - 1) s else s.

(** [str::lines]: a last line that is empty is not one. *)
Definition lines (s : string) : list string :=
  let parts := split_at newline_char s in
  let parts := match rev parts with "" :: rest => rev rest | _ => parts end in
  map strip_cr parts.

(** [str::split_whitespace]: cut at every White_Space character, skip what is empty. *)
Fixpoint white_prefix (encodings : list (list nat)) (s : string) : option nat :=
  match encodings with
  | [] => None
  | e :: rest => if starts_with (char_of e) s then Some (length e) else white_prefix rest s
  end.

Fixpoint split_white (fuel : nat) (word s : string) : list string :=
  match fuel with
  | O => if String.eqb word "" then [] else [str_rev word]
  | S fuel =>
      match s with
      | EmptyString => if String.eqb word "" then [] else [str_rev word]
      | String c s' =>
          match white_prefix white_space s with
          | Some n =>
              let rest := split_white fuel "" (String.substring n (String.length s - n) s) in
              if String.eqb word "" then rest else str_rev word :: rest
          | None => split_white fuel (String c word) s'
          end
      end
  end.

Definition split_whitespace (s : string) : list string := split_white (S (String.length s)) "" s.

(** ** Data *)

Record SshTarget := {
  host : string;
  user : string;
  port : Z;
  identity_file : option string;
}.

Record SshHostIdentity := { host_keys : list string; fingerprints : list string }.

Record SshBootstrapRequest := {
  target : SshTarget;
  accepted_host_keys : list string;
  archive_path : string;
  checksum_path : string;
}.

Record SshBootstrapResult := { pairing_bundle : string; remote_platform : string }.

(** ** Checks *)

Definition validate_remote_temp_dir (path : string) : result unit string :=
  if negb (starts_with "/tmp/rackio-bootstrap." path) ||
     existsb (fun c => negb (is_alnum c || one_of_chars "/._-" c)) (chars path) ||
     existsb (String.eqb "..") (split_at "/" path)
  then Err "SSH server returned an unsafe temporary directory path."
  else Ok tt.

(** [Path::file_name]: the last component, unless there is none or it is [..]. *)
Definition file_name (path : string) : option string :=
  match List.filter (fun c => negb (str_contains [""; "."] c)) (rev (split_at "/" path)) with
  | [] => None
  | name :: _ => if String.eqb name ".." then None else Some name
  end.

Definition shell_filename (path : string) : result string string :=
  ok_or (name ← file_name path;
         if negb (String.eqb name "") && all_chars (fun c => is_alnum c || one_of_chars "._-" c) name
         then Some name else None)
    "A local release file name is unsafe for SSH transfer.".

Definition remote_target (t : SshTarget) : string :=
  if one_of_chars (host t) ":" then user t +:+ "@[" +:+ host t +:+ "]" else user t +:+ "@" +:+ host t.

(** A double quote in a literal is built from its code. *)
Definition quote : string := String "034" "".

Definition known_hosts_option (known_hosts : string) : string :=
  "UserKnownHostsFile=" +:+ quote +:+ known_hosts +:+ quote.

Definition common_options (t : SshTarget) (known_hosts : string) : list string :=
  (["-o"; "BatchMode=yes"; "-o"; "ConnectTimeout=10"; "-o"; "StrictHostKeyChecking=yes"; "-o";
    known_hosts_option known_hosts] ++
   match identity_file t with Some f => ["-i"; f] | None => [] end)%list.

Definition ssh_options (t : SshTarget) (known_hosts : string) : list string :=
  (["-p"; dec (port t)] ++ common_options t known_hosts)%list.

Definition scp_options (t : SshTarget) (known_hosts : string) : list string :=
  (["-P"; dec (port t)] ++ common_options t known_hosts)%list.

(** ** Known hosts *)

Definition known_hosts_entry (line : string) : option (string * string * string) :=
  match split_whitespace line with
  | hosts :: key_type :: key :: _ =>
      if negb (starts_with "|" hosts) && negb (starts_with "@" hosts) then Some (hosts, key_type, key)
      else None
  | _ => None
  end.

Definition scan_host_tokens (t : SshTarget) : list string :=
  [host t; "[" +:+ host t +:+ "]:" +:+ dec (port t)].

Definition literal_host_key_line (line : string) : bool :=
  match known_hosts_entry line with
  | Some (hosts, _, _) =>
      forallb (fun token => negb (existsb (one_of_chars "*?!") (chars token))) (split_at "," hosts)
  | None => false
  end.

Definition names_target (t : SshTarget) (line : string) : bool :=
  match known_hosts_entry line with
  | Some (hosts, _, _) => existsb (eq_ignore_ascii_case hosts) (scan_host_tokens t)
  | None => false
  end.

Definition retained_scan_lines (t : SshTarget) (lines : list string) : list string :=
  List.filter (fun line => literal_host_key_line line && names_target t line)
    (List.filter (fun line => negb (String.eqb line "") && negb (starts_with "#" line)) (map trim lines)).

(** A [BTreeSet<String>], in order. *)
Definition StrSet := list (string * unit).
Definition set_of (l : list string) : StrSet := fold_left (fun s k => bt_insert k tt s) l [].

Definition normalized_key_set (keys : list string) : StrSet :=
  set_of (List.filter (fun key => negb (String.eqb key "")) (map trim keys)).

Definition conflicts (line known : string) : option string :=
  match known_hosts_entry line, known_hosts_entry known with
  | Some (hosts, key_type, key), Some (known_hosts, known_type, known_key) =>
      if String.eqb known_hosts hosts && String.eqb known_type key_type && negb (String.eqb known_key key)
      then Some ("The " +:+ key_type +:+ " host key for " +:+ hosts +:+
                 " differs from the key Rackio already trusts. Installation was stopped.")
      else None
  | _, _ => None
  end.

(** The first conflict, in the order of the two loops. *)
Definition detect_host_key_conflict (existing incoming : StrSet) : result unit string :=
  match omap (fun '(line, known) => conflicts line known) (list_prod (bt_keys incoming) (bt_keys existing)) with
  | [] => Ok tt
  | message :: _ => Err message
  end.

Definition merged_known_host_lines (existing : string) (keys : list string) : result StrSet string :=
  let merged := set_of (List.filter literal_host_key_line (map trim (lines existing))) in
  let incoming := bt_retain (fun line _ => literal_host_key_line line) (normalized_key_set keys) in
  let? _ := detect_host_key_conflict merged incoming in
  Ok (fold_left (fun s k => bt_insert k tt s) (bt_keys incoming) merged).

(** ** Processes *)

Record Output := {
  succeeded : bool;
  status : string;
  stdout : list Z;
  stderr : string;
}.

(** What the machine of the user does: what the [n]-th process that is started gives (an error
    if its program cannot be started), which paths are regular files, and which file operation or progress report
    fails. *)
Record World := {
  w_output : nat -> result Output string;
  w_is_file : string -> option bool;
  w_config_dir : option string;
  w_file_fault : nat -> bool;
  w_progress_fault : nat -> bool;
}.

(** Every process started: its program, its arguments, its input. *)
Record Process := { program : string; args : list string; input : string }.

Record Bootstrap := {
  started : list Process;
  known_hosts_file : TextFile;
  file_ops : nat;
  reports : nat;
}.

Definition B (A : Type) : Type := World -> Bootstrap -> Bootstrap * result A string.

Definition bret {A} (a : A) : B A := fun _ s => (s, Ok a).
Definition bfail {A} (e : string) : B A := fun _ s => (s, Err e).
Definition bbind {A C} (m : B A) (k : A -> B C) : B C := fun w s =>
  match m w s with
  | (s, Ok a) => k a w s
  | (s, Err e) => (s, Err e)
  end.
Definition lift {A} (r : result A string) : B A := fun _ s => (s, r).

Notation "'do!' x := m 'in' k" := (bbind m (fun x => k))
  (at level 10, x pattern, m at level 100, k at level 200).

(** The process runs to its end; [failure] names why it has no output (it could not be started, given
    its input or waited for). *)
Definition start_process (p : string) (arguments : list string) (stdin failure : string) : B Output := fun w s =>
  let n := length (started s) in
  ({| started := (started s ++ [{| program := p; args := arguments; input := stdin |}])%list;
      known_hosts_file := known_hosts_file s; file_ops := file_ops s; reports := reports s |},
   map_err (fun e => failure +:+ ": " +:+ e) (w_output w n)).

(** [name -V] is run; only that it could be started counts. *)
Definition require_command (name : string) : B unit := fun w s =>
  let '(s, r) := start_process name ["-V"] "" "" w s in
  (s, match r with Ok _ => Ok tt | Err _ => Err (name +:+ " is required but was not found.") end).

Definition output_text (o : Output) (operation : string) : result string string :=
  if negb (succeeded o) then
    let error := trim (stderr o) in
    Err (if String.eqb error "" then operation +:+ " failed with status " +:+ status o
         else operation +:+ " failed: " +:+ error)
  else if valid_utf8 (length (stdout o)) (stdout o) then Ok (trim (byte_text (stdout o)))
  else Err (operation +:+ " returned non-UTF-8 output").

Definition send_progress (stage : string) : B unit := fun w s =>
  ({| started := started s; known_hosts_file := known_hosts_file s; file_ops := file_ops s;
      reports := S (reports s) |},
   if w_progress_fault w (reports s) then Err "Could not report SSH bootstrap progress" else Ok tt).

(** [k] file operations, of which any may fail; the text of the failure does not say which. *)
Definition file_steps (k : nat) (failure : string) : B unit := fun w s =>
  let '(n, ok) := io_steps (w_file_fault w) k (file_ops s) in
  ({| started := started s; known_hosts_file := known_hosts_file s; file_ops := n; reports := reports s |},
   if ok then Ok tt else Err failure).

Definition validate_local_file (path label : string) : B string := fun w s =>
  (s, match w_is_file w path with
      | None => Err (label +:+ " is not readable at " +:+ path)
      | Some false => Err (label +:+ " must be a regular file.")
      | Some true => Ok path
      end).

Definition validate_target (t : SshTarget) : B unit :=
  if String.eqb (host t) "" || (255 <? String.length (host t))%nat ||
     negb (all_chars (fun c => is_alnum c || one_of_chars ".:-" c) (host t))
  then bfail "SSH host is invalid."
  else if String.eqb (user t) "" || (64 <? String.length (user t))%nat ||
          negb (all_chars (fun c => is_alnum c || one_of_chars "_-." c) (user t))
  then bfail "SSH user is invalid."
  else if port t =? 0 then bfail "SSH port must be between 1 and 65535."
  else match identity_file t with
  | Some f => do! _ := validate_local_file f "SSH identity file" in bret tt
  | None => bret tt
  end.

Definition run_ssh (t : SshTarget) (known_hosts command : string) : B Output :=
  do! _ := require_command "ssh" in
  start_process "ssh" (ssh_options t known_hosts ++ [remote_target t; command])%list "" "Could not start SSH".

Definition run_scp (t : SshTarget) (known_hosts : string) (local_files : list string) (remote_dir : string)
  : B unit :=
  do! _ := require_command "scp" in
  do! o := start_process "scp"
             (scp_options t known_hosts ++ local_files ++ [remote_target t +:+ ":" +:+ remote_dir +:+ "/"])%list
             "" "Could not start SCP" in
  do! _ := lift (output_text o "release upload") in
  bret tt.

Definition inspect_host (t : SshTarget) : B SshHostIdentity :=
  do! _ := validate_target t in
  do! _ := require_command "ssh-keyscan" in
  do! _ := require_command "ssh-keygen" in
  do! o := start_process "ssh-keyscan" ["-T"; "10"; "-p"; dec (port t); host t] ""
             "Could not start ssh-keyscan" in
  do! text := lift (output_text o "SSH host-key scan") in
  let keys := retained_scan_lines t (lines text) in
  match keys with
  | [] => bfail "The SSH server returned no host key that names this host."
  | _ =>
      do! f := start_process "ssh-keygen" ["-lf"; "-"] (join (String newline_char "") keys)
                 "Could not start ssh-keygen" in
      do! text := lift (output_text f "SSH fingerprint") in
      bret {| host_keys := keys;
              fingerprints := List.filter (fun l => negb (String.eqb l "")) (map trim (lines text)) |}
  end.

(** The directory is created; the temporary file is created, a line written per key, synced and
    renamed. *)
Definition persist_known_hosts (keys : list string) : B string := fun w s =>
  match w_config_dir w with
  | None => (s, Err "OS application directories are unavailable.")
  | Some dir =>
      let path := path_join (path_join dir "ssh") "known_hosts" in
      (do! _ := file_steps 1 "Could not create the SSH configuration directory" in
       fun w s =>
         match match known_hosts_file s with
               | TextOk t => Ok t
               | TextAbsent => Ok ""
               | TextUnreadable => Err "Could not read Rackio known_hosts"
               end with
         | Err e => (s, Err e)
         | Ok existing =>
             match merged_known_host_lines existing keys with
             | Err conflict =>
                 (s, Err (conflict +:+ " Verify the new key through a trusted channel, then remove the stale " +:+
                          "entry from " +:+ path +:+ "."))
             | Ok merged =>
                 let text := String.concat "" (map (fun k => k +:+ String newline_char "") (bt_keys merged)) in
                 match file_steps (3 + length merged) "Could not persist Rackio known_hosts" w s with
                 | (s, Err e) => (s, Err e)
                 | (s, Ok _) =>
                     ({| started := started s; known_hosts_file := TextOk text; file_ops := file_ops s;
                         reports := reports s |}, Ok path)
                 end
             end
         end) w s
  end.

(** ** The installation *)

Definition PREFLIGHT : string :=
  "set -eu; test " +:+ quote +:+ "$(uname -s)" +:+ quote +:+ " = Linux; command -v systemctl >/dev/null; " +:+
  "if test " +:+ quote +:+ "$(id -u)" +:+ quote +:+ " -ne 0; then command -v sudo >/dev/null; sudo -n true; fi; " +:+
  "printf '%s %s' " +:+ quote +:+ "$(uname -s)" +:+ quote +:+ " " +:+ quote +:+ "$(uname -m)" +:+ quote.

Definition MKTEMP : string := "set -eu; umask 077; mktemp -d /tmp/rackio-bootstrap.XXXXXX".

Definition privilege (t : SshTarget) : string := if String.eqb (user t) "root" then "" else "sudo -n ".

Definition install_command (t : SshTarget) (dir installer archive checksum : string) : string :=
  "set -eu; " +:+ privilege t +:+ "sh " +:+ dir +:+ "/" +:+ installer +:+ " --archive " +:+ dir +:+ "/" +:+
  archive +:+ " --checksum " +:+ dir +:+ "/" +:+ checksum.

Definition pairing_command (t : SshTarget) : string :=
  privilege t +:+ "env RACKIO_SOCKET=/run/rackio/agent.sock /usr/local/bin/rackio pairing create".

Definition cleanup_command (dir : string) : string := "rm -rf -- " +:+ dir.

Section Installation.
Context (parse_value : string -> option Value).

Definition extract_pairing_bundle (output : string) : result string string :=
  let? response := ok_or (parse_value output) "Remote pairing returned invalid JSON" in
  if negb (default false (vget "ok" response ≫= as_bool)) then
    Err (default "Remote agent rejected pairing." (vget "error" response ≫= as_str))
  else
    ok_or (b ← vget "data" response ≫= as_str; if starts_with "rackio-pair:" b then Some b else None)
      "Remote pairing response did not contain a pairing bundle.".

Definition perform_remote_install (r : SshBootstrapRequest) (known_hosts remote_dir archive checksum installer : string)
  : B string :=
  let t := target r in
  do! _ := run_scp t known_hosts [archive; checksum; installer] remote_dir in
  do! _ := send_progress "installing" in
  do! i := lift (shell_filename installer) in
  do! a := lift (shell_filename archive) in
  do! c := lift (shell_filename checksum) in
  do! o := run_ssh t known_hosts (install_command t remote_dir i a c) in
  do! _ := lift (output_text o "remote Rackio install") in
  do! _ := send_progress "pairing" in
  do! o := run_ssh t known_hosts (pairing_command t) in
  do! text := lift (output_text o "remote pairing") in
  lift (extract_pairing_bundle text).

(** Run [m], then [after] whatever [m] gave, ignoring what [after] gives. *)
Definition finally {A C} (m : B A) (after : B C) : B A := fun w s =>
  let '(s, r) := m w s in (fst (after w s), r).

(** [installer] is the path of the temporary copy of install.sh. *)
Definition bootstrap (installer : string) (r : SshBootstrapRequest) : B SshBootstrapResult :=
  let t := target r in
  do! _ := validate_target t in
  do! archive := validate_local_file (archive_path r) "release archive" in
  do! checksum := validate_local_file (checksum_path r) "release checksum" in
  match accepted_host_keys r with
  | [] => bfail "Confirm the SSH host fingerprint before installing."
  | _ =>
      do! _ := send_progress "checking_host_key" in
      do! current_identity := inspect_host t in
      if negb (bool_decide (normalized_key_set (accepted_host_keys r) =
                            normalized_key_set (host_keys current_identity)))
      then bfail "SSH host key changed after confirmation. Installation was stopped."
      else
        do! known_hosts := persist_known_hosts (host_keys current_identity) in
        do! _ := send_progress "checking_access" in
        do! preflight := run_ssh t known_hosts PREFLIGHT in
        do! remote_platform := lift (output_text preflight "SSH preflight") in
        do! _ := send_progress "uploading" in
        do! o := run_ssh t known_hosts MKTEMP in
        do! remote_dir := lift (output_text o "remote temporary directory") in
        do! _ := lift (validate_remote_temp_dir remote_dir) in
        do! _ := file_steps 2 "Could not prepare the local installer" in
        do! bundle := finally (perform_remote_install r known_hosts remote_dir archive checksum installer)
                        (run_ssh t known_hosts (cleanup_command remote_dir)) in
        do! _ := send_progress "connecting_p2p" in
        bret {| pairing_bundle := bundle; remote_platform := remote_platform |}
  end.

End Installation.

(** ** Reasoning about runs *)

(** [m] starts only processes in [P] and, if it succeeds, its value and state are in [Q]. *)
Definition runs {A} (P : Process -> Prop) (m : B A) (w : World) (s : Bootstrap)
    (Q : A -> Bootstrap -> Prop) : Prop :=
  let '(s', r) := m w s in
  (exists l, started s' = (started s ++ l)%list /\ Forall P l) /\
  match r with Ok a => Q a s' | Err _ => True end.

Section Runs.
Context (P : Process -> Prop) (w : World).

Lemma runs_bind {A C} (m : B A) (k : A -> B C) s (Q : A -> Bootstrap -> Prop) R :
  runs P m w s Q -> (forall a s', Q a s' -> runs P (k a) w s' R) -> runs P (bbind m k) w s R.
Proof.
  unfold runs, bbind. destruct (m w s) as [s1 [a|e]]; [|done]. intros [(l1 & E1 & F1) HQ] Hk.
  specialize (Hk a s1 HQ). destruct (k a w s1) as [s2 r]. destruct Hk as [(l2 & E2 & F2) HR].
  split; [|done]. exists (l1 ++ l2)%list. rewrite E2, E1, app_assoc. split; [done|]. by apply Forall_app.
Qed.

(** A step that starts nothing. *)
Lemma runs_quiet {A} (m : B A) s (Q : A -> Bootstrap -> Prop) :
  started (fst (m w s)) = started s ->
  (forall a, snd (m w s) = Ok a -> Q a (fst (m w s))) -> runs P m w s Q.
Proof.
  unfold runs. destruct (m w s) as [s' r]. cbn [fst snd]. intros E H. split.
  - exists []. by rewrite app_nil_r.
  - destruct r; [by apply H|done].
Qed.

Lemma runs_lift {A} (r : result A string) s (Q : A -> Bootstrap -> Prop) :
  (forall a, r = Ok a -> Q a s) -> runs P (lift r) w s Q.
Proof. intros H. by apply runs_quiet. Qed.

Lemma runs_fail {A} e s (Q : A -> Bootstrap -> Prop) : runs P (bfail e) w s Q.
Proof. by apply runs_quiet. Qed.

Lemma runs_require name s (Q : unit -> Bootstrap -> Prop) :
  P {| program := name; args := ["-V"]; input := "" |} ->
  (forall s', length (started s') = S (length (started s)) -> Q tt s') ->
  runs P (require_command name) w s Q.
Proof.
  intros HP HQ. unfold runs, require_command, start_process. split.
  - eexists. split; [reflexivity|]. by constructor.
  - destruct (w_output w _) as [o|]; cbn [map_err]; [|done]. apply HQ.
    cbn [started]. rewrite length_app. cbn [length]. lia.
Qed.

Lemma runs_local_file path label s (Q : string -> Bootstrap -> Prop) :
  Q path s -> runs P (validate_local_file path label) w s Q.
Proof.
  intros H. apply runs_quiet; [done|]. unfold validate_local_file. cbn [fst snd].
  destruct (w_is_file w path) as [[]|]; try done. by intros a [= <-].
Qed.

Lemma runs_progress stage s Q :
  (forall s', started s' = started s -> Q tt s') -> runs P (send_progress stage) w s Q.
Proof. intros H. apply runs_quiet; [done|]. intros [] _. by apply H. Qed.

Lemma runs_files k e s Q : (forall s', started s' = started s -> Q tt s') -> runs P (file_steps k e) w s Q.
Proof.
  intros H. unfold runs, file_steps. destruct (io_steps _ _ _) as [n ok]. split.
  - exists []. by rewrite app_nil_r.
  - destruct ok; [by apply H|done].
Qed.

Lemma runs_start p a i e s (Q : Output -> Bootstrap -> Prop) :
  P {| program := p; args := a; input := i |} ->
  (forall o s', w_output w (length (started s)) = Ok o -> Q o s') -> runs P (start_process p a i e) w s Q.
Proof.
  intros HP HQ. unfold runs, start_process. split.
  - eexists. split; [reflexivity|]. by constructor.
  - destruct (w_output w (length (started s))) as [o|] eqn:E; cbn [map_err]; [|done]. by apply HQ.
Qed.

Lemma runs_weaken {A} (m : B A) s (Q R : A -> Bootstrap -> Prop) :
  runs P m w s Q -> (forall a s', Q a s' -> R a s') -> runs P m w s R.
Proof. unfold runs. destruct (m w s) as [s' [a|e]]; intros [H1 H2] H; split; auto. Qed.

Lemma runs_target t s Q : (forall s', started s' = started s -> Q tt s') -> runs P (validate_target t) w s Q.
Proof.
  intros H. unfold validate_target. destruct (_ || _ || _); [apply runs_fail|].
  destruct (_ || _ || _); [apply runs_fail|]. destruct (port t =? 0); [apply runs_fail|].
  destruct (identity_file t); [|by apply runs_quiet; [|intros [] _; apply H]].
  eapply runs_bind; [by apply (runs_local_file _ _ _ (fun _ s' => s' = s))|].
  intros a s' ->. apply runs_quiet; [done|]. intros [] _. by apply H.
Qed.

(** Run both, whatever the first gives. *)
Lemma runs_finally {A C} (m : B A) (after : B C) s Q :
  runs P m w s (fun _ _ => True) -> (forall s', runs P after w s' (fun _ _ => True)) ->
  (forall a s', Q a s') -> runs P (finally m after) w s Q.
Proof.
  intros Hm Ha HQ. unfold runs, finally in *. destruct (m w s) as [s1 r].
  destruct Hm as [(l1 & E1 & F1) _]. specialize (Ha s1). destruct (after w s1) as [s2 r2]. cbn [fst].
  destruct Ha as [(l2 & E2 & F2) _]. split; [|by destruct r].
  exists (l1 ++ l2)%list. rewrite E2, E1, app_assoc. split; [done|]. by apply Forall_app.
Qed.

End Runs.

(** ** Only a confirmed server is touched *)

(** No character of the word has a meaning to a shell, and the directory stays below the one
    that was created. *)
Definition safe_dir (dir : string) : Prop :=
  starts_with "/tmp/rackio-bootstrap." dir = true /\
  Forall (fun c => is_alnum c || one_of_chars "/._-" c = true) (chars dir) /\ ~ In ".." (split_at "/" dir).

Definition safe_name (name : string) : Prop :=
  name <> "" /\ Forall (fun c => is_alnum c || one_of_chars "._-" c = true) (chars name).

(** The commands a bootstrap runs on the server. *)
Definition expected_command (t : SshTarget) (c : string) : Prop :=
  c = PREFLIGHT \/ c = MKTEMP \/ c = pairing_command t \/
  (exists dir, safe_dir dir /\ c = cleanup_command dir) \/
  (exists dir i a k, safe_dir dir /\ safe_name i /\ safe_name a /\ safe_name k /\
                     c = install_command t dir i a k).

(** The scan of this run names the target with exactly the keys the user confirmed. *)
Definition confirmed (r : SshBootstrapRequest) (w : World) (scan : nat) : Prop :=
  exists o text, w_output w scan = Ok o /\ output_text o "SSH host-key scan" = Ok text /\
    retained_scan_lines (target r) (lines text) <> [] /\
    normalized_key_set (accepted_host_keys r) =
    normalized_key_set (retained_scan_lines (target r) (lines text)).

(** A process that reaches the server (any [ssh] or [scp] but the question for its version)
    does so for a confirmed key, with strict checking against Rackio's own file, and runs an
    expected command. *)
Definition allowed (r : SshBootstrapRequest) (w : World) (scan : nat) (p : Process) : Prop :=
  program p = "ssh" \/ program p = "scp" -> args p <> ["-V"] ->
  confirmed r w scan /\
  exists dir, w_config_dir w = Some dir /\
    let path := path_join (path_join dir "ssh") "known_hosts" in
    In "StrictHostKeyChecking=yes" (args p) /\ In (known_hosts_option path) (args p) /\
    (program p = "ssh" -> exists c, args p = (ssh_options (target r) path ++ [remote_target (target r); c])%list /\
                                    expected_command (target r) c) /\
    (program p = "scp" -> exists files d, safe_dir d /\
       args p = (scp_options (target r) path ++ files ++ [remote_target (target r) +:+ ":" +:+ d +:+ "/"])%list).

Lemma temp_dir_safe dir : validate_remote_temp_dir dir = Ok tt -> safe_dir dir.
Proof.
  unfold validate_remote_temp_dir. destruct (starts_with _ dir) eqn:E1; cbn [negb orb]; [|done].
  destruct (existsb _ (chars dir)) eqn:E2; cbn [orb]; [done|].
  destruct (existsb _ (split_at "/" dir)) eqn:E3; [done|]. intros _. split; [done|]. split.
  - apply List.Forall_forall. intros c Hc. destruct (is_alnum c || one_of_chars "/._-" c) eqn:E; [done|].
    rewrite <- E2. apply existsb_exists. exists c. by rewrite E.
  - intros Hin. assert (existsb (String.eqb "..") (split_at "/" dir) = true); [|congruence].
    apply existsb_exists. by exists "..".
Qed.

Lemma filename_safe path name : shell_filename path = Ok name -> safe_name name.
Proof.
  unfold shell_filename. destruct (file_name path) as [n|]; cbn [base.mbind option_bind]; [|done].
  destruct (String.eqb_spec n "") as [|Hn]; cbn [negb andb]; [done|].
  destruct (all_chars _ n) eqn:E; [|done]. intros [= <-]. split; [done|].
  apply List.Forall_forall. by apply forallb_forall.
Qed.

Section Confirmed.
Context (r : SshBootstrapRequest) (w : World) (scan : nat).

Lemma local_process p a i : p <> "ssh" -> p <> "scp" -> allowed r w scan {| program := p; args := a; input := i |}.
Proof. intros H1 H2 [E|E]; cbn [program] in E; congruence. Qed.

Lemma version_allowed name : allowed r w scan {| program := name; args := ["-V"]; input := "" |}.
Proof. intros _ H. by destruct H. Qed.

Lemma option_in t path l : In "StrictHostKeyChecking=yes" (common_options t path ++ l) /\
                           In (known_hosts_option path) (common_options t path ++ l).
Proof.
  unfold common_options. split; apply in_app_iff; left; apply in_app_iff; left; cbn [In]; tauto.
Qed.

Context (dir : string) (path : string) (Hpath : path = path_join (path_join dir "ssh") "known_hosts") (Hdir : w_config_dir w = Some dir) (Hc : confirmed r w scan).

Lemma ssh_allowed c :
  expected_command (target r) c ->
  allowed r w scan {| program := "ssh"; args := (ssh_options (target r) path ++ [remote_target (target r); c])%list; input := "" |}.
Proof.
  intros He _ _. split; [done|]. exists dir. split; [done|]. cbn [program args]. rewrite <- Hpath.
  unfold ssh_options. rewrite <- app_assoc. cbn [app].
  destruct (option_in (target r) path [remote_target (target r); c]) as [H1 H2].
  split; [right; by right|]. split; [right; by right|]. split; [|done].
  intros _. by exists c.
Qed.

Lemma runs_ssh c s Q :
  expected_command (target r) c -> (forall o s', Q o s') -> runs (allowed r w scan) (run_ssh (target r) path c) w s Q.
Proof.
  intros He HQ. eapply runs_bind; [apply (runs_require _ _ _ _ (fun _ _ => True)); [apply version_allowed|done]|].
  intros _ s1 _.
  apply runs_start; [by apply ssh_allowed|]. intros o s2 _. apply HQ.
Qed.

Lemma runs_scp files d s Q :
  safe_dir d -> (forall u s', Q u s') -> runs (allowed r w scan) (run_scp (target r) path files d) w s Q.
Proof.
  intros Hd HQ. eapply runs_bind; [apply (runs_require _ _ _ _ (fun _ _ => True)); [apply version_allowed|done]|].
  intros _ s1 _.
  eapply runs_bind.
  - apply (runs_start _ _ _ _ _ _ _ (fun _ _ => True)); [|done]. intros _ _. split; [done|]. exists dir.
    split; [done|]. cbn [program args]. rewrite <- Hpath. unfold scp_options. rewrite <- app_assoc. cbn [app].
    destruct (option_in (target r) path (files ++ [remote_target (target r) +:+ ":" +:+ d +:+ "/"])) as [H1 H2].
    split; [right; by right|]. split; [right; by right|]. split; [done|].
    intros _. by exists files, d.
  - intros o s2 _. eapply runs_bind; [by apply (runs_lift _ _ _ _ (fun _ _ => True))|].
    intros _ s3 _. apply runs_quiet; [done|]. intros u _. apply HQ.
Qed.

Context (parse_value : string -> option Value).

Lemma runs_install d a k i s :
  safe_dir d ->
  runs (allowed r w scan) (perform_remote_install parse_value r path d a k i) w s (fun _ _ => True).
Proof.
  intros Hd. unfold perform_remote_install.
  eapply runs_bind; [by apply (runs_scp _ _ _ (fun _ _ => True))|]. intros _ s1 _.
  eapply runs_bind; [by apply (runs_progress _ _ _ _ (fun _ _ => True))|]. intros _ s2 _.
  eapply runs_bind; [by apply (runs_lift _ _ _ _ (fun n _ => safe_name n)); intros n; apply filename_safe|].
  intros n1 s3 H1.
  eapply runs_bind; [by apply (runs_lift _ _ _ _ (fun n _ => safe_name n)); intros n; apply filename_safe|].
  intros n2 s4 H2.
  eapply runs_bind; [by apply (runs_lift _ _ _ _ (fun n _ => safe_name n)); intros n; apply filename_safe|].
  intros n3 s5 H3.
  eapply runs_bind; [apply (runs_ssh _ _ (fun _ _ => True)); [|done]|].
  { do 4 right. by exists d, n1, n2, n3. }
  intros o1 s6 _. eapply runs_bind; [by apply (runs_lift _ _ _ _ (fun _ _ => True))|]. intros _ s7 _.
  eapply runs_bind; [by apply (runs_progress _ _ _ _ (fun _ _ => True))|]. intros _ s8 _.
  eapply runs_bind; [apply (runs_ssh _ _ (fun _ _ => True)); [|done]|].
  { right. right. by left. }
  intros o2 s9 _. eapply runs_bind; [by apply (runs_lift _ _ _ _ (fun _ _ => True))|]. intros t s10 _.
  by apply runs_lift.
Qed.

End Confirmed.

Lemma runs_inspect r w s0 s :
  started s = started s0 ->
  runs (allowed r w (2 + length (started s0))) (inspect_host (target r)) w s
    (fun identity _ => exists o text, w_output w (2 + length (started s0)) = Ok o /\
       output_text o "SSH host-key scan" = Ok text /\
       host_keys identity = retained_scan_lines (target r) (lines text) /\ host_keys identity <> []).
Proof.
  intros Hs. unfold inspect_host.
  eapply runs_bind; [apply (runs_target _ _ _ _ (fun _ s' => started s' = started s)); done|]. intros ? s1 H1.
  eapply runs_bind; [apply (runs_require _ _ _ _ (fun _ s' => length (started s') = S (length (started s1))));
                     [apply version_allowed|done]|]. intros ? s2 H2.
  eapply runs_bind; [apply (runs_require _ _ _ _ (fun _ s' => length (started s') = S (length (started s2))));
                     [apply version_allowed|done]|]. intros ? s3 H3.
  eapply runs_bind.
  { apply (runs_start _ _ _ _ _ _ _ (fun o _ => w_output w (2 + length (started s0)) = Ok o));
      [by apply local_process|]. intros o s'. by rewrite H3, H2, H1, Hs. }
  intros o s4 Ho.
  eapply runs_bind; [apply (runs_lift _ _ _ _ (fun t _ => output_text o "SSH host-key scan" = Ok t)); done|].
  intros text s5 Ht. destruct (retained_scan_lines (target r) (lines text)) as [|k ks] eqn:Hk; [apply runs_fail|].
  eapply runs_bind.
  { apply (runs_start _ _ _ _ _ _ _ (fun _ _ => True)); [by apply local_process|done]. }
  intros f s6 _. eapply runs_bind; [by apply (runs_lift _ _ _ _ (fun _ _ => True))|]. intros t2 s7 _.
  apply runs_quiet; [done|]. intros identity. cbn [bret snd]. intros [= <-]. exists o, text.
  cbn [host_keys]. by rewrite Hk.
Qed.

Lemma runs_persist P w keys s Q :
  (forall dir s', w_config_dir w = Some dir -> Q (path_join (path_join dir "ssh") "known_hosts") s') ->
  runs P (persist_known_hosts keys) w s Q.
Proof.
  intros HQ. unfold persist_known_hosts, runs. destruct (w_config_dir w) as [dir|] eqn:Hd.
  2:{ split; [|done]. exists []. by rewrite app_nil_r. }
  unfold bbind, file_steps. destruct (io_steps (w_file_fault w) 1 (file_ops s)) as [n1 []].
  2:{ split; [|done]. exists []. by rewrite app_nil_r. }
  cbn [known_hosts_file]. destruct (known_hosts_file s) as [t| |].
  3:{ split; [|done]. exists []. by rewrite app_nil_r. }
  all: destruct (merged_known_host_lines _ keys) as [m|e];
    [|split; [|done]; exists []; by rewrite app_nil_r].
  all: cbn [file_ops]; destruct (io_steps _ (3 + length m) n1) as [n2 []];
    (split; [exists []; by rewrite app_nil_r|]); [by apply HQ|done].
Qed.

(** C17: Whatever the server, the programs, the files and the progress window do, a bootstrap reaches
    the server only after the user confirmed exactly the keys its own scan just saw, which name
    that server (the scan is the third process, after the programs for scanning were found);
    every [ssh] and [scp] but the question for its version checks strictly against Rackio's own known_hosts; and
    every command run on the server is a fixed one or has only words no shell interprets, below
    the directory made for it. *)
Theorem only_confirmed_server_is_touched (parse_value : string -> option Value) (installer : string)
    (r : SshBootstrapRequest) (w : World) (s : Bootstrap) :
  exists l, started (fst (bootstrap parse_value installer r w s)) = (started s ++ l)%list /\
            Forall (allowed r w (2 + length (started s))) l.
Proof.
  assert (H : runs (allowed r w (2 + length (started s))) (bootstrap parse_value installer r) w s (fun _ _ => True)).
  2:{ unfold runs in H. destruct (bootstrap parse_value installer r w s) as [s' res]. apply H. }
  unfold bootstrap.
  eapply runs_bind; [apply (runs_target _ _ _ _ (fun _ s' => started s' = started s)); done|]. intros u s1 H1.
  eapply runs_bind; [by apply (runs_local_file _ _ _ _ _ (fun _ s' => started s' = started s))|]. intros archive s2 H2.
  eapply runs_bind; [by apply (runs_local_file _ _ _ _ _ (fun _ s' => started s' = started s))|]. intros checksum s3 H3.
  destruct (accepted_host_keys r) as [|k0 ks] eqn:Hk; [apply runs_fail|]. rewrite <- Hk. clear k0 ks Hk.
  eapply runs_bind; [apply (runs_progress _ _ _ _ (fun _ s' => started s' = started s)); congruence|].
  intros ? s4 H4. eapply runs_bind; [by apply runs_inspect|].
  intros identity s5 (o & text & Ho & Ht & Hid & Hne).
  case_bool_decide as Heq; cbn [negb]; [|apply runs_fail].
  assert (Hc : confirmed r w (2 + length (started s))).
  { exists o, text. rewrite <- Hid. done. }
  eapply runs_bind; [apply (runs_persist _ _ _ _ (fun path _ => exists dir, w_config_dir w = Some dir /\
    path = path_join (path_join dir "ssh") "known_hosts")); eauto|].
  intros path s6 (dir & Hdir & Hpath).
  eapply runs_bind; [by apply (runs_progress _ _ _ _ (fun _ _ => True))|]. intros ? s7 _.
  eapply runs_bind; [apply (runs_ssh _ _ _ dir path Hpath Hdir Hc _ _ (fun _ _ => True)); [by left|done]|].
  intros o1 s8 _. eapply runs_bind; [by apply (runs_lift _ _ _ _ (fun _ _ => True))|]. intros pl s9 _.
  eapply runs_bind; [by apply (runs_progress _ _ _ _ (fun _ _ => True))|]. intros ? s10 _.
  eapply runs_bind; [apply (runs_ssh _ _ _ dir path Hpath Hdir Hc _ _ (fun _ _ => True)); [right; by left|done]|].
  intros o2 s11 _. eapply runs_bind; [by apply (runs_lift _ _ _ _ (fun _ _ => True))|]. intros d s12 _.
  eapply runs_bind; [apply (runs_lift _ _ _ _ (fun _ _ => safe_dir d)); intros []; apply temp_dir_safe|].
  intros ? s13 Hd.
  eapply runs_bind; [by apply (runs_files _ _ _ _ _ (fun _ _ => True))|]. intros ? s14 _.
  eapply runs_bind.
  { apply (runs_finally _ _ _ _ _ (fun _ _ => True)); [by eapply runs_install| |done].
    intros s'. apply (runs_ssh _ _ _ dir path Hpath Hdir Hc); [|done]. do 3 right. left. by exists d. }
  intros b s15 _. eapply runs_bind; [by apply (runs_progress _ _ _ _ (fun _ _ => True))|]. intros ? s16 _.
  by apply runs_quiet.
Qed.

(** ** What the known_hosts file comes to trust *)











Section Merge.
Context (t : SshTarget) (existing : string) (scan : list string).






End Merge.

Definition example_target : SshTarget :=
  {| host := "srv.lan"; user := "root"; port := 22; identity_file := None |}.

Example merge_drops_patterns_and_other_hosts :
  let existing := "*.lan ssh-rsa EVIL" +:+ String newline_char "other ssh-rsa OLD" in
  let scan := ["# srv.lan:22"; "srv.lan ssh-ed25519 NEW"; "bank ssh-rsa EVIL"] in
  merged_known_host_lines existing (retained_scan_lines example_target scan) =
    Ok [("other ssh-rsa OLD", tt); ("srv.lan ssh-ed25519 NEW", tt)].
Proof. vm_compute. reflexivity. Qed.

(** The scan filter compares host names without regard to case, the changed-key check with it: a
    server that spells its name in capitals has a second key of the same type trusted beside the
    recorded one. *)
Lemma respelled_host_evades_changed_key_check :
  let existing := "srv.lan ssh-rsa OLD" in
  let keys := retained_scan_lines example_target ["SRV.LAN ssh-rsa NEW"] in
  keys = ["SRV.LAN ssh-rsa NEW"] /\
  merged_known_host_lines existing keys = Ok [("SRV.LAN ssh-rsa NEW", tt); ("srv.lan ssh-rsa OLD", tt)] /\
  merged_known_host_lines existing ["srv.lan ssh-rsa NEW"] =
    Err "The ssh-rsa host key for srv.lan differs from the key Rackio already trusts. Installation was stopped.".
Proof. vm_compute. auto. Qed.

(** A whole run: the scan, the fingerprints, the preflight, the directory, the upload, the
    installation, the pairing and the clean-up, in this order. *)
Definition example_request : SshBootstrapRequest :=
  {| target := example_target; accepted_host_keys := ["srv.lan ssh-ed25519 NEW"];
     archive_path := "/home/u/rackio.tar.gz"; checksum_path := "/home/u/rackio.sha256" |}.

Definition answers (texts : list string) (n : nat) : result Output string :=
  ok_or (t ← texts !! n;
         Some {| succeeded := true; status := "0"; stdout := text_bytes t;
                 stderr := "" |}) "not started".

Definition example_world : World :=
  {| w_output := answers [""; ""; "srv.lan ssh-ed25519 NEW"; "256 SHA256:x srv.lan"; ""; "Linux x86_64";
                          ""; "/tmp/rackio-bootstrap.aB3"; ""; ""; ""; "installed"; ""; "pairing answer";
                          ""; ""];
     w_is_file := fun _ => Some true; w_config_dir := Some "/home/u/.config/rackio";
     w_file_fault := fun _ => false; w_progress_fault := fun _ => false |}.

Example bootstrap_installs_and_cleans_up :
  let parse := fun _ : string => Some (VObject [("ok", VBool true); ("data", VString "rackio-pair:abc")]) in
  let '(s, r) := bootstrap parse "/tmp/install.sh" example_request example_world
                   {| started := []; known_hosts_file := TextAbsent; file_ops := 0; reports := 0 |} in
  r = Ok {| pairing_bundle := "rackio-pair:abc"; remote_platform := "Linux x86_64" |} /\
  known_hosts_file s = TextOk ("srv.lan ssh-ed25519 NEW" +:+ String newline_char "") /\
  let touching := List.filter (fun p => negb (bool_decide (args p = ["-V"]))) (started s) in
  map program touching = ["ssh-keyscan"; "ssh-keygen"; "ssh"; "ssh"; "scp"; "ssh"; "ssh"; "ssh"] /\
  length (started s) = 16%nat /\
  map (fun p => List.last (args p) "") (List.skipn 4 touching) =
    ["root@srv.lan:/tmp/rackio-bootstrap.aB3/";
     "set -eu; sh /tmp/rackio-bootstrap.aB3/install.sh --archive /tmp/rackio-bootstrap.aB3/rackio.tar.gz" +:+
       " --checksum /tmp/rackio-bootstrap.aB3/rackio.sha256";
     "env RACKIO_SOCKET=/run/rackio/agent.sock /usr/local/bin/rackio pairing create";
     "rm -rf -- /tmp/rackio-bootstrap.aB3"].
Proof. vm_compute. auto. Qed.

End Ssh.
