(* ===== verification/Desktop.v ===== *)
(** The desktop application put together: [lib.rs], [updater.rs] and the event loop of [tray.rs].

    [Preferences], [Badges], [Presentation], [Shell], [Tray] and [Ssh] have the parts. Here is
    the process that owns them: its start, the commands the window may invoke, the polls of the tray
    monitor and the updates they hand to the main thread, the menu, a second launch, the update
    loop and the end of the process, as the events of a state machine. Files outlive the process;
    what is on screen does not. *)

From Stdlib Require Import Ascii String.
From stdpp Require Import gmap strings.
From S2P Require Import Prelude BTree Float Model Alert Storage Framing Transport Net Persist.
From S2P Require Import Codecs Pairing Mdns Server Remote Fleet Config Json LocalIpc Commands.
From S2P Require Import Preferences Badges Presentation Shell Tray Ssh.
Local Open Scope string_scope.
Local Open Scope Z_scope.

Module Desktop.

(** ** State *)

Record Window := { shown : bool; focused : bool }.

(** What is compiled into the application. *)
Record Build := { embedded_key : option string; updater_config : option Value; installer : string }.

(** What outlives the process: the files, with the place of each in its sequence of operations. *)
Record Disk := {
  k_badges : ReadOutcome;
  k_badges_ops : nat;
  k_preferences : ReadOutcome;
  k_preferences_ops : nat;
  k_exports : gmap string ExportFile;
  k_ssh : Ssh.Bootstrap;
}.

(** The managed states, the updates the main thread has not drawn, and the window. *)
Record Desktop := {
  d_build : Build;
  d_badges : Badges.TrayBadges;
  d_preferences : Preferences.DesktopPreferences;
  d_tray : Tray.App;
  d_queue : list Tray.TrayUpdate;
  d_window : option Window;
  d_updates : bool;
  d_exports : gmap string ExportFile;
  d_ssh : Ssh.Bootstrap;
}.

Inductive Process := Running (d : Desktop) | Stopped (k : Disk).

Definition disk_of (d : Desktop) : Disk :=
  {| k_badges := Badges.badges_file (d_badges d); k_badges_ops := Badges.badges_ops (d_badges d);
     k_preferences := Preferences.pref_file (d_preferences d);
     k_preferences_ops := Preferences.pref_ops (d_preferences d);
     k_exports := d_exports d; k_ssh := d_ssh d |}.

Definition with_badges b d :=
  {| d_build := d_build d; d_badges := b; d_preferences := d_preferences d; d_tray := d_tray d;
     d_queue := d_queue d; d_window := d_window d; d_updates := d_updates d; d_exports := d_exports d;
     d_ssh := d_ssh d |}.
Definition with_preferences p d :=
  {| d_build := d_build d; d_badges := d_badges d; d_preferences := p; d_tray := d_tray d;
     d_queue := d_queue d; d_window := d_window d; d_updates := d_updates d; d_exports := d_exports d;
     d_ssh := d_ssh d |}.
Definition with_tray a q d :=
  {| d_build := d_build d; d_badges := d_badges d; d_preferences := d_preferences d; d_tray := a;
     d_queue := q; d_window := d_window d; d_updates := d_updates d; d_exports := d_exports d;
     d_ssh := d_ssh d |}.
Definition with_window w d :=
  {| d_build := d_build d; d_badges := d_badges d; d_preferences := d_preferences d; d_tray := d_tray d;
     d_queue := d_queue d; d_window := w; d_updates := d_updates d; d_exports := d_exports d;
     d_ssh := d_ssh d |}.
Definition with_files e s d :=
  {| d_build := d_build d; d_badges := d_badges d; d_preferences := d_preferences d; d_tray := d_tray d;
     d_queue := d_queue d; d_window := d_window d; d_updates := d_updates d; d_exports := e; d_ssh := s |}.

(** ** Commands *)

(** The handlers of [generate_handler!]. *)
Inductive Command :=
  | FleetSnapshot
  | PairMachine (bundle : string)
  | CreatePairingShare
  | SavePairingBundle (path bundle : string)
  | MachineHistory (endpoint_id : string) (hours : Z)
  | GetDesktopPreferences
  | SetDesktopPreferences (p : Preferences.Preferences)
  | MigrateLegacyPreferences (enabled : bool) (threshold : Preferences.NotificationThreshold)
  | AlertsList
  | AlertsSet (edit : AlertRuleEdit)
  | AlertsRuleEnabled (id : string) (enabled : bool)
  | AlertsReset (id : option string)
  | AlertsSetEnabled (enabled : bool)
  | SetTrayIcon (machine_id : string) (icon : option string)
  | SshInspectHost (t : Ssh.SshTarget)
  | SshBootstrap (r : Ssh.SshBootstrapRequest).

Inductive Reply :=
  | RValue (r : result Value string)
  | RSaved (r : result unit string)
  | RPreferences (r : result Preferences.PreferencesView Preferences.PreferencesError)
  | RIcon (r : result unit Badges.BadgeError)
  | RHost (r : result Ssh.SshHostIdentity string)
  | RBootstrap (r : result Ssh.SshBootstrapResult string).

(** What a command meets: the daemon, the clock, the file it exports to, the machine it runs on, and
    whether the runtime still runs tasks that block ([spawn_blocking]). *)
Record World := {
  w_request : Value -> result Value string;
  w_now : Z;
  w_export : ExportEnv;
  w_ssh : Ssh.World;
  w_joined : bool;
}.

(** What the plugin does in one check: it builds, it finds a version, it installs it. *)
Record UpdaterOps := { u_build : bool; u_check : option (option string); u_install : bool }.

Inductive Event :=
  | Invoke (w : World) (c : Command)
  | Poll (request : Value -> result Value string) (dispatched : bool)
  | Drawing (ops : string -> Tray.TrayOps)
  | MenuClick (id : string) (show_ok focus_ok : bool)
  | WindowClosed
  | UpdateTick (ops : UpdaterOps) (next : Build)
  | Ended
  | Launch (b : Build) (show_ok focus_ok : bool).

Section Desktop.
Context {GR : Graphemes} (to_uppercase : string -> string).
Context {IJ : JsonCodec Badges.Icons anything} (badges_fault : nat -> bool).
Context {PJ : JsonCodec Preferences.Preferences anything} (pref_fault : nat -> bool).
Context {B64 : Base64} (parse_value : list Z -> option Value) (parse_text : string -> option Value).
Context (qr_svg : string -> result string string) (standard_base64 : string -> string).
Context (config_dir : option string).

Definition qr_data_url (bundle : string) : result string string :=
  let? svg := map_err (fun e => "Pairing bundle is too large for a QR code: " +:+ e) (qr_svg bundle) in
  Ok ("data:image/svg+xml;base64," +:+ standard_base64 svg).

(** A command that blocks runs on a thread of its own, and its answer is waited for. *)
Definition blocking {A} (lost : string) (w : World) (m : Ssh.B A) (s : Ssh.Bootstrap)
  : Ssh.Bootstrap * result A string :=
  if w_joined w then m (w_ssh w) s else (s, Err lost).

Definition invoke (w : World) (c : Command) (d : Desktop) : Desktop * Reply :=
  let request := w_request w in
  match c with
  | FleetSnapshot => (d, RValue (load_fleet_snapshot request to_uppercase (d_badges d)))
  | PairMachine bundle => (d, RValue (pair_machine request bundle))
  | CreatePairingShare => (d, RValue (create_pairing_share parse_value qr_data_url request))
  | SavePairingBundle path bundle =>
      let '(f, r) := save_pairing_bundle (w_export w) path bundle (d_exports d !! path) in
      (with_files (partial_alter (fun _ => f) path (d_exports d)) (d_ssh d) d, RSaved r)
  | MachineHistory e hours => (d, RValue (machine_history request (w_now w) e hours))
  | GetDesktopPreferences => (d, RPreferences (Preferences.view (d_preferences d)))
  | SetDesktopPreferences p =>
      let '(s, r) := Preferences.handle pref_fault (Preferences.Set_ p) (d_preferences d) in
      (with_preferences s d, RPreferences r)
  | MigrateLegacyPreferences enabled threshold =>
      let '(s, r) := Preferences.handle pref_fault (Preferences.Migrate enabled threshold) (d_preferences d) in
      (with_preferences s d, RPreferences r)
  | AlertsList => (d, RValue (alerts_list request))
  | AlertsSet edit => (d, RValue (alerts_set request edit))
  | AlertsRuleEnabled id enabled => (d, RValue (alerts_rule_enabled request id enabled))
  | AlertsReset id => (d, RValue (alerts_reset request id))
  | AlertsSetEnabled enabled => (d, RValue (alerts_set_enabled request enabled))
  | SetTrayIcon machine icon =>
      let '(b, r) := Badges.set badges_fault machine icon (d_badges d) in (with_badges b d, RIcon r)
  | SshInspectHost t =>
      let '(s, r) := blocking "SSH host inspection task failed" w (Ssh.inspect_host t) (d_ssh d) in
      (with_files (d_exports d) s d, RHost r)
  | SshBootstrap r =>
      let '(s, r) := blocking "SSH bootstrap task failed" w
                       (Ssh.bootstrap parse_text (installer (d_build d)) r) (d_ssh d) in
      (with_files (d_exports d) s d, RBootstrap r)
  end.

(** ** The event loop *)

(** A poll reads the daemon and the badges, then hands the update to the main thread, which may no
    longer take it. *)
Definition poll (request : Value -> result Value string) (dispatched : bool) (d : Desktop) : Desktop :=
  let u := Tray.tray_update (load_fleet_snapshot request to_uppercase (d_badges d)) in
  if dispatched then with_tray (d_tray d) (d_queue d ++ [u])%list d else d.

(** The main thread takes the oldest update. *)
Definition draw_next (ops : string -> Tray.TrayOps) (d : Desktop) : Desktop :=
  match d_queue d with
  | [] => d
  | u :: q => with_tray (Tray.draw_update ops u (d_tray d)) q d
  end.

(** A focused window was shown, or was already. *)
Definition show_dashboard (show_ok focus_ok : bool) (d : Desktop) : Desktop :=
  with_window ((fun w => {| shown := shown w || show_ok; focused := focused w || focus_ok |}) <$> d_window d) d.

Definition tray_event_handler (id : string) (show_ok focus_ok : bool) (d : Desktop) : Process :=
  if String.eqb id "show" then Running (show_dashboard show_ok focus_ok d)
  else if String.eqb id "quit" then Stopped (disk_of d)
  else Running d.

(** Whether an update was installed, which restarts the application. *)
Definition check_and_install (ops : UpdaterOps) : result bool string :=
  if negb (u_build ops) then Err "updater could not be built"
  else match u_check ops with
  | None => Err "update check failed"
  | Some None => Ok false
  | Some (Some _) => if u_install ops then Ok true else Err "update could not be installed"
  end.

(** [run]: refuse a build whose keys differ, then set up the states from their files. *)
Definition desktop_run (b : Build) (k : Disk) : result Desktop string :=
  let? _ := register (embedded_key b) (updater_config b) in
  Ok {| d_build := b; d_badges := Badges.load config_dir (k_badges k) (k_badges_ops k);
        d_preferences := Preferences.load config_dir (k_preferences k) (k_preferences_ops k);
        d_tray := Tray.app_start; d_queue := []; d_window := Some {| shown := false; focused := false |};
        d_updates := start (embedded_key b); d_exports := k_exports k; d_ssh := k_ssh k |}.

Definition launch (b : Build) (k : Disk) : Process :=
  match desktop_run b k with Ok d => Running d | Err _ => Stopped k end.

(** A second copy refuses as the first one would, and otherwise only brings the dashboard of the first
    one forward. *)
Definition second_launch (b : Build) (show_ok focus_ok : bool) (d : Desktop) : Desktop :=
  match register (embedded_key b) (updater_config b) with
  | Ok _ => show_dashboard show_ok focus_ok d
  | Err _ => d
  end.

Definition update_tick (ops : UpdaterOps) (next : Build) (d : Desktop) : Process :=
  if d_updates d then
    match check_and_install ops with
    | Ok true => launch next (disk_of d)
    | _ => Running d
    end
  else Running d.

Definition step (e : Event) (p : Process) : Process :=
  match p with
  | Running d =>
      match e with
      | Invoke w c => Running (fst (invoke w c d))
      | Poll request dispatched => Running (poll request dispatched d)
      | Drawing ops => Running (draw_next ops d)
      | MenuClick id show_ok focus_ok => tray_event_handler id show_ok focus_ok d
      | WindowClosed => Running (with_window None d)
      | UpdateTick ops next => update_tick ops next d
      | Ended => Stopped (disk_of d)
      | Launch b show_ok focus_ok => Running (second_launch b show_ok focus_ok d)
      end
  | Stopped k => match e with Launch b _ _ => launch b k | _ => p end
  end.

Definition run (evs : list Event) (p : Process) : Process := fold_left (fun p e => step e p) evs p.

(** ** What holds at every moment *)

Definition STATUS_MESSAGES : list string := ["Agent unavailable"; "Invalid agent snapshot"; "No paired machines"].

(** The title of a status item: one glyph and a state's symbol, or what is wrong. *)
Definition narrow (title : string) : Prop :=
  In title STATUS_MESSAGES \/
  exists label st, Badges.one_glyph label /\ title = label +:+ " " +:+ Tray.tray_state_symbol st.

(** Updates run only on a build whose key is the one its configuration verifies with. *)
Definition keys_agree (b : Build) : Prop :=
  exists key pubkey, embedded_key b = Some key /\ trim key <> "" /\
    updater_config b ≫= vget "pubkey" = Some (VString pubkey) /\ trim pubkey = trim key.

Record sound (d : Desktop) : Prop := {
  s_icons : Badges.icons_durable (d_badges d);
  s_icons_path : Badges.path (d_badges d) = (fun dir => path_join dir Badges.BADGES_FILE) <$> config_dir;
  s_preferences : Preferences.durable (d_preferences d);
  s_preferences_path :
    Preferences.path (d_preferences d) = (fun dir => path_join dir Preferences.PREFERENCES_FILE) <$> config_dir;
  s_tray : Tray.app_ok (d_tray d);
  s_titles : Tray.titles narrow (d_tray d);
  s_queue : Forall (Tray.update_titles narrow) (d_queue d);
  s_updates : d_updates d = true -> keys_agree (d_build d);
}.

(** ** What a poll finds *)

Lemma machine_json_object source st p rtt seen trend detail v :
  machine_json source st p rtt seen trend detail = Ok v -> exists m, v = VObject m.
Proof.
  unfold machine_json. destruct (vget "node" source) as [node|]; [|done]. cbn [ok_or result_bind].
  destruct (vget "node_id" node ≫= as_str); [|done]. cbn [ok_or result_bind].
  destruct (vget "display_name" node ≫= as_str); [|done]. cbn [ok_or result_bind].
  intros [= <-]. unfold obj. eauto.
Qed.

Lemma collected_objects l ms :
  collect_results remote_machine l = Ok ms -> Forall (fun v => exists m, v = VObject m) ms.
Proof.
  revert ms. induction l as [|x l IH]; intros ms; cbn [collect_results]; [by intros [= <-]|].
  destruct (remote_machine x) as [v|] eqn:Ev; [|done]. cbn [result_bind].
  destruct (collect_results remote_machine l) as [vs|]; [|done]. cbn [result_bind]. intros [= <-].
  constructor; [by eapply machine_json_object|by apply IH].
Qed.

(** The dashboard's value: the machines, decorated. *)
Lemma fleet_value request b v :
  load_fleet_snapshot request to_uppercase b = Ok v ->
  exists ms, Forall (fun v => exists m, v = VObject m) ms /\
    v = obj [("daemon", VString "connected"); ("nodes", VArray (map (Badges.decorate to_uppercase b) ms))].
Proof.
  unfold load_fleet_snapshot. destruct (request _) as [r|]; [|done]. cbn [result_bind].
  destruct (vget "data" r) as [data|]; [|done]. cbn [ok_or result_bind].
  destruct (vget "local" data) as [local|]; [|done]. cbn [ok_or result_bind].
  destruct (local_machine local) as [n|] eqn:En; [|done]. cbn [result_bind].
  destruct (vget "remotes" data ≫= as_array) as [rs|]; [|done]. cbn [ok_or result_bind].
  destruct (collect_results remote_machine rs) as [ms|] eqn:Er; [|done]. cbn [result_bind].
  intros [= <-]. exists (n :: ms). split; [|done].
  constructor; [by eapply machine_json_object|by eapply collected_objects].
Qed.

Lemma node_label v n : Tray.node_of_value v = Some n -> need "trayLabel" as_str v = Some (Tray.tray_label n).
Proof. unfold Tray.node_of_value. intros H. simplify_option_eq. done. Qed.

Lemma read_label b x n :
  Badges.icons_ok (Badges.icons b) -> (exists m, x = VObject m) ->
  Tray.node_of_value (Badges.decorate to_uppercase b x) = Some n -> narrow (Tray.tray_node_status n).
Proof.
  intros Hb [m ->] H%node_label. destruct (Badges.decorate_glyph to_uppercase b m Hb) as (label & E & G).
  unfold need in H. rewrite E in H. cbn [base.mbind option_bind as_str] in H. injection H as H.
  right. exists label, (Tray.state n). split; [done|]. unfold Tray.tray_node_status. by rewrite H.
Qed.

Lemma poll_titles request b :
  Badges.icons_ok (Badges.icons b) ->
  Tray.update_titles narrow (Tray.tray_update (load_fleet_snapshot request to_uppercase b)).
Proof.
  intros Hb. assert (Hs : forall st m, In m STATUS_MESSAGES -> Tray.update_titles narrow (Tray.DrawStatus st m))
    by (intros st m Hm; by left).
  destruct (load_fleet_snapshot request to_uppercase b) as [v|e] eqn:E; [|apply Hs; cbn; tauto].
  destruct (fleet_value request b v E) as (ms & Hms & ->). unfold Tray.tray_update.
  destruct (Tray.snapshot_of_value _) as [s|] eqn:Es; [|apply Hs; cbn; tauto].
  destruct (String.eqb _ _); [|apply Hs; cbn; tauto].
  assert (H : mapM Tray.node_of_value (map (Badges.decorate to_uppercase b) ms) = Some (Tray.nodes s)).
  { unfold Tray.snapshot_of_value, need in Es. revert Es. read_fields. cbn [base.mbind option_bind as_str as_array].
    destruct (mapM Tray.node_of_value _) as [ns|]; [|done]. cbn [base.mbind option_bind]. by intros [= <-]. }
  destruct (Tray.nodes s) as [|n l]; [apply Hs; cbn; tauto|]. cbn [Tray.update_titles].
  apply mapM_Some in H. clear -Hb Hms H. revert ms Hms H. generalize (n :: l). clear n l.
  intros ns. induction ns as [|n ns IH]; intros ms Hms H; [constructor|].
  destruct ms as [|x ms]; [by inversion H|]. cbn [map] in H. inversion H; subst. inversion Hms; subst.
  constructor; [by eapply read_label|by eapply IH].
Qed.

(** ** Every event keeps it *)

Definition process_sound (p : Process) : Prop := match p with Running d => sound d | Stopped _ => True end.

Lemma run_sound b k d : desktop_run b k = Ok d -> sound d.
Proof.
  unfold desktop_run. pose proof (updates_need_the_embedded_key (embedded_key b) (updater_config b)) as H.
  destruct (register _ _) as [plugin|]; [|done]. cbn [result_bind]. intros [= <-]. destruct H as [Hs Hk].
  split; cbn; try done.
  - apply Badges.load_icons_durable.
  - apply Tray.start_ok.
  - rewrite Hs. intros Hp. exact (Hk Hp).
Qed.

Lemma launch_sound b k : process_sound (launch b k).
Proof. unfold launch. destruct (desktop_run b k) as [d|] eqn:E; [by eapply run_sound|done]. Qed.

Lemma invoke_sound w c d : sound d -> sound (fst (invoke w c d)).
Proof.
  intros H. assert (Hp : forall r, sound (with_preferences (fst (Preferences.handle pref_fault r (d_preferences d))) d)).
  { intros r. destruct H as [? ? H1 H2 ? ? ? ?].
    split; cbn; try done; [by apply Preferences.handle_durable|by rewrite Preferences.handle_path]. }
  assert (Hf : forall e s, sound (with_files e s d)) by (intros; by destruct H).
  destruct c; try exact H; cbn [invoke].
  - destruct (save_pairing_bundle _ _ _ _). apply Hf.
  - specialize (Hp (Preferences.Set_ p)). by destruct (Preferences.handle _ _ _).
  - specialize (Hp (Preferences.Migrate enabled threshold)). by destruct (Preferences.handle _ _ _).
  - destruct H as [H1 H2 ? ? ? ? ? ?]. destruct (Badges.set_icons_durable badges_fault machine_id icon (d_badges d) H1)
      as [K1 K2]. destruct (Badges.set _ _ _ _) as [b r]. split; cbn in *; try done. by rewrite K2.
  - destruct (blocking _ _ _ _). apply Hf.
  - destruct (blocking _ _ _ _). apply Hf.
Qed.

Lemma poll_sound request dispatched d : sound d -> sound (poll request dispatched d).
Proof.
  intros H. unfold poll. destruct dispatched; [|done]. destruct H. split; cbn; try done.
  apply list.Forall_app. split; [done|]. constructor; [|done]. by apply poll_titles, s_icons0.
Qed.

Lemma draw_next_sound ops d : sound d -> sound (draw_next ops d).
Proof.
  intros H. unfold draw_next. destruct (d_queue d) as [|u q] eqn:Eq; [done|].
  destruct H as [? ? ? ? Ht Hn Hq ?]. rewrite Eq in Hq. inversion Hq; subst. split; cbn; try done.
  - by apply Tray.update_ok.
  - by apply Tray.draw_update_titles.
Qed.

Lemma window_sound w d : sound d -> sound (with_window w d).
Proof. by intros []. Qed.

Lemma step_sound e p : process_sound p -> process_sound (step e p).
Proof.
  destruct p as [d|k]; cbn [step process_sound]; [|intros _; destruct e; try done; apply launch_sound].
  intros H. destruct e; cbn [process_sound]; try done.
  - by apply invoke_sound.
  - by apply poll_sound.
  - by apply draw_next_sound.
  - unfold tray_event_handler. destruct (String.eqb id "show"); [by apply window_sound|].
    by destruct (String.eqb id "quit").
  - by apply window_sound.
  - unfold update_tick. destruct (d_updates d); [|done].
    destruct (check_and_install ops) as [[]|]; [apply launch_sound|done|done].
  - unfold second_launch. destruct (register _ _); [by apply window_sound|done].
Qed.

Lemma process_run_sound evs b k : process_sound (run evs (launch b k)).
Proof.
  unfold run. pose proof (launch_sound b k) as H. revert H. generalize (launch b k).
  induction evs as [|e evs IH]; intros p H; [done|]. cbn [fold_left]. by apply IH, step_sound.
Qed.

Lemma restart_keeps d b' d' :
  sound d -> desktop_run b' (disk_of d) = Ok d' ->
  Badges.icons (d_badges d') = Badges.icons (d_badges d) /\
  Preferences.state (d_preferences d') = Preferences.state (d_preferences d).
Proof.
  intros [[_ H1] H2 H3 H4 _ _ _ _]. unfold desktop_run. destruct (register _ _); [|done]. cbn [result_bind].
  intros [= <-]. cbn. rewrite H1, H2, H3, H4. done.
Qed.

(** C21: Whatever was on disk at the first launch and whatever happened since (commands, polls, drawings, menu
    clicks, failing files and platform calls, updates, ends and launches): a restart shows the
    icons and the preferences that are shown now, and notifications are on only where a valid
    file says so; every status item is registered, with a menu of its own, and is titled with one
    glyph and a state, or with what is wrong; every machine on the dashboard has a badge of one
    glyph; and updates are looked for only by a build whose key its configuration verifies with. *)
Theorem desktop_stays_sound (evs : list Event) (b : Build) (k : Disk) :
  match run evs (launch b k) with
  | Stopped _ => True
  | Running d =>
      (forall b' d', desktop_run b' (disk_of d) = Ok d' ->
         Badges.icons (d_badges d') = Badges.icons (d_badges d) /\
         Preferences.state (d_preferences d') = Preferences.state (d_preferences d)) /\
      (Preferences.notifications_enabled (Preferences.preferences (Preferences.state (d_preferences d))) = true ->
         Preferences.read (k_preferences (disk_of d)) =
         Ok (Some (Preferences.preferences (Preferences.state (d_preferences d))))) /\
      (forall i t, Tray.trays (d_tray d) !! i = Some t ->
         i ∈ Tray.machine_ids (d_tray d) /\ Tray.menus (d_tray d) !! i = Some (Tray.t_menu t) /\
         narrow (Tray.t_title t) /\
         forall j u, Tray.trays (d_tray d) !! j = Some u -> Tray.t_menu u = Tray.t_menu t -> j = i) /\
      (forall w v node, invoke w FleetSnapshot d = (d, RValue (Ok v)) ->
         (exists l, vget "nodes" v = Some (VArray l) /\ In node l) ->
         exists label, vget "trayLabel" node = Some (VString label) /\ Badges.one_glyph label) /\
      (d_updates d = true -> keys_agree (d_build d))
  end.
Proof.
  pose proof (process_run_sound evs b k) as H. destruct (run evs (launch b k)) as [d|k']; [|done].
  cbn [process_sound] in H. split; [|split; [|split; [|split]]].
  - intros b' d'. by apply restart_keeps.
  - destruct H as [_ _ H1 H2 _ _ _ _]. cbn [disk_of k_preferences]. unfold Preferences.durable in H1.
    rewrite H1, H2. unfold Preferences.loaded. destruct config_dir; [|done]. cbn [fmap option_fmap option_map].
    by destruct (Preferences.read _) as [[p|]|].
  - intros i t Hi. destruct (s_tray d H) as [Hm Hr]. destruct (Tray.mo_shared _ Hm i t Hi) as [H1 _].
    split_and!; [apply Hr; by eexists|done|by apply (s_titles d H i)|].
    intros j u Hj E. by apply (Tray.mo_own _ Hm j i u t).
  - intros w v node E (l & El & Hl). cbn [invoke] in E. injection E as E.
    destruct (fleet_value _ _ _ E) as (ms & Hms & ->). rewrite vget_obj in El. injection El as <-.
    apply in_map_iff in Hl as (x & <- & Hx). rewrite List.Forall_forall in Hms. destruct (Hms x Hx) as [m ->].
    apply Badges.decorate_glyph. exact (proj1 (s_icons d H)).
  - apply (s_updates d H).
Qed.

(** ** From the operator's choice to the menu bar *)

Lemma draw_all_next (ops : string -> Tray.TrayOps) (d : Desktop) (q : list Tray.TrayUpdate) (u : Tray.TrayUpdate) :
  sound d -> d_queue d = (q ++ [u])%list ->
  exists a, Tray.app_ok a /\
    run (replicate (S (length q)) (Drawing ops)) (Running d) = Running (with_tray (Tray.draw_update ops u a) [] d).
Proof.
  revert d. induction q as [|x q IH]; intros d Hd Hq.
  - exists (d_tray d). split; [apply (s_tray d Hd)|]. cbn. unfold draw_next. by rewrite Hq.
  - pose proof (draw_next_sound ops d Hd) as Hd'.
    assert (E : draw_next ops d = with_tray (Tray.draw_update ops x (d_tray d)) (q ++ [u])%list d)
      by (unfold draw_next; by rewrite Hq).
    rewrite E in Hd'. destruct (IH _ Hd' eq_refl) as (a & Ha & Hr). exists a. split; [done|].
    cbn [length replicate]. unfold run in *. cbn [fold_left step] in *. by rewrite E.
Qed.

Lemma set_icon_shown machine text b b' :
  Badges.set badges_fault machine (Some text) b = (b', Ok tt) ->
  exists glyph, Badges.validate_icon text = Ok glyph /\ Badges.icon b' machine = Some glyph.
Proof.
  intros E. pose proof (Badges.set_icon_cases badges_fault machine (Some text) b) as C. rewrite E in C.
  destruct C as (g & V & Hi & _ & _ & Hp & _). cbn [Badges.validated] in V.
  destruct (Badges.validate_icon text) as [glyph|]; [|done]. cbn [result_bind] in V. injection V as <-.
  exists glyph. split; [done|]. unfold Badges.icon. rewrite Hi. cbn [Badges.next_icons].
  destruct (Badges.icons_poisoned b') eqn:Hl; [|apply bt_get_insert_eq]. exfalso.
  unfold Badges.set in E. rewrite <- Hp in E. destruct (String.eqb machine ""); [done|].
  destruct (Badges.validated _); [|done]. by destruct (Badges.path b).
Qed.

Section Surfaces.
Context (uuid_text : Uuid -> string).
Context {J : Type} {SC : SampleCodec J} (db_fault : nat -> bool).
Context {ET : EndpointText} {BJ : JsonCodec PairingBundle anything}.
Context {RJ : JsonCodec Records anything} {MJ : JsonCodec Machines machines_finite}.
Context {float_ok : f64 -> Prop} {CJ : JsonCodec AgentConfig (config_carried float_ok)}.
Context (peers_fault machines_fault config_fault : nat -> bool) (parse_uuid : string -> option Uuid).
Context {Url Cert : Type} (parse_relay_url : string -> option Url).
Context (read_file : string -> option (list Z)) (pem_sections : list Z -> option (list Cert)).
Context (verifier : list Cert -> bool) (ca_text : RelayCaError -> string).
Context (mdns_spawn : PairingMdnsAdvertisement -> result unit string).
Context {DC : Display PersistError} {DF : Display RemoteFleetError} {DP : Display PairingError}.
Context {DM : Display PairingMdnsError} {DS : Display ServerError} {DQ : Display StoreError}.

Definition daemon (env : LocalEnv (Url := Url)) (ctx : LocalContext (J := J)) : Value -> result Value string :=
  daemon_of uuid_text db_fault peers_fault machines_fault config_fault parse_uuid parse_relay_url read_file
    pem_sections verifier ca_text mdns_spawn env ctx.

(** The machines the tray draws: the daemon's own, then the paired ones, with their badges. *)
Definition machines (env : LocalEnv (Url := Url)) (ctx : LocalContext (J := J)) (p : StatusPayload) (b : Badges.TrayBadges)
  : list Tray.TrayNodeSnapshot :=
  Tray.local_node uuid_text to_uppercase b p ::
  map (Tray.remote_node uuid_text to_uppercase b) (snapshots_at (le_now_snapshots env) (lc_fleet ctx)).

Lemma machine_label env ctx p b n :
  In n (machines env ctx p b) ->
  exists name, Tray.tray_label n = Badges.badge_label to_uppercase (Badges.icon b (Tray.id n)) name.
Proof. intros [<-|(s & <- & _)%in_map_iff]; eexists; reflexivity. Qed.

(** C22: An icon the operator chose is the glyph its machine has in the menu bar once the next poll of a daemon
    that answers is drawn, behind whatever the main thread still had to draw; and the dashboard then
    reads the same machines, with the same badges. *)
Theorem chosen_icon_reaches_menu_bar (evs : list Event) (b : Build) (k : Disk) (d : Desktop) (w : World)
    (machine text : string) (env : LocalEnv (Url := Url)) (ctx : LocalContext (J := J)) (p : StatusPayload)
    (ops : string -> Tray.TrayOps) (index : nat) (n : Tray.TrayNodeSnapshot) :
  run evs (launch b k) = Running d ->
  let b' := fst (Badges.set badges_fault machine (Some text) (d_badges d)) in
  snd (invoke w (SetTrayIcon machine (Some text)) d) = RIcon (Ok tt) ->
  local_status env ctx = Ok p ->
  Tray.latest_readable (st_latest p) ->
  Forall Tray.remote_readable (snapshots_at (le_now_snapshots env) (lc_fleet ctx)) ->
  NoDup (map Tray.id (machines env ctx p b')) ->
  (forall i, Tray.works (ops i)) ->
  machines env ctx p b' !! index = Some n -> Tray.id n = machine ->
  exists d' glyph i t,
    run (Invoke w (SetTrayIcon machine (Some text)) :: Poll (daemon env ctx) true ::
         replicate (S (length (d_queue d))) (Drawing ops)) (Running d) = Running d' /\
    Badges.validate_icon text = Ok glyph /\
    (i = Tray.machine_tray_id n \/ index = 0%nat /\ i = Tray.STATUS) /\
    Tray.trays (d_tray d') !! i = Some t /\
    Tray.t_title t = glyph +:+ " " +:+ Tray.tray_state_symbol (Tray.state n) /\
    forall w' r, w_request w' = daemon env ctx -> snd (invoke w' FleetSnapshot d') = RValue r ->
      Tray.tray_update r = Tray.DrawMachines (machines env ctx p b').
Proof.
  intros Hrun b' Hset Hp Hl Hr Hnd Hw Hn Hid.
  pose proof (process_run_sound evs b k) as Hd. rewrite Hrun in Hd. cbn [process_sound] in Hd.
  pose proof (poll_sound (daemon env ctx) true _ (invoke_sound w (SetTrayIcon machine (Some text)) d Hd)) as Hd2.
  cbn [invoke] in *. destruct (Badges.set badges_fault machine (Some text) (d_badges d)) as [b2 r] eqn:Es.
  cbn [fst snd] in *. injection Hset as ->. subst b'.
  destruct (set_icon_shown _ _ _ _ Es) as (glyph & Hg & Hi).
  assert (Hans : forall request, request = daemon env ctx ->
            Tray.tray_update (load_fleet_snapshot request to_uppercase b2) = Tray.DrawMachines (machines env ctx p b2))
    by (intros request ->; by apply Tray.answer_is_fleet).
  unfold poll in Hd2. cbn [d_badges with_badges d_queue d_tray] in Hd2. rewrite (Hans _ eq_refl) in Hd2.
  destruct (draw_all_next ops _ (d_queue d) (Tray.DrawMachines (machines env ctx p b2)) Hd2 eq_refl) as (a & Ha & Hrn).
  destruct (Tray.tray_exact ops (machines env ctx p b2) a Ha Hnd) as [_ Hx].
  { apply List.Forall_forall. intros [j m] Hj. split; [apply Hw|].
    pose proof (Tray.machines_coloured uuid_text to_uppercase p b2
                  (snapshots_at (le_now_snapshots env) (lc_fleet ctx))) as Hc.
    rewrite List.Forall_forall in Hc. apply Hc. by apply in_combine_r in Hj. }
  destruct (Hx index n Hn) as (t & Ht & _ & Htitle & _).
  eexists _, glyph, (Tray.item_id (Tray.status_slot_of a) index n), t. split_and!.
  - unfold run. cbn [fold_left step]. cbn [invoke]. rewrite Es. unfold poll.
    cbn [fst d_badges with_badges d_queue d_tray]. rewrite (Hans _ eq_refl). exact Hrn.
  - done.
  - unfold Tray.item_id. destruct (Nat.eqb_spec index 0) as [->|]; cbn [andb]; [|by left].
    destruct (Tray.status_slot_of a); [by right|by left].
  - exact Ht.
  - rewrite Htitle. unfold Tray.tray_node_status.
    destruct (machine_label env ctx p b2 n) as [name ->]; [by eapply list_elem_of_In, list_elem_of_lookup_2|].
    rewrite Hid, Hi. done.
  - intros w' r Hw'. cbn. intros [= <-]. by apply Hans.
Qed.

End Surfaces.

End Desktop.

(** ** Witnesses *)

#[local] Instance no_display {A} : Display A := fun _ => "error".
#[local] Existing Instance Badges.byte_graphemes.
#[local] Existing Instance Preferences.preferences_json.
#[local] Instance icons_json : JsonCodec Badges.Icons anything := countable_json Badges.Icons anything.

Definition demo_build : Build := {| embedded_key := None; updater_config := None; installer := "#!/bin/sh" |}.

Definition demo_disk : Disk :=
  {| k_badges := NotFound; k_badges_ops := 0; k_preferences := NotFound; k_preferences_ops := 0;
     k_exports := ∅;
     k_ssh := {| Ssh.started := []; Ssh.known_hosts_file := TextAbsent; Ssh.file_ops := 0; Ssh.reports := 0 |} |}.

Definition demo_desktop : Desktop :=
  {| d_build := demo_build; d_badges := Badges.load (Some "/home/u/.config/rackio") NotFound 0;
     d_preferences := Preferences.load (Some "/home/u/.config/rackio") NotFound 0;
     d_tray := Tray.app_start; d_queue := []; d_window := Some {| shown := false; focused := false |};
     d_updates := false; d_exports := ∅; d_ssh := k_ssh demo_disk |}.

Definition demo_world : World :=
  {| w_request := fun _ => Err "unused"; w_now := 1000;
     w_export := {| x_open_ok := true; x_created_mode := fun m => m; x_chmod_ok := true; x_written := None;
                    x_sync_ok := true |};
     w_ssh := Ssh.example_world; w_joined := true |}.

(** A daemon with one other machine. *)
Definition other_info : NodeInfo :=
  {| node_id := 5; display_name := "nas"; os := "linux"; architecture := "x86_64"; agent_version := "1";
     protocol := V1; capabilities := [] |}.

Definition other_remote : RemoteMachineSnapshot :=
  {| s_node := other_info; s_endpoint_id := "remote"; s_latest := Some two_full; s_state := Healthy;
     s_path := LanDirect; s_rtt_ms := Some 12; s_last_seen_ms := Some 900;
     s_trend := [trend_of_sample two_full]; s_details := [] |}.

Definition other_ctx : LocalContext (J := MetricSample) :=
  let f := lc_fleet shown_ctx in
  with_fleet {| f_registry := f_registry f; f_snapshots := [("remote", other_remote)];
                f_monitors := f_monitors f; f_monitors_poisoned := f_monitors_poisoned f;
                f_spawned := f_spawned f; f_running := f_running f |} shown_ctx.

Definition demo_run := run (fun s => s) never never demo_parse (fun _ => None) (fun _ => Err "too large")
  (fun s => s) (Some "/home/u/.config/rackio").

Definition demo_daemon := daemon unary_text (Cert := Z) never never no_fault never parse_unary Some
  (fun _ => Some [1]) Some (fun _ => true) (fun _ => "") (fun _ => Ok tt) demo_env other_ctx.

Lemma chosen_icon_reaches_menu_bar_witness :
  exists d' i t,
    demo_run [Invoke demo_world (SetTrayIcon "11111" (Some " R ")); Poll demo_daemon true; Drawing Tray.all_work]
      (Running demo_desktop) = Running d' /\
    Tray.trays (d_tray d') !! i = Some t /\ Tray.t_title t = "R " +:+ Tray.tray_state_symbol "healthy".
Proof.
  destruct (local_status demo_env other_ctx) as [p|e] eqn:E;
    unfold local_status in E; cbn [other_ctx shown_ctx demo_ctx with_fleet with_runtime lc_disk] in E;
    rewrite demo_config_loads in E; cbn [result_bind] in E; [|discriminate E].
  assert (Hn : st_node p = demo_info) by (by injection E as <-).
  assert (Hl : st_latest p = Some two_full) by (by injection E as <-).
  destruct (chosen_icon_reaches_menu_bar (fun s => s) never never demo_parse (fun _ => None)
    (fun _ => Err "too large") (fun s => s) (Some "/home/u/.config/rackio")
    unary_text (Cert := Z) never never no_fault never parse_unary Some (fun _ => Some [1]) Some (fun _ => true)
    (fun _ => "") (fun _ => Ok tt) [] demo_build demo_disk demo_desktop demo_world "11111" " R " demo_env other_ctx
    p Tray.all_work 1 (Tray.remote_node unary_text (fun s => s)
      (fst (Badges.set never "11111" (Some " R ") (d_badges demo_desktop))) other_remote))
    as (d' & glyph & i & t & H1 & H2 & _ & H3 & H4 & _).
  - reflexivity.
  - vm_compute. reflexivity.
  - unfold local_status. cbn [other_ctx shown_ctx demo_ctx with_fleet with_runtime lc_disk].
    rewrite demo_config_loads. exact E.
  - intros s. rewrite Hl. intros [= <-]. exact Tray.two_full_readable.
  - constructor; [|constructor]. split; [split; [|split]|].
    + intros s [= <-]. exact two_full_wf.
    + intros z [= <-]. split; by vm_compute.
    + intros z [= <-]. split; by vm_compute.
    + intros s [= <-]. exact Tray.two_full_readable.
  - unfold machines, Tray.local_node, Tray.node_of_machine. cbn [map Tray.id]. rewrite Hn.
    apply list.NoDup_cons. split; [|repeat constructor; by intros ?%not_elem_of_nil].
    intros Hin%list_elem_of_In. vm_compute in Hin. by destruct Hin.
  - intros i. by repeat split.
  - reflexivity.
  - reflexivity.
  - exists d', i, t. split; [exact H1|]. split; [exact H3|]. rewrite H4.
    vm_compute in H2. injection H2 as <-. reflexivity.
Defined.

(** ** A closed dashboard *)

(** Nothing opens the window again once it is closed: the menu, a second launch and every command leave a
    running process without one. *)
Lemma closed_dashboard_stays_closed {GR : Graphemes} to_uppercase {IJ : JsonCodec Badges.Icons anything}
    badges_fault {PJ : JsonCodec Preferences.Preferences anything} pref_fault {B64 : Base64} parse_value parse_text
    qr_svg standard_base64 config_dir e d d' :
  (forall ops next, e <> UpdateTick ops next) -> d_window d = None ->
  step to_uppercase badges_fault pref_fault parse_value parse_text qr_svg standard_base64 config_dir e (Running d) =
    Running d' -> d_window d' = None.
Proof.
  intros Hu Hw. destruct e; cbn [step].
  - intros [= <-]. destruct c; cbn [invoke]; try done.
    all: match goal with |- context [match ?m with (_, _) => _ end] => by destruct m end.
  - intros [= <-]. unfold poll. by destruct dispatched.
  - intros [= <-]. unfold draw_next. by destruct (d_queue d).
  - unfold tray_event_handler. destruct (String.eqb id "show").
    + intros [= <-]. cbn. by rewrite Hw.
    + destruct (String.eqb id "quit"); [done|]. by intros [= <-].
  - by intros [= <-].
  - by destruct (Hu ops next).
  - done.
  - intros [= <-]. unfold second_launch. destruct (register _ _); [|done]. cbn. by rewrite Hw.
Qed.

End Desktop.
